(* ===== verification/_CoqProject ===== *)
-Q . S2P
Prelude.v
Schema.v
Text.v
Calendar.v
SuperChunk.v
ChunkWriter.v
ChunkReader.v
ChunkFormat.v
ChunkWrites.v
ChunkRoundTrip.v
ApiRoundTrip.v
TsvWriter.v
SimpleQueue.v
BatchQueue.v
BatchWakeups.v
Utils.v
Memory.v
Explain.v
Sql.v
AvroWriter.v
AvroEncoder.v
TableReader.v
ChunkMemory.v
Connection.v
RowMemory.v
Client.v
LoadData.v
ChunkQueue.v
Delivery.v
BatchDelivery.v
ReadTable.v
ParallelRead.v
ReadByKey.v
QueryRead.v
Teardown.v
