(* ===== verification/Prelude.v ===== *)
(** * The SAS client library for SingleStore: a verification library

    The library under [src/] lets a SAS controller and its workers read the
    result of a query from a SingleStore database in parallel, and load data
    into it.  A worker owns an [S2Client] (one connection).  A read makes a
    [ChunkQueue] from it: one [ResultTableReader] for each partition of the
    worker, with a connection and a thread of its own, fills chunks of rows and
    pushes them to the thread-safe queue of the consumer that its partition
    belongs to; the consumers take the chunks out and read their values with a
    [SuperChunkReader].  Loading goes the other way: a chunk becomes text (or
    the caller gives AVRO records) that LOAD DATA LOCAL fetches piece by piece.

    ** The files

    Definitions keep the names of the source; each file's theorems follow its
    definitions.

    - [Prelude]: outcomes of C++ code ([Done], [Throw], [AssertFail], [Undef])
      as a monad, wrap-around at 32 and 64 bits, lists, tactics, hints.
      [Build] says whether [assert] is compiled in.
    - [Schema]: [chunk_extern.h], [s2_client_error.hpp].  [Text]: decimal
      numbers, [std::quoted], [atoi], [sscanf], [stoi].
    - [Calendar]: the date and time conversions of [hdat/common.hpp] over an
      executable civil calendar.
    - [SuperChunk], [ChunkWriter], [ChunkReader]: [hdat/super_chunk.hpp],
      [hdat/chunk_writer.*], [hdat/chunk_reader.*].  [ChunkFormat] specifies the
      layout of a chunk and every write, [ChunkRoundTrip] the reads,
      [ChunkWrites] any sequence of the exported writes, and [ApiRoundTrip] the
      exported functions of both as SAS calls them.
    - [TsvWriter], [AvroWriter]: [tsv_table_writer.*], the callbacks of
      [avro_table_writer.*]; [AvroEncoder]: its exported encoders over the
      interface [AvroEncoding] of libavro, and the protocol of their caller.
    - [SimpleQueue], [BatchQueue]: the two queues of [queue/], as step relations
      of critical sections; [BatchWakeups]: the condition variables of the second.
    - [Utils], [Explain], [Sql]: the namespaces [utils] and [sql] of
      [utils.cpp], [Explain] being the parser of EXPLAIN texts.
    - [TableReader]: [result_table_reader.*] and [S2Connection::NextChunk] over
      the interface [RowSource].  [Connection]: [s2_connection.*] over the
      interface [MysqlClient] of the client library; it implements [RowSource].
    - [Memory]: a heap of blocks made by [malloc], [new] and [new[]], and the
      functions that free schemas and chunks on it.  [RowMemory] has the row
      that a connection has fetched as the code keeps it there, [ChunkMemory]
      the chunks of a reading thread; the other files take a row and a chunk as
      values.
    - [Client]: [s2_client.*].  [LoadData]: the two ways to load data as a whole,
      over the interface [LoadServer].  [ChunkQueue]: [queue/chunk_queue.hpp],
      [queue/streaming_queue.*], [queue/multi_pass_queue.*] over the interface
      [ThreadSafeQueue], which both queues implement.  [Delivery] and
      [BatchDelivery]: the readers and the consumer of a queue, or its
      destructor, running together.  [ReadTable]: the workers of a whole
      parallel read.  [ParallelRead]: [parallel_read.cpp].  [ReadByKey]: the
      reads of rows by number and by key as a whole.  [QueryRead]: a parallel
      read from [ParallelReadInit] to the consumers of all workers.
      [Teardown]: the destructors of the queues.

    ** What the theorems show

    - Chunks: what is written is what is read, for every schema and every row
      ([ChunkRoundTrip.write_read_rows]); a row that does not fit changes
      nothing ([ChunkFormat.WriteRow_spec]); every sequence of exported writes
      refines a pair of texts that grow towards each other
      ([ChunkWrites.writes_refine_sections]); a caller of the exported functions
      completes the rows that fit and reads them back
      ([ApiRoundTrip.api_round_trip]).
    - Readers: a reader pushes all rows of its query, once and in order, or
      records why it did not ([TableReader.Read_delivers_rows]), and keeps the
      protocol that its queue asks of a producer whatever happens
      ([TableReader.Read_protocol]).
    - Queues: first in first out, no lost wake-up (with the one exception that
      [BatchWakeups.batch_no_lost_wakeup] names), a multi-pass queue gives exactly
      the chunk asked for and keeps its batches apart ([SimpleQueue], [BatchQueue]).
    - A parallel read: the queues are wired to the readers that push to them
      ([ChunkQueue.CreateStreamingQueue_matched],
      [ChunkQueue.CreateMultiPassQueue_matched]), so that every consumer gets
      the data of all its readers and comes to an end
      ([Delivery.streaming_delivers], [BatchDelivery.multi_pass_delivers], the
      latter with the destruction of the queue at any point); the table made at the start is the one
      removed at the end ([ParallelRead.init_free_tables]); freeing a queue
      frees what is left in it ([Teardown.ChunkQueueFree_frees]).
    - The whole of it: the controller starts the read of a query, and all
      workers together, each with its consumers and its reading threads in any
      interleaving, get the result of the query, every row exactly once,
      distributed and ordered as asked ([QueryRead.streaming_query_result],
      [QueryRead.multi_pass_query_result], from the reads of a given table in
      [ReadTable]).
    - Reads by key: the caller gets exactly the row, or the rows in the order of
      their keys, that the header promises, or an error
      ([ReadByKey.row_by_key], [ReadByKey.rows_by_keys]).
    - Loading, from the values that the caller writes to the rows of the table:
      what fits the chunk or the AVRO memory is loaded, all of it, once and in
      order ([LoadData.chunk_loaded], [LoadData.avro_loaded]).
    - Memory: the hand-made memory of a fetched row implements the row as a
      value, stays within its blocks and is freed exactly once, unless an
      allocation fails at the one place that the theorem names
      ([RowMemory.fetched_row_refines]); a
      reading thread loses no chunk but the one it fills when a call throws
      ([ChunkMemory.Read_loop_memory]); what the library hands out is freed as a
      whole and once ([Memory.api_objects_freed]).
    - Errors: which calls tell the caller of which error
      ([ParallelRead.queue_or_error], [ChunkQueue.Get_reader_errors],
      [ChunkQueue.with_consumer_spec], [Client.client_errors]).
    - Texts: a recogniser reads the generated statements back to the names they
      were made of ([Sql]); the schema in an EXPLAIN text is found again
      ([Explain.ExplainToRowSchema_columns]), and the parser ends on every such
      list and on none whose last name is left open ([Explain.explain_loops]);
      a TSV text is read back to the
      values of the chunk ([TsvWriter.ChunkToTSV_read_tsv]); dates and times
      convert there and back ([Calendar]).
    - Rows: the statement protocol delivers the server's rows
      ([Connection.Prepare_gives_rows]); the choice of the kind of a read
      ([Connection.GetParallelReadType_spec]).

    ** Conventions

    - Integers are [Z] with their wrap-around written out ([u32], [u64], [s32],
      [s64]); signed overflow is [Undef].  A pointer that may be NULL is an
      [option].  Memory is a list of characters.
    - Fuel bounds loops that read from outside ([NextChunk_loop], [Read_loop],
      [drain], [FreeBatchData_loop]); the theorems say how much is enough (one
      round more than there are rows or chunks).  The parser's loops get
      [parse_fuel], and [Explain.parse_fuel_exact] shows that a loop which needs
      more never ends.
    - A [Variable] of a section stands for code outside of [src/]: [malloc],
      [new_fails] (whether [new] finds no memory), [scan_double] ([%lf] of
      [sscanf]), [json_dumps] (jansson), [uninit] and [junk] (the contents of
      memory that is not written), the instances of [MysqlClient].  Laws of the
      client library and the server are the classes [StatementLaws],
      [BufferLaws], [TableServer], [DatabaseServer] and [LoadServer], those of
      libavro [AvroLaws]; lists of rows, sets and maps of tables and a writer of
      fixed width are their instances.
    - The connection that a throwing call leaves is not kept; where the code
      goes on with it, it is [after_throw c], about which nothing is assumed.
    - The effects of a reading thread on its queue are the list of its calls; a
      call under the mutex is one step, and one that waits is not enabled.

    ** Not modelled

    - [ReaderFree] and [WriterFree]: each deletes an object whose members free
      themselves.
    - Raw memory outside of a fetched row, a schema and a chunk: the temporary
      arrays of the EXPLAIN parser, of [ExplainRowSchema] and of the functions
      that read by key are values; what leaks when an exception passes a raw
      pointer is stated for the reading thread only.
    - Threads, mutexes and condition variables are the step relations of the
      queue files: critical sections follow one another, and what is read
      outside of them ([m_active], [m_stop_reading]) is atomic in the source.
    - The exported headers (prototypes), the vendored libraries and the tests. *)

From Stdlib Require Import Ascii String.
From stdpp Require Import base list strings numbers gmap tactics.
From stdpp Require Import options.

#[global] Open Scope Z_scope.

(** ** Notation scope of the development *)
Declare Scope s2_scope.
Delimit Scope s2_scope with s2.

(** Raw memory: a C [char] is an 8-bit code, Rocq's [ascii]. *)
Abbreviation bytes := (list ascii).

(** ** Outcomes of C++ code

    [Done a]: the call returns [a].  [Throw e]: it throws [e].
    [AssertFail]: an [assert] of a debug build fails.
    [Undef]: the C++ standard gives the execution no meaning (a read or a
    write outside an object, the read of an indeterminate value, ...). *)
Inductive outcome (E A : Type) : Type :=
  | Done (a : A)
  | Throw (e : E)
  | AssertFail (what : string)
  | Undef (what : string).
Arguments Done {E A} a.
Arguments Throw {E A} e.
Arguments AssertFail {E A} what.
Arguments Undef {E A} what.

#[export] Instance outcome_ret {E} : MRet (outcome E) := fun A a => Done a.
#[export] Instance outcome_bind {E} : MBind (outcome E) := fun A B f m =>
  match m with
  | Done a => f a
  | Throw e => Throw e
  | AssertFail w => AssertFail w
  | Undef w => Undef w
  end.

Section outcome.
Context {E A B : Type}.
Implicit Types (m : outcome E A) (f : A -> outcome E B).

Lemma bind_Done m f b :
  m ≫= f = Done b <-> exists a, m = Done a /\ f a = Done b.
Proof. destruct m; cbn; naive_solver. Qed.

Lemma Done_bind f a : Done a ≫= f = f a.
Proof. done. Qed.

Lemma Throw_bind f e : Throw e ≫= f = Throw e.
Proof. done. Qed.

Lemma bind_Done_intro m f a : m = Done a -> m ≫= f = f a.
Proof. by intros ->. Qed.

Lemma bind_Throw m f e :
  m ≫= f = Throw e <->
  m = Throw e \/ exists a, m = Done a /\ f a = Throw e.
Proof. destruct m; cbn; naive_solver. Qed.
End outcome.

(** [is_done m]: [m] returns normally. *)
Definition is_done {E A} (m : outcome E A) : bool :=
  match m with Done _ => true | _ => false end.

(** How [m] ends, without the value it returns: two calls that fail alike have
    the same [void]. *)
Definition void {E A} (m : outcome E A) : outcome E unit := _ ← m; Done tt.

Lemma void_bind {E A B} (m : outcome E A) (f : A -> outcome E B) :
  is_done m = false -> void (m ≫= f) = void m.
Proof. by destruct m. Qed.

Lemma is_done_bind {E A B} (m : outcome E A) (f : A -> outcome E B) :
  is_done m = false -> is_done (m ≫= f) = false.
Proof. by destruct m. Qed.

(** Which build is modelled: with [NDEBUG] (the release builds) [assert] does
    nothing, otherwise a false condition stops the program.  The conversion of
    a negative [double] to an unsigned type has no meaning in C++;
    [neg_to_unsigned_wraps] says that the target nevertheless wraps it modulo
    the type's range, as gcc's code for x86-64 does in the [int64_t] range. *)
Class Build := { ndebug : bool; neg_to_unsigned_wraps : bool }.

Definition release_build : Build := {| ndebug := true; neg_to_unsigned_wraps := true |}.
Definition debug_build : Build := {| ndebug := false; neg_to_unsigned_wraps := true |}.

Definition c_assert `{Build} {E} (b : bool) (what : string) : outcome E unit :=
  if b || ndebug then Done tt else AssertFail what.

Lemma c_assert_true `{Build} {E} b what :
  b = true -> c_assert (E := E) b what = Done tt.
Proof. by intros ->. Qed.

(** Inversion of a chain of binds that returned normally. *)
Ltac inv_done :=
  repeat match goal with
  | H : _ ≫= _ = Done _ |- _ =>
      apply bind_Done in H;
      let a := fresh "a" in let H1 := fresh "Hm" in
      destruct H as (a & H1 & H)
  | H : Done _ = Done _ |- _ => injection H as H
  | H : mret _ = Done _ |- _ => injection H as H
  | H : Throw _ = Done _ |- _ => discriminate H
  | H : AssertFail _ = Done _ |- _ => discriminate H
  | H : Undef _ = Done _ |- _ => discriminate H
  | H : (let '(_, _) := ?p in _) = Done _ |- _ => destruct p
  | a : unit |- _ => destruct a
  end; simplify_eq/=.

(** Linear arithmetic with divisions and remainders by constants. *)
Ltac dlia := Z.to_euclidean_division_equations; lia.

(** ** Machine integers: a w-bit integer is a [Z], wrap-around written out *)
Definition wrap_u (w z : Z) : Z := z mod 2 ^ w.
Definition wrap_s (w z : Z) : Z := (z + 2 ^ (w - 1)) mod 2 ^ w - 2 ^ (w - 1).

Abbreviation u64 := (wrap_u 64).
Abbreviation u32 := (wrap_u 32).
Abbreviation s64 := (wrap_s 64).
Abbreviation s32 := (wrap_s 32).

Section words.
Context (w : Z) (Hw : 0 < w).

Lemma pow_pred : 2 ^ w = 2 * 2 ^ (w - 1).
Proof using Hw. rewrite <- Z.pow_succ_r by lia. f_equal; lia. Qed.

Lemma wrap_u_range z : 0 <= wrap_u w z < 2 ^ w.
Proof using Hw. apply Z.mod_pos_bound. lia. Qed.

Lemma wrap_s_range z : - 2 ^ (w - 1) <= wrap_s w z < 2 ^ (w - 1).
Proof using Hw.
  unfold wrap_s. pose proof pow_pred.
  pose proof (Z.mod_pos_bound (z + 2 ^ (w - 1)) (2 ^ w)). lia.
Qed.

Lemma wrap_u_small z : 0 <= z < 2 ^ w -> wrap_u w z = z.
Proof using Type. apply Z.mod_small. Qed.

Lemma wrap_s_small z : - 2 ^ (w - 1) <= z < 2 ^ (w - 1) -> wrap_s w z = z.
Proof using Hw.
  intros. unfold wrap_s. pose proof pow_pred.
  rewrite Z.mod_small; lia.
Qed.

Lemma wrap_u_idemp z : wrap_u w (wrap_u w z) = wrap_u w z.
Proof using Hw. apply Z.mod_mod. lia. Qed.

Lemma wrap_u_add_l x y : wrap_u w (wrap_u w x + y) = wrap_u w (x + y).
Proof using Hw. apply Zplus_mod_idemp_l. Qed.

Lemma wrap_u_add_r x y : wrap_u w (x + wrap_u w y) = wrap_u w (x + y).
Proof using Hw. apply Zplus_mod_idemp_r. Qed.

Lemma wrap_u_mul_l x y : wrap_u w (wrap_u w x * y) = wrap_u w (x * y).
Proof using Hw. apply Zmult_mod_idemp_l. Qed.

Lemma wrap_s_idemp z : wrap_s w (wrap_s w z) = wrap_s w z.
Proof using Hw. apply wrap_s_small. apply wrap_s_range. Qed.

Lemma wrap_s_of_u z : wrap_s w (wrap_u w z) = wrap_s w z.
Proof using Hw.
  unfold wrap_s, wrap_u. by rewrite Zplus_mod_idemp_l.
Qed.

Lemma wrap_u_of_s z : wrap_u w (wrap_s w z) = wrap_u w z.
Proof using Hw.
  unfold wrap_s, wrap_u. rewrite Zminus_mod_idemp_l. f_equal; lia.
Qed.
End words.

(** ** Bytes and little-endian integers *)
Definition byte_of_Z (z : Z) : ascii := ascii_of_N (Z.to_N (z mod 256)).
Definition Z_of_byte (c : ascii) : Z := Z.of_N (N_of_ascii c).

Lemma Z_of_byte_range c : 0 <= Z_of_byte c < 256.
Proof. unfold Z_of_byte. pose proof (N_ascii_bounded c). lia. Qed.

Lemma Z_of_byte_of_Z z : Z_of_byte (byte_of_Z z) = z mod 256.
Proof.
  unfold Z_of_byte, byte_of_Z. pose proof (Z.mod_pos_bound z 256).
  rewrite N_ascii_embedding by lia. lia.
Qed.

Lemma byte_of_Z_of_byte c : byte_of_Z (Z_of_byte c) = c.
Proof.
  unfold byte_of_Z. rewrite Z.mod_small by apply Z_of_byte_range.
  unfold Z_of_byte. by rewrite N2Z.id, ascii_N_embedding.
Qed.

Fixpoint le_encode (n : nat) (z : Z) : bytes :=
  match n with
  | O => []
  | S n => byte_of_Z z :: le_encode n (z / 256)
  end.

Fixpoint le_decode (l : bytes) : Z :=
  match l with
  | [] => 0
  | c :: l => Z_of_byte c + 256 * le_decode l
  end.

Lemma length_le_encode n z : length (le_encode n z) = n.
Proof. revert z. induction n; intros; cbn; auto. Qed.

Lemma le_decode_range l : 0 <= le_decode l < 256 ^ Z.of_nat (length l).
Proof.
  induction l as [|c l IH]; cbn [le_decode length]; [lia|].
  rewrite Nat2Z.inj_succ, Z.pow_succ_r by lia.
  pose proof (Z_of_byte_range c). lia.
Qed.

Lemma le_decode_encode n z :
  le_decode (le_encode n z) = z mod 256 ^ Z.of_nat n.
Proof.
  revert z. induction n as [|n IH]; intros z; cbn [le_decode le_encode].
  { by rewrite Z.mod_1_r. }
  rewrite IH, Z_of_byte_of_Z, Nat2Z.inj_succ, Z.pow_succ_r by lia.
  rewrite Z.rem_mul_r by lia. lia.
Qed.

Lemma le_encode_decode l : le_encode (length l) (le_decode l) = l.
Proof.
  induction l as [|c l IH]; cbn [le_decode le_encode length]; [done|].
  pose proof (Z_of_byte_range c) as Hc.
  assert ((Z_of_byte c + 256 * le_decode l) / 256 = le_decode l) as -> by dlia.
  rewrite IH. f_equal.
  rewrite <- (byte_of_Z_of_byte c) at 2. unfold byte_of_Z. do 2 f_equal. dlia.
Qed.

(** ** Segments of memory *)
Definition slice {A} (l : list A) (pos len : Z) : list A :=
  take (Z.to_nat len) (drop (Z.to_nat pos) l).

(** [splice l pos bs]: [l] with the [length bs] elements from [pos] on
    replaced by [bs] (memcpy into the middle of an object). *)
Definition splice {A} (l : list A) (pos : Z) (bs : list A) : list A :=
  take (Z.to_nat pos) l ++ bs ++ drop (Z.to_nat pos + length bs) l.

Section slices.
Context {A : Type}.
Implicit Types (l bs : list A) (pos len : Z).

Lemma length_slice l pos len :
  0 <= pos -> 0 <= len -> pos + len <= Z.of_nat (length l) ->
  Z.of_nat (length (slice l pos len)) = len.
Proof. intros. unfold slice. rewrite length_take, length_drop. lia. Qed.

Lemma length_splice l pos bs :
  0 <= pos -> pos + Z.of_nat (length bs) <= Z.of_nat (length l) ->
  length (splice l pos bs) = length l.
Proof.
  intros. unfold splice.
  rewrite !length_app, length_take, length_drop. lia.
Qed.

Lemma slice_splice_eq l pos bs len :
  0 <= pos -> pos + len <= Z.of_nat (length l) ->
  len = Z.of_nat (length bs) ->
  slice (splice l pos bs) pos len = bs.
Proof.
  intros ? ? ->. unfold slice, splice.
  rewrite drop_app_le by (rewrite length_take; lia).
  rewrite drop_ge by (rewrite length_take; lia). cbn.
  rewrite take_app_le by lia. by rewrite take_ge by lia.
Qed.

Lemma lookup_splice_ne l pos bs (i : nat) :
  0 <= pos -> pos + Z.of_nat (length bs) <= Z.of_nat (length l) ->
  (Z.of_nat i < pos \/ pos + Z.of_nat (length bs) <= Z.of_nat i) ->
  splice l pos bs !! i = l !! i.
Proof.
  intros Hpos Hlen Hi. unfold splice.
  destruct Hi as [Hi|Hi].
  - rewrite lookup_app_l by (rewrite length_take; lia).
    rewrite lookup_take. by rewrite decide_True by lia.
  - rewrite lookup_app_r by (rewrite length_take; lia).
    rewrite length_take, lookup_app_r by lia.
    rewrite lookup_drop. f_equal. lia.
Qed.

Lemma slice_ext l l' pos len :
  0 <= pos ->
  (forall i : nat, pos <= Z.of_nat i < pos + len -> l !! i = l' !! i) ->
  slice l pos len = slice l' pos len.
Proof.
  intros Hpos Hext. unfold slice. apply list_eq. intros i.
  rewrite !lookup_take, !lookup_drop.
  case_decide; [|done]. apply Hext. lia.
Qed.

Lemma slice_app l pos a b :
  0 <= pos -> 0 <= a -> 0 <= b ->
  slice l pos (a + b) = slice l pos a ++ slice l (pos + a) b.
Proof.
  intros. unfold slice.
  rewrite !Z2Nat.inj_add by lia. by rewrite <- take_take_drop, drop_drop.
Qed.

Lemma splice_nil l pos : splice l pos [] = l.
Proof. unfold splice. cbn. by rewrite Nat.add_0_r, take_drop. Qed.

Lemma slice_prefix l pos len len' :
  0 <= len' <= len -> take (Z.to_nat len') (slice l pos len) = slice l pos len'.
Proof. intros. unfold slice. rewrite take_take. f_equal. lia. Qed.
End slices.

(** [agree off tail l l']: the two memories have the same length and agree on
    the first [off] bytes and from index [tail] on. *)
Definition agree {A} (off tail : Z) (l l' : list A) : Prop :=
  length l' = length l
  /\ forall i : nat, Z.of_nat i < off \/ tail <= Z.of_nat i -> l' !! i = l !! i.

Section agreement.
Context {A : Type}.
Implicit Types (l : list A).

#[export] Instance agree_refl off tail : Reflexive (@agree A off tail).
Proof. by intros l. Qed.

#[export] Instance agree_trans off tail : Transitive (@agree A off tail).
Proof.
  intros l1 l2 l3 [E1 H1] [E2 H2]. split; [congruence|].
  intros i Hi. by rewrite H2, H1.
Qed.

Lemma agree_weaken off tail off' tail' l l' :
  agree off tail l l' -> off' <= off -> tail <= tail' -> agree off' tail' l l'.
Proof. intros [E H] ??. split; [done|]. intros i Hi. apply H. lia. Qed.

Lemma agree_splice off tail l pos bs :
  0 <= pos -> pos + Z.of_nat (length bs) <= Z.of_nat (length l) ->
  off <= pos -> pos + Z.of_nat (length bs) <= tail ->
  agree off tail l (splice l pos bs).
Proof.
  intros. split; [by apply length_splice|].
  intros i Hi. apply lookup_splice_ne; [done..|]. lia.
Qed.

Lemma agree_slice off tail l l' pos len :
  agree off tail l l' -> 0 <= pos -> pos + len <= off \/ tail <= pos ->
  slice l' pos len = slice l pos len.
Proof. intros [E H] ??. apply slice_ext; [done|]. intros. apply H. lia. Qed.
End agreement.

(** ** Counting *)
Fixpoint count {A} (f : A -> bool) (l : list A) : nat :=
  match l with [] => 0 | x :: l => (if f x then 1 else 0) + count f l end.

Section counting.
Context {A : Type}.
Implicit Types (f : A -> bool) (l : list A).

Lemma count_insert f l t s s' :
  l !! t = Some s ->
  (count f (<[t := s']> l) + (if f s then 1 else 0) =
   count f l + (if f s' then 1 else 0))%nat.
Proof using Type.
  revert t. induction l as [|x l IH]; intros [|t] Ht; try done.
  - injection Ht as ->. cbn. destruct (f s), (f s'); lia.
  - specialize (IH t Ht). change (<[S t := s']> (x :: l)) with (x :: <[t := s']> l).
    cbn [count]. lia.
Qed.

Lemma count_zero f l : Forall (fun s => f s = false) l <-> count f l = 0%nat.
Proof using Type.
  induction l as [|s l IH]; cbn; [done|]. rewrite Forall_cons_iff, IH.
  destruct (f s); naive_solver lia.
Qed.

Lemma count_exists f l :
  (1 <= count f l)%nat <-> exists t s, l !! t = Some s /\ f s = true.
Proof using Type.
  induction l as [|x l IH]; cbn.
  { split; [lia|]. intros (t & s & Ht & _). by rewrite lookup_nil in Ht. }
  destruct (f x) eqn:Hx.
  - split; [|lia]. intros _. by exists 0%nat, x.
  - cbn. rewrite IH. split; intros (t & s & Ht & Hs).
    + by exists (S t), s.
    + destruct t as [|t]; cbn in Ht; [congruence|]. eauto.
Qed.

Lemma count_replicate f n x : count f (replicate n x) = if f x then n else 0%nat.
Proof using Type.
  induction n as [|n IH]; cbn [replicate count]; [by destruct (f x)|].
  rewrite IH. by destruct (f x).
Qed.

Lemma count_map {B} (f : B -> bool) (g : A -> B) l :
  count f (map g l) = count (fun s => f (g s)) l.
Proof using Type. induction l; cbn; auto. Qed.

Lemma count_ext f g l : (forall s, f s = g s) -> count f l = count g l.
Proof using Type.
  intros H. induction l as [|s l IH]; cbn; [done|]. by rewrite H, IH.
Qed.
End counting.

(** [notify_one] on a condition variable; the list has the states of the
    threads: one of those that are asleep on it wakes up, if there is one. *)
Inductive notify_one {S} (asleep : S -> bool) (wake : S -> S) : list S -> list S -> Prop :=
  | notify_some l t s :
      l !! t = Some s -> asleep s = true -> notify_one asleep wake l (<[t := wake s]> l)
  | notify_none l :
      Forall (fun s => asleep s = false) l -> notify_one asleep wake l l.

Create HintDb s2.
#[export] Hint Resolve wrap_u_range wrap_s_range Z_of_byte_range : s2.
#[export] Hint Rewrite @length_le_encode @le_decode_encode : s2.
