(* ===== verification/Schema.v ===== *)
(** The data that crosses the API of the library: [chunk_extern.h] (column
    types, row schemas, chunks, NULL sentinels, error codes) and the exception
    class of [s2_client_error.hpp]. *)

From Stdlib Require Import Ascii String.
From stdpp Require Import base list strings numbers tactics.
From stdpp Require Import options.
From S2P Require Import Prelude.

(** ** Column types and row schemas ([Variable] is a keyword here) *)
Inductive ColumnType :=
  | Int64 | Int32 | Double | Variable_ | Fixed | Time | Date | DateTime
  | Unsupported.

#[export] Instance ColumnType_eq_dec : EqDecision ColumnType.
Proof. solve_decision. Defined.

(** The value of the enumerator, as [std::to_string] prints it. *)
Definition ColumnType_to_int (t : ColumnType) : Z :=
  match t with
  | Int64 => 0 | Int32 => 1 | Double => 2 | Variable_ => 3 | Fixed => 4
  | Time => 5 | Date => 6 | DateTime => 7 | Unsupported => 8
  end.

Record Column := mkColumn {
  col_type : ColumnType;
  col_size : Z;        (* int64_t *)
  col_name : string
}.

#[export] Instance Column_eq_dec : EqDecision Column.
Proof. solve_decision. Defined.

(** [ColumnInfo] is the array; [numColumns] is its length. *)
Record RowSchema := mkRowSchema { ColumnInfo : list Column }.

Definition numColumns (s : RowSchema) : nat := length (ColumnInfo s).

(** ** Chunks *)
Record Chunk := mkChunk {
  m_ptr : bytes;           (* the allocated buffer *)
  m_size : Z;              (* uint64_t *)
  row_count : Z;
  consumed_size : Z;
  variable_offset : Z;     (* of the variable section, measured from the end *)
  id : Z;
  partition_id : Z         (* uint32_t *)
}.

Definition set_m_ptr (p : bytes) (c : Chunk) : Chunk :=
  mkChunk p (m_size c) (row_count c) (consumed_size c) (variable_offset c)
    (id c) (partition_id c).
Definition set_row_count (n : Z) (c : Chunk) : Chunk :=
  mkChunk (m_ptr c) (m_size c) n (consumed_size c) (variable_offset c)
    (id c) (partition_id c).
Definition set_consumed_size (n : Z) (c : Chunk) : Chunk :=
  mkChunk (m_ptr c) (m_size c) (row_count c) n (variable_offset c)
    (id c) (partition_id c).
Definition set_variable_offset (n : Z) (c : Chunk) : Chunk :=
  mkChunk (m_ptr c) (m_size c) (row_count c) (consumed_size c) n
    (id c) (partition_id c).

(** A chunk whose buffer is as long as it says, as [malloc(m_size)] gives. *)
Record chunk_wf (c : Chunk) : Prop := {
  chunk_wf_len : Z.of_nat (length (m_ptr c)) = m_size c;
  chunk_wf_size : 0 <= m_size c < 2 ^ 62
}.

Inductive ParallelReadType :=
  | ReadTypeResultTable | ReadTypeOriginalTable | ReadTypeColumnStoreTable
  | ReadTypeUnknown.

#[export] Instance ParallelReadType_eq_dec : EqDecision ParallelReadType.
Proof. solve_decision. Defined.

(** ** NULL sentinels *)
Definition int64Null : Z := s64 0x8000000000000000.
Definition int32Null : Z := s32 0x80000000.
(** The bit pattern of [doubleNull] ([utils.cpp], a NaN given by its bytes). *)
Definition doubleNull : Z :=
  le_decode (byte_of_Z <$> [0; 0; 0; 0; 0; 0xfe; 0xff; 0xff]).

(** ** Error codes and exceptions *)
Definition S2C_ERROR_INV_ARG : Z := 1.
Definition S2C_ERROR_UNS_DATA_TYPE : Z := 2.
Definition S2C_ERROR_UNKNOWN_FAILURE : Z := 3.
Definition S2C_ERROR_MEMORY_ALLOCATION : Z := 4.
Definition S2C_ERROR_READER_FAILED : Z := 5.
Definition S2C_ERROR_BAD_CONNECTION : Z := 6.
Definition S2C_IO_ERROR : Z := 7.
Definition S2C_ERROR_BAD_CHUNK : Z := 8.

Definition S2C_SEVERITY_ERROR : Z := 0.
Definition S2C_SEVERITY_WARNING : Z := 1.

Record S2ClientError := mkS2ClientError {
  m_errorCode : Z;         (* uint32_t *)
  m_errorMessage : string
}.

#[export] Instance S2ClientError_eq_dec : EqDecision S2ClientError.
Proof. solve_decision. Defined.

Definition no_error : S2ClientError := mkS2ClientError 0 EmptyString.

(** What the library throws: its own exception, and the exceptions of the
    standard library that it throws or catches by name. *)
Inductive exn :=
  | S2Exn (err : S2ClientError)
  | InvalidArgument (what : string)    (* std::invalid_argument *)
  | OutOfRange (what : string)         (* std::out_of_range *)
  | BadAlloc.                          (* std::bad_alloc *)

#[export] Instance exn_eq_dec : EqDecision exn.
Proof. solve_decision. Defined.

Definition s2_throw {A} (code : Z) (msg : string) : outcome exn A :=
  Throw (S2Exn (mkS2ClientError code msg)).

Lemma int64Null_val : int64Null = - 2 ^ 63.
Proof. reflexivity. Qed.
Lemma int32Null_val : int32Null = - 2 ^ 31.
Proof. reflexivity. Qed.
