(* ===== verification/Text.v ===== *)
(** Text as the C++ standard library makes and reads it: decimal integers
    ([std::to_string], the integer conversions of [sscanf], [atoi] and [stoi]),
    [std::quoted], stream padding, [tolower], with the reading functions that
    invert the writing ones. *)

From Stdlib Require Import Ascii String.
From stdpp Require Import base list strings numbers tactics.
From stdpp Require Import options.
From S2P Require Import Prelude.

(** ** Decimal integers *)
Definition digit (d : Z) : ascii := byte_of_Z (48 + d).
Definition is_digit (c : ascii) : bool :=
  (48 <=? Z_of_byte c) && (Z_of_byte c <=? 57).
Definition digit_val (c : ascii) : Z := Z_of_byte c - 48.

(** The digits of [n >= 0], put in front of [acc]; [fuel] bounds their number. *)
Fixpoint dec_digits (fuel : nat) (n : Z) (acc : string) : string :=
  match fuel with
  | O => acc
  | S fuel =>
      let acc := String (digit (n mod 10)) acc in
      if n <? 10 then acc else dec_digits fuel (n / 10) acc
  end.

Definition dec_fuel (n : Z) : nat := S (Z.to_nat (Z.log2 n)).

Definition nat_dec (n : Z) (acc : string) : string :=
  dec_digits (dec_fuel n) n acc.

(** [std::to_string] of an integer, also [<<] of one. *)
Definition to_string (z : Z) : string :=
  if z <? 0 then String "-"%char (nat_dec (- z) EmptyString)
  else nat_dec z EmptyString.

(** Digits read as far as they go: (the number, the rest). *)
Fixpoint read_digits (s : string) (acc : Z) : Z * string :=
  match s with
  | String c s' =>
      if is_digit c then read_digits s' (10 * acc + digit_val c) else (acc, s)
  | EmptyString => (acc, s)
  end.

Definition starts_with_digit (s : string) : bool :=
  match s with String c _ => is_digit c | EmptyString => false end.

Fixpoint skip_space (s : string) : string :=
  match s with
  | String c s' => if Ascii.is_space c then skip_space s' else s
  | EmptyString => s
  end.

(** One [%d] conversion: blanks, an optional sign, at least one digit. *)
Definition read_int (s : string) : option (Z * string) :=
  let s := skip_space s in
  let '(neg, t) :=
    match s with
    | String c t =>
        if decide (c = "-"%char) then (true, t)
        else if decide (c = "+"%char) then (false, t) else (false, s)
    | EmptyString => (false, s)
    end in
  if starts_with_digit t then
    let '(n, rest) := read_digits t 0 in
    Some ((if neg : bool then - n else n), rest)
  else None.

Lemma is_digit_digit d : 0 <= d < 10 -> is_digit (digit d) = true.
Proof.
  intros. unfold is_digit, digit. rewrite Z_of_byte_of_Z, Z.mod_small by lia.
  lia.
Qed.

Lemma digit_val_digit d : 0 <= d < 10 -> digit_val (digit d) = d.
Proof.
  intros. unfold digit_val, digit.
  rewrite Z_of_byte_of_Z, Z.mod_small by lia. lia.
Qed.

Lemma read_digits_cons d s a :
  0 <= d < 10 -> read_digits (String (digit d) s) a = read_digits s (10 * a + d).
Proof. intros. cbn. by rewrite is_digit_digit, digit_val_digit by lia. Qed.

Lemma dec_fuel_pos n : (1 <= dec_fuel n)%nat.
Proof. unfold dec_fuel. lia. Qed.

Lemma dec_fuel_div n : 10 <= n -> (dec_fuel (n / 10) < dec_fuel n)%nat.
Proof.
  intros Hn. unfold dec_fuel.
  assert (Z.log2 (n / 10) < Z.log2 n); [|pose proof (Z.log2_nonneg (n / 10)); lia].
  assert (2 * (n / 10) <= n) as Hle by dlia.
  apply Z.log2_le_mono in Hle. rewrite Z.log2_double in Hle by dlia. lia.
Qed.

Lemma read_digits_dec fuel n s :
  0 <= n -> (dec_fuel n <= fuel)%nat ->
  read_digits (dec_digits fuel n s) 0 = read_digits s n.
Proof.
  revert n s. induction fuel as [|fuel IH]; intros n s Hn Hf.
  { pose proof (dec_fuel_pos n). lia. }
  cbn [dec_digits]. destruct (Z.ltb_spec n 10).
  - rewrite read_digits_cons by dlia. f_equal. dlia.
  - pose proof (dec_fuel_div n). rewrite IH by (lia || dlia).
    rewrite read_digits_cons by dlia. f_equal. dlia.
Qed.

Lemma dec_digits_head fuel n s :
  (1 <= fuel)%nat -> 0 <= n ->
  exists c t, dec_digits fuel n s = String c t /\ is_digit c = true.
Proof.
  revert n s. induction fuel as [|fuel IH]; intros n s Hf Hn; [lia|].
  cbn [dec_digits]. destruct (Z.ltb_spec n 10).
  - do 2 eexists; split; [done|]. apply is_digit_digit. dlia.
  - destruct fuel as [|fuel].
    { do 2 eexists; split; [done|]. apply is_digit_digit. dlia. }
    apply IH; [lia|dlia].
Qed.

Lemma read_digits_stop s a :
  starts_with_digit s = false -> read_digits s a = (a, s).
Proof. destruct s as [|c s]; cbn; [done|]. by intros ->. Qed.

(** The characters that are no digit, no sign and no blank stop a number; the
    ones used as separators below do. *)
Lemma digit_not_space c : is_digit c = true -> Ascii.is_space c = false.
Proof. by destruct c as [[] [] [] [] [] [] [] []]. Qed.

Lemma digit_not_sign c :
  is_digit c = true -> c <> "-"%char /\ c <> "+"%char.
Proof. destruct c as [[] [] [] [] [] [] [] []]; cbn; done. Qed.

Lemma app_cons_s c (s t : string) : String c s +:+ t = String c (s +:+ t).
Proof. reflexivity. Qed.

Lemma app_nil_l_s (s : string) : EmptyString +:+ s = s.
Proof. reflexivity. Qed.

Lemma dec_digits_app fuel n s t :
  dec_digits fuel n s +:+ t = dec_digits fuel n (s +:+ t).
Proof.
  revert n s. induction fuel as [|fuel IH]; intros n s; cbn [dec_digits]; [done|].
  case_match; [done|]. by rewrite IH.
Qed.

Lemma read_int_nat_dec n rest :
  0 <= n -> starts_with_digit rest = false ->
  read_int (nat_dec n rest) = Some (n, rest).
Proof.
  intros Hn Hrest. unfold nat_dec.
  destruct (dec_digits_head (dec_fuel n) n rest) as (c & t & E & Hc);
    [apply dec_fuel_pos|done|].
  unfold read_int. rewrite E. cbn [skip_space].
  rewrite digit_not_space by done. destruct (digit_not_sign c Hc).
  rewrite !decide_False by done.
  cbn beta iota delta [starts_with_digit]. rewrite Hc, <- E.
  by rewrite read_digits_dec, read_digits_stop.
Qed.

(** Reading back what [to_string] printed gives the number. *)
Lemma read_int_to_string z rest :
  starts_with_digit rest = false ->
  read_int (to_string z +:+ rest) = Some (z, rest).
Proof.
  intros Hrest. unfold to_string. case_match.
  - unfold nat_dec. rewrite app_cons_s.
    rewrite dec_digits_app. rewrite app_nil_l_s.
    unfold read_int. cbn -[dec_digits dec_fuel starts_with_digit read_digits].
    destruct (dec_digits_head (dec_fuel (- z)) (- z) rest) as (c & t & E & Hc);
      [apply dec_fuel_pos|lia|].
    rewrite decide_True by done. rewrite E. cbn beta iota delta [starts_with_digit]. rewrite Hc, <- E.
    rewrite read_digits_dec, read_digits_stop by (lia || done).
    do 2 f_equal. lia.
  - unfold nat_dec. rewrite dec_digits_app. apply read_int_nat_dec; [lia|done].
Qed.

Lemma app_nil_r_s (s : string) : s +:+ EmptyString = s.
Proof. induction s as [|c s IH]; [done|]. by rewrite ?app_cons_s, IH. Qed.

Lemma app_assoc_s (s t u : string) : (s +:+ t) +:+ u = s +:+ (t +:+ u).
Proof. induction s as [|c s IH]; [done|]. by rewrite ?app_cons_s, IH. Qed.

#[export] Instance to_string_inj : Inj (=) (=) to_string.
Proof.
  intros x y E.
  pose proof (read_int_to_string x EmptyString eq_refl) as Hx.
  pose proof (read_int_to_string y EmptyString eq_refl) as Hy.
  rewrite app_nil_r_s in Hx, Hy. congruence.
Qed.

(** ** Padding: [std::setw] with [std::setfill], and the [%0Nd] conversions *)
Fixpoint repeat_char (n : nat) (c : ascii) : string :=
  match n with O => EmptyString | S n => String c (repeat_char n c) end.

Definition pad_left (w : nat) (c : ascii) (s : string) : string :=
  repeat_char (w - String.length s) c +:+ s.

Lemma length_app_s s t :
  String.length (s +:+ t) = (String.length s + String.length t)%nat.
Proof.
  induction s as [|c s IH]; [done|]. rewrite app_cons_s. cbn. by rewrite IH.
Qed.

Lemma length_repeat_char n c : String.length (repeat_char n c) = n.
Proof. induction n; cbn; auto. Qed.

Lemma length_pad_left w c s :
  String.length (pad_left w c s) = Nat.max w (String.length s).
Proof. unfold pad_left. rewrite length_app_s, length_repeat_char. lia. Qed.

Lemma length_dec_digits fuel n k acc :
  0 <= n < 10 ^ Z.of_nat k -> (1 <= k)%nat ->
  (String.length (dec_digits fuel n acc) <= k + String.length acc)%nat.
Proof.
  revert n k acc. induction fuel as [|fuel IH]; intros n k acc Hn Hk; cbn; [lia|].
  case_match; cbn; [lia|].
  destruct k as [|[|k]]; [lia|cbn in Hn; lia|].
  specialize (IH (n / 10) (S k) (String (digit (n mod 10)) acc)).
  rewrite (Nat2Z.inj_succ (S k)), Z.pow_succ_r in Hn by lia.
  cbn [String.length] in IH. etransitivity; [apply IH|]; [dlia|lia|lia].
Qed.

(** A number of at most [k] digits is printed with at most [k] characters. *)
Lemma length_to_string n k :
  0 <= n < 10 ^ Z.of_nat k -> (1 <= k)%nat ->
  (String.length (to_string n) <= k)%nat.
Proof.
  intros Hn Hk. unfold to_string.
  destruct (Z.ltb_spec n 0); [lia|]. unfold nat_dec.
  pose proof (length_dec_digits (dec_fuel n) n k EmptyString Hn Hk). cbn in *. lia.
Qed.

(** ** [std::quoted (s, delim, escape)] *)
Fixpoint quoted_body (d e : ascii) (s : string) (rest : string) : string :=
  match s with
  | EmptyString => String d rest
  | String c s =>
      if decide (c = d) then String e (String c (quoted_body d e s rest))
      else if decide (c = e) then String e (String c (quoted_body d e s rest))
      else String c (quoted_body d e s rest)
  end.

Definition quoted_app (d e : ascii) (s rest : string) : string :=
  String d (quoted_body d e s rest).

Definition quoted (d e : ascii) (s : string) : string :=
  quoted_app d e s EmptyString.

(** The reading side: the body of a quoted text up to its closing delimiter.
    With [d = e] this is how SQL reads a quoted identifier (a doubled quote is
    one character), with [d <> e] how an enclosed and escaped field is read. *)
Fixpoint unquote_body (d e : ascii) (s : string) : option (string * string) :=
  match s with
  | EmptyString => None
  | String c s1 =>
      if decide (c = e) then
        match s1 with
        | String c2 s2 =>
            if decide (c2 = d \/ c2 = e) then
              '(w, rest) ← unquote_body d e s2; Some (String c2 w, rest)
            else if decide (d = e) then Some (EmptyString, s1) else None
        | EmptyString => if decide (d = e) then Some (EmptyString, s1) else None
        end
      else if decide (c = d) then Some (EmptyString, s1)
      else '(w, rest) ← unquote_body d e s1; Some (String c w, rest)
  end.

Definition unquote (d e : ascii) (s : string) : option (string * string) :=
  match s with
  | String c s => if decide (c = d) then unquote_body d e s else None
  | EmptyString => None
  end.

Definition head_is (d : ascii) (s : string) : bool :=
  match s with String c _ => bool_decide (c = d) | EmptyString => false end.

Lemma unquote_body_quoted d e s rest :
  (d = e -> head_is d rest = false) ->
  unquote_body d e (quoted_body d e s rest) = Some (s, rest).
Proof.
  intros Hrest. induction s as [|c s IH]; cbn [quoted_body].
  - destruct (decide (d = e)) as [->|Hde].
    + cbn. rewrite decide_True by done.
      specialize (Hrest eq_refl). destruct rest as [|c2 r]; [by rewrite decide_True|].
      cbn in Hrest. apply bool_decide_eq_false in Hrest.
      rewrite decide_False by naive_solver. by rewrite decide_True.
    + cbn. rewrite decide_False by done. by rewrite decide_True.
  - destruct (decide (c = d)) as [->|]; [|destruct (decide (c = e)) as [->|]].
    + cbn. rewrite decide_True by done. rewrite decide_True by auto.
      by rewrite IH.
    + cbn. rewrite decide_True by done. rewrite decide_True by auto.
      by rewrite IH.
    + cbn. rewrite decide_False by done. rewrite decide_False by done.
      by rewrite IH.
Qed.

(** What was quoted is read back, whatever the text contains. *)
Lemma unquote_quoted d e s rest :
  (d = e -> head_is d rest = false) ->
  unquote d e (quoted_app d e s rest) = Some (s, rest).
Proof.
  intros. unfold unquote, quoted_app. rewrite decide_True by done.
  by apply unquote_body_quoted.
Qed.

Lemma quoted_body_app d e s r t :
  quoted_body d e s r +:+ t = quoted_body d e s (r +:+ t).
Proof.
  induction s as [|c s IH]; [done|].
  cbn [quoted_body]. repeat case_decide; by rewrite ?app_cons_s, IH.
Qed.

Lemma quoted_app_eq d e s t : quoted d e s +:+ t = quoted_app d e s t.
Proof.
  unfold quoted, quoted_app. rewrite app_cons_s.
  by rewrite quoted_body_app.
Qed.

(** ** Texts made of certain characters only *)
Fixpoint all_chars (p : ascii -> bool) (s : string) : bool :=
  match s with
  | EmptyString => true
  | String c s => p c && all_chars p s
  end.

Section all_chars.
Context (p : ascii -> bool).

Lemma all_chars_app s t :
  all_chars p (s +:+ t) = all_chars p s && all_chars p t.
Proof using Type.
  induction s as [|c s IH]; [done|]. rewrite app_cons_s. cbn.
  by rewrite IH, andb_assoc.
Qed.

Lemma all_chars_repeat n c : p c = true -> all_chars p (repeat_char n c) = true.
Proof using Type. intros Hc. induction n; cbn; [done|]. by rewrite Hc. Qed.

Lemma all_chars_pad_left n c s :
  p c = true -> all_chars p (pad_left n c s) = all_chars p s.
Proof using Type.
  intros Hc. unfold pad_left. by rewrite all_chars_app, all_chars_repeat.
Qed.

Context (p_digits : forall c, is_digit c = true -> p c = true).

Lemma all_chars_dec_digits fuel n acc :
  0 <= n -> all_chars p acc = true -> all_chars p (dec_digits fuel n acc) = true.
Proof using p_digits.
  revert n acc. induction fuel as [|fuel IH]; intros n acc Hn Ha; cbn; [done|].
  assert (all_chars p (String (digit (n mod 10)) acc) = true) as H.
  { cbn. rewrite Ha, andb_true_r. apply p_digits, is_digit_digit. dlia. }
  case_match; [done|]. apply IH; [dlia|done].
Qed.

Lemma all_chars_to_string z : p "-"%char = true -> all_chars p (to_string z) = true.
Proof using p_digits.
  intros Hm. unfold to_string, nat_dec.
  destruct (Z.ltb_spec z 0); cbn [all_chars]; rewrite ?Hm, ?andb_true_l;
    apply all_chars_dec_digits; (done || lia).
Qed.
End all_chars.

(** ** Case folding *)
Definition tolower (c : ascii) : ascii :=
  let z := Z_of_byte c in
  if (65 <=? z) && (z <=? 90) then byte_of_Z (z + 32) else c.

Fixpoint smap (f : ascii -> ascii) (s : string) : string :=
  match s with
  | EmptyString => EmptyString
  | String c s => String (f c) (smap f s)
  end.

#[export] Hint Rewrite app_nil_r_s app_nil_l_s app_cons_s app_assoc_s quoted_app_eq : s2_text.
