(* ===== verification/Calendar.v ===== *)
(** Dates and times: the conversions of [hdat/common.hpp] between the
    database's [MYSQL_TIME] and the numbers SAS uses (days, and microseconds,
    since 1 January 1960), with the calendar functions of the C library they
    call ([timegm], [gmtime], [strftime]), over the proleptic Gregorian
    calendar. *)

From Stdlib Require Import Ascii String.
From stdpp Require Import base list strings numbers tactics.
From stdpp Require Import options.
From S2P Require Import Prelude Schema Text.

Definition secToMicroSec : Z := 1000000.
Definition dayToSec : Z := 86400.

(** ** The civil calendar *)
Definition is_leap (y : Z) : bool :=
  (y mod 4 =? 0) && (negb (y mod 100 =? 0) || (y mod 400 =? 0)).

(** Days from 1 January 1 to 1 January [y]. *)
Definition days_before_year (y : Z) : Z :=
  365 * (y - 1) + (y - 1) / 4 - (y - 1) / 100 + (y - 1) / 400.

Definition epoch_day : Z := days_before_year 1970.

(** Days of the year before month [m], counted from 0. *)
Definition days_before_month (leap : bool) (m : Z) : Z :=
  let extra := if leap then 1 else 0 in
  if m <=? 0 then 0
  else if m =? 1 then 31
  else if m =? 2 then 59 + extra
  else if m =? 3 then 90 + extra
  else if m =? 4 then 120 + extra
  else if m =? 5 then 151 + extra
  else if m =? 6 then 181 + extra
  else if m =? 7 then 212 + extra
  else if m =? 8 then 243 + extra
  else if m =? 9 then 273 + extra
  else if m =? 10 then 304 + extra
  else if m =? 11 then 334 + extra
  else 365 + extra.

Definition days_in_month (leap : bool) (m : Z) : Z :=
  days_before_month leap (m + 1) - days_before_month leap m.

(** The year in which day [n] falls (day 0 is 1 January 1): an estimate that
    is off by one at most, corrected. *)
Definition year_of_day (n : Z) : Z :=
  let y := 400 * n / 146097 + 1 in
  if n <? days_before_year y then y - 1
  else if days_before_year (y + 1) <=? n then y + 1
  else y.

Fixpoint month_search (fuel : nat) (leap : bool) (yday m : Z) : Z :=
  match fuel with
  | O => m
  | S fuel =>
      if yday <? days_before_month leap (m + 1) then m
      else month_search fuel leap yday (m + 1)
  end.

Definition month_of_yday (leap : bool) (yday : Z) : Z :=
  month_search 11 leap yday 0.

Lemma days_before_year_succ y :
  days_before_year (y + 1) =
  days_before_year y + 365 + (if is_leap y then 1 else 0).
Proof.
  unfold days_before_year, is_leap. replace (y + 1 - 1) with y by lia.
  destruct (Z.eqb_spec (y mod 4) 0), (Z.eqb_spec (y mod 100) 0),
    (Z.eqb_spec (y mod 400) 0); cbn; dlia.
Qed.

Lemma days_before_year_mono y y' :
  y <= y' -> days_before_year y <= days_before_year y'.
Proof. unfold days_before_year. intros. dlia. Qed.

Lemma year_of_day_spec n :
  let y := year_of_day n in
  days_before_year y <= n < days_before_year (y + 1).
Proof.
  cbv zeta. unfold year_of_day. set (q := 400 * n / 146097).
  assert (146097 * q <= 400 * n < 146097 * q + 146097) as Hq by (subst q; dlia).
  clearbody q.
  destruct (Z.ltb_spec n (days_before_year (q + 1))).
  - replace (q + 1 - 1 + 1) with (q + 1) by lia. split; [|done].
    unfold days_before_year. replace (q + 1 - 1 - 1) with (q - 1) by lia. dlia.
  - destruct (Z.leb_spec (days_before_year (q + 1 + 1)) n); [|lia].
    split; [done|]. unfold days_before_year.
    replace (q + 1 + 1 + 1 - 1) with (q + 2) by lia. dlia.
Qed.

Lemma year_of_day_unique n y :
  days_before_year y <= n < days_before_year (y + 1) -> year_of_day n = y.
Proof.
  intros Hy. pose proof (year_of_day_spec n) as Hs. cbv zeta in Hs.
  set (y' := year_of_day n) in *. clearbody y'.
  destruct (Z.lt_trichotomy y' y) as [Hlt|[->|Hlt]]; [|done|].
  - pose proof (days_before_year_mono (y' + 1) y). lia.
  - pose proof (days_before_year_mono (y + 1) y'). lia.
Qed.

Lemma month_of_yday_range leap yday : 0 <= month_of_yday leap yday <= 11.
Proof.
  unfold month_of_yday. cbn [month_search].
  repeat match goal with |- context [if ?b then _ else _] => destruct b end; lia.
Qed.

Ltac month_cases m :=
  let H := fresh in
  assert (m = 0 \/ m = 1 \/ m = 2 \/ m = 3 \/ m = 4 \/ m = 5 \/ m = 6 \/ m = 7
          \/ m = 8 \/ m = 9 \/ m = 10 \/ m = 11) as H by lia;
  repeat destruct H as [H|H]; subst m.

(** Compute the entries of the month table at literal arguments. *)
Ltac table_eval :=
  repeat match goal with
  | |- context [days_before_month ?l ?m] =>
      let v := eval vm_compute in (days_before_month l m) in
      change (days_before_month l m) with v
  | H : context [days_before_month ?l ?m] |- _ =>
      let v := eval vm_compute in (days_before_month l m) in
      change (days_before_month l m) with v in H
  end.

(** Case analysis on the comparisons of a search in the table. *)
Ltac search_cases yday :=
  repeat match goal with
  | |- context [yday <? ?d] => destruct (Z.ltb_spec yday d)
  end.

Lemma month_of_yday_spec leap yday :
  0 <= yday < 365 + (if leap : bool then 1 else 0) ->
  let m := month_of_yday leap yday in
  days_before_month leap m <= yday < days_before_month leap (m + 1).
Proof.
  intros Hy. cbv zeta. unfold month_of_yday.
  destruct leap; cbn [month_search]; search_cases yday; table_eval; lia.
Qed.

Lemma month_of_yday_unique leap yday m :
  0 <= m <= 11 ->
  days_before_month leap m <= yday < days_before_month leap (m + 1) ->
  month_of_yday leap yday = m.
Proof.
  intros Hm Hy. month_cases m; destruct leap; unfold month_of_yday;
    cbn [month_search]; search_cases yday; table_eval; lia.
Qed.

Lemma days_in_month_pos leap m : 0 <= m <= 11 -> 28 <= days_in_month leap m <= 31.
Proof. intros. month_cases m; destruct leap; unfold days_in_month; table_eval; cbv iota; lia. Qed.

Lemma days_before_month_bound leap m :
  0 <= m <= 11 ->
  0 <= days_before_month leap m /\
  days_before_month leap (m + 1) <= 365 + (if leap then 1 else 0).
Proof. intros. month_cases m; destruct leap; unfold days_in_month; table_eval; cbv iota; lia. Qed.

(** ** struct tm, timegm and gmtime *)
Record tm := mkTm {
  tm_sec : Z; tm_min : Z; tm_hour : Z; tm_mday : Z; tm_mon : Z; tm_year : Z
}.

(** Day number (day 0 is 1 January 1) of the day the fields name; a month
    outside 0..11 is carried into the year, as [timegm] does. *)
Definition tm_day (t : tm) : Z :=
  let y := tm_year t + 1900 + tm_mon t / 12 in
  let m := tm_mon t mod 12 in
  days_before_year y + days_before_month (is_leap y) m + (tm_mday t - 1).

(** [timegm]: seconds since 1 January 1970. *)
Definition timegm (t : tm) : Z :=
  (tm_day t - epoch_day) * dayToSec
  + tm_hour t * 3600 + tm_min t * 60 + tm_sec t.

(** [gmtime] *)
Definition gmtime (time : Z) : tm :=
  let day := time / dayToSec + epoch_day in
  let s := time mod dayToSec in
  let y := year_of_day day in
  let yday := day - days_before_year y in
  let m := month_of_yday (is_leap y) yday in
  mkTm (s mod 60) (s / 60 mod 60) (s / 3600)
    (yday - days_before_month (is_leap y) m + 1) m (y - 1900).

(** Fields that name a day and a time of day. *)
Record tm_valid (t : tm) : Prop := {
  tmv_sec : 0 <= tm_sec t < 60;
  tmv_min : 0 <= tm_min t < 60;
  tmv_hour : 0 <= tm_hour t < 24;
  tmv_mon : 0 <= tm_mon t <= 11;
  tmv_mday : 1 <= tm_mday t <= days_in_month (is_leap (tm_year t + 1900)) (tm_mon t)
}.

Lemma gmtime_valid time : tm_valid (gmtime time).
Proof.
  unfold gmtime. set (day := time / dayToSec + epoch_day).
  set (y := year_of_day day).
  pose proof (year_of_day_spec day) as Hy. cbv zeta in Hy. fold y in Hy.
  rewrite days_before_year_succ in Hy.
  set (yday := day - days_before_year y).
  pose proof (month_of_yday_range (is_leap y) yday).
  pose proof (month_of_yday_spec (is_leap y) yday ltac:(lia)) as Hm.
  cbv zeta in Hm. unfold dayToSec.
  split; cbn [tm_sec tm_min tm_hour tm_mday tm_mon tm_year]; [dlia..|lia|].
  replace (y - 1900 + 1900) with y by lia. unfold days_in_month. lia.
Qed.

Lemma timegm_gmtime time : timegm (gmtime time) = time.
Proof.
  unfold timegm, gmtime, tm_day. cbn [tm_sec tm_min tm_hour tm_mday tm_mon tm_year].
  set (day := time / dayToSec + epoch_day).
  set (y := year_of_day day).
  set (m := month_of_yday _ _).
  assert (0 <= m <= 11) by apply month_of_yday_range.
  rewrite (Z.div_small m), (Z.mod_small m) by lia.
  replace (y - 1900 + 1900 + 0) with y by lia.
  subst day. unfold dayToSec in *. dlia.
Qed.

Lemma tm_eta t :
  t = mkTm (tm_sec t) (tm_min t) (tm_hour t) (tm_mday t) (tm_mon t) (tm_year t).
Proof. by destruct t. Qed.

(** The fields [gmtime] gives for a time [timegm] computed are the fields it
    computed it from. *)
Lemma gmtime_timegm t : tm_valid t -> gmtime (timegm t) = t.
Proof.
  intros [Hs Hmi Hh Hmo Hd].
  set (s := tm_hour t * 3600 + tm_min t * 60 + tm_sec t).
  assert (0 <= s < dayToSec) as Hsr by (unfold s, dayToSec; lia).
  assert (timegm t = (tm_day t - epoch_day) * dayToSec + s) as E
    by (unfold timegm, s; lia).
  assert (timegm t / dayToSec = tm_day t - epoch_day) as Hdiv
    by (rewrite E, Z.div_add_l, Z.div_small by (unfold dayToSec in *; lia); lia).
  assert (timegm t mod dayToSec = s) as Hmod
    by (rewrite E, Z.add_comm, Z.mod_add, Z.mod_small by (unfold dayToSec in *; lia); lia).
  unfold gmtime. rewrite Hdiv, Hmod.
  replace (tm_day t - epoch_day + epoch_day) with (tm_day t) by lia.
  unfold tm_day. rewrite (Z.div_small (tm_mon t)), (Z.mod_small (tm_mon t)) by lia.
  replace (tm_year t + 1900 + 0) with (tm_year t + 1900) by lia.
  set (y := tm_year t + 1900) in *.
  pose proof (days_before_month_bound (is_leap y) (tm_mon t) ltac:(lia)).
  unfold days_in_month in Hd.
  rewrite (year_of_day_unique _ y) by (rewrite days_before_year_succ; lia).
  rewrite (month_of_yday_unique _ _ (tm_mon t)) by lia.
  etransitivity; [|symmetry; apply tm_eta]. f_equal; unfold s; subst y; dlia.
Qed.

(** The fields of a valid date of the years 1 to 9999, in [timegm]. *)
Lemma timegm_midnight t :
  tm_hour t = 0 -> tm_min t = 0 -> tm_sec t = 0 ->
  timegm t = (tm_day t - epoch_day) * dayToSec.
Proof. unfold timegm. lia. Qed.

(** ** MYSQL_TIME, as it lies in memory *)
Record MYSQL_TIME := mkMYSQL_TIME {
  mt_year : Z; mt_month : Z; mt_day : Z;           (* unsigned int *)
  mt_hour : Z; mt_minute : Z; mt_second : Z;
  mt_second_part : Z;                              (* unsigned long *)
  mt_neg : bool                                    (* my_bool *)
}.

(** Six 4-byte fields, an 8-byte one, a 1-byte flag, padding and a 4-byte
    enumeration that the conversions do not read. *)
Definition sizeof_MYSQL_TIME : Z := 40.

Definition read_MYSQL_TIME (input : bytes) : outcome exn MYSQL_TIME :=
  if sizeof_MYSQL_TIME <=? Z.of_nat (length input) then
    let u4 pos := le_decode (slice input pos 4) in
    Done (mkMYSQL_TIME (u4 0) (u4 4) (u4 8) (u4 12) (u4 16) (u4 20)
            (le_decode (slice input 24 8))
            (negb (le_decode (slice input 32 1) =? 0)))
  else Undef "MYSQL_TIME read past the end of the buffer".

(** ** The SAS epoch *)
Definition zeroTimeCAS : Z := timegm (mkTm 0 0 0 1 0 60).
Definition zeroTimeUnix : Z := timegm (mkTm 0 0 0 1 0 70).
(** [difftime] subtracts exactly as long as the difference is below 2^53, as
    it is wherever its result is then converted to a value that fits. *)
Definition difftime (a b : Z) : Z := a - b.
Definition CASshiftSec : Z := difftime zeroTimeUnix zeroTimeCAS.

(** ** TIME: microseconds since midnight *)
Definition toTimeCAS (input : bytes) : outcome exn Z :=
  dt ← read_MYSQL_TIME input;
  let secs :=
    u32 (u32 (mt_second dt + u32 (mt_minute dt * 60)) + u32 (mt_hour dt * 3600)) in
  let timeVal := s64 (u64 (mt_second_part dt + secToMicroSec * secs)) in
  if mt_neg dt then
    if timeVal =? - 2 ^ 63 then Undef "signed overflow" else Done (- timeVal)
  else Done timeVal.

Definition fromTimeCAS (cas_time : Z) : outcome exn string :=
  if cas_time =? - 2 ^ 63 then Undef "labs of the least value" else
  let abs_time := Z.abs cas_time in
  let total_seconds := Z.quot abs_time secToMicroSec in
  let microseconds := Z.rem abs_time secToMicroSec in
  let seconds := s32 (Z.rem total_seconds 60) in
  let total_minutes := Z.quot (s32 total_seconds) 60 in
  let minutes := Z.rem total_minutes 60 in
  let hours := Z.quot total_minutes 60 in
  let sign := if abs_time =? cas_time then EmptyString else "-" in
  Done (sign +:+ to_string hours +:+ ":" +:+ to_string minutes +:+ ":"
        +:+ to_string seconds +:+ "."
        +:+ pad_left 6 "0" (to_string microseconds)).

(** ** DATE: days *)
Definition tm_of_date (dt : MYSQL_TIME) : tm :=
  mkTm 0 0 0 (s32 (mt_day dt)) (s32 (u32 (mt_month dt - 1)))
    (s32 (u32 (mt_year dt - 1900))).

Definition toDateCAS (input : bytes) : outcome exn Z :=
  dt ← read_MYSQL_TIME input;
  let inputDate := timegm (tm_of_date dt) in
  if inputDate =? -1 then s2_throw S2C_ERROR_INV_ARG "Invalid Date read from DB"
  else
    let days := Z.quot (difftime inputDate zeroTimeCAS) (3600 * 24) in
    if decide (s32 days = days) then Done days
    else Undef "double out of the range of int32_t".

(** [strftime] with a buffer of [max] bytes: the text if it fits with its
    terminating 0, otherwise the buffer is indeterminate. *)
Definition strftime (max : nat) (text : string) : outcome exn string :=
  if (String.length text <? max)%nat then Done text
  else Undef "strftime result does not fit, buffer indeterminate".

Definition pad2 (n : Z) : string := pad_left 2 "0" (to_string n).

Definition dateFormat (t : tm) : string :=
  to_string (tm_year t + 1900) +:+ "-" +:+ pad2 (tm_mon t + 1) +:+ "-"
  +:+ pad2 (tm_mday t).

Definition dateTimeFormat (t : tm) : string :=
  dateFormat t +:+ " " +:+ pad2 (tm_hour t) +:+ ":" +:+ pad2 (tm_min t) +:+ ":"
  +:+ pad2 (tm_sec t).

Definition fromDateCAS (dtInt : Z) : outcome exn string :=
  let UnixTimestamp := dtInt * dayToSec - CASshiftSec in
  strftime 11 (dateFormat (gmtime UnixTimestamp)).

(** ** DATETIME: microseconds *)
Definition tm_of_datetime (dt : MYSQL_TIME) : tm :=
  mkTm (s32 (mt_second dt)) (s32 (mt_minute dt)) (s32 (mt_hour dt))
    (s32 (mt_day dt)) (s32 (u32 (mt_month dt - 1)))
    (s32 (u32 (mt_year dt - 1900))).

(** [(ino64_t)x] of a [double] with an integral value: [ino64_t] is unsigned. *)
Definition ino64_of_double `{Build} (x : Z) : outcome exn Z :=
  if (0 <=? x) && (x <? 2 ^ 64) then Done x
  else if neg_to_unsigned_wraps && (- 2 ^ 63 <=? x) && (x <? 0) then Done (u64 x)
  else Undef "double out of the range of ino64_t".

Definition toDateTimeCAS `{Build} (input : bytes) : outcome exn Z :=
  dt ← read_MYSQL_TIME input;
  let inputDate := timegm (tm_of_datetime dt) in
  if inputDate =? -1 then s2_throw S2C_ERROR_INV_ARG "Invalid Date read from DB"
  else
    secs ← ino64_of_double (difftime inputDate zeroTimeCAS);
    Done (s64 (u64 (u64 (secs * secToMicroSec) + mt_second_part dt))).

Definition fromDateTimeCAS (dtInt : Z) : outcome exn string :=
  let microSec := Z.rem dtInt secToMicroSec in
  let UnixTimestamp := Z.quot dtInt secToMicroSec - CASshiftSec in
  let '(microSec, UnixTimestamp) :=
    if microSec <? 0 then (microSec + secToMicroSec, UnixTimestamp - 1)
    else (microSec, UnixTimestamp) in
  text ← strftime 30 (dateTimeFormat (gmtime UnixTimestamp));
  if microSec =? 0 then Done text
  else
    (* sprintf behind the text, into the same 30 bytes *)
    let text := text +:+ "." +:+ pad_left 6 "0" (to_string microSec) in
    if (String.length text <? 30)%nat then Done text
    else Undef "sprintf past the end of the buffer".

(** ** Correctness of the conversions *)

(** The struct as memory, for inputs of the conversions. *)
Definition bytes_of_MYSQL_TIME (dt : MYSQL_TIME) : bytes :=
  le_encode 4 (mt_year dt) ++ le_encode 4 (mt_month dt) ++ le_encode 4 (mt_day dt)
  ++ le_encode 4 (mt_hour dt) ++ le_encode 4 (mt_minute dt)
  ++ le_encode 4 (mt_second dt) ++ le_encode 8 (mt_second_part dt)
  ++ le_encode 4 (if mt_neg dt then 1 else 0) ++ le_encode 4 0.

Record date_valid (dt : MYSQL_TIME) : Prop := {
  dv_year : 1 <= mt_year dt <= 9999;
  dv_month : 1 <= mt_month dt <= 12;
  dv_day : 1 <= mt_day dt <= days_in_month (is_leap (mt_year dt)) (mt_month dt - 1)
}.

Record time_of_day_valid (dt : MYSQL_TIME) : Prop := {
  tv_hour : 0 <= mt_hour dt < 24;
  tv_minute : 0 <= mt_minute dt < 60;
  tv_second : 0 <= mt_second dt < 60;
  tv_second_part : 0 <= mt_second_part dt < 1000000
}.

(** The texts a date and a time are written as. *)
Definition date_text (dt : MYSQL_TIME) : string :=
  to_string (mt_year dt) +:+ "-" +:+ pad2 (mt_month dt) +:+ "-"
  +:+ pad2 (mt_day dt).

Definition micro_text (n : Z) : string := pad_left 6 "0" (to_string n).

Definition datetime_text (dt : MYSQL_TIME) : string :=
  date_text dt +:+ " " +:+ pad2 (mt_hour dt) +:+ ":" +:+ pad2 (mt_minute dt)
  +:+ ":" +:+ pad2 (mt_second dt)
  +:+ (if mt_second_part dt =? 0 then EmptyString
       else "." +:+ micro_text (mt_second_part dt)).

Definition time_text (dt : MYSQL_TIME) : string :=
  (if mt_neg dt
      && negb ((mt_hour dt =? 0) && (mt_minute dt =? 0) && (mt_second dt =? 0)
               && (mt_second_part dt =? 0))
   then "-" else EmptyString)
  +:+ to_string (mt_hour dt) +:+ ":" +:+ to_string (mt_minute dt) +:+ ":"
  +:+ to_string (mt_second dt) +:+ "." +:+ micro_text (mt_second_part dt).

(** Seconds since 1 January 1970 of the date and time [dt] names. *)
Definition unix_date (dt : MYSQL_TIME) : Z :=
  timegm (mkTm 0 0 0 (mt_day dt) (mt_month dt - 1) (mt_year dt - 1900)).
Definition unix_datetime (dt : MYSQL_TIME) : Z :=
  timegm (mkTm (mt_second dt) (mt_minute dt) (mt_hour dt) (mt_day dt)
            (mt_month dt - 1) (mt_year dt - 1900)).

Lemma days_in_month_le dt : date_valid dt -> mt_day dt <= 31.
Proof.
  intros [_ Hm Hd].
  pose proof (days_in_month_pos (is_leap (mt_year dt)) (mt_month dt - 1)). lia.
Qed.

(** A wrapped unsigned field read as a signed one is the field. *)
Lemma s32_u32_small z : - 2 ^ 31 <= z < 2 ^ 31 -> s32 (u32 z) = z.
Proof. intros. rewrite wrap_s_of_u by lia. apply wrap_s_small; lia. Qed.

Lemma s32_small z : - 2 ^ 31 <= z < 2 ^ 31 -> s32 z = z.
Proof. intros. apply wrap_s_small; lia. Qed.

Lemma tm_of_date_valid dt :
  date_valid dt ->
  tm_of_date dt = mkTm 0 0 0 (mt_day dt) (mt_month dt - 1) (mt_year dt - 1900).
Proof.
  intros Hv. pose proof (days_in_month_le dt Hv). destruct Hv as [Hy Hm Hd].
  unfold tm_of_date. by rewrite !s32_u32_small, s32_small by lia.
Qed.

Lemma tm_of_datetime_valid dt :
  date_valid dt -> time_of_day_valid dt ->
  tm_of_datetime dt =
  mkTm (mt_second dt) (mt_minute dt) (mt_hour dt) (mt_day dt)
    (mt_month dt - 1) (mt_year dt - 1900).
Proof.
  intros Hv [Hh Hmi Hs _]. pose proof (days_in_month_le dt Hv).
  destruct Hv as [Hy Hm Hd].
  unfold tm_of_datetime. by rewrite !s32_u32_small, !s32_small by lia.
Qed.

Lemma timegm_tm_of_date dt :
  date_valid dt -> timegm (tm_of_date dt) = unix_date dt.
Proof. intros. unfold unix_date. by rewrite tm_of_date_valid. Qed.

Lemma timegm_tm_of_datetime dt :
  date_valid dt -> time_of_day_valid dt ->
  timegm (tm_of_datetime dt) = unix_datetime dt.
Proof. intros. unfold unix_datetime. by rewrite tm_of_datetime_valid. Qed.

Lemma date_tm_valid dt h mi s :
  date_valid dt -> 0 <= h < 24 -> 0 <= mi < 60 -> 0 <= s < 60 ->
  tm_valid (mkTm s mi h (mt_day dt) (mt_month dt - 1) (mt_year dt - 1900)).
Proof.
  intros [Hy Hm Hd] ???. split; cbn; try lia.
  replace (mt_year dt - 1900 + 1900) with (mt_year dt) by lia. done.
Qed.

(** Days since 1 January 1 of a valid date, with bounds. *)
Lemma tm_day_bound s mi h dt :
  date_valid dt ->
  0 <= tm_day (mkTm s mi h (mt_day dt) (mt_month dt - 1) (mt_year dt - 1900))
    < 3652060.
Proof.
  intros Hv. pose proof (days_in_month_le dt Hv). destruct Hv as [Hy Hm Hd].
  unfold tm_day; cbn [tm_mon tm_year tm_mday].
  rewrite Z.div_small, Z.mod_small by lia.
  replace (mt_year dt - 1900 + 1900 + 0) with (mt_year dt) by lia.
  pose proof (days_before_month_bound (is_leap (mt_year dt)) (mt_month dt - 1)
    ltac:(lia)).
  unfold days_in_month in Hd.
  assert (days_before_year 1 <= days_before_year (mt_year dt)
          /\ days_before_year (mt_year dt + 1) <= days_before_year 10000)
    by (split; apply days_before_year_mono; lia).
  rewrite days_before_year_succ in *. change (days_before_year 1) with 0 in *.
  change (days_before_year 10000) with 3652059 in *. lia.
Qed.

Lemma epoch_day_val : epoch_day = 719162. Proof. reflexivity. Qed.
Lemma zeroTimeCAS_val : zeroTimeCAS = -315619200. Proof. reflexivity. Qed.
Lemma CASshiftSec_val : CASshiftSec = 315619200. Proof. reflexivity. Qed.

Lemma length_pad2 n : 0 <= n < 100 -> String.length (pad2 n) = 2%nat.
Proof.
  intros. unfold pad2. rewrite length_pad_left.
  pose proof (length_to_string n 2). lia.
Qed.

Lemma length_micro n : 0 <= n < 1000000 -> String.length (micro_text n) = 6%nat.
Proof.
  intros. unfold micro_text. rewrite length_pad_left.
  pose proof (length_to_string n 6). lia.
Qed.

(** Number of days from 1 January 1960 to a date. *)
Definition sas_days (dt : MYSQL_TIME) : Z :=
  tm_day (mkTm 0 0 0 (mt_day dt) (mt_month dt - 1) (mt_year dt - 1900))
  - days_before_year 1960.

(** Number of microseconds from 1 January 1960 to a date and time. *)
Definition sas_micros (dt : MYSQL_TIME) : Z :=
  (unix_datetime dt + CASshiftSec) * secToMicroSec + mt_second_part dt.

Lemma unix_date_days dt :
  unix_date dt = sas_days dt * dayToSec - CASshiftSec.
Proof.
  unfold unix_date, sas_days, timegm, dayToSec.
  cbn [tm_hour tm_min tm_sec]. rewrite CASshiftSec_val.
  change (days_before_year 1960) with 715509. rewrite epoch_day_val. lia.
Qed.

Lemma sas_days_bound dt : date_valid dt -> -715509 <= sas_days dt < 2936551.
Proof.
  intros Hv. unfold sas_days. pose proof (tm_day_bound 0 0 0 dt Hv).
  change (days_before_year 1960) with 715509. lia.
Qed.

Lemma sas_days_nonneg dt :
  date_valid dt -> 1960 <= mt_year dt -> 0 <= sas_days dt.
Proof.
  intros [_ Hmo Hda] Hy. unfold sas_days, tm_day; cbn [tm_mon tm_year tm_mday].
  rewrite Z.div_small, Z.mod_small by lia.
  replace (mt_year dt - 1900 + 1900 + 0) with (mt_year dt) by lia.
  pose proof (days_before_month_bound (is_leap (mt_year dt))
    (mt_month dt - 1) ltac:(lia)).
  pose proof (days_before_year_mono 1960 (mt_year dt) Hy). lia.
Qed.

Lemma toDateCAS_days input dt :
  read_MYSQL_TIME input = Done dt -> date_valid dt ->
  toDateCAS input = Done (sas_days dt).
Proof.
  intros Hr Hv. pose proof (sas_days_bound dt Hv) as Hb.
  unfold toDateCAS. rewrite Hr. cbn.
  rewrite timegm_tm_of_date by done.
  rewrite unix_date_days. unfold difftime, dayToSec in *.
  rewrite zeroTimeCAS_val, CASshiftSec_val.
  destruct (Z.eqb_spec (sas_days dt * 86400 - 315619200) (-1)); [lia|].
  replace (sas_days dt * 86400 - 315619200 - -315619200)
    with (sas_days dt * 86400) by lia.
  rewrite Z.quot_mul by lia. rewrite s32_small by lia. by rewrite decide_True.
Qed.

Lemma fromDateCAS_sas_days dt :
  date_valid dt -> fromDateCAS (sas_days dt) = Done (date_text dt).
Proof.
  intros Hv. unfold fromDateCAS. rewrite <- unix_date_days. unfold unix_date.
  rewrite gmtime_timegm by (apply date_tm_valid; (done || lia)).
  unfold dateFormat; cbn [tm_year tm_mon tm_mday].
  replace (mt_year dt - 1900 + 1900) with (mt_year dt) by lia.
  replace (mt_month dt - 1 + 1) with (mt_month dt) by lia.
  fold (date_text dt). unfold strftime.
  assert (String.length (date_text dt) <= 10)%nat as Hl.
  { pose proof (days_in_month_le dt Hv). destruct Hv.
    unfold date_text. rewrite !length_app_s, !length_pad2 by lia.
    pose proof (length_to_string (mt_year dt) 4). cbn in *. lia. }
  destruct (Nat.ltb_spec (String.length (date_text dt)) 11); [done|lia].
Qed.

(** A DATE survives the trip: for every date of the years 1 to 9999 the
    count of days that [toDateCAS] stores fits 32 bits, never is the NULL
    sentinel, and [fromDateCAS] prints the same date from it. *)
Theorem date_roundtrip (input : bytes) (dt : MYSQL_TIME)
    (Hread : read_MYSQL_TIME input = Done dt) (Hvalid : date_valid dt) :
  exists d, toDateCAS input = Done d /\ - 2 ^ 31 < d < 2 ^ 31
            /\ fromDateCAS d = Done (date_text dt).
Proof.
  exists (sas_days dt). pose proof (sas_days_bound dt Hvalid).
  split; [by apply toDateCAS_days|]. split; [lia|].
  by apply fromDateCAS_sas_days.
Qed.

Lemma unix_datetime_days dt :
  unix_datetime dt + CASshiftSec =
  sas_days dt * dayToSec
  + (mt_hour dt * 3600 + mt_minute dt * 60 + mt_second dt).
Proof.
  unfold unix_datetime, sas_days, timegm, dayToSec, tm_day.
  cbn [tm_hour tm_min tm_sec tm_mday tm_mon tm_year].
  rewrite CASshiftSec_val.
  change (days_before_year 1960) with 715509. rewrite epoch_day_val. lia.
Qed.

Lemma sas_micros_bound dt :
  date_valid dt -> time_of_day_valid dt ->
  - 2 ^ 62 < (unix_datetime dt + CASshiftSec) * secToMicroSec + mt_second_part dt
    < 2 ^ 62.
Proof.
  intros Hv [Hh Hm Hs Hp]. pose proof (sas_days_bound dt Hv).
  rewrite unix_datetime_days. unfold dayToSec, secToMicroSec.
  lia.
Qed.

Section datetime.
Context `{Build}.

(** The unsigned detour of the conversion, undone by the final cast. *)
Lemma datetime_wraps s p :
  - 2 ^ 63 <= s * secToMicroSec + p < 2 ^ 63 ->
  s64 (u64 (u64 (u64 s * secToMicroSec) + p)) = s * secToMicroSec + p.
Proof using Type.
  intros Hb. rewrite wrap_u_add_l by lia. rewrite <- wrap_u_add_l, wrap_u_mul_l by lia.
  rewrite wrap_u_add_l, wrap_s_of_u by lia. apply wrap_s_small; lia.
Qed.

Lemma ino64_of_double_wraps x :
  0 <= x < 2 ^ 63 \/ (neg_to_unsigned_wraps = true /\ - 2 ^ 63 <= x < 0) ->
  ino64_of_double x = Done (u64 x).
Proof using Type.
  intros Hx. unfold ino64_of_double.
  destruct Hx as [Hx|[-> Hx]].
  - rewrite wrap_u_small by lia.
    destruct (Z.leb_spec 0 x), (Z.ltb_spec x (2 ^ 64)); cbn; try done; lia.
  - destruct (Z.leb_spec 0 x); [lia|]. cbn.
    destruct (Z.leb_spec (- 2 ^ 63) x), (Z.ltb_spec x 0); cbn; try done; lia.
Qed.

Lemma toDateTimeCAS_micros input dt :
  read_MYSQL_TIME input = Done dt -> date_valid dt -> time_of_day_valid dt ->
  unix_datetime dt <> -1 ->
  1960 <= mt_year dt \/ neg_to_unsigned_wraps = true ->
  toDateTimeCAS input = Done (sas_micros dt).
Proof using Type.
  intros Hr Hv Ht Hne Hy. pose proof (sas_micros_bound dt Hv Ht) as Hb.
  unfold toDateTimeCAS. rewrite Hr, Done_bind. cbv zeta.
  rewrite timegm_tm_of_datetime by done.
  destruct (Z.eqb_spec (unix_datetime dt) (-1)); [done|].
  unfold difftime. rewrite zeroTimeCAS_val.
  replace (unix_datetime dt - -315619200) with (unix_datetime dt + CASshiftSec)
    by (rewrite CASshiftSec_val; lia).
  rewrite ino64_of_double_wraps.
  - unfold sas_micros. rewrite Done_bind.
    generalize dependent (unix_datetime dt + CASshiftSec). intros u Hb.
    rewrite datetime_wraps by lia. done.
  - pose proof (sas_days_bound dt Hv) as Hd. rewrite unix_datetime_days.
    destruct Ht as [Hh Hm Hs Hp]. unfold dayToSec in *.
    destruct Hy as [Hy|Hy].
    + pose proof (sas_days_nonneg dt Hv Hy). left. lia.
    + destruct (Z.le_gt_cases 0 (sas_days dt)); [left; lia|].
      right. split; [done|lia].
Qed.
End datetime.

(** Truncating division splits a count of microseconds; the code repairs a
    negative remainder. *)
Lemma split_micros u p :
  0 <= p < secToMicroSec ->
  let v := u * secToMicroSec + p in
  (Z.rem v secToMicroSec = p /\ Z.quot v secToMicroSec = u) \/
  (Z.rem v secToMicroSec = p - secToMicroSec /\ p <> 0
   /\ Z.quot v secToMicroSec = u + 1).
Proof.
  unfold secToMicroSec. intros Hp. cbv zeta.
  destruct (Z.le_gt_cases 0 (u * 1000000 + p)) as [Hv|Hv].
  - left. rewrite Z.rem_mod_nonneg, Z.quot_div_nonneg by lia. split; dlia.
  - pose proof (Z.quot_rem' (u * 1000000 + p) 1000000) as Hqr.
    pose proof (Z.rem_bound_pos (- (u * 1000000 + p)) 1000000 ltac:(lia)
      ltac:(lia)) as Hr.
    rewrite Z.rem_opp_l' in Hr.
    generalize dependent (Z.rem (u * 1000000 + p) 1000000).
    generalize dependent (Z.quot (u * 1000000 + p) 1000000). intros q r Hqr Hr.
    destruct (Z.eq_dec p 0); [left|right]; lia.
Qed.

Lemma length_date_text dt :
  date_valid dt -> (String.length (date_text dt) <= 10)%nat.
Proof.
  intros Hv. pose proof (days_in_month_le dt Hv). destruct Hv.
  unfold date_text. rewrite !length_app_s, !length_pad2 by lia.
  pose proof (length_to_string (mt_year dt) 4). cbn in *. lia.
Qed.

Lemma dateTimeFormat_unix dt :
  date_valid dt -> time_of_day_valid dt ->
  dateTimeFormat (gmtime (unix_datetime dt)) =
  date_text dt +:+ " " +:+ pad2 (mt_hour dt) +:+ ":" +:+ pad2 (mt_minute dt)
  +:+ ":" +:+ pad2 (mt_second dt).
Proof.
  intros Hv [Hh Hm Hs Hp]. unfold unix_datetime.
  rewrite gmtime_timegm by (by apply date_tm_valid).
  unfold dateTimeFormat, dateFormat, date_text.
  cbn [tm_sec tm_min tm_hour tm_mday tm_mon tm_year].
  replace (mt_year dt - 1900 + 1900) with (mt_year dt) by lia.
  replace (mt_month dt - 1 + 1) with (mt_month dt) by lia. done.
Qed.

Lemma fromDateTimeCAS_micros dt :
  date_valid dt -> time_of_day_valid dt ->
  fromDateTimeCAS (sas_micros dt) = Done (datetime_text dt).
Proof.
  intros Hv Ht. pose proof (length_date_text dt Hv) as Hl.
  unfold sas_micros, fromDateTimeCAS.
  pose proof (dateTimeFormat_unix dt Hv Ht) as Hf.
  destruct Ht as [Hh Hm Hs Hp].
  set (u := unix_datetime dt) in *. clearbody u.
  assert ((let '(m, t) :=
     if Z.rem ((u + CASshiftSec) * secToMicroSec + mt_second_part dt) secToMicroSec <? 0
     then (Z.rem ((u + CASshiftSec) * secToMicroSec + mt_second_part dt) secToMicroSec
             + secToMicroSec,
           Z.quot ((u + CASshiftSec) * secToMicroSec + mt_second_part dt)
             secToMicroSec - CASshiftSec - 1)
     else (Z.rem ((u + CASshiftSec) * secToMicroSec + mt_second_part dt) secToMicroSec,
           Z.quot ((u + CASshiftSec) * secToMicroSec + mt_second_part dt)
             secToMicroSec - CASshiftSec) in (m, t)) = (mt_second_part dt, u)) as E.
  { destruct (split_micros (u + CASshiftSec) (mt_second_part dt)) as [[-> ->]|(-> & ? & ->)];
      [unfold secToMicroSec; lia|..]; unfold secToMicroSec.
    - destruct (Z.ltb_spec (mt_second_part dt) 0); [lia|]. f_equal; lia.
    - destruct (Z.ltb_spec (mt_second_part dt - 1000000) 0); [|lia]. f_equal; lia. }
  destruct (if _ <? 0 then _ else _) as [m t]. injection E as -> ->.
  rewrite Hf. unfold strftime, datetime_text, micro_text.
  match goal with |- context [(String.length ?s <? 30)%nat] => set (txt := s) in * end.
  assert (String.length txt <= 19)%nat as Ht.
  { subst txt. rewrite !length_app_s, !length_pad2 by lia. cbn. lia. }
  destruct (Nat.ltb_spec (String.length txt) 30); [|lia]. rewrite Done_bind.
  destruct (Z.eqb_spec (mt_second_part dt) 0).
  - f_equal. subst txt. by rewrite app_nil_r_s.
  - rewrite !length_app_s. fold (micro_text (mt_second_part dt)).
    rewrite length_micro by lia. cbn [String.length].
    destruct (Nat.ltb_spec (String.length txt + (1 + 6)) 30); [|lia].
    f_equal. subst txt. by rewrite !app_assoc_s.
Qed.

(** C34. A DATETIME survives the trip to the microsecond: [fromDateTimeCAS]
    prints from the count of microseconds that [toDateTimeCAS] stores the same
    date and time; for every valid value but the last second of 1969, and
    before 1960 on machines that wrap the conversion of a negative double. *)
Theorem datetime_roundtrip `{Build} (input : bytes) (dt : MYSQL_TIME)
    (Hread : read_MYSQL_TIME input = Done dt)
    (Hdate : date_valid dt) (Htime : time_of_day_valid dt)
    (Hnot : unix_datetime dt <> -1)
    (Hyear : 1960 <= mt_year dt \/ neg_to_unsigned_wraps = true) :
  exists n, toDateTimeCAS input = Done n /\ - 2 ^ 62 < n < 2 ^ 62
            /\ fromDateTimeCAS n = Done (datetime_text dt).
Proof.
  exists (sas_micros dt). split; [by apply toDateTimeCAS_micros|].
  split; [|by apply fromDateTimeCAS_micros].
  unfold sas_micros. by apply sas_micros_bound.
Qed.

(** Exactly one second is refused: [toDateTimeCAS] reports an invalid
    date for every value in 1969-12-31 23:59:59, which is a valid DATETIME (its
    Unix time is -1, which [timegm] also returns for an error), and for no
    other valid value. *)
Theorem toDateTimeCAS_rejects `{Build} (input : bytes) (dt : MYSQL_TIME) (e : exn)
    (Hread : read_MYSQL_TIME input = Done dt)
    (Hdate : date_valid dt) (Htime : time_of_day_valid dt) :
  toDateTimeCAS input = Throw e <->
  e = S2Exn (mkS2ClientError S2C_ERROR_INV_ARG "Invalid Date read from DB")
  /\ mt_year dt = 1969 /\ mt_month dt = 12 /\ mt_day dt = 31
  /\ mt_hour dt = 23 /\ mt_minute dt = 59 /\ mt_second dt = 59.
Proof.
  assert (unix_datetime dt = -1 <->
    mt_year dt = 1969 /\ mt_month dt = 12 /\ mt_day dt = 31
    /\ mt_hour dt = 23 /\ mt_minute dt = 59 /\ mt_second dt = 59) as Hiff.
  { destruct Htime as [Hh Hm Hs Hp]. split.
    - intros Eu.
      assert (gmtime (unix_datetime dt) =
        mkTm (mt_second dt) (mt_minute dt) (mt_hour dt) (mt_day dt)
          (mt_month dt - 1) (mt_year dt - 1900)) as Htm
        by (unfold unix_datetime; apply gmtime_timegm, date_tm_valid; done).
      rewrite Eu in Htm.
      assert (gmtime (-1) = mkTm 59 59 23 31 11 69) as Eg by (vm_compute; done).
      rewrite Eg in Htm. injection Htm. lia.
    - intros (Ey & Emo & Ed & Eh & Emi & Es). unfold unix_datetime.
      rewrite Ey, Emo, Ed, Eh, Emi, Es. vm_compute. done. }
  unfold toDateTimeCAS. rewrite Hread, Done_bind. cbv zeta.
  rewrite timegm_tm_of_datetime by done.
  destruct (Z.eqb_spec (unix_datetime dt) (-1)) as [Eu|Eu].
  - unfold s2_throw. split; [intros [= <-]; tauto|]. intros [-> _]. done.
  - split; [|tauto].
    unfold ino64_of_double. repeat case_match; discriminate.
Qed.

(** A DATETIME before 1960 makes [toDateTimeCAS] convert a negative
    double to the unsigned [ino64_t], which has no meaning in C++. *)
Theorem toDateTimeCAS_before_1960 `{Build} (input : bytes) (dt : MYSQL_TIME)
    (Hread : read_MYSQL_TIME input = Done dt)
    (Hdate : date_valid dt) (Htime : time_of_day_valid dt)
    (Hbefore : mt_year dt < 1960) (Hstd : neg_to_unsigned_wraps = false) :
  toDateTimeCAS input = Undef "double out of the range of ino64_t".
Proof.
  assert (unix_datetime dt + CASshiftSec < 0) as Hneg.
  { rewrite unix_datetime_days. destruct Htime as [Hh Hm Hs Hp].
    assert (sas_days dt < 0); [|unfold dayToSec; lia].
    destruct Hdate as [Hy Hmo Hda]. unfold sas_days, tm_day.
    cbn [tm_mon tm_year tm_mday]. rewrite Z.div_small, Z.mod_small by lia.
    replace (mt_year dt - 1900 + 1900 + 0) with (mt_year dt) by lia.
    pose proof (days_before_month_bound (is_leap (mt_year dt))
      (mt_month dt - 1) ltac:(lia)).
    pose proof (days_before_year_mono (mt_year dt + 1) 1960 ltac:(lia)) as Hle.
    rewrite days_before_year_succ in Hle. unfold days_in_month in Hda. lia. }
  unfold toDateTimeCAS. rewrite Hread, Done_bind. cbv zeta.
  rewrite timegm_tm_of_datetime by done.
  rewrite CASshiftSec_val in Hneg. rewrite zeroTimeCAS_val.
  generalize dependent (unix_datetime dt). intros u Hneg.
  destruct (Z.eqb_spec u (-1)); [lia|].
  unfold ino64_of_double, difftime. rewrite Hstd.
  destruct (Z.leb_spec 0 (u - -315619200)); [lia|]. done.
Qed.

(** A TIME survives the trip to the microsecond and with its sign:
    [fromTimeCAS] prints from the count that [toTimeCAS] stores the same
    hours, minutes, seconds and microseconds. *)
Theorem time_roundtrip (input : bytes) (dt : MYSQL_TIME)
    (Hread : read_MYSQL_TIME input = Done dt)
    (Hhour : 0 <= mt_hour dt < 596523) (Hminute : 0 <= mt_minute dt < 60)
    (Hsecond : 0 <= mt_second dt < 60) (Hpart : 0 <= mt_second_part dt < 1000000) :
  exists n, toTimeCAS input = Done n /\ - 2 ^ 62 < n < 2 ^ 62
            /\ fromTimeCAS n = Done (time_text dt).
Proof.
  set (s := mt_second dt + mt_minute dt * 60 + mt_hour dt * 3600).
  set (v := mt_second_part dt + secToMicroSec * s).
  exists (if mt_neg dt then - v else v).
  assert (0 <= s < 2 ^ 31) as Hs by (subst s; lia).
  assert (0 <= v < 2 ^ 52) as Hv by (subst v; unfold secToMicroSec; lia).
  split_and!; [|destruct (mt_neg dt); lia|destruct (mt_neg dt); lia|].
  - unfold toTimeCAS. rewrite Hread, Done_bind. cbv zeta.
    rewrite (wrap_u_small 32 (mt_minute dt * 60)) by lia.
    rewrite (wrap_u_small 32 (mt_hour dt * 3600)) by lia.
    rewrite (wrap_u_small 32 (mt_second dt + mt_minute dt * 60)) by lia.
    fold s. rewrite (wrap_u_small 32 s) by lia. fold v.
    rewrite wrap_s_of_u, wrap_s_small by lia.
    destruct (mt_neg dt); [|done]. destruct (Z.eqb_spec v (- 2 ^ 63)); [lia|done].
  - unfold fromTimeCAS.
    assert (Z.abs (if mt_neg dt then - v else v) = v) as -> by (destruct (mt_neg dt); lia).
    destruct (Z.eqb_spec (if mt_neg dt then - v else v) (- 2 ^ 63)) as [E|_];
      [destruct (mt_neg dt); lia|].
    assert (Z.quot v secToMicroSec = s /\ Z.rem v secToMicroSec = mt_second_part dt)
      as [-> ->].
    { rewrite Z.rem_mod_nonneg, Z.quot_div_nonneg
        by (unfold secToMicroSec in *; lia).
      subst v. unfold secToMicroSec. split; dlia. }
    rewrite (s32_small s) by lia.
    rewrite (Z.rem_mod_nonneg s), (Z.quot_div_nonneg s) by lia.
    assert (s mod 60 = mt_second dt) as -> by (subst s; dlia).
    assert (s / 60 = mt_minute dt + mt_hour dt * 60) as -> by (subst s; dlia).
    rewrite Z.rem_mod_nonneg, Z.quot_div_nonneg by lia.
    rewrite s32_small by lia.
    replace ((mt_minute dt + mt_hour dt * 60) mod 60) with (mt_minute dt) by dlia.
    replace ((mt_minute dt + mt_hour dt * 60) / 60) with (mt_hour dt) by dlia.
    unfold time_text, micro_text. do 2 f_equal.
    assert (v = 0 <-> mt_hour dt = 0 /\ mt_minute dt = 0 /\ mt_second dt = 0
                      /\ mt_second_part dt = 0) as Hz
      by (subst v s; unfold secToMicroSec; lia).
    destruct (mt_neg dt); cbn [andb];
      [|by rewrite Z.eqb_refl].
    destruct (Z.eqb_spec v (- v)), (Z.eqb_spec (mt_hour dt) 0),
      (Z.eqb_spec (mt_minute dt) 0), (Z.eqb_spec (mt_second dt) 0),
      (Z.eqb_spec (mt_second_part dt) 0); cbn; try done; exfalso; lia.
Qed.

(** ** The round trips at concrete values *)
Definition leap_day : MYSQL_TIME := mkMYSQL_TIME 2024 2 29 23 59 58 123456 false.
Definition last_second_1969 : MYSQL_TIME := mkMYSQL_TIME 1969 12 31 23 59 59 0 false.
Definition before_1960 : MYSQL_TIME := mkMYSQL_TIME 1959 12 31 0 0 0 0 false.

Lemma date_roundtrip_witness :
  exists d, toDateCAS (bytes_of_MYSQL_TIME leap_day) = Done d /\ - 2 ^ 31 < d < 2 ^ 31
            /\ fromDateCAS d = Done "2024-02-29"%string.
Proof.
  apply (date_roundtrip (bytes_of_MYSQL_TIME leap_day) leap_day); [reflexivity|].
  split; vm_compute; split; congruence.
Defined.

Lemma datetime_roundtrip_witness :
  exists n, toDateTimeCAS (H := release_build) (bytes_of_MYSQL_TIME leap_day) = Done n
            /\ - 2 ^ 62 < n < 2 ^ 62
            /\ fromDateTimeCAS n = Done (datetime_text leap_day).
Proof.
  apply (datetime_roundtrip (H := release_build) (bytes_of_MYSQL_TIME leap_day) leap_day);
    [reflexivity|split; vm_compute; split; congruence..|vm_compute; congruence|by right].
Defined.

Lemma toDateTimeCAS_rejects_witness :
  toDateTimeCAS (H := release_build) (bytes_of_MYSQL_TIME last_second_1969) =
  Throw (S2Exn (mkS2ClientError S2C_ERROR_INV_ARG "Invalid Date read from DB")).
Proof.
  apply (toDateTimeCAS_rejects (H := release_build) (bytes_of_MYSQL_TIME last_second_1969)
    last_second_1969); [reflexivity|split; vm_compute; split; congruence..|].
  split_and!; reflexivity.
Defined.

Definition standard_build : Build := {| ndebug := true; neg_to_unsigned_wraps := false |}.

Lemma toDateTimeCAS_before_1960_witness :
  toDateTimeCAS (H := standard_build) (bytes_of_MYSQL_TIME before_1960) =
  Undef "double out of the range of ino64_t".
Proof.
  apply (toDateTimeCAS_before_1960 (H := standard_build) (bytes_of_MYSQL_TIME before_1960)
    before_1960); [reflexivity|split; vm_compute; split; congruence..|reflexivity|reflexivity].
Defined.

Lemma time_roundtrip_witness :
  let dt := mkMYSQL_TIME 0 0 0 838 59 58 999999 true in
  exists n, toTimeCAS (bytes_of_MYSQL_TIME dt) = Done n /\ - 2 ^ 62 < n < 2 ^ 62
            /\ fromTimeCAS n = Done (time_text dt).
Proof.
  intros dt. apply (time_roundtrip (bytes_of_MYSQL_TIME dt) dt); [reflexivity|..];
    vm_compute; split; congruence.
Defined.
