(* ===== verification/SuperChunk.v ===== *)
(** The memory under a chunk: alignment, row sizes and [NewChunk] of
    [hdat/common.hpp], and the class [SuperChunk] of [hdat/super_chunk.hpp],
    which moves an offset over the buffer of a chunk and reads and writes it.
    Every access outside the buffer is [Undef]; the [assert]s are kept and act
    in debug builds. *)

From Stdlib Require Import Ascii String.
From stdpp Require Import base list strings numbers tactics.
From stdpp Require Import options.
From S2P Require Import Prelude Schema.

(** ** hdat/common.hpp *)
Definition defaultAlignmentSize : Z := 8.

Definition NewChunk (ptr : bytes) (size cid partition : Z) : Chunk :=
  mkChunk ptr size 0 0 0 cid partition.

Definition sizeofAligned8 (len : Z) : Z :=
  Z.land (u64 (u64 (len + defaultAlignmentSize) - 1))
    (u64 (Z.lnot (defaultAlignmentSize - 1))).

(** The loop of [rowSize] over the columns and their lengths. *)
Fixpoint rowSize_loop (cols : list Column) (lengths : list Z) (total_size : Z)
    : outcome exn Z :=
  match cols with
  | [] => Done total_size
  | col :: cols =>
      match lengths with
      | [] => Undef "lengths[i] out of bounds"
      | len :: lengths =>
          let size :=
            match col_type col with
            | Variable_ => u64 (len + 2 * defaultAlignmentSize)
            | Fixed => sizeofAligned8 (u64 (col_size col))
            | _ => defaultAlignmentSize
            end in
          rowSize_loop cols lengths (u64 (total_size + size))
      end
  end.

Definition rowSize (schema : RowSchema) (lengths : list Z) : outcome exn Z :=
  rowSize_loop (ColumnInfo schema) lengths 0.

(** ** class SuperChunk *)
Record SuperChunk := mkSuperChunk { m_chunk : Chunk; m_offset : Z }.

Definition SuperChunk_new (chunk : Chunk) : SuperChunk := mkSuperChunk chunk 0.

Definition GetOffset (sc : SuperChunk) : Z := m_offset sc.
Definition GetVariableOffset (sc : SuperChunk) : Z := variable_offset (m_chunk sc).
Definition Size (sc : SuperChunk) : Z := m_size (m_chunk sc).
Definition RowCount (sc : SuperChunk) : Z := row_count (m_chunk sc).

Definition IncrVariableOffset (len : Z) (sc : SuperChunk) : SuperChunk :=
  mkSuperChunk
    (set_variable_offset (u64 (variable_offset (m_chunk sc) + len)) (m_chunk sc))
    (m_offset sc).

Definition IncrRowCount (sc : SuperChunk) : SuperChunk :=
  mkSuperChunk (set_row_count (u64 (row_count (m_chunk sc) + 1)) (m_chunk sc))
    (m_offset sc).

(** Whether [len] bytes at [offset] lie inside the allocated buffer. *)
Definition in_buffer (sc : SuperChunk) (offset len : Z) : bool :=
  (0 <=? offset) && (0 <=? len)
  && (offset + len <=? Z.of_nat (length (m_ptr (m_chunk sc)))).

(** Store [bs] at [offset] and count [n] consumed bytes. *)
Definition store (sc : SuperChunk) (offset : Z) (bs : bytes) : outcome exn SuperChunk :=
  if in_buffer sc offset (Z.of_nat (length bs)) then
    Done (mkSuperChunk (set_m_ptr (splice (m_ptr (m_chunk sc)) offset bs) (m_chunk sc))
            (m_offset sc))
  else Undef "write past the end of the chunk".

Definition consume (n : Z) (sc : SuperChunk) : SuperChunk :=
  mkSuperChunk
    (set_consumed_size (u64 (consumed_size (m_chunk sc) + n)) (m_chunk sc))
    (m_offset sc).

Definition advance (n : Z) (sc : SuperChunk) : SuperChunk :=
  mkSuperChunk (m_chunk sc) (u64 (m_offset sc + n)).

Section operations.
Context `{Build}.

(** [src]: the bytes readable through the pointer, [None] for NULL. *)
Definition WriteAt (offset : Z) (src : option bytes) (len : Z) (sc : SuperChunk)
    : outcome exn SuperChunk :=
  if len =? 0 then Done sc
  else
    _ ← c_assert (bool_decide (is_Some src)) "src";
    _ ← c_assert (offset <? Size sc) "offset < Size()";
    _ ← c_assert (u64 (offset + len) <=? Size sc) "offset + len <= Size()";
    match src with
    | None => Undef "memcpy from NULL"
    | Some s =>
        if len <=? Z.of_nat (length s) then
          sc ← store sc offset (take (Z.to_nat len) s);
          Done (consume len sc)
        else Undef "memcpy reads past the end of the source"
    end.

Definition Write (src : option bytes) (len : Z) (sc : SuperChunk)
    : outcome exn SuperChunk :=
  sc ← WriteAt (m_offset sc) src len sc;
  Done (advance len sc).

(** [fill]: the fill character when [is_fill_needed]. *)
Definition Pad (len : Z) (fill : option ascii) (sc : SuperChunk)
    : outcome exn SuperChunk :=
  sc ← match fill with
       | Some c =>
           if in_buffer sc (m_offset sc) len then
             store sc (m_offset sc) (replicate (Z.to_nat len) c)
           else Undef "memset past the end of the chunk"
       | None => Done sc
       end;
  Done (consume len (advance len sc)).

Definition Write8 (src : option bytes) := Write src 8.
Definition Write4 (src : option bytes) := Write src 4.

(** [val]: the object representation of the value, as a number. *)
Definition WriteTyped (n : nat) (val : Z) (sc : SuperChunk)
    : outcome exn SuperChunk :=
  sc ← store sc (m_offset sc) (le_encode n val);
  Done (advance (Z.of_nat n) (consume (Z.of_nat n) sc)).

Definition Write8Typed (val : Z) := WriteTyped 8 val.
Definition Write4Typed (val : Z) := WriteTyped 4 val.

Definition ReadTyped (n : nat) (sc : SuperChunk) : outcome exn (Z * SuperChunk) :=
  if in_buffer sc (m_offset sc) (Z.of_nat n) then
    Done (le_decode (slice (m_ptr (m_chunk sc)) (m_offset sc) (Z.of_nat n)),
          advance (Z.of_nat n) sc)
  else Undef "read past the end of the chunk".

Definition Read8 (sc : SuperChunk) := ReadTyped 8 sc.
Definition Read4 (sc : SuperChunk) := ReadTyped 4 sc.

(** A pointer into the buffer is the offset it points to. *)
Definition PtrAt (offset : Z) (sc : SuperChunk) : outcome exn Z :=
  _ ← c_assert (offset <? Size sc) "offset < Size()";
  if in_buffer sc offset 0 then Done offset
  else Undef "pointer past the end of the chunk".

(** [None]: false is returned and nothing read. *)
Definition ReadAligned8 (len : Z) (sc : SuperChunk)
    : outcome exn (option (Z * SuperChunk)) :=
  let alignedLen := sizeofAligned8 len in
  if u64 (Size sc - m_offset sc) <? alignedLen then Done None
  else
    p ← PtrAt (m_offset sc) sc;
    Done (Some (p, advance alignedLen sc)).
End operations.

(** ** Alignment *)
Lemma land_align x : 0 <= x < 2 ^ 64 -> Z.land x (2 ^ 64 - 8) = 8 * (x / 8).
Proof.
  intros Hx.
  change (2 ^ 64 - 8) with (Z.ldiff (Z.ones 64) (Z.ones 3)).
  rewrite Z.ldiff_land, Z.land_assoc, <- Z.ldiff_land.
  rewrite Z.land_ones, Z.mod_small by lia.
  rewrite Z.ldiff_ones_r, Z.shiftl_mul_pow2, Z.shiftr_div_pow2 by lia.
  change (2 ^ 3) with 8. lia.
Qed.

(** [sizeofAligned8] rounds up to the next multiple of 8. *)
Lemma sizeofAligned8_spec len :
  0 <= len < 2 ^ 64 - 8 -> sizeofAligned8 len = 8 * ((len + 7) / 8).
Proof.
  intros Hl. unfold sizeofAligned8, defaultAlignmentSize.
  rewrite (wrap_u_small 64 (len + 8)), (wrap_u_small 64 (len + 8 - 1)) by lia.
  change (u64 (Z.lnot (8 - 1))) with (2 ^ 64 - 8).
  rewrite land_align by lia. do 2 f_equal. lia.
Qed.

Lemma sizeofAligned8_bounds len :
  0 <= len < 2 ^ 64 - 8 ->
  len <= sizeofAligned8 len < len + 8 /\ sizeofAligned8 len mod 8 = 0.
Proof. intros. rewrite sizeofAligned8_spec by done. split; dlia. Qed.

(** ** Where a store changes memory, and where not *)
Definition same_layout (sc sc' : SuperChunk) : Prop :=
  length (m_ptr (m_chunk sc')) = length (m_ptr (m_chunk sc))
  /\ m_size (m_chunk sc') = m_size (m_chunk sc)
  /\ id (m_chunk sc') = id (m_chunk sc)
  /\ partition_id (m_chunk sc') = partition_id (m_chunk sc)
  /\ row_count (m_chunk sc') = row_count (m_chunk sc).

Lemma store_Done sc offset bs :
  0 <= offset ->
  offset + Z.of_nat (length bs) <= Z.of_nat (length (m_ptr (m_chunk sc))) ->
  store sc offset bs =
  Done (mkSuperChunk (set_m_ptr (splice (m_ptr (m_chunk sc)) offset bs) (m_chunk sc))
          (m_offset sc)).
Proof.
  intros. unfold store, in_buffer.
  destruct (Z.leb_spec 0 offset), (Z.leb_spec 0 (Z.of_nat (length bs))),
    (Z.leb_spec (offset + Z.of_nat (length bs))
       (Z.of_nat (length (m_ptr (m_chunk sc))))); cbn; try lia; done.
Qed.
