(* ===== verification/ChunkWriter.v ===== *)
(** The class [SuperChunkWriter] of [hdat/chunk_writer.hpp] and
    [hdat/chunk_writer.cpp]: the values of a row are appended to the fixed
    section of a chunk, the bytes of variable-length values to its variable
    section, which grows from the end of the buffer towards the fixed one. *)

From Stdlib Require Import Ascii String.
From stdpp Require Import base list strings numbers tactics.
From stdpp Require Import options.
From S2P Require Import Prelude Schema Text Calendar SuperChunk.

Record SuperChunkWriter := mkWriter {
  m_chunk_size : Z;
  m_row_fixed_size : Z;
  m_column_count : Z;            (* uint32_t *)
  m_current_chunk : SuperChunk;
  m_row_offset : Z;
  m_row_column_count : Z;        (* uint32_t *)
  m_row_schema : RowSchema
}.

(** Also what the constructor does. *)
Definition Reset (chunk : Chunk) (rowSchema : RowSchema) : SuperChunkWriter :=
  mkWriter (m_size chunk) 0 0 (SuperChunk_new chunk) 0 0 rowSchema.

Definition set_chunk (sc : SuperChunk) (w : SuperChunkWriter) : SuperChunkWriter :=
  mkWriter (m_chunk_size w) (m_row_fixed_size w) (m_column_count w) sc
    (m_row_offset w) (m_row_column_count w) (m_row_schema w).

(** An operation of the current chunk, on the writer that holds it. *)
Definition on_chunk (f : SuperChunk -> outcome exn SuperChunk)
    (w : SuperChunkWriter) : outcome exn SuperChunkWriter :=
  sc ← f (m_current_chunk w);
  Done (set_chunk sc w).

Definition RecordColumn (w : SuperChunkWriter) : SuperChunkWriter :=
  mkWriter (m_chunk_size w) (m_row_fixed_size w)
    (if m_row_fixed_size w =? 0 then u32 (m_column_count w + 1)
     else m_column_count w)
    (m_current_chunk w) (m_row_offset w) (u32 (m_row_column_count w + 1))
    (m_row_schema w).

Section writer.
Context `{Build}.

Definition HasEnoughSpace (requestedSize : Z) (w : SuperChunkWriter)
    : outcome exn bool :=
  let sc := m_current_chunk w in
  _ ← c_assert (u64 (GetOffset sc + GetVariableOffset sc) <=? m_chunk_size w)
        "GetOffset() + GetVariableOffset() <= m_chunk_size";
  Done (negb (u64 (u64 (m_chunk_size w - GetVariableOffset sc) - GetOffset sc)
              <? requestedSize)).

Definition WriteFixed (val : option bytes) (data_size field_size : Z)
    (pad_with_zero : bool) (w : SuperChunkWriter)
    : outcome exn SuperChunkWriter :=
  let w := RecordColumn w in
  w ← on_chunk (Write val (u64 data_size)) w;
  let alignedLen := sizeofAligned8 (u64 field_size) in
  on_chunk
    (Pad (u64 (alignedLen - data_size))
       (Some (if pad_with_zero then "000"%char else " "%char))) w.

Definition WriteInt64 (val : option bytes) (w : SuperChunkWriter) :=
  on_chunk (Write8 val) (RecordColumn w).

Definition WriteInt32 (val : option bytes) (w : SuperChunkWriter) :=
  w ← on_chunk (Write4 val) (RecordColumn w);
  on_chunk (Pad 4 None) w.

Definition WriteDouble (val : option bytes) (len : Z) (w : SuperChunkWriter) :=
  on_chunk (Write8 val) (RecordColumn w).

Definition WriteVariable (val : option bytes) (len : Z) (w : SuperChunkWriter)
    : outcome exn SuperChunkWriter :=
  let w := RecordColumn w in
  let w := set_chunk (IncrVariableOffset len (m_current_chunk w)) w in
  w ← on_chunk (Write8Typed (GetVariableOffset (m_current_chunk w))) w;
  w ← on_chunk (Write8Typed len) w;
  on_chunk
    (WriteAt (u64 (m_chunk_size w - GetVariableOffset (m_current_chunk w)))
       val len) w.

Definition WriteInt64Null (w : SuperChunkWriter) :=
  on_chunk (Write8Typed int64Null) (RecordColumn w).

Definition WriteInt32Null (w : SuperChunkWriter) :=
  w ← on_chunk (Write4Typed int32Null) (RecordColumn w);
  on_chunk (Pad 4 None) w.

Definition WriteDoubleNull (w : SuperChunkWriter) :=
  on_chunk (Write8Typed doubleNull) (RecordColumn w).

(** [len] is an [int]; the call converts the column's size to it. *)
Definition WriteFixedNull (len : Z) (w : SuperChunkWriter) :=
  let w := RecordColumn w in
  let alignedLen := sizeofAligned8 (u64 len) in
  on_chunk (Pad alignedLen (Some "000"%char)) w.

Definition WriteVariableNull (w : SuperChunkWriter) := WriteVariable None 0 w.

(** The numeric value is converted to [int64_t]; the argument is one already
    at every call. *)
Definition WriteInt64Numeric (val : Z) (w : SuperChunkWriter) :=
  on_chunk (Write8Typed (s64 val)) (RecordColumn w).

Definition WriteInt32Numeric (val : Z) (w : SuperChunkWriter) :=
  w ← on_chunk (Write4Typed (s32 val)) (RecordColumn w);
  on_chunk (Pad 4 None) w.

(** [val]: the bits of the [double]. *)
Definition WriteFloatNumeric (val : Z) (w : SuperChunkWriter) :=
  on_chunk (Write8Typed val) (RecordColumn w).

Definition WriteRowEnd (w : SuperChunkWriter) : outcome exn SuperChunkWriter :=
  let off := GetOffset (m_current_chunk w) in
  fixed ← (if m_row_fixed_size w =? 0 then
             _ ← c_assert (m_row_offset w =? 0) "m_row_offset == 0";
             Done off
           else Done (m_row_fixed_size w));
  Done (mkWriter (m_chunk_size w) fixed (m_column_count w)
          (IncrRowCount (m_current_chunk w)) off 0 (m_row_schema w)).

(** The body of the loop of [WriteRow]: one column. *)
Definition WriteColumn (column_type : Column) (column_value : option bytes)
    (data_length : Z) (w : SuperChunkWriter) : outcome exn SuperChunkWriter :=
  match col_type column_type with
  | Int64 =>
      match column_value with
      | None => WriteInt64Null w
      | Some _ => WriteInt64 column_value w
      end
  | Int32 =>
      match column_value with
      | None => WriteInt32Null w
      | Some _ => WriteInt32 column_value w
      end
  | DateTime =>
      match column_value with
      | None => WriteInt64Null w
      | Some v => n ← toDateTimeCAS v; WriteInt64Numeric n w
      end
  | Date =>
      match column_value with
      | None => WriteInt32Null w
      | Some v => n ← toDateCAS v; WriteInt32Numeric n w
      end
  | Time =>
      match column_value with
      | None => WriteInt64Null w
      | Some v => n ← toTimeCAS v; WriteInt64Numeric n w
      end
  | Double =>
      match column_value with
      | None => WriteDoubleNull w
      | Some _ => WriteDouble column_value data_length w
      end
  | Fixed =>
      match column_value with
      | None => WriteFixedNull (s32 (col_size column_type)) w
      | Some _ =>
          WriteFixed column_value (s64 data_length) (col_size column_type) false w
      end
  | Variable_ =>
      match column_value with
      | None => WriteVariableNull w
      | Some _ => WriteVariable column_value data_length w
      end
  | Unsupported =>
      s2_throw S2C_ERROR_UNS_DATA_TYPE
        "Trying to write unsupported data type to the chunk. Aborted."
  end.

Fixpoint WriteColumns (cols : list Column) (row : list (option bytes))
    (lengths : list Z) (w : SuperChunkWriter) : outcome exn SuperChunkWriter :=
  match cols with
  | [] => Done w
  | col :: cols =>
      match row, lengths with
      | v :: row, len :: lengths =>
          w ← WriteColumn col v len w;
          WriteColumns cols row lengths w
      | _, _ => Undef "row[i] or lengths[i] out of bounds"
      end
  end.

Definition too_small (w : SuperChunkWriter) (total_size : Z) : string :=
  "chunk size " +:+ to_string (m_chunk_size w)
  +:+ " is too small. Required at least " +:+ to_string total_size.

Definition WriteRow (row : list (option bytes)) (lengths : list Z)
    (w : SuperChunkWriter) : outcome exn (bool * SuperChunkWriter) :=
  total_size ← rowSize (m_row_schema w) lengths;
  enough ← HasEnoughSpace total_size w;
  if negb enough then
    if RowCount (m_current_chunk w) =? 0
    then Throw (InvalidArgument (too_small w total_size))
    else Done (false, w)
  else
    w ← WriteColumns (ColumnInfo (m_row_schema w)) row lengths w;
    w ← WriteRowEnd w;
    Done (true, w).
End writer.

(** ** The functions of [hdat_write_extern.h], for writing from SAS *)
Module Extern.
Section extern.
Context `{Build}.

Definition guarded (needed : Z)
    (f : SuperChunkWriter -> outcome exn SuperChunkWriter)
    (w : SuperChunkWriter) : outcome exn (bool * SuperChunkWriter) :=
  enough ← HasEnoughSpace needed w;
  if negb enough then Done (false, w)
  else w ← f w; Done (true, w).

Definition WriteInt64 (val : Z) :=
  guarded defaultAlignmentSize (WriteInt64Numeric val).

Definition WriteInt32 (val : Z) :=
  guarded defaultAlignmentSize (WriteInt32Numeric val).

Definition WriteDouble (val : Z) :=
  guarded defaultAlignmentSize (WriteFloatNumeric val).

Definition WriteFixed (val : option bytes) (data_size field_size : Z)
    (pad_with_zero : bool) :=
  guarded (sizeofAligned8 (u64 field_size))
    (WriteFixed val data_size field_size pad_with_zero).

(** [space_needed] is an [int], converted back at the call. *)
Definition WriteVariable (val : option bytes) (len : Z) :=
  let space_needed := s32 (u64 (len + 2 * defaultAlignmentSize)) in
  guarded (u64 space_needed) (WriteVariable val len).

Definition WriteRowEnd (w : SuperChunkWriter) := WriteRowEnd w.

Definition ResetWriter (chunk : Chunk) (schema : RowSchema) := Reset chunk schema.

(** [None]: the error callback gets the message and NULL is returned. *)
Definition CreateWriter (chunk : option Chunk) (schema : option RowSchema)
    : SuperChunkWriter + S2ClientError :=
  match chunk, schema with
  | Some c, Some s => inl (Reset c s)
  | _, _ => inr (mkS2ClientError S2C_ERROR_INV_ARG
                   "NULL pointer passed as Chunk* or RowSchema*")
  end.
End extern.
End Extern.

(** ** What no write changes: the identity of the chunk, its size and that of
    its buffer, the schema *)
Definition chunk_identity (c : Chunk) : Z * Z * Z * nat :=
  (m_size c, id c, partition_id c, length (m_ptr c)).

Definition keeps_sc (f : SuperChunk -> outcome exn SuperChunk) : Prop :=
  forall sc sc', f sc = Done sc' ->
  chunk_identity (m_chunk sc') = chunk_identity (m_chunk sc).

Definition identity (w : SuperChunkWriter) : Z * Z * Z * nat * Z * RowSchema :=
  (chunk_identity (m_chunk (m_current_chunk w)), m_chunk_size w, m_row_schema w).

Definition keeps (f : SuperChunkWriter -> outcome exn SuperChunkWriter) : Prop :=
  forall w w', f w = Done w' -> identity w' = identity w.

Section frame.
Context `{Build}.

Lemma keeps_sc_store offset bs sc sc' :
  store sc offset bs = Done sc' -> chunk_identity (m_chunk sc') = chunk_identity (m_chunk sc).
Proof using Type.
  unfold store, in_buffer. destruct (_ && _) eqn:Hb; [|done]. intros [= <-].
  unfold chunk_identity. cbn. rewrite length_splice by lia. done.
Qed.

Lemma keeps_sc_WriteAt offset src len : keeps_sc (WriteAt offset src len).
Proof using Type.
  intros sc sc' E. unfold WriteAt in E. repeat case_match; inv_done; try done.
  match goal with E : store _ _ _ = _ |- _ => by apply keeps_sc_store in E end.
Qed.

Lemma keeps_sc_Write src len : keeps_sc (Write src len).
Proof using Type. intros sc sc' E. unfold Write in E. inv_done. by apply keeps_sc_WriteAt in Hm. Qed.

Lemma keeps_sc_Pad len fill : keeps_sc (Pad len fill).
Proof using Type.
  intros sc sc' E. unfold Pad in E. inv_done. repeat case_match; simplify_eq/=; [|done].
  by apply keeps_sc_store in Hm.
Qed.

Lemma keeps_sc_WriteTyped n val : keeps_sc (WriteTyped n val).
Proof using Type. intros sc sc' E. unfold WriteTyped in E. inv_done. by apply keeps_sc_store in Hm. Qed.

Lemma keeps_on_chunk f : keeps_sc f -> keeps (on_chunk f).
Proof using Type.
  intros Hf w w' E. unfold on_chunk in E. inv_done. unfold identity. cbn.
  by rewrite (Hf _ _ Hm).
Qed.

Lemma keeps_WriteVariable val len : keeps (WriteVariable val len).
Proof using Type.
  intros w w' E. unfold WriteVariable in E. inv_done.
  apply keeps_on_chunk in E; [|apply keeps_sc_WriteAt].
  apply keeps_on_chunk in Hm0; [|apply keeps_sc_WriteTyped].
  apply keeps_on_chunk in Hm; [|apply keeps_sc_WriteTyped].
  by rewrite E, Hm0, Hm.
Qed.

(** One column recorded, one or two operations of the chunk. *)
Lemma keeps_one f : keeps_sc f -> keeps (fun w => on_chunk f (RecordColumn w)).
Proof using Type. intros Hf w w' E. by rewrite (keeps_on_chunk f Hf _ _ E). Qed.

Lemma keeps_two f g :
  keeps_sc f -> keeps_sc g ->
  keeps (fun w => w ← on_chunk f (RecordColumn w); on_chunk g w).
Proof using Type.
  intros Hf Hg w w' E. inv_done.
  by rewrite (keeps_on_chunk g Hg _ _ E), (keeps_on_chunk f Hf _ _ Hm).
Qed.

Lemma keeps_WriteColumn col v len : keeps (WriteColumn col v len).
Proof using Type.
  assert (forall n, keeps (WriteInt64Numeric n)) as H64.
  { intros n. exact (keeps_one _ (keeps_sc_WriteTyped _ _)). }
  assert (forall n, keeps (WriteInt32Numeric n)) as H32.
  { intros n. exact (keeps_two _ _ (keeps_sc_WriteTyped _ _) (keeps_sc_Pad _ _)). }
  intros w w' E. unfold WriteColumn in E. destruct (col_type col), v as [v|].
  - exact (keeps_one _ (keeps_sc_Write _ _) w w' E).
  - exact (keeps_one _ (keeps_sc_WriteTyped _ _) w w' E).
  - exact (keeps_two _ _ (keeps_sc_Write _ _) (keeps_sc_Pad _ _) w w' E).
  - exact (keeps_two _ _ (keeps_sc_WriteTyped _ _) (keeps_sc_Pad _ _) w w' E).
  - exact (keeps_one _ (keeps_sc_Write _ _) w w' E).
  - exact (keeps_one _ (keeps_sc_WriteTyped _ _) w w' E).
  - exact (keeps_WriteVariable _ _ w w' E).
  - exact (keeps_WriteVariable _ _ w w' E).
  - exact (keeps_two _ _ (keeps_sc_Write _ _) (keeps_sc_Pad _ _) w w' E).
  - exact (keeps_one _ (keeps_sc_Pad _ _) w w' E).
  - apply bind_Done in E as (n & _ & E). exact (H64 n w w' E).
  - exact (keeps_one _ (keeps_sc_WriteTyped _ _) w w' E).
  - apply bind_Done in E as (n & _ & E). exact (H32 n w w' E).
  - exact (keeps_two _ _ (keeps_sc_WriteTyped _ _) (keeps_sc_Pad _ _) w w' E).
  - apply bind_Done in E as (n & _ & E). exact (H64 n w w' E).
  - exact (keeps_one _ (keeps_sc_WriteTyped _ _) w w' E).
  - discriminate E.
  - discriminate E.
Qed.

Lemma keeps_WriteColumns cols row lengths : keeps (WriteColumns cols row lengths).
Proof using Type.
  revert row lengths. induction cols as [|c cols IH]; intros [|v row] [|len lengths] w w' E;
    try done; try by injection E as <-.
  cbn [WriteColumns] in E. inv_done. apply IH in E. apply keeps_WriteColumn in Hm. congruence.
Qed.

(** [WriteRow] never changes which chunk it writes to. *)
Lemma WriteRow_keeps row lengths w b w' :
  WriteRow row lengths w = Done (b, w') -> identity w' = identity w.
Proof using Type.
  intros E. unfold WriteRow in E. inv_done. repeat case_match; inv_done; try done.
  match goal with
  | H1 : WriteColumns _ _ _ _ = _, H2 : WriteRowEnd _ = _ |- _ =>
      apply keeps_WriteColumns in H1; rewrite <- H1; clear H1;
      unfold WriteRowEnd in H2; inv_done; done
  end.
Qed.
End frame.
