(* ===== verification/ChunkReader.v ===== *)
(** The class [SuperChunkReader] of [hdat/chunk_reader.hpp] and
    [hdat/chunk_reader.cpp], with [utils::IsNullBuffer] of [utils.cpp]: the
    values of a chunk are read back in the order of the columns. *)

From Stdlib Require Import Ascii String.
From stdpp Require Import base list strings numbers tactics.
From stdpp Require Import options.
From S2P Require Import Prelude Schema SuperChunk.

Record SuperChunkReader := mkReader {
  r_row_schema : RowSchema;
  r_current_chunk : SuperChunk;
  r_error : string
}.

(** Also what the constructor does; a reset reader keeps its error text. *)
Definition Reset_reader (chunk : Chunk) (rowSchema : RowSchema) (err : string)
    : SuperChunkReader :=
  mkReader rowSchema (SuperChunk_new chunk) err.

Definition set_r_chunk (sc : SuperChunk) (r : SuperChunkReader) : SuperChunkReader :=
  mkReader (r_row_schema r) sc (r_error r).
Definition set_r_error (e : string) (r : SuperChunkReader) : SuperChunkReader :=
  mkReader (r_row_schema r) (r_current_chunk r) e.

(** What a read call returns and stores through its out pointers: [false], or
    [true] with the NULL indicator and the value; [rr_out] is [None] where the
    call leaves the out pointer's target as it was. *)
Inductive read_result (A : Type) :=
  | ReadFalse
  | ReadTrue (isnull : bool) (out : option A).
Arguments ReadFalse {A}.
Arguments ReadTrue {A} isnull out.

(** A [double], given by its bits, is a NaN. *)
Definition isnan (b : Z) : bool :=
  (b / 2 ^ 52 mod 2 ^ 11 =? 2047) && negb (b mod 2 ^ 52 =? 0).

(** The loop of [IsNullBuffer]; a buffer that ends first is read past its end. *)
Fixpoint IsNullBuffer_loop (firstChar : ascii) (buff : bytes) (size : Z)
    : outcome exn bool :=
  if size =? 0 then Done true
  else
    match buff with
    | [] => Undef "IsNullBuffer reads past the end of the buffer"
    | c :: buff =>
        if decide (c = firstChar) then IsNullBuffer_loop firstChar buff (size - 1)
        else Done false
    end.

Definition IsNullBuffer (buff : bytes) (size : Z) : outcome exn bool :=
  match buff with
  | [] => Undef "IsNullBuffer reads past the end of the buffer"
  | firstChar :: buff =>
      if decide (firstChar <> " "%char /\ firstChar <> "000"%char) then Done false
      else IsNullBuffer_loop firstChar buff (size - 1)
  end.

Section reader.
Context `{Build}.

(** [offset + len] is a [uint64_t] sum. *)
Definition CanRead (offset len : Z) (r : SuperChunkReader) : bool :=
  u64 (offset + len) <=? Size (r_current_chunk r).

Definition read_fails {A} (msg : string) (r : SuperChunkReader)
    : outcome exn (read_result A * SuperChunkReader) :=
  Done (ReadFalse, set_r_error msg r).

(** Out value: the bits of the [double]. *)
Definition ReadFloat (r : SuperChunkReader)
    : outcome exn (read_result Z * SuperChunkReader) :=
  if negb (CanRead (GetOffset (r_current_chunk r)) 8 r)
  then read_fails "no space available to read Float" r
  else
    '(out, sc) ← Read8 (r_current_chunk r);
    Done (ReadTrue (isnan out) (Some out), set_r_chunk sc r).

Definition ReadInt64 (r : SuperChunkReader)
    : outcome exn (read_result Z * SuperChunkReader) :=
  if negb (CanRead (GetOffset (r_current_chunk r)) 8 r)
  then read_fails "no space available to read Int64" r
  else
    '(bits, sc) ← Read8 (r_current_chunk r);
    let out := s64 bits in
    Done (ReadTrue (out =? int64Null) (Some out), set_r_chunk sc r).

Definition ReadInt32 (r : SuperChunkReader)
    : outcome exn (read_result Z * SuperChunkReader) :=
  if negb (CanRead (GetOffset (r_current_chunk r)) 8 r)
  then read_fails "no space available to read Int32" r
  else
    '(bits, sc) ← Read4 (r_current_chunk r);
    sc ← Pad 4 None sc;
    let out := s32 bits in
    Done (ReadTrue (out =? int32Null) (Some out), set_r_chunk sc r).

(** Out value: the pointer, as an offset into the chunk, and the length. *)
Definition ReadVariable (r : SuperChunkReader)
    : outcome exn (read_result (Z * Z) * SuperChunkReader) :=
  if negb (CanRead (GetOffset (r_current_chunk r)) 16 r)
  then read_fails "no space available to read Variable length and offset" r
  else
    '(offset, sc) ← Read8 (r_current_chunk r);
    _ ← c_assert (negb (offset =? 0)) "offset";
    '(len, sc) ← Read8 sc;
    let r := set_r_chunk sc r in
    if len =? 0 then Done (ReadTrue true None, r)
    else
      let offset := u64 (Size sc - offset) in
      if negb (CanRead offset len r)
      then read_fails "no space available to read Variable" r
      else
        p ← PtrAt offset sc;
        Done (ReadTrue false (Some (p, len)), r).

(** Out value: the pointer, as an offset into the chunk. *)
Definition ReadFixed (len : Z) (r : SuperChunkReader)
    : outcome exn (read_result Z * SuperChunkReader) :=
  if len =? 0 then Done (ReadTrue true None, r)
  else
    res ← ReadAligned8 len (r_current_chunk r);
    match res with
    | None => Done (ReadFalse, r)
    | Some (p, sc) =>
        isnull ← IsNullBuffer (drop (Z.to_nat p) (m_ptr (m_chunk sc))) (s32 len);
        Done (ReadTrue isnull (Some p), set_r_chunk sc r)
    end.

Definition GetError (r : SuperChunkReader) : string := r_error r.

(** [std::string(buf, len)] of a pointer into the chunk. *)
Definition string_at (p len : Z) (r : SuperChunkReader) : outcome exn bytes :=
  if in_buffer (r_current_chunk r) p len then
    Done (slice (m_ptr (m_chunk (r_current_chunk r))) p len)
  else Undef "string past the end of the chunk".

Definition CreateReader (chunk : option Chunk) (schema : RowSchema)
    : SuperChunkReader + S2ClientError :=
  match chunk with
  | Some c => inl (Reset_reader c schema EmptyString)
  | None => inr (mkS2ClientError S2C_ERROR_INV_ARG "NULL pointer passed as Chunk*")
  end.
End reader.

(** The exported readers of [hdat_read_extern.h]. *)
Module Extern.
Definition ResetReader (chunk : Chunk) (schema : RowSchema) (reader : SuperChunkReader)
    : SuperChunkReader :=
  Reset_reader chunk schema (r_error reader).
Definition ReadInt64 (reader : SuperChunkReader)
    : outcome exn (read_result Z * SuperChunkReader) := ReadInt64 reader.
Definition ReadInt32 (reader : SuperChunkReader)
    : outcome exn (read_result Z * SuperChunkReader) := ReadInt32 reader.
Definition ReadFloat (reader : SuperChunkReader)
    : outcome exn (read_result Z * SuperChunkReader) := ReadFloat reader.
Definition ReadFixed `{Build} (len : Z) (reader : SuperChunkReader)
    : outcome exn (read_result Z * SuperChunkReader) := ReadFixed len reader.
Definition ReadVariable `{Build} (reader : SuperChunkReader)
    : outcome exn (read_result (Z * Z) * SuperChunkReader) := ReadVariable reader.
End Extern.

(** ** IsNullBuffer recognises exactly the buffers of one repeated NULL byte *)
Definition all_bytes (c : ascii) (l : bytes) : bool := forallb (fun b => bool_decide (b = c)) l.

Lemma IsNullBuffer_loop_spec c buff size :
  0 <= size <= Z.of_nat (length buff) ->
  IsNullBuffer_loop c buff size = Done (all_bytes c (take (Z.to_nat size) buff)).
Proof.
  revert size. induction buff as [|b buff IH]; intros size Hs; cbn in Hs.
  { assert (size = 0) as -> by lia. done. }
  cbn [IsNullBuffer_loop]. destruct (Z.eqb_spec size 0) as [->|Hne]; [done|].
  replace (Z.to_nat size) with (S (Z.to_nat (size - 1))) by lia.
  cbn [take]. unfold all_bytes in *. cbn [forallb].
  destruct (decide (b = c)) as [->|Hb].
  - rewrite bool_decide_true by done. by rewrite IH by lia.
  - by rewrite bool_decide_false.
Qed.

(** A buffer is NULL when its bytes are all spaces or all zeros. *)
Definition null_bytes (l : bytes) : bool :=
  all_bytes " "%char l || all_bytes "000"%char l.

Lemma IsNullBuffer_spec buff size :
  0 < size <= Z.of_nat (length buff) ->
  IsNullBuffer buff size = Done (null_bytes (take (Z.to_nat size) buff)).
Proof.
  intros Hs. destruct buff as [|c buff]; cbn in Hs; [lia|].
  unfold IsNullBuffer, null_bytes.
  replace (Z.to_nat size) with (S (Z.to_nat (size - 1))) by lia.
  rewrite IsNullBuffer_loop_spec by lia.
  cbn [take]. unfold all_bytes. cbn [forallb].
  destruct (decide (c = " "%char)) as [->|Ha].
  - rewrite decide_False by naive_solver.
    rewrite bool_decide_true, bool_decide_false by done.
    cbn. by rewrite orb_false_r.
  - rewrite bool_decide_false by done. cbn.
    destruct (decide (c = "000"%char)) as [->|Hb].
    + by rewrite decide_False by naive_solver.
    + by rewrite decide_True, bool_decide_false.
Qed.
