(* ===== verification/ChunkFormat.v ===== *)
(** The layout of a chunk, and that reading a chunk inverts writing it.

    [field_at] says what a reader finds at a position of the fixed section;
    the specifications of [WriteColumn] and [WriteRow] establish it and keep
    it for everything written before, the specification of the read functions
    consumes it. *)

From Stdlib Require Import Ascii String.
From stdpp Require Import base list strings numbers tactics.
From stdpp Require Import options.
From S2P Require Import Prelude Schema Text Calendar SuperChunk ChunkWriter ChunkReader.

(** ** What one value of a chunk is, to a reader *)
Inductive field :=
  | FNull
  | FNum (z : Z)          (* a number; a double as its bits *)
  | FBytes (l : bytes).

#[export] Instance field_eq_dec : EqDecision field.
Proof. solve_decision. Defined.

Definition field_int64 (n : Z) : field := if n =? int64Null then FNull else FNum n.
Definition field_int32 (n : Z) : field := if n =? int32Null then FNull else FNum n.
Definition field_double (b : Z) : field := if isnan b then FNull else FNum b.
Definition field_fixed (l : bytes) : field :=
  if null_bytes l then FNull else FBytes l.
Definition field_variable (l : bytes) : field :=
  match l with [] => FNull | _ => FBytes l end.

(** The reader's view of a cell that is fetched from the database: a NULL cell
    has no value, numbers are the native ones, dates and times go through the
    conversions, a fixed-length text is padded with spaces up to its size. *)
Definition field_of `{Build} (col : Column) (v : option bytes) (len : Z)
    : outcome exn field :=
  match v with
  | None =>
      match col_type col with
      | Unsupported =>
          s2_throw S2C_ERROR_UNS_DATA_TYPE
            "Trying to write unsupported data type to the chunk. Aborted."
      | _ => Done FNull
      end
  | Some b =>
      match col_type col with
      | Int64 => Done (field_int64 (s64 (le_decode (take 8 b))))
      | Int32 => Done (field_int32 (s32 (le_decode (take 4 b))))
      | Double => Done (field_double (le_decode (take 8 b)))
      | Variable_ => Done (field_variable (take (Z.to_nat len) b))
      | Fixed =>
          Done (field_fixed (take (Z.to_nat (col_size col))
            (take (Z.to_nat len) b ++ replicate (Z.to_nat (col_size col)) " "%char)))
      | Time => n ← toTimeCAS b; Done (field_int64 (s64 n))
      | DateTime => n ← toDateTimeCAS b; Done (field_int64 (s64 n))
      | Date => n ← toDateCAS b; Done (field_int32 (s32 n))
      | Unsupported =>
          s2_throw S2C_ERROR_UNS_DATA_TYPE
            "Trying to write unsupported data type to the chunk. Aborted."
      end
  end.

(** Cells as the connection provides them: a buffer of the type's width, the
    length of a string, and a text of a fixed-length column no longer than it. *)
Definition cell_ok (col : Column) (v : option bytes) (len : Z) : Prop :=
  0 <= len < 2 ^ 61 /\
  match col_type col, v with
  | Fixed, None => 0 < col_size col < 2 ^ 31
  | Fixed, Some b =>
      0 < col_size col < 2 ^ 31 /\ len <= col_size col
      /\ len <= Z.of_nat (length b)
  | Variable_, Some b => len <= Z.of_nat (length b)
  | (Int64 | Double), Some b => 8 <= Z.of_nat (length b)
  | Int32, Some b => 4 <= Z.of_nat (length b)
  | _, _ => True
  end.

(** Bytes of a column in the fixed section, and in the variable one. *)
Definition fixed_len (col : Column) : Z :=
  match col_type col with
  | Variable_ => 16
  | Fixed => sizeofAligned8 (u64 (col_size col))
  | _ => 8
  end.

Definition var_len (col : Column) (v : option bytes) (len : Z) : Z :=
  match col_type col, v with Variable_, Some _ => len | _, _ => 0 end.

Fixpoint fixed_row (cols : list Column) : Z :=
  match cols with [] => 0 | c :: cols => fixed_len c + fixed_row cols end.

(** ** What a reader finds at [pos] of the memory of a chunk whose variable
    section has [vob] bytes *)
Definition field_at (mem : bytes) (vob pos : Z) (col : Column) (f : field) : Prop :=
  match col_type col with
  | Int64 | Time | DateTime =>
      f = field_int64 (s64 (le_decode (slice mem pos 8)))
  | Int32 | Date => f = field_int32 (s32 (le_decode (slice mem pos 4)))
  | Double => f = field_double (le_decode (slice mem pos 8))
  | Fixed =>
      0 < col_size col < 2 ^ 31 /\ f = field_fixed (slice mem pos (col_size col))
  | Variable_ =>
      exists vo len, 0 <= len <= vo /\ vo <= vob
        /\ le_decode (slice mem pos 8) = vo
        /\ le_decode (slice mem (pos + 8) 8) = len
        /\ f = field_variable (slice mem (Z.of_nat (length mem) - vo) len)
  | Unsupported => False
  end.

Fixpoint fields_at (mem : bytes) (vob pos : Z) (cols : list Column)
    (fs : list field) : Prop :=
  match cols, fs with
  | [], [] => True
  | col :: cols, f :: fs =>
      field_at mem vob pos col f /\ fields_at mem vob (pos + fixed_len col) cols fs
  | _, _ => False
  end.

Fixpoint rows_at (mem : bytes) (vob pos : Z) (cols : list Column)
    (rows : list (list field)) : Prop :=
  match rows with
  | [] => True
  | fs :: rows =>
      fields_at mem vob pos cols fs
      /\ rows_at mem vob (pos + fixed_row cols) cols rows
  end.

(** The size of a column is within what the alignment arithmetic covers. *)
Definition col_ok (col : Column) : Prop :=
  col_type col = Fixed -> 0 < col_size col < 2 ^ 31.

Lemma fixed_len_bounds col :
  col_ok col -> 8 <= fixed_len col < 2 ^ 32
  /\ (col_type col = Fixed -> col_size col <= fixed_len col).
Proof.
  unfold col_ok, fixed_len. intros Hc.
  destruct (col_type col); try (split; [lia|done]).
  specialize (Hc eq_refl). rewrite wrap_u_small by lia.
  pose proof (sizeofAligned8_bounds (col_size col) ltac:(lia)) as [Hb Hm].
  split; [|lia]. split; [|lia].
  rewrite sizeofAligned8_spec in * by lia. dlia.
Qed.

Lemma field_at_agree mem mem' off tail vob vob' pos col f :
  agree off tail mem mem' -> col_ok col -> 0 <= pos ->
  pos + fixed_len col <= off -> tail = Z.of_nat (length mem) - vob ->
  0 <= tail -> vob <= vob' ->
  field_at mem vob pos col f -> field_at mem' vob' pos col f.
Proof.
  intros Ha Hc Hp Ho Ht Ht0 Hv Hf.
  destruct (fixed_len_bounds col Hc) as [Hl Hs].
  assert (forall n, n <= fixed_len col -> slice mem' pos n = slice mem pos n) as Hsl.
  { intros n Hn. eapply agree_slice; [done|done|]. lia. }
  unfold field_at in *. destruct (col_type col) eqn:Ety;
    rewrite ?Hsl by lia; try done.
  - destruct Hf as (vo & len & Hlen & Hvo & E1 & E2 & ->).
    exists vo, len. split; [done|]. split; [lia|].
    assert (fixed_len col = 16) as E16 by (unfold fixed_len; by rewrite Ety).
    split; [done|]. split.
    + rewrite (agree_slice off tail mem mem') by (done || lia). done.
    + destruct Ha as [El Ha]. rewrite El. f_equal. symmetry.
      eapply (agree_slice off tail); [by split|lia|lia].
  - destruct Hf as [Hsz ->]. split; [done|]. rewrite Hsl; [done|]. by apply Hs.
Qed.

Lemma fixed_row_nonneg cols : Forall col_ok cols -> 0 <= fixed_row cols.
Proof.
  induction 1 as [|c cs Hc _ IH]; cbn; [lia|].
  pose proof (fixed_len_bounds c Hc). lia.
Qed.

Lemma fields_at_agree mem mem' off tail vob vob' pos cols fs :
  agree off tail mem mem' -> Forall col_ok cols -> 0 <= pos ->
  pos + fixed_row cols <= off -> tail = Z.of_nat (length mem) - vob ->
  0 <= tail -> vob <= vob' ->
  fields_at mem vob pos cols fs -> fields_at mem' vob' pos cols fs.
Proof.
  intros Ha Hcs. revert pos fs.
  induction Hcs as [|col cols Hc Hcs IH]; intros pos fs Hp Ho Ht Ht0 Hv Hf;
    destruct fs as [|f fs]; try done. cbn in *.
  destruct Hf as [Hf Hfs]. destruct (fixed_len_bounds col Hc) as [Hl _].
  pose proof (fixed_row_nonneg cols Hcs).
  split; [eapply field_at_agree; try done; lia|]. apply IH; try done; lia.
Qed.

Lemma rows_at_agree mem mem' off tail vob vob' pos cols rows :
  agree off tail mem mem' -> Forall col_ok cols -> 0 <= pos ->
  pos + Z.of_nat (length rows) * fixed_row cols <= off ->
  tail = Z.of_nat (length mem) - vob -> 0 <= tail -> vob <= vob' ->
  rows_at mem vob pos cols rows -> rows_at mem' vob' pos cols rows.
Proof.
  intros Ha Hcs. pose proof (fixed_row_nonneg cols Hcs). revert pos.
  induction rows as [|fs rows IH]; intros pos Hp Ho Ht Ht0 Hv Hf; [done|].
  cbn in *. destruct Hf as [Hf Hfs]. split.
  - eapply fields_at_agree; try done. nia.
  - apply IH; try done; [lia|]. nia.
Qed.

Lemma rows_at_snoc mem vob pos cols rows fs :
  rows_at mem vob pos cols (rows ++ [fs]) <->
  rows_at mem vob pos cols rows
  /\ fields_at mem vob (pos + Z.of_nat (length rows) * fixed_row cols) cols fs.
Proof.
  revert pos. induction rows as [|r rows IH]; intros pos.
  - cbn. rewrite Z.add_0_r. tauto.
  - cbn [app rows_at length]. rewrite IH.
    replace (pos + fixed_row cols + Z.of_nat (length rows) * fixed_row cols)
      with (pos + Z.of_nat (S (length rows)) * fixed_row cols) by lia. tauto.
Qed.

(** ** Writing to the fixed section *)
Abbreviation mem_of sc := (m_ptr (m_chunk sc)).
Abbreviation voff sc := (variable_offset (m_chunk sc)).

(** A chunk between two writes: the two sections do not overlap, and the bytes
    counted as consumed are the bytes of the two sections, less the [pend]
    bytes that are reserved in the variable section and not yet stored. *)
Record sc_geo (pend : Z) (sc : SuperChunk) : Prop := {
  sw_len : Z.of_nat (length (mem_of sc)) = m_size (m_chunk sc);
  sw_size : 0 <= m_size (m_chunk sc) < 2 ^ 62;
  sw_off : 0 <= m_offset sc;
  sw_voff : 0 <= pend <= voff sc;
  sw_fit : m_offset sc + voff sc <= m_size (m_chunk sc);
  sw_consumed : consumed_size (m_chunk sc) = m_offset sc + voff sc - pend
}.

Abbreviation sc_wf := (sc_geo 0).

(** [bs] appended to the fixed section. *)
Definition put (bs : bytes) (sc : SuperChunk) : SuperChunk :=
  mkSuperChunk
    (set_consumed_size (consumed_size (m_chunk sc) + Z.of_nat (length bs))
       (set_m_ptr (splice (mem_of sc) (m_offset sc) bs) (m_chunk sc)))
    (m_offset sc + Z.of_nat (length bs)).

(** [n] bytes of the fixed section skipped. *)
Definition skip (n : Z) (sc : SuperChunk) : SuperChunk :=
  mkSuperChunk
    (set_consumed_size (consumed_size (m_chunk sc) + n) (m_chunk sc))
    (m_offset sc + n).

(** [room n sc]: [n] more bytes fit between the sections. *)
Definition room (n : Z) (sc : SuperChunk) : Prop :=
  m_offset sc + n + voff sc <= m_size (m_chunk sc).

Lemma put_wf pend bs sc :
  sc_geo pend sc -> room (Z.of_nat (length bs)) sc -> sc_geo pend (put bs sc).
Proof.
  intros [] Hr. unfold room in Hr. split; cbn; try lia.
  rewrite length_splice by lia. done.
Qed.

Lemma skip_wf n sc : sc_wf sc -> 0 <= n -> room n sc -> sc_wf (skip n sc).
Proof. intros [] Hn Hr. unfold room in Hr. split; cbn; try lia; done. Qed.

Lemma room_put n bs sc :
  room (n + Z.of_nat (length bs)) sc -> room n (put bs sc).
Proof. unfold room; cbn. lia. Qed.

Lemma put_agree pend bs sc tail :
  sc_geo pend sc -> room (Z.of_nat (length bs)) sc ->
  tail = m_size (m_chunk sc) - voff sc ->
  agree (m_offset sc) tail (mem_of sc) (mem_of (put bs sc)).
Proof. intros [] Hr ->. unfold room in Hr. apply agree_splice; lia. Qed.

Lemma put_slice pend bs sc :
  sc_geo pend sc -> room (Z.of_nat (length bs)) sc ->
  slice (mem_of (put bs sc)) (m_offset sc) (Z.of_nat (length bs)) = bs.
Proof. intros [] Hr. unfold room in Hr. cbn. apply slice_splice_eq; lia. Qed.

Section writes.
Context `{Build}.

Lemma Write_put s len sc :
  sc_wf sc -> 0 <= len <= Z.of_nat (length s) -> room len sc ->
  Write (Some s) len sc = Done (put (take (Z.to_nat len) s) sc).
Proof using Type.
  intros [] Hl Hr. unfold room in Hr.
  assert (Z.of_nat (length (take (Z.to_nat len) s)) = len) as El
    by (rewrite length_take; lia).
  unfold Write, WriteAt.
  destruct (Z.eqb_spec len 0) as [->|Hne].
  - rewrite Done_bind. change (Z.to_nat 0) with 0%nat. rewrite take_0.
    unfold advance, put. destruct sc as [c off].
    cbn in *. rewrite splice_nil, wrap_u_small by lia. destruct c.
    unfold set_consumed_size, set_m_ptr. cbn. do 3 f_equal. lia.
  - rewrite (c_assert_true (bool_decide _)) by by apply bool_decide_true.
    rewrite Done_bind.
    rewrite (c_assert_true (_ <? _)) by (unfold Size; lia). rewrite Done_bind.
    rewrite c_assert_true by (rewrite wrap_u_small by lia; unfold Size; lia).
    rewrite Done_bind.
    destruct (Z.leb_spec len (Z.of_nat (length s))); [|lia].
    rewrite store_Done by lia. rewrite !Done_bind.
    unfold put, consume, advance; cbn. rewrite !wrap_u_small, El by lia. done.
Qed.

Lemma WriteTyped_put pend n val sc :
  sc_geo pend sc -> room (Z.of_nat n) sc -> (n < 100)%nat ->
  WriteTyped n val sc = Done (put (le_encode n val) sc).
Proof using Type.
  intros [] Hr Hn. unfold room in Hr. unfold WriteTyped.
  rewrite store_Done by (rewrite ?length_le_encode; lia). rewrite Done_bind.
  unfold put, consume, advance; cbn.
  by rewrite !wrap_u_small, length_le_encode by lia.
Qed.

Lemma Pad_fill_put n c sc :
  sc_wf sc -> 0 <= n -> room n sc ->
  Pad n (Some c) sc = Done (put (replicate (Z.to_nat n) c) sc).
Proof using Type.
  intros [] Hn Hr. unfold room in Hr. unfold Pad.
  assert (in_buffer sc (m_offset sc) n = true) as -> by (unfold in_buffer; lia).
  rewrite store_Done by (rewrite ?length_replicate; lia). rewrite Done_bind.
  unfold put, consume, advance; cbn. rewrite length_replicate.
  rewrite !wrap_u_small by lia. do 3 f_equal; lia.
Qed.

Lemma Pad_skip n sc :
  sc_wf sc -> 0 <= n -> room n sc -> Pad n None sc = Done (skip n sc).
Proof using Type.
  intros [] Hn Hr. unfold room in Hr. unfold Pad. rewrite Done_bind.
  unfold skip, consume, advance; cbn. by rewrite !wrap_u_small by lia.
Qed.
End writes.

(** What writing one column leaves behind. *)
Record col_written (col : Column) (f : field) (dv : Z) (sc sc' : SuperChunk)
    : Prop := {
  cw_wf : sc_wf sc';
  cw_off : m_offset sc' = m_offset sc + fixed_len col;
  cw_voff : voff sc' = voff sc + dv;
  cw_layout : same_layout sc sc';
  cw_agree : agree (m_offset sc) (m_size (m_chunk sc) - voff sc)
               (mem_of sc) (mem_of sc');
  cw_field : field_at (mem_of sc') (voff sc') (m_offset sc) col f
}.

Lemma same_layout_put pend bs sc :
  sc_geo pend sc -> room (Z.of_nat (length bs)) sc -> same_layout sc (put bs sc).
Proof.
  intros [] Hr. unfold room in Hr. unfold same_layout; cbn.
  by rewrite length_splice by lia.
Qed.

(** A fixed-width value that is one write. *)
Lemma put_col_written col f bs sc :
  sc_wf sc -> room (fixed_len col) sc ->
  Z.of_nat (length bs) = fixed_len col -> col_type col <> Variable_ ->
  (forall mem vob, slice mem (m_offset sc) (fixed_len col) = bs ->
     field_at mem vob (m_offset sc) col f) ->
  col_written col f 0 sc (put bs sc).
Proof.
  intros Hwf Hr Hl Hnv Hf. rewrite <- Hl in Hr. split; cbn.
  - by eapply put_wf.
  - lia.
  - lia.
  - by eapply same_layout_put.
  - by eapply put_agree.
  - apply Hf. rewrite <- Hl. by eapply put_slice.
Qed.

(** A 4-byte value and 4 bytes of padding. *)
Lemma put_skip_col_written col f bs sc :
  sc_wf sc -> room 8 sc -> fixed_len col = 8 -> length bs = 4%nat ->
  (forall mem vob, slice mem (m_offset sc) 4 = bs ->
     field_at mem vob (m_offset sc) col f) ->
  col_written col f 0 sc (skip 4 (put bs sc)).
Proof.
  intros Hwf Hr H8 Hl Hf.
  assert (room (Z.of_nat (length bs)) sc) as Hr4 by (unfold room in *; lia).
  split.
  - apply skip_wf; [by eapply put_wf|lia|unfold room in *; cbn; lia].
  - cbn. lia.
  - cbn. lia.
  - exact (same_layout_put 0 bs sc Hwf Hr4).
  - exact (put_agree 0 bs sc _ Hwf Hr4 eq_refl).
  - apply Hf. replace 4 with (Z.of_nat (length bs)) by lia.
    exact (put_slice 0 bs sc Hwf Hr4).
Qed.

(** ** Two writes in a row are one *)
Lemma splice_splice {A} (l a b : list A) pos :
  0 <= pos -> pos + Z.of_nat (length a + length b) <= Z.of_nat (length l) ->
  splice (splice l pos a) (pos + Z.of_nat (length a)) b = splice l pos (a ++ b).
Proof.
  intros Hp Hl. unfold splice. rewrite Z2Nat.inj_add, Nat2Z.id by lia.
  rewrite take_app_ge, length_take, Nat.min_l by (rewrite ?length_take; lia).
  rewrite (take_app_le a) by lia.
  rewrite (take_ge a) by lia.
  rewrite drop_app_ge, length_take, Nat.min_l by (rewrite ?length_take; lia).
  rewrite drop_app_ge by lia. rewrite drop_drop, length_app, <- !app_assoc.
  do 4 f_equal. lia.
Qed.

Lemma put_put pend a b sc :
  sc_geo pend sc -> room (Z.of_nat (length (a ++ b))) sc ->
  put b (put a sc) = put (a ++ b) sc.
Proof.
  intros [] Hr. unfold room in Hr. rewrite length_app in Hr.
  unfold put; cbn. rewrite splice_splice, length_app by lia.
  unfold set_consumed_size, set_m_ptr; cbn. f_equal; [f_equal|]; lia.
Qed.

Lemma take_app_replicate {A} (l : list A) n m m' x :
  (n <= length l + m)%nat -> (n <= length l + m')%nat ->
  take n (l ++ replicate m x) = take n (l ++ replicate m' x).
Proof.
  intros. rewrite !take_app. f_equal. rewrite !take_replicate. f_equal. lia.
Qed.

Lemma null_bytes_zeros n : null_bytes (replicate n "000"%char) = true.
Proof.
  unfold null_bytes. apply orb_true_intro. right. unfold all_bytes.
  induction n as [|n IH]; cbn; [done|]. by rewrite bool_decide_true.
Qed.

(** ** One column *)

(** The parts of a writer that writing a column leaves alone. *)
Record row_frame (w w' : SuperChunkWriter) : Prop := {
  rf_size : m_chunk_size w' = m_chunk_size w;
  rf_fixed : m_row_fixed_size w' = m_row_fixed_size w;
  rf_row_offset : m_row_offset w' = m_row_offset w;
  rf_schema : m_row_schema w' = m_row_schema w
}.

#[export] Instance row_frame_preorder : PreOrder row_frame.
Proof. split; [done|]. intros ??? [] []. split; congruence. Qed.

Lemma row_frame_RecordColumn w sc : row_frame w (set_chunk sc (RecordColumn w)).
Proof. done. Qed.

(** [m], started on [w], writes the field [f] of column [col]. *)
Definition writes (col : Column) (f : field) (dv : Z) (w : SuperChunkWriter)
    (m : outcome exn SuperChunkWriter) : Prop :=
  exists w', m = Done w' /\ row_frame w w'
    /\ col_written col f dv (m_current_chunk w) (m_current_chunk w').

Lemma on_chunk_on_chunk f g w :
  on_chunk f w ≫= on_chunk g = on_chunk (fun sc => f sc ≫= g) w.
Proof. unfold on_chunk. by destruct (f (m_current_chunk w)). Qed.

Lemma on_chunk_Done op w sc' :
  op (m_current_chunk w) = Done sc' -> on_chunk op w = Done (set_chunk sc' w).
Proof. intros E. unfold on_chunk. by rewrite E. Qed.

Lemma writes_on_chunk col f w op sc' :
  op (m_current_chunk w) = Done sc' ->
  col_written col f 0 (m_current_chunk w) sc' ->
  writes col f 0 w (on_chunk op (RecordColumn w)).
Proof.
  intros E Hc. unfold on_chunk. cbn [RecordColumn m_current_chunk]. rewrite E.
  eexists. split; [done|]. by split.
Qed.

Lemma s64_encode val : s64 (le_decode (le_encode 8 val)) = s64 val.
Proof. rewrite le_decode_encode. by apply (wrap_s_of_u 64). Qed.

Lemma s32_encode val : s32 (le_decode (le_encode 4 val)) = s32 val.
Proof. rewrite le_decode_encode. by apply (wrap_s_of_u 32). Qed.

Definition is_int64 (t : ColumnType) : bool :=
  match t with Int64 | Time | DateTime => true | _ => false end.
Definition is_int32 (t : ColumnType) : bool :=
  match t with Int32 | Date => true | _ => false end.

Section columns.
Context `{Build}.

Lemma int64_written col bs sc :
  sc_wf sc -> room 8 sc -> length bs = 8%nat -> is_int64 (col_type col) ->
  col_written col (field_int64 (s64 (le_decode bs))) 0 sc (put bs sc).
Proof using Type.
  intros Hwf Hr Hl Ht.
  assert (fixed_len col = 8) as H8 by (unfold fixed_len; by destruct (col_type col)).
  apply put_col_written; rewrite ?H8; [done|done|lia|by intros E; rewrite E in Ht|].
  intros mem vob <-. unfold field_at. by destruct (col_type col).
Qed.

Lemma int32_written col bs sc :
  sc_wf sc -> room 8 sc -> length bs = 4%nat -> is_int32 (col_type col) ->
  col_written col (field_int32 (s32 (le_decode bs))) 0 sc (skip 4 (put bs sc)).
Proof using Type.
  intros Hwf Hr Hl Ht.
  apply put_skip_col_written; [done..| |done|].
  - unfold fixed_len. by destruct (col_type col).
  - intros mem vob <-. unfold field_at. by destruct (col_type col).
Qed.

Lemma double_written col bs sc :
  sc_wf sc -> room 8 sc -> length bs = 8%nat -> col_type col = Double ->
  col_written col (field_double (le_decode bs)) 0 sc (put bs sc).
Proof using Type.
  intros Hwf Hr Hl Ht.
  assert (fixed_len col = 8) as H8 by (unfold fixed_len; by rewrite Ht).
  apply put_col_written; rewrite ?H8, ?Ht; [done|done|lia|done|].
  intros mem vob <-. unfold field_at. by rewrite Ht.
Qed.

Lemma fixed_written col bs sc :
  sc_wf sc -> room (fixed_len col) sc -> col_ok col ->
  Z.of_nat (length bs) = fixed_len col -> col_type col = Fixed ->
  col_written col (field_fixed (take (Z.to_nat (col_size col)) bs)) 0 sc (put bs sc).
Proof using Type.
  intros Hwf Hr Hc Hl Ht. destruct (fixed_len_bounds col Hc) as [_ Hs].
  apply put_col_written; rewrite ?Ht; [done..|].
  intros mem vob <-. unfold field_at. rewrite Ht. specialize (Hc Ht).
  split; [done|]. rewrite slice_prefix; [done|]. specialize (Hs Ht). lia.
Qed.

(** The 4 bytes of a number, then 4 bytes of padding. *)
Lemma Write4Typed_Pad val sc :
  sc_wf sc -> room 8 sc ->
  (Write4Typed val sc ≫= Pad 4 None) = Done (skip 4 (put (le_encode 4 val) sc)).
Proof using Type.
  intros Hwf Hr. unfold Write4Typed.
  erewrite WriteTyped_put by (done || (unfold room in *; lia)).
  rewrite Done_bind. apply Pad_skip; [|done|].
  - eapply put_wf; [done|]. rewrite length_le_encode. unfold room in *; lia.
  - apply room_put. by rewrite length_le_encode.
Qed.

Lemma Write4_Pad s sc :
  sc_wf sc -> room 8 sc -> 4 <= Z.of_nat (length s) ->
  (Write4 (Some s) sc ≫= Pad 4 None) = Done (skip 4 (put (take 4 s) sc)).
Proof using Type.
  intros Hwf Hr Hs. unfold Write4.
  rewrite Write_put by (done || (unfold room in *; lia)).
  assert (length (take 4 s) = 4%nat) as El
    by (rewrite length_take; lia).
  rewrite Done_bind. apply Pad_skip; [|done|].
  - eapply put_wf; [done|]. rewrite El. unfold room in *; lia.
  - apply room_put. by rewrite El.
Qed.

Lemma WriteInt64Numeric_writes col n w :
  sc_wf (m_current_chunk w) -> room 8 (m_current_chunk w) ->
  is_int64 (col_type col) ->
  writes col (field_int64 (s64 n)) 0 w (WriteInt64Numeric n w).
Proof using Type.
  intros Hwf Hr Ht. eapply writes_on_chunk; [eapply WriteTyped_put; (done || lia)|].
  pose proof (int64_written col (le_encode 8 (s64 n)) _ Hwf Hr
    (length_le_encode 8 _) Ht) as Hw.
  by rewrite s64_encode, wrap_s_idemp in Hw.
Qed.

Lemma WriteInt32Numeric_writes col n w :
  sc_wf (m_current_chunk w) -> room 8 (m_current_chunk w) ->
  is_int32 (col_type col) ->
  writes col (field_int32 (s32 n)) 0 w (WriteInt32Numeric n w).
Proof using Type.
  intros Hwf Hr Ht. unfold WriteInt32Numeric.
  rewrite (on_chunk_on_chunk (Write4Typed (s32 n)) (Pad 4 None)).
  eapply writes_on_chunk; [by apply Write4Typed_Pad|].
  pose proof (int32_written col (le_encode 4 (s32 n)) _ Hwf Hr
    (length_le_encode 4 _) Ht) as Hw.
  by rewrite s32_encode, wrap_s_idemp in Hw.
Qed.

(** NULL values. *)
Lemma WriteInt64Null_writes col w :
  sc_wf (m_current_chunk w) -> room 8 (m_current_chunk w) ->
  is_int64 (col_type col) -> writes col FNull 0 w (WriteInt64Null w).
Proof using Type.
  intros. by apply (WriteInt64Numeric_writes col int64Null).
Qed.

Lemma WriteInt32Null_writes col w :
  sc_wf (m_current_chunk w) -> room 8 (m_current_chunk w) ->
  is_int32 (col_type col) -> writes col FNull 0 w (WriteInt32Null w).
Proof using Type.
  intros. by apply (WriteInt32Numeric_writes col int32Null).
Qed.

Lemma WriteDoubleNull_writes col w :
  sc_wf (m_current_chunk w) -> room 8 (m_current_chunk w) ->
  col_type col = Double -> writes col FNull 0 w (WriteDoubleNull w).
Proof using Type.
  intros Hwf Hr Ht.
  eapply writes_on_chunk; [eapply WriteTyped_put; (done || lia)|].
  by apply (double_written col (le_encode 8 doubleNull)).
Qed.

(** A text of a fixed-length column and the spaces, or zeros, after it. *)
Definition pad_char (pad_with_zero : bool) : ascii := if pad_with_zero then "000"%char else " "%char.

Lemma WriteFixed_writes col b len zero w :
  sc_wf (m_current_chunk w) -> room (fixed_len col) (m_current_chunk w) ->
  col_type col = Fixed -> col_ok col ->
  0 <= len <= col_size col -> len <= Z.of_nat (length b) ->
  writes col
    (field_fixed (take (Z.to_nat (col_size col))
       (take (Z.to_nat len) b ++ replicate (Z.to_nat (col_size col)) (pad_char zero))))
    0 w (WriteFixed (Some b) len (col_size col) zero w).
Proof using Type.
  intros Hwf Hr Ht Hc Hlen Hb.
  destruct (fixed_len_bounds col Hc) as [Hfl Hs]. specialize (Hs Ht).
  pose proof (Hc Ht) as Hsz.
  assert (length (take (Z.to_nat len) b) = Z.to_nat len) as El
    by (rewrite length_take; lia).
  unfold WriteFixed. cbv zeta. fold (pad_char zero). rewrite on_chunk_on_chunk.
  replace (sizeofAligned8 (u64 (col_size col))) with (fixed_len col)
    by (unfold fixed_len; by rewrite Ht).
  rewrite (wrap_u_small 64 len), (wrap_u_small 64 (fixed_len col - len)) by lia.
  set (pad := replicate (Z.to_nat (fixed_len col - len)) (pad_char zero)).
  assert (Z.of_nat (length (take (Z.to_nat len) b ++ pad)) = fixed_len col) as Elp
    by (rewrite length_app, El; unfold pad; rewrite length_replicate; lia).
  eapply writes_on_chunk.
  - rewrite Write_put by (done || (unfold room in *; lia)). rewrite Done_bind.
    rewrite Pad_fill_put.
    + rewrite (put_put 0); [done|done|]. subst pad. by rewrite Elp.
    + eapply put_wf; [done|]. rewrite El. unfold room in *; lia.
    + lia.
    + apply room_put. rewrite El. unfold room in *; lia.
  - erewrite take_app_replicate; [by apply fixed_written|..]; rewrite El; lia.
Qed.

Lemma WriteFixedNull_writes col w :
  sc_wf (m_current_chunk w) -> room (fixed_len col) (m_current_chunk w) ->
  col_type col = Fixed -> col_ok col ->
  writes col FNull 0 w (WriteFixedNull (s32 (col_size col)) w).
Proof using Type.
  intros Hwf Hr Ht Hc. destruct (fixed_len_bounds col Hc) as [Hfl Hs].
  pose proof (Hc Ht) as Hsz. unfold WriteFixedNull. cbv zeta.
  rewrite (wrap_s_small 32) by lia.
  replace (sizeofAligned8 (u64 (col_size col))) with (fixed_len col)
    by (unfold fixed_len; by rewrite Ht).
  eapply writes_on_chunk; [apply Pad_fill_put; (done || lia)|].
  replace FNull with (field_fixed (take (Z.to_nat (col_size col))
    (replicate (Z.to_nat (fixed_len col)) "000"%char))).
  - apply fixed_written; try done. rewrite length_replicate. lia.
  - unfold field_fixed. by rewrite take_replicate, null_bytes_zeros.
Qed.
End columns.

(** ** A variable-length value: offset and length, then the bytes themselves *)

(** [len] bytes reserved in the variable section. *)
Definition reserve (len : Z) (sc : SuperChunk) : SuperChunk :=
  mkSuperChunk (set_variable_offset (voff sc + len) (m_chunk sc)) (m_offset sc).

(** The reserved bytes stored at the start of the variable section. *)
Definition fill (bs : bytes) (sc : SuperChunk) : SuperChunk :=
  mkSuperChunk
    (set_consumed_size (consumed_size (m_chunk sc) + Z.of_nat (length bs))
       (set_m_ptr (splice (mem_of sc) (m_size (m_chunk sc) - voff sc) bs)
          (m_chunk sc)))
    (m_offset sc).

Lemma reserve_geo len sc :
  sc_wf sc -> 0 <= len -> room len sc -> sc_geo len (reserve len sc).
Proof. intros [] Hl Hr. unfold room in Hr. split; cbn; try lia. Qed.

Lemma fill_wf bs sc :
  sc_geo (Z.of_nat (length bs)) sc -> sc_wf (fill bs sc).
Proof. intros []. split; cbn; try lia. by rewrite length_splice by lia. Qed.

Lemma IncrVariableOffset_reserve len sc :
  sc_wf sc -> 0 <= len -> room len sc -> IncrVariableOffset len sc = reserve len sc.
Proof.
  intros [] Hl Hr. unfold room in Hr. unfold IncrVariableOffset, reserve.
  by rewrite wrap_u_small by lia.
Qed.

(** What a write of [len] bytes to the reserved part of the variable section
    needs of its source. *)
Definition source_ok (v : option bytes) (len : Z) : Prop :=
  match v with
  | None => len = 0
  | Some b => 0 <= len <= Z.of_nat (length b)
  end.

Definition source_bytes (v : option bytes) (len : Z) : bytes :=
  match v with None => [] | Some b => take (Z.to_nat len) b end.

Lemma length_source_bytes v len :
  source_ok v len -> Z.of_nat (length (source_bytes v len)) = len.
Proof. destruct v; cbn; [|lia]. intros. rewrite length_take. lia. Qed.

(** Space for a part of what there is space for. *)
Ltac exact_room :=
  unfold room in *; cbn [set_chunk m_current_chunk reserve put m_offset m_chunk
    set_m_ptr set_consumed_size variable_offset m_size set_variable_offset] in *;
  rewrite ?length_app, ?length_le_encode; lia.

Section variable.
Context `{Build}.

Lemma WriteAt_fill v len sc :
  sc_geo len sc -> source_ok v len ->
  WriteAt (u64 (m_size (m_chunk sc) - voff sc)) v len sc
  = Done (fill (source_bytes v len) sc).
Proof using Type.
  intros [] Hv. pose proof (length_source_bytes v len Hv) as El.
  unfold WriteAt, fill. rewrite El.
  destruct (Z.eqb_spec len 0) as [->|Hne].
  { destruct (source_bytes v 0) as [|? ?]; [|cbn in El; lia].
    rewrite splice_nil, Z.add_0_r. by destruct sc as [[] ?]. }
  destruct v as [b|]; cbn in Hv; [|lia].
  rewrite (c_assert_true (bool_decide _)) by by apply bool_decide_true.
  rewrite Done_bind, (wrap_u_small 64 (_ - _)) by lia.
  rewrite (c_assert_true (_ <? _)) by (unfold Size; lia). rewrite Done_bind.
  rewrite c_assert_true by (rewrite wrap_u_small by lia; unfold Size; lia).
  rewrite Done_bind. destruct (Z.leb_spec len (Z.of_nat (length b))); [|lia].
  cbn [source_bytes] in *.
  rewrite store_Done by lia. rewrite Done_bind.
  unfold consume; cbn. by rewrite wrap_u_small by lia.
Qed.

Lemma WriteVariable_run v len w :
  sc_wf (m_current_chunk w) -> room (16 + len) (m_current_chunk w) ->
  source_ok v len -> m_chunk_size w = m_size (m_chunk (m_current_chunk w)) ->
  WriteVariable v len w =
  let sc := m_current_chunk w in
  Done (set_chunk
    (fill (source_bytes v len)
       (put (le_encode 8 (voff sc + len) ++ le_encode 8 len) (reserve len sc)))
    (RecordColumn w)).
Proof using Type.
  intros Hwf Hr Hv Hsz. pose proof (length_source_bytes v len Hv) as El.
  set (sc := m_current_chunk w) in *. cbv zeta.
  unfold WriteVariable. cbv zeta.
  cbn [m_current_chunk RecordColumn set_chunk m_chunk_size].
  fold sc. rewrite IncrVariableOffset_reserve by (done || (unfold room in *; lia)).
  assert (sc_geo len (reserve len sc)) as Hg
    by (apply reserve_geo; (done || (unfold room in *; lia))).
  assert (room 16 (reserve len sc)) as Hr16 by (unfold room in *; cbn; lia).
  erewrite on_chunk_Done
    by (eapply WriteTyped_put;
        [done|exact_room|lia]).
  rewrite Done_bind.
  erewrite on_chunk_Done
    by (eapply WriteTyped_put;
        [eapply put_wf; [done|]|apply room_put|lia];
        exact_room).
  rewrite Done_bind. cbn [m_current_chunk set_chunk].
  rewrite (put_put len) by (rewrite ?length_app, ?length_le_encode; done).
  set (sc' := put _ (reserve len sc)).
  replace (m_chunk_size _) with (m_size (m_chunk sc')) by done.
  erewrite on_chunk_Done; [done|]. apply WriteAt_fill; [|done].
  eapply put_wf; [done|]. by rewrite length_app, !length_le_encode.
Qed.
End variable.

Lemma u64_encode val : 0 <= val < 2 ^ 64 -> le_decode (le_encode 8 val) = val.
Proof. intros. rewrite le_decode_encode. by apply Z.mod_small. Qed.

(** A segment that was written as two halves. *)
Lemma slice_halves {A} (l a b : list A) pos n m :
  slice l pos (n + m) = a ++ b -> 0 <= pos ->
  Z.of_nat (length a) = n -> Z.of_nat (length b) = m ->
  pos + n + m <= Z.of_nat (length l) ->
  slice l pos n = a /\ slice l (pos + n) m = b.
Proof.
  intros E Hp Ha Hb Hl. rewrite slice_app in E by lia.
  apply app_inj_1 in E; [done|].
  apply Nat2Z.inj. rewrite length_slice; lia.
Qed.

Lemma variable_written col v len sc :
  sc_wf sc -> room (16 + len) sc -> col_type col = Variable_ -> source_ok v len ->
  col_written col (field_variable (source_bytes v len)) len sc
    (fill (source_bytes v len)
       (put (le_encode 8 (voff sc + len) ++ le_encode 8 len) (reserve len sc))).
Proof.
  intros Hwf Hr Ht Hv. pose proof (length_source_bytes v len Hv) as El.
  set (bs := source_bytes v len) in *. clearbody bs. clear Hv.
  set (hdr := le_encode 8 (voff sc + len) ++ le_encode 8 len).
  assert (length hdr = 16%nat) as Eh
    by (subst hdr; by rewrite length_app, !length_le_encode).
  assert (sc_geo len (reserve len sc)) as Hg
    by (apply reserve_geo; (done || (unfold room in *; lia))).
  assert (room (Z.of_nat (length hdr)) (reserve len sc)) as Hr16
    by (rewrite Eh; exact_room).
  pose proof (put_wf _ _ _ Hg Hr16) as Hp.
  pose proof (put_agree _ _ _ _ Hg Hr16 eq_refl) as Ha.
  pose proof (put_slice _ _ _ Hg Hr16) as Hs.
  pose proof (same_layout_put _ _ _ Hg Hr16) as Hlay.
  set (sc1 := put hdr (reserve len sc)) in *.
  assert (agree (m_offset sc1) (m_size (m_chunk sc) - voff sc) (mem_of sc1)
            (mem_of (fill bs sc1))) as Hf.
  { destruct Hp. apply agree_splice; unfold room in *; cbn in *; lia. }
  assert (length (mem_of (fill bs sc1)) = length (mem_of sc)) as Elen.
  { rewrite (proj1 Hf). by rewrite (proj1 Hlay). }
  destruct Hwf as [Hl Hsz Ho Hvo Hfit _]. unfold room in Hr, Hr16.
  assert (m_offset sc1 = m_offset sc + 16) as Eo
    by (change (m_offset sc + Z.of_nat (length hdr) = m_offset sc + 16); lia).
  split.
  - apply fill_wf. by rewrite El.
  - unfold fixed_len. by rewrite Ht.
  - done.
  - unfold same_layout in *. by rewrite Elen.
  - etransitivity; [|eapply (agree_weaken _ _ _ _ _ _ Hf); lia].
    eapply agree_weaken; [exact Ha|cbn; lia|cbn; lia].
  - assert (slice (mem_of (fill bs sc1)) (m_offset sc) (8 + 8) = hdr) as E16.
    { rewrite (agree_slice _ _ _ _ _ _ Hf) by lia.
      transitivity (slice (mem_of sc1) (m_offset sc) (Z.of_nat (length hdr)));
        [by rewrite Eh|exact Hs]. }
    assert (slice (mem_of (fill bs sc1)) (m_size (m_chunk sc) - (voff sc + len)) len
            = bs) as E3.
    { apply slice_splice_eq; destruct Hp; cbn in *; lia. }
    apply slice_halves in E16 as [E1 E2]; rewrite ?length_le_encode; try lia.
    assert (voff (fill bs sc1) = voff sc + len) as -> by done.
    generalize dependent (mem_of (fill bs sc1)). intros mem _ Em E1 E2 E3.
    unfold field_at. rewrite Ht. exists (voff sc + len), len.
    rewrite E1, E2, Em, Hl, E3, !u64_encode by lia. repeat split; lia.
Qed.

Lemma cell_col_ok col v len : cell_ok col v len -> col_ok col.
Proof. unfold cell_ok, col_ok. intros [_ Hc] Ht. rewrite Ht in Hc. destruct v; tauto. Qed.

Section column.
Context `{Build}.

Lemma WriteVariable_writes col v len w :
  sc_wf (m_current_chunk w) -> room (16 + len) (m_current_chunk w) ->
  col_type col = Variable_ -> source_ok v len ->
  m_chunk_size w = m_size (m_chunk (m_current_chunk w)) ->
  writes col (field_variable (source_bytes v len)) len w (WriteVariable v len w).
Proof using Type.
  intros Hwf Hr Ht Hv Hsz. rewrite WriteVariable_run by done.
  eexists. split; [done|]. split; [done|]. by apply variable_written.
Qed.

Lemma Write8_writes col f b w :
  sc_wf (m_current_chunk w) -> room 8 (m_current_chunk w) ->
  8 <= Z.of_nat (length b) ->
  col_written col f 0 (m_current_chunk w) (put (take 8 b) (m_current_chunk w)) ->
  writes col f 0 w (WriteInt64 (Some b) w).
Proof using Type.
  intros Hwf Hr Hb Hc. eapply writes_on_chunk; [|done].
  by apply Write_put.
Qed.

(** Writing one column stores what [field_of] says the cell is. *)
Lemma WriteColumn_spec col v len f w :
  sc_wf (m_current_chunk w) ->
  m_chunk_size w = m_size (m_chunk (m_current_chunk w)) ->
  cell_ok col v len ->
  room (fixed_len col + var_len col v len) (m_current_chunk w) ->
  field_of col v len = Done f ->
  writes col f (var_len col v len) w (WriteColumn col v len w).
Proof using Type.
  intros Hwf Hsz Hok Hr Hf. pose proof (cell_col_ok _ _ _ Hok) as Hc.
  destruct Hok as [Hlen Hok].
  unfold WriteColumn. unfold field_of in Hf. unfold var_len in *.
  unfold fixed_len in Hr.
  destruct (col_type col) eqn:Ht, v as [b|]; inv_done;
    rewrite ?Z.add_0_r in Hr.
  - apply Write8_writes; try done. apply int64_written; rewrite ?Ht; try done.
    rewrite length_take. lia.
  - by apply WriteInt64Null_writes; rewrite ?Ht.
  - unfold WriteInt32. rewrite (on_chunk_on_chunk (Write4 (Some b)) (Pad 4 None)).
    eapply writes_on_chunk; [by apply Write4_Pad|].
    apply int32_written; rewrite ?Ht; try done. rewrite length_take. lia.
  - by apply WriteInt32Null_writes; rewrite ?Ht.
  - apply Write8_writes; try done. apply double_written; try done.
    rewrite length_take. lia.
  - by apply WriteDoubleNull_writes.
  - apply (WriteVariable_writes col (Some b)); try done. cbn. lia.
  - by apply (WriteVariable_writes col None).
  - rewrite (wrap_s_small 64) by lia.
    apply WriteFixed_writes; unfold fixed_len; rewrite ?Ht; try done; lia.
  - apply WriteFixedNull_writes; unfold fixed_len; rewrite ?Ht; done.
  - rewrite Hm, Done_bind. apply WriteInt64Numeric_writes; by rewrite ?Ht.
  - by apply WriteInt64Null_writes; rewrite ?Ht.
  - rewrite Hm, Done_bind. apply WriteInt32Numeric_writes; by rewrite ?Ht.
  - by apply WriteInt32Null_writes; rewrite ?Ht.
  - rewrite Hm, Done_bind. apply WriteInt64Numeric_writes; by rewrite ?Ht.
  - by apply WriteInt64Null_writes; rewrite ?Ht.
Qed.

(** A cell that has no CAS value ends the write as its conversion ends. *)
Lemma WriteColumn_fails col v len w :
  is_done (field_of col v len) = false ->
  void (WriteColumn col v len w) = void (field_of col v len).
Proof using Type.
  unfold field_of, WriteColumn, s2_throw.
  destruct (col_type col), v as [b|]; try done; intros Hf;
    match type of Hf with
    | is_done (?m ≫= _) = _ => by destruct m
    end.
Qed.
End column.

(** ** One row *)
Fixpoint fields_of `{Build} (cols : list Column) (row : list (option bytes))
    (lengths : list Z) : outcome exn (list field) :=
  match cols, row, lengths with
  | col :: cols, v :: row, len :: lengths =>
      f ← field_of col v len;
      fs ← fields_of cols row lengths;
      Done (f :: fs)
  | _, _, _ => Done []
  end.

Fixpoint cells_ok (cols : list Column) (row : list (option bytes))
    (lengths : list Z) : Prop :=
  match cols, row, lengths with
  | [], [], [] => True
  | col :: cols, v :: row, len :: lengths =>
      cell_ok col v len /\ cells_ok cols row lengths
  | _, _, _ => False
  end.

(** Bytes of the variable section that a row takes. *)
Fixpoint var_row (cols : list Column) (row : list (option bytes))
    (lengths : list Z) : Z :=
  match cols, row, lengths with
  | col :: cols, v :: row, len :: lengths =>
      var_len col v len + var_row cols row lengths
  | _, _, _ => 0
  end.

(** Bytes that [WriteRow] asks for: the length the database reports for a
    variable-length value counts even if the value is NULL. *)
Fixpoint row_need (cols : list Column) (lengths : list Z) : Z :=
  match cols, lengths with
  | col :: cols, len :: lengths =>
      fixed_len col + (if decide (col_type col = Variable_) then len else 0)
      + row_need cols lengths
  | _, _ => 0
  end.

Lemma cells_cols_ok cols row lengths :
  cells_ok cols row lengths -> Forall col_ok cols.
Proof.
  revert row lengths. induction cols as [|c cols IH]; intros row lengths Hc; [done|].
  destruct row as [|v row], lengths as [|len lengths]; try done.
  destruct Hc as [Hc Hcs]. constructor; [by eapply cell_col_ok|eauto].
Qed.

Lemma var_row_nonneg cols row lengths :
  cells_ok cols row lengths -> 0 <= var_row cols row lengths.
Proof.
  revert row lengths. induction cols as [|c cols IH]; intros row lengths Hc; [done|].
  destruct row as [|v row], lengths as [|len lengths]; try done. cbn.
  destruct Hc as [[Hl _] Hcs]. specialize (IH _ _ Hcs).
  unfold var_len. destruct (col_type c), v; lia.
Qed.

Lemma row_need_bounds cols row lengths :
  cells_ok cols row lengths ->
  0 <= fixed_row cols + var_row cols row lengths <= row_need cols lengths.
Proof.
  intros Hok. pose proof (fixed_row_nonneg _ (cells_cols_ok _ _ _ Hok)).
  pose proof (var_row_nonneg _ _ _ Hok). split; [lia|].
  clear -Hok. revert row lengths Hok.
  induction cols as [|c cols IH]; intros row lengths Hc;
    destruct row as [|v row], lengths as [|len lengths]; try done. cbn.
  destruct Hc as [[Hl _] Hcs]. specialize (IH _ _ Hcs).
  unfold var_len. destruct (decide (col_type c = Variable_)) as [E|E].
  - rewrite E. destruct v; lia.
  - destruct (col_type c); try done; lia.
Qed.

Lemma rowSize_spec cols row lengths acc :
  cells_ok cols row lengths -> 0 <= acc -> acc + row_need cols lengths < 2 ^ 64 ->
  rowSize_loop cols lengths acc = Done (acc + row_need cols lengths).
Proof.
  revert row lengths acc.
  induction cols as [|c cols IH]; intros row lengths acc Hok Ha Hn;
    destruct row as [|v row], lengths as [|len lengths]; try done.
  { cbn. by rewrite Z.add_0_r. }
  pose proof Hok as [Hc Hcs]. pose proof (cell_col_ok _ _ _ Hc) as Hco.
  pose proof (row_need_bounds _ _ _ Hcs). destruct Hc as [Hl _].
  pose proof (fixed_len_bounds c Hco) as [Hfl _].
  cbn [rowSize_loop row_need] in *. unfold defaultAlignmentSize.
  assert ((match col_type c with
           | Variable_ => u64 (len + 2 * 8)
           | Fixed => sizeofAligned8 (u64 (col_size c))
           | _ => 8
           end) = fixed_len c + (if decide (col_type c = Variable_) then len else 0)) as ->.
  { unfold fixed_len. destruct (decide _) as [E|E].
    - rewrite E, wrap_u_small by lia. lia.
    - destruct (col_type c); try done; lia. }
  destruct (decide _) as [E|E]; rewrite wrap_u_small by lia;
    (erewrite IH; [f_equal; lia|done|lia|lia]).
Qed.

(** What writing the columns of a row leaves behind. *)
Record row_written (cols : list Column) (fs : list field) (dv : Z)
    (sc sc' : SuperChunk) : Prop := {
  rw_wf : sc_wf sc';
  rw_off : m_offset sc' = m_offset sc + fixed_row cols;
  rw_voff : voff sc' = voff sc + dv;
  rw_layout : same_layout sc sc';
  rw_agree : agree (m_offset sc) (m_size (m_chunk sc) - voff sc)
               (mem_of sc) (mem_of sc');
  rw_fields : fields_at (mem_of sc') (voff sc') (m_offset sc) cols fs
}.

Lemma row_written_cons col cols f fs dv dv' sc sc' sc'' :
  sc_wf sc -> col_ok col -> 0 <= dv' -> 0 <= dv -> Forall col_ok cols ->
  col_written col f dv sc sc' -> row_written cols fs dv' sc' sc'' ->
  row_written (col :: cols) (f :: fs) (dv + dv') sc sc''.
Proof.
  intros Hwf Hc Hdv' Hdv Hcs [Hw1 Ho1 Hv1 Hl1 Ha1 Hf1] [Hw2 Ho2 Hv2 Hl2 Ha2 Hf2].
  pose proof (fixed_len_bounds col Hc) as [Hfl _].
  unfold same_layout in *. destruct Hl1 as (L1 & S1 & I1 & P1 & R1).
  split; [done| cbn; lia | lia | | |].
  - destruct Hl2 as (L2 & S2' & I2 & P2 & R2). repeat split; congruence.
  - etransitivity; [exact Ha1|]. eapply agree_weaken; [exact Ha2|lia|lia].
  - cbn [fields_at]. split; [|rewrite <- Ho1; done].
    destruct Hw1, Hwf.
    eapply (field_at_agree _ _ _ _ (voff sc')); [exact Ha2|done|lia..|done].
Qed.

Section rows.
Context `{Build}.

Lemma WriteColumns_spec cols row lengths fs w :
  sc_wf (m_current_chunk w) ->
  m_chunk_size w = m_size (m_chunk (m_current_chunk w)) ->
  cells_ok cols row lengths ->
  room (fixed_row cols + var_row cols row lengths) (m_current_chunk w) ->
  fields_of cols row lengths = Done fs ->
  exists w', WriteColumns cols row lengths w = Done w' /\ row_frame w w'
    /\ row_written cols fs (var_row cols row lengths)
         (m_current_chunk w) (m_current_chunk w').
Proof using Type.
  revert row lengths fs w.
  induction cols as [|col cols IH]; intros row lengths fs w Hwf Hsz Hok Hr Hf;
    destruct row as [|v row], lengths as [|len lengths]; try done.
  { cbn in Hf. injection Hf as <-. exists w. split; [done|]. split; [done|].
    split; cbn; try done; lia. }
  destruct Hok as [Hc Hcs]. cbn [fields_of] in Hf. inv_done.
  pose proof (cell_col_ok _ _ _ Hc) as Hco.
  pose proof (cells_cols_ok _ _ _ Hcs) as Hcos.
  pose proof (fixed_row_nonneg _ Hcos). pose proof (var_row_nonneg _ _ _ Hcs).
  pose proof (fixed_len_bounds _ Hco) as [Hfl _].
  assert (0 <= var_len col v len) as Hv.
  { destruct Hc as [? _]. unfold var_len. destruct (col_type col), v; lia. }
  cbn [fixed_row var_row WriteColumns] in *.
  edestruct (WriteColumn_spec col v len) as (w1 & -> & Hfr1 & Hcw);
    [done|done|done|unfold room in *; lia|done|].
  rewrite Done_bind. pose proof Hcw as [Hw1 Ho1 Hv1 Hl1 Ha1 Hf1].
  edestruct (IH row lengths) as (w2 & -> & Hfr2 & Hrw); [done| |done| |done|].
  { destruct Hfr1. destruct Hl1 as (? & -> & _). congruence. }
  { unfold room in *. destruct Hl1 as (_ & -> & _). lia. }
  exists w2. split; [done|]. split; [by etransitivity|].
  by eapply row_written_cons.
Qed.

Lemma WriteColumns_fails cols row lengths w :
  sc_wf (m_current_chunk w) ->
  m_chunk_size w = m_size (m_chunk (m_current_chunk w)) ->
  cells_ok cols row lengths ->
  room (fixed_row cols + var_row cols row lengths) (m_current_chunk w) ->
  is_done (fields_of cols row lengths) = false ->
  void (WriteColumns cols row lengths w) = void (fields_of cols row lengths).
Proof using Type.
  revert row lengths w.
  induction cols as [|col cols IH]; intros row lengths w Hwf Hsz Hok Hr Hf;
    destruct row as [|v row], lengths as [|len lengths]; try done.
  destruct Hok as [Hc Hcs]. cbn [fields_of] in *.
  pose proof (cells_cols_ok _ _ _ Hcs) as Hcos.
  pose proof (fixed_row_nonneg _ Hcos). pose proof (var_row_nonneg _ _ _ Hcs).
  cbn [fixed_row var_row WriteColumns] in *.
  destruct (is_done (field_of col v len)) eqn:Hd.
  - destruct (field_of col v len) as [f| | |] eqn:Hff; try done.
    edestruct (WriteColumn_spec col v len) as (w1 & -> & Hfr1 & Hcw);
      [done|done|done|unfold room in *; lia|done|].
    rewrite !Done_bind in *. destruct Hcw as [Hw1 Ho1 Hv1 Hl1 _ _].
    assert (is_done (fields_of cols row lengths) = false) as Hfs
      by by destruct (fields_of cols row lengths).
    rewrite (void_bind (fields_of _ _ _)) by done.
    apply IH; try done.
    + destruct Hfr1. destruct Hl1 as (? & -> & _). congruence.
    + unfold room in *. destruct Hl1 as (_ & -> & _). lia.
  - rewrite (void_bind (field_of _ _ _)) by done.
    pose proof (WriteColumn_fails col v len w Hd) as Hv.
    rewrite <- Hv. apply void_bind.
    by destruct (WriteColumn col v len w), (field_of col v len).
Qed.
End rows.

(** ** A writer that has written [rows] *)
Definition free (w : SuperChunkWriter) : Z :=
  m_chunk_size w - voff (m_current_chunk w) - m_offset (m_current_chunk w).

Record writer_ok (w : SuperChunkWriter) (rows : list (list field)) : Prop := {
  wo_wf : sc_wf (m_current_chunk w);
  wo_size : m_chunk_size w = m_size (m_chunk (m_current_chunk w));
  wo_cols : Forall col_ok (ColumnInfo (m_row_schema w));
  wo_some : ColumnInfo (m_row_schema w) <> [];
  wo_off : m_offset (m_current_chunk w)
           = Z.of_nat (length rows) * fixed_row (ColumnInfo (m_row_schema w));
  wo_count : row_count (m_chunk (m_current_chunk w)) = Z.of_nat (length rows);
  wo_rows : rows_at (mem_of (m_current_chunk w)) (voff (m_current_chunk w)) 0
              (ColumnInfo (m_row_schema w)) rows;
  wo_fixed : m_row_fixed_size w
             = (if decide (rows = []) then 0
                else fixed_row (ColumnInfo (m_row_schema w)));
  wo_row_offset : m_row_offset w = m_offset (m_current_chunk w)
}.

Lemma fixed_row_pos cols : Forall col_ok cols -> cols <> [] -> 8 <= fixed_row cols.
Proof.
  intros Hc Hne. destruct Hc as [|c cols Hc Hcs]; [done|]. cbn.
  pose proof (fixed_len_bounds c Hc). pose proof (fixed_row_nonneg cols Hcs). lia.
Qed.

(** A fresh chunk under a fresh writer. *)
Lemma Reset_ok chunk schema :
  chunk_wf chunk -> consumed_size chunk = 0 -> variable_offset chunk = 0 ->
  row_count chunk = 0 -> Forall col_ok (ColumnInfo schema) ->
  ColumnInfo schema <> [] -> writer_ok (Reset chunk schema) [].
Proof.
  intros [] Hc Hv Hr Hcols Hne. unfold Reset, SuperChunk_new.
  split; cbn; try done. split; cbn; lia.
Qed.

Section write_row.
Context `{Build}.

Lemma HasEnoughSpace_wf n w :
  sc_wf (m_current_chunk w) -> m_chunk_size w = m_size (m_chunk (m_current_chunk w)) ->
  0 <= n < 2 ^ 64 -> HasEnoughSpace n w = Done (n <=? free w).
Proof using Type.
  intros [] Hsz Hn. unfold HasEnoughSpace, free in *.
  unfold GetOffset, GetVariableOffset in *. cbv zeta.
  rewrite (wrap_u_small 64 (_ + _)) by lia. rewrite c_assert_true by lia.
  rewrite Done_bind, (wrap_u_small 64 (_ - voff _)), (wrap_u_small 64) by lia.
  f_equal. lia.
Qed.

Lemma HasEnoughSpace_spec n w rows :
  writer_ok w rows -> 0 <= n < 2 ^ 64 ->
  HasEnoughSpace n w = Done (n <=? free w).
Proof using Type. intros []. by apply HasEnoughSpace_wf. Qed.

Lemma WriteRowEnd_spec w w' rows fs dv :
  writer_ok w rows -> row_frame w w' ->
  row_written (ColumnInfo (m_row_schema w)) fs dv
    (m_current_chunk w) (m_current_chunk w') ->
  0 <= dv ->
  exists w'', WriteRowEnd w' = Done w'' /\ writer_ok w'' (rows ++ [fs])
    /\ free w'' = free w - fixed_row (ColumnInfo (m_row_schema w)) - dv
    /\ m_row_schema w'' = m_row_schema w.
Proof using Type.
  intros [] [] [] Hdv. pose proof (fixed_row_pos _ wo_cols0 wo_some0) as Hpos.
  set (F := fixed_row (ColumnInfo (m_row_schema w))) in *.
  unfold same_layout in *. destruct rw_layout0 as (L & S1 & I1 & P1 & R1).
  destruct wo_wf0, rw_wf0. unfold WriteRowEnd, GetOffset.
  rewrite rf_fixed0, rf_row_offset0, wo_fixed0, wo_row_offset0.
  assert (forall A (m1 m2 : outcome exn A),
    (if (if decide (rows = []) then 0 else F) =? 0 then m1 else m2)
    = if decide (rows = []) then m1 else m2) as Eif.
  { intros A m1 m2. case_decide; [done|]. by destruct (Z.eqb_spec F 0); [lia|]. }
  rewrite Eif.
  eexists. split; [|split; [split|split]].
  - instantiate (1 := mkWriter (m_chunk_size w') F (m_column_count w')
      (IncrRowCount (m_current_chunk w')) (m_offset (m_current_chunk w')) 0
      (m_row_schema w')).
    case_decide as Er.
    + subst rows. rewrite c_assert_true by (cbn in *; lia).
      rewrite !Done_bind. do 2 f_equal. cbn in *. lia.
    + by rewrite Done_bind.
  - split; cbn; try done; try lia; congruence.
  - cbn. congruence.
  - cbn. by rewrite rf_schema0.
  - cbn. by rewrite rf_schema0.
  - cbn. rewrite rf_schema0. fold F. rewrite length_app; cbn. lia.
  - cbn. rewrite R1, wo_count0, length_app, wrap_u_small; cbn; [lia|]. nia.
  - cbn. rewrite rf_schema0. apply rows_at_snoc. split.
    + eapply (rows_at_agree _ _ _ _ (voff (m_current_chunk w)));
        [exact rw_agree0|done|done| |lia|lia|lia|done].
      fold F. lia.
    + fold F. by rewrite Z.add_0_l, <- wo_off0.
  - cbn. rewrite rf_schema0. by rewrite decide_False by (by destruct rows).
  - done.
  - unfold free; cbn. lia.
  - done.
Qed.

(** A row is written exactly if the space it asks for is free. *)
Lemma WriteRow_enough row lengths w rows :
  let cols := ColumnInfo (m_row_schema w) in
  let need := row_need cols lengths in
  writer_ok w rows -> cells_ok cols row lengths -> need < 2 ^ 64 ->
  WriteRow row lengths w =
  if need <=? free w then
    w ← WriteColumns cols row lengths w; w ← WriteRowEnd w; Done (true, w)
  else if decide (rows = []) then Throw (InvalidArgument (too_small w need))
  else Done (false, w).
Proof using Type.
  intros cols need Hw Hok Hn. subst need.
  pose proof (row_need_bounds _ _ _ Hok). pose proof (var_row_nonneg _ _ _ Hok).
  unfold WriteRow, rowSize. fold cols.
  rewrite (rowSize_spec _ row) by (done || lia). rewrite Done_bind, Z.add_0_l.
  rewrite (HasEnoughSpace_spec _ _ rows), Done_bind by (done || lia).
  destruct (row_need cols lengths <=? free w); [done|]. cbn [negb].
  pose proof Hw as [_ _ _ _ _ Hc _ _ _]. unfold RowCount. rewrite Hc.
  by destruct rows.
Qed.

(** A row that fits and whose cells have values. *)
Lemma WriteRow_written row lengths w rows fs :
  let cols := ColumnInfo (m_row_schema w) in
  writer_ok w rows -> cells_ok cols row lengths -> row_need cols lengths < 2 ^ 64 ->
  row_need cols lengths <= free w -> fields_of cols row lengths = Done fs ->
  exists w', WriteRow row lengths w = Done (true, w')
    /\ writer_ok w' (rows ++ [fs])
    /\ free w' = free w - fixed_row cols - var_row cols row lengths
    /\ m_row_schema w' = m_row_schema w.
Proof using Type.
  intros cols Hw Hok Hn Hfit Hf.
  pose proof (row_need_bounds _ _ _ Hok) as Hb. pose proof (var_row_nonneg _ _ _ Hok) as Hv.
  rewrite (WriteRow_enough _ _ _ rows) by done. fold cols.
  rewrite (proj2 (Z.leb_le _ _)) by done. pose proof Hw as [Hwf Hsz _ _ _ _ _ _ _].
  assert (room (fixed_row cols + var_row cols row lengths)
            (m_current_chunk w)) as Hr by (unfold room, free in *; lia).
  edestruct (WriteColumns_spec cols row lengths) as (w1 & -> & Hfr & Hrw); [done..|].
  edestruct (WriteRowEnd_spec w w1 rows fs) as (w2 & Hend & Hw2 & Hfree & Hs); [done..|].
  rewrite Done_bind, Hend, Done_bind. exists w2. auto.
Qed.

(** A row for which there is no space. *)
Lemma WriteRow_full row lengths w rows :
  let cols := ColumnInfo (m_row_schema w) in
  writer_ok w rows -> cells_ok cols row lengths -> row_need cols lengths < 2 ^ 64 ->
  free w < row_need cols lengths -> rows <> [] -> WriteRow row lengths w = Done (false, w).
Proof using Type.
  intros cols Hw Hok Hn Hfit Hr. rewrite (WriteRow_enough _ _ _ rows) by done. fold cols.
  rewrite (proj2 (Z.leb_gt _ _)) by lia. by rewrite decide_False.
Qed.

(** C17. [WriteRow] on a chunk that holds [rows]: if the row fits between the
    two sections it is written after the others and none of them changes;
    if it does not, the chunk is left alone and [false] is returned, or, when
    the chunk holds no row at all, [invalid_argument] says how large a chunk
    the row needs; a cell that has no CAS value throws. *)
Theorem WriteRow_spec row lengths w rows :
  let cols := ColumnInfo (m_row_schema w) in
  let need := row_need cols lengths in
  writer_ok w rows -> cells_ok cols row lengths -> need < 2 ^ 64 ->
  if need <=? free w then
    match fields_of cols row lengths with
    | Done fs =>
        exists w', WriteRow row lengths w = Done (true, w')
          /\ writer_ok w' (rows ++ [fs])
          /\ free w' = free w - fixed_row cols - var_row cols row lengths
          /\ m_row_schema w' = m_row_schema w
    | failed => void (WriteRow row lengths w) = void failed
    end
  else
    WriteRow row lengths w =
    if decide (rows = []) then Throw (InvalidArgument (too_small w need))
    else Done (false, w).
Proof using Type.
  intros cols need Hw Hok Hn.
  destruct (Z.leb_spec need (free w)) as [Hfit|Hfit].
  - destruct (is_done (fields_of cols row lengths)) eqn:Hd.
    + destruct (fields_of cols row lengths) as [fs| | |] eqn:Hf; try done.
      by apply WriteRow_written.
    + rewrite (WriteRow_enough _ _ _ rows) by done. fold cols need.
      rewrite (proj2 (Z.leb_le _ _)) by done. pose proof Hw as [Hwf Hsz _ _ _ _ _ _ _].
      pose proof (row_need_bounds _ _ _ Hok). pose proof (var_row_nonneg _ _ _ Hok).
      assert (room (fixed_row cols + var_row cols row lengths) (m_current_chunk w)) as Hr
        by (unfold room, free, need in *; lia).
      pose proof (WriteColumns_fails _ _ _ _ Hwf Hsz Hok Hr Hd) as Hf.
      destruct (fields_of cols row lengths); try done;
        (rewrite void_bind; [done|]; by destruct (WriteColumns _ _ _ _)).
  - rewrite (WriteRow_enough _ _ _ rows) by done. fold cols need.
    by rewrite (proj2 (Z.leb_gt _ _)) by lia.
Qed.
End write_row.

(** ** A concrete chunk *)
Definition fresh_chunk (size : nat) : Chunk :=
  NewChunk (replicate size "000"%char) (Z.of_nat size) 0 0.

(** A row of 40 bytes in a chunk of 64 fits, a second one does not. *)
Lemma WriteRow_spec_witness :
  let schema := mkRowSchema [mkColumn Int64 8 "a"; mkColumn Variable_ 0 "b"] in
  let row := [Some (le_encode 8 5); Some (String.list_ascii_of_string "sixteen letters!")] in
  exists w', WriteRow (H := release_build) row [8; 16] (Reset (fresh_chunk 64) schema)
             = Done (true, w')
    /\ writer_ok w' [[FNum 5; FBytes (String.list_ascii_of_string "sixteen letters!")]]
    /\ free w' = 24.
Proof.
  cbv zeta.
  pose proof (WriteRow_spec (H := release_build)
    [Some (le_encode 8 5); Some (String.list_ascii_of_string "sixteen letters!")]
    [8; 16]
    (Reset (fresh_chunk 64)
       (mkRowSchema [mkColumn Int64 8 "a"; mkColumn Variable_ 0 "b"])) []) as H.
  destruct H as (w' & E & Hw & Hf & _).
  - apply Reset_ok; try done. repeat constructor; done.
  - repeat constructor; cbn; lia.
  - reflexivity.
  - exists w'. split; [exact E|]. split; [exact Hw|exact Hf].
Defined.
