(* ===== verification/ChunkWrites.v ===== *)
(** Sequences of the exported writes of [hdat_write_extern.h], in any order and
    of any sizes: what SAS writes without the library looking at the schema.
    Their specification are the two sections of a chunk as texts that grow
    towards each other; the definitions of [ChunkWriter.v] refine it. *)

From Stdlib Require Import Ascii String.
From stdpp Require Import base list strings numbers tactics.
From stdpp Require Import options.
From S2P Require Import Prelude Schema Text SuperChunk ChunkWriter ChunkFormat.

(** ** The calls *)
Inductive write_call :=
  | write_int64 (val : Z)
  | write_int32 (val : Z)
  | write_double (val : Z)
  | write_fixed (val : option bytes) (data_size field_size : Z) (pad_with_zero : bool)
  | write_variable (val : option bytes) (len : Z)
  | write_row_end.

Section calls.
Context `{Build}.

(** The call and what it returns; the end of a row returns nothing. *)
Definition do_write (c : write_call) (w : SuperChunkWriter)
    : outcome exn (bool * SuperChunkWriter) :=
  match c with
  | write_int64 v => Extern.WriteInt64 v w
  | write_int32 v => Extern.WriteInt32 v w
  | write_double v => Extern.WriteDouble v w
  | write_fixed v n m z => Extern.WriteFixed v n m z w
  | write_variable v n => Extern.WriteVariable v n w
  | write_row_end => w ← Extern.WriteRowEnd w; Done (true, w)
  end.

Fixpoint do_writes (calls : list write_call) (w : SuperChunkWriter)
    : outcome exn (list bool * SuperChunkWriter) :=
  match calls with
  | [] => Done ([], w)
  | c :: calls =>
      '((b, w) : bool * SuperChunkWriter) ← do_write c w;
      '((bs, w) : list bool * SuperChunkWriter) ← do_writes calls w;
      Done (b :: bs, w)
  end.

(** *** What no call changes *)
Lemma keeps_guarded needed f w b w' :
  keeps f -> Extern.guarded needed f w = Done (b, w') -> identity w' = identity w.
Proof using Type.
  intros Hf E. unfold Extern.guarded in E. inv_done. case_match; inv_done; [done|].
  by apply Hf in Hm0.
Qed.

Lemma keeps_do_write c w b w' : do_write c w = Done (b, w') -> identity w' = identity w.
Proof using Type.
  intros E. destruct c; cbn [do_write] in E.
  - exact (keeps_guarded _ _ _ _ _ (keeps_one _ (keeps_sc_WriteTyped _ _)) E).
  - exact (keeps_guarded _ _ _ _ _ (keeps_two _ _ (keeps_sc_WriteTyped _ _) (keeps_sc_Pad _ _)) E).
  - exact (keeps_guarded _ _ _ _ _ (keeps_one _ (keeps_sc_WriteTyped _ _)) E).
  - exact (keeps_guarded _ _ _ _ _ (keeps_two _ _ (keeps_sc_Write _ _) (keeps_sc_Pad _ _)) E).
  - exact (keeps_guarded _ _ _ _ _ (keeps_WriteVariable _ _) E).
  - apply bind_Done in E as (w1 & E & [= _ <-]).
    unfold Extern.WriteRowEnd, WriteRowEnd in E. inv_done. done.
Qed.

Lemma keeps_do_writes calls : forall w bs w',
  do_writes calls w = Done (bs, w') -> identity w' = identity w.
Proof using Type.
  induction calls as [|c calls IH]; intros w bs w' E.
  - by injection E as _ <-.
  - apply bind_Done in E as ([b w1] & Ec & E). apply bind_Done in E as ([bs1 w2] & Er & E).
    injection E as _ <-. apply keeps_do_write in Ec. apply IH in Er. congruence.
Qed.
End calls.

(** ** The specification *)

(** The fixed section from the beginning of the buffer on, [None] for a byte
    that is skipped; the variable section up to the end of the buffer; the rows
    that have been ended. *)
Record sections := mkSections {
  sec_fixed : list (option ascii);
  sec_variable : bytes;
  sec_rows : Z
}.

(** What a call adds to the end of the fixed and to the beginning of the
    variable section, which has [used] bytes. *)
Definition added (used : Z) (c : write_call) : list (option ascii) * bytes :=
  match c with
  | write_int64 v => (Some <$> le_encode 8 (s64 v), [])
  | write_int32 v => ((Some <$> le_encode 4 (s32 v)) ++ replicate 4 None, [])
  | write_double bits => (Some <$> le_encode 8 bits, [])
  | write_fixed v n m zero =>
      let padding := 8 * ((m + 7) / 8) - n in
      (Some <$> (source_bytes v n ++
                 replicate (Z.to_nat padding) (if zero then "000"%char else " "%char)), [])
  | write_variable v n => (Some <$> (le_encode 8 (used + n) ++ le_encode 8 n), source_bytes v n)
  | write_row_end => ([], [])
  end.

(** In a chunk of [size] bytes; a call adds all of it or nothing. *)
Definition spec_write (size : Z) (c : write_call) (s : sections) : bool * sections :=
  let '(f, v) := added (Z.of_nat (length (sec_variable s))) c in
  let s' := mkSections (sec_fixed s ++ f) (v ++ sec_variable s)
              (if c is write_row_end then u64 (sec_rows s + 1) else sec_rows s) in
  if Z.of_nat (length (sec_fixed s') + length (sec_variable s')) <=? size
  then (true, s') else (false, s).

Fixpoint spec_writes (size : Z) (calls : list write_call) (s : sections) : list bool * sections :=
  match calls with
  | [] => ([], s)
  | c :: calls =>
      let '(b, s) := spec_write size c s in
      let '(bs, s) := spec_writes size calls s in (b :: bs, s)
  end.

(** What a caller has to keep to: the lengths are those of the data, a
    fixed-length value is no longer than its field, and the size of a field
    and of a value with its header are in the range of [int]. *)
Definition call_ok (c : write_call) : Prop :=
  match c with
  | write_fixed v n m _ => source_ok v n /\ n <= m < 2 ^ 31
  | write_variable v n => source_ok v n /\ n + 16 < 2 ^ 31
  | _ => True
  end.

(** ** The refinement *)
Definition kept (o : option ascii) (b : ascii) : Prop :=
  match o with Some c => b = c | None => True end.

Record sections_at (sc : SuperChunk) (fixed : list (option ascii)) (var : bytes) : Prop := {
  sa_wf : sc_wf sc;
  sa_off : m_offset sc = Z.of_nat (length fixed);
  sa_voff : voff sc = Z.of_nat (length var);
  sa_fixed : Forall2 kept fixed (slice (mem_of sc) 0 (m_offset sc));
  sa_var : slice (mem_of sc) (m_size (m_chunk sc) - voff sc) (voff sc) = var
}.

(** The writer and its chunk represent the sections. *)
Record represents (w : SuperChunkWriter) (s : sections) : Prop := {
  rp_sections : sections_at (m_current_chunk w) (sec_fixed s) (sec_variable s);
  rp_size : m_chunk_size w = m_size (m_chunk (m_current_chunk w));
  rp_rows : row_count (m_chunk (m_current_chunk w)) = sec_rows s;
  rp_first : m_row_fixed_size w = 0 -> m_row_offset w = 0
}.

Lemma Forall2_kept bs : Forall2 kept (Some <$> bs) bs.
Proof. induction bs; by constructor. Qed.

(** Both sections grow, and nothing else of the chunk changes. *)
Lemma sections_grow sc sc' fixed var f v :
  sections_at sc fixed var -> sc_wf sc' -> same_layout sc sc' ->
  m_offset sc' = m_offset sc + Z.of_nat (length f) -> voff sc' = voff sc + Z.of_nat (length v) ->
  agree (m_offset sc) (m_size (m_chunk sc) - voff sc) (mem_of sc) (mem_of sc') ->
  Forall2 kept f (slice (mem_of sc') (m_offset sc) (Z.of_nat (length f))) ->
  slice (mem_of sc') (m_size (m_chunk sc) - voff sc') (Z.of_nat (length v)) = v ->
  sections_at sc' (fixed ++ f) (v ++ var).
Proof.
  intros [Hwf Ho Hv Hf Hvar] Hwf' (_ & Es & _) Eo Ev Ha Hnf Hnv. destruct Hwf.
  split; [done| | | |].
  - rewrite Eo, Ho, length_app. lia.
  - rewrite Ev, Hv, length_app. lia.
  - rewrite Eo, slice_app by lia. apply Forall2_app; [|done].
    rewrite (agree_slice _ _ _ _ _ _ Ha) by lia. done.
  - rewrite Es. assert (voff sc' = Z.of_nat (length v) + voff sc) as Ev' by lia.
    rewrite Ev' at 2. rewrite slice_app by (destruct Hwf'; lia). f_equal; [done|].
    replace (_ + Z.of_nat (length v)) with (m_size (m_chunk sc) - voff sc) by lia.
    by rewrite (agree_slice _ _ _ _ _ _ Ha) by lia.
Qed.

Section refinement.
Context `{Build}.

Lemma sections_put sc fixed var bs :
  sections_at sc fixed var -> room (Z.of_nat (length bs)) sc ->
  sections_at (put bs sc) (fixed ++ (Some <$> bs)) var.
Proof using Type.
  intros Hs Hr. pose proof (sa_wf _ _ _ Hs) as Hwf.
  apply (sections_grow sc _ fixed var (Some <$> bs) [] Hs); rewrite ?length_fmap.
  - by eapply put_wf.
  - by eapply same_layout_put.
  - done.
  - cbn. lia.
  - by eapply put_agree.
  - rewrite (put_slice 0) by done. apply Forall2_kept.
  - done.
Qed.

Lemma sections_skip sc fixed var n :
  sections_at sc fixed var -> room (Z.of_nat n) sc ->
  sections_at (skip (Z.of_nat n) sc) (fixed ++ replicate n None) var.
Proof using Type.
  intros Hs Hr. pose proof (sa_wf _ _ _ Hs) as Hwf.
  apply (sections_grow sc _ fixed var (replicate n None) [] Hs); rewrite ?length_replicate.
  - apply skip_wf; [done|lia|done].
  - done.
  - done.
  - cbn. lia.
  - done.
  - destruct Hwf. unfold room in Hr. apply Forall2_replicate_l.
    + cbn. apply Nat2Z.inj. rewrite length_slice; lia.
    + by apply list.Forall_forall.
  - done.
Qed.

Lemma sections_variable sc fixed var v n :
  sections_at sc fixed var -> source_ok v n -> room (16 + n) sc ->
  sections_at (fill (source_bytes v n) (put (le_encode 8 (voff sc + n) ++ le_encode 8 n) (reserve n sc)))
    (fixed ++ (Some <$> (le_encode 8 (voff sc + n) ++ le_encode 8 n))) (source_bytes v n ++ var).
Proof using Type.
  intros Hs Hv Hr. pose proof (sa_wf _ _ _ Hs) as Hwf.
  pose proof (length_source_bytes v n Hv) as El.
  set (hdr := le_encode 8 (voff sc + n) ++ le_encode 8 n).
  assert (length hdr = 16%nat) as Eh by (unfold hdr; by rewrite length_app, !length_le_encode).
  assert (0 <= n) as Hn by lia.
  assert (sc_geo n (reserve n sc)) as Hg by (apply reserve_geo; (done || (unfold room in *; lia))).
  assert (room (Z.of_nat (length hdr)) (reserve n sc)) as Hr16 by (unfold room in *; cbn; lia).
  pose proof (put_wf n hdr (reserve n sc) Hg Hr16) as Hgp.
  pose proof (put_agree n hdr (reserve n sc) _ Hg Hr16 eq_refl) as Hap.
  set (sp := put hdr (reserve n sc)) in *.
  assert (agree (m_offset sp) (m_size (m_chunk sc) - voff sc) (mem_of sp)
    (mem_of (fill (source_bytes v n) sp))) as Haf.
  { destruct Hgp. apply agree_splice; cbn in *; lia. }
  destruct Hwf, Hgp. unfold room in Hr. cbn in sw_voff0, sw_fit0, sw_len0.
  apply (sections_grow sc _ fixed var (Some <$> hdr) (source_bytes v n) Hs);
    rewrite ?length_fmap, ?Eh, ?El.
  - apply fill_wf. rewrite El. by split; cbn.
  - unfold same_layout. cbn. rewrite length_splice by (cbn; lia). rewrite length_splice by (cbn; lia). done.
  - cbn. lia.
  - done.
  - etrans; [eapply agree_weaken; [exact Hap|cbn; lia|cbn; lia]|].
    eapply agree_weaken; [exact Haf|cbn; lia|lia].
  - rewrite (agree_slice _ _ _ _ _ _ Haf) by (cbn in *; lia).
    pose proof (put_slice n hdr (reserve n sc) Hg Hr16) as E. rewrite Eh in E.
    change (m_offset (reserve n sc)) with (m_offset sc) in E. fold sp in E.
    rewrite E. apply Forall2_kept.
  - cbn. apply slice_splice_eq; cbn; lia.
Qed.

Lemma Write_source v n sc :
  sc_wf sc -> source_ok v n -> room n sc -> Write v n sc = Done (put (source_bytes v n) sc).
Proof using Type.
  intros Hwf Hv Hr. destruct v as [b|]; cbn in Hv; [by apply Write_put|]. subst n.
  change (Write None 0 sc) with (Write (Some []) 0 sc). rewrite Write_put; [done|done|cbn; lia|done].
Qed.

(** One guarded call, given what its body does when there is room for it. *)
Lemma guarded_refines w s c needed f fx v :
  represents w s -> added (Z.of_nat (length (sec_variable s))) c = (fx, v) -> c <> write_row_end ->
  needed = Z.of_nat (length fx) + Z.of_nat (length v) -> needed < 2 ^ 64 ->
  (room needed (m_current_chunk w) ->
   exists sc', f w = Done (set_chunk sc' (RecordColumn w))
     /\ sections_at sc' (sec_fixed s ++ fx) (v ++ sec_variable s)
     /\ same_layout (m_current_chunk w) sc') ->
  exists w', Extern.guarded needed f w = Done ((spec_write (m_chunk_size w) c s).1, w')
    /\ represents w' (spec_write (m_chunk_size w) c s).2.
Proof using Type.
  intros [Hs Hsz Hrows Hfirst] Ea Hc -> Hlt Hf. unfold Extern.guarded, spec_write. rewrite Ea.
  pose proof (sa_wf _ _ _ Hs) as Hwf.
  rewrite (HasEnoughSpace_wf _ _ Hwf Hsz), Done_bind by lia. cbn [sec_fixed sec_variable].
  set (b := _ <=? free w).
  assert ((Z.of_nat (length (sec_fixed s ++ fx) + length (v ++ sec_variable s)) <=? m_chunk_size w)
          = b) as ->.
  { subst b. unfold free. rewrite !length_app, (sa_off _ _ _ Hs), (sa_voff _ _ _ Hs).
    apply eq_true_iff_eq. rewrite !Z.leb_le. lia. }
  destruct b eqn:Eb; cbn [negb fst snd]; [|by exists w].
  destruct Hf as (sc' & -> & Hs' & Hl).
  { subst b. unfold room, free in *. apply Z.leb_le in Eb. lia. }
  rewrite Done_bind. eexists. split; [done|]. destruct Hl as (_ & Es & _ & _ & Er).
  split; cbn; [done|congruence| |done]. rewrite Er, Hrows. by destruct c.
Qed.

Lemma write_refines c w s :
  represents w s -> call_ok c ->
  exists w', do_write c w = Done ((spec_write (m_chunk_size w) c s).1, w')
    /\ represents w' (spec_write (m_chunk_size w) c s).2.
Proof using Type.
  intros Hw Hc. pose proof (rp_sections _ _ Hw) as Hs. pose proof (sa_wf _ _ _ Hs) as Hwf.
  destruct c as [n|n|d|v n m zero|v n|]; cbn [do_write call_ok] in *.
  - eapply guarded_refines; [done|reflexivity|done|by rewrite length_fmap, length_le_encode|done|].
    intros Hr. eexists. split; [apply on_chunk_Done; by eapply WriteTyped_put; [|done|lia]|].
    split; [by apply sections_put|by apply (same_layout_put 0)].
  - eapply guarded_refines; [done|reflexivity|done| |done|].
    { by rewrite length_app, length_fmap, length_le_encode. }
    intros Hr. unfold WriteInt32Numeric. rewrite on_chunk_on_chunk. eexists.
    split; [apply on_chunk_Done; by apply Write4Typed_Pad|].
    assert (room 4 (m_current_chunk w)) as Hr4 by (unfold room in *; unfold defaultAlignmentSize in Hr; lia).
    assert (room 4 (put (le_encode 4 (s32 n)) (m_current_chunk w))) as Hr4'
      by (apply room_put; by rewrite length_le_encode).
    cbn [app]. rewrite (assoc_L (++)). split.
    + apply (sections_skip _ _ _ 4); [by apply sections_put|done].
    + exact (same_layout_put 0 (le_encode 4 (s32 n)) (m_current_chunk w) Hwf
               ltac:(by rewrite length_le_encode)).
  - eapply guarded_refines; [done|reflexivity|done|by rewrite length_fmap, length_le_encode|done|].
    intros Hr. eexists. split; [apply on_chunk_Done; by eapply WriteTyped_put; [|done|lia]|].
    split; [by apply sections_put|by apply (same_layout_put 0)].
  - destruct Hc as [Hv Hm]. pose proof (length_source_bytes v n Hv) as El.
    assert (0 <= n) as Hn by lia.
    assert (sizeofAligned8 (u64 m) = 8 * ((m + 7) / 8)) as Em
      by (rewrite wrap_u_small by lia; apply sizeofAligned8_spec; lia).
    assert (m <= 8 * ((m + 7) / 8) < m + 8) as Hm8 by dlia.
    set (pad := replicate (Z.to_nat (8 * ((m + 7) / 8) - n)) (if zero then "000"%char else " "%char)).
    assert (Z.of_nat (length (source_bytes v n ++ pad)) = 8 * ((m + 7) / 8)) as Elp
      by (unfold pad; rewrite length_app, length_replicate; lia).
    eapply guarded_refines; [done|reflexivity|done| | |].
    { rewrite length_fmap. fold pad. cbn [length]. rewrite Elp. lia. }
    { lia. }
    intros Hr. rewrite Em in Hr. unfold WriteFixed. cbv zeta. rewrite on_chunk_on_chunk, Em.
    rewrite (wrap_u_small 64 n), (wrap_u_small 64 (_ - n)) by lia.
    eexists. split.
    + apply on_chunk_Done. cbn [RecordColumn m_current_chunk].
      rewrite Write_source by (done || (unfold room in *; lia)). rewrite Done_bind.
      rewrite Pad_fill_put; [fold pad|eapply put_wf; [done|]; rewrite El; unfold room in *; lia|lia|].
      * rewrite (put_put 0); [reflexivity|done|by rewrite Elp].
      * apply room_put. rewrite El. unfold room in *. lia.
    + fold pad. split; [apply sections_put; [done|by rewrite Elp]|].
      apply (same_layout_put 0); [done|by rewrite Elp].
  - destruct Hc as [Hv Hn]. pose proof (length_source_bytes v n Hv) as El.
    unfold Extern.WriteVariable, defaultAlignmentSize. cbv zeta.
    rewrite (wrap_u_small 64 (_ + 2 * 8)), (wrap_s_small 32 eq_refl), (wrap_u_small 64) by lia.
    eapply guarded_refines; [done|reflexivity|done| |lia|].
    { rewrite length_fmap, length_app, !length_le_encode. lia. }
    intros Hr. assert (room (16 + n) (m_current_chunk w)) as Hr' by (unfold room in *; lia).
    eexists. split; [apply WriteVariable_run; try done; apply Hw|].
    rewrite <- (sa_voff _ _ _ Hs). split; [by apply sections_variable|].
    assert (forall hdr, length hdr = 16%nat -> same_layout (m_current_chunk w)
      (fill (source_bytes v n) (put hdr (reserve n (m_current_chunk w))))) as Hl.
    { intros hdr Eh. destruct Hwf. unfold room in Hr'. unfold same_layout. cbn.
      rewrite !length_splice; rewrite ?length_splice; rewrite ?Eh, ?El; (done || lia). }
    apply Hl. by rewrite length_app, !length_le_encode.
  - destruct Hw as [_ Hsz Hrows Hfirst]. unfold Extern.WriteRowEnd, WriteRowEnd, spec_write.
    cbn [added app]. rewrite app_nil_r. cbn [sec_fixed sec_variable].
    assert ((Z.of_nat (length (sec_fixed s) + length (sec_variable s)) <=? m_chunk_size w) = true) as ->.
    { apply Z.leb_le. destruct Hwf. rewrite Hsz, (sa_off _ _ _ Hs), (sa_voff _ _ _ Hs) in *. lia. }
    cbn [fst snd]. destruct (Z.eqb_spec (m_row_fixed_size w) 0) as [E0|Hne].
    + rewrite c_assert_true by (by rewrite Hfirst). rewrite !Done_bind.
      eexists. split; [done|]. split; cbn; [by destruct Hs as [[]]; split; [split|..]|done| |done].
      by rewrite Hrows.
    + rewrite !Done_bind. eexists. split; [done|].
      split; cbn; [by destruct Hs as [[]]; split; [split|..]|done|by rewrite Hrows|done].
Qed.

End refinement.

(** A fresh writer on an empty chunk. *)
Lemma Reset_represents chunk schema :
  chunk_wf chunk -> consumed_size chunk = 0 -> variable_offset chunk = 0 ->
  represents (Reset chunk schema) (mkSections [] [] (row_count chunk)).
Proof.
  intros [] Hc Hv. split; cbn; [|done..]. split; cbn; [split; cbn; lia|done|done|done|].
  rewrite Hv. unfold slice. by rewrite take_0.
Qed.

