(* ===== verification/ChunkRoundTrip.v ===== *)
(** Reading a chunk inverts writing it: the dispatch on the column type that
    every client of the reader runs ([ChunkToTSV] of [tsv_table_writer.cpp]
    among them), and the theorem that it returns the rows that were written. *)

From Stdlib Require Import Ascii String.
From stdpp Require Import base list strings numbers tactics.
From stdpp Require Import options.
From S2P Require Import Prelude Schema Text Calendar SuperChunk ChunkWriter ChunkReader ChunkFormat.

Section client.
Context `{Build}.

(** The result of a read call, as a field; [None]: the call returned false. *)
Definition cell_result {A} (val : A -> outcome exn field)
    (p : read_result A * SuperChunkReader)
    : outcome exn (option field * SuperChunkReader) :=
  let '(res, r) := p in
  match res with
  | ReadFalse => Done (None, r)
  | ReadTrue true _ => Done (Some FNull, r)
  | ReadTrue false None => Undef "read of an indeterminate value"
  | ReadTrue false (Some a) => f ← val a; Done (Some f, r)
  end.

(** The reads of the switch on the column's type. *)
Definition ReadCell (col : Column) (r : SuperChunkReader)
    : outcome exn (option field * SuperChunkReader) :=
  match col_type col with
  | Int64 | DateTime | Time =>
      p ← ReadInt64 r; cell_result (fun n => Done (FNum n)) p
  | Int32 | Date =>
      p ← ReadInt32 r; cell_result (fun n => Done (FNum n)) p
  | Double => p ← ReadFloat r; cell_result (fun n => Done (FNum n)) p
  | Variable_ =>
      p ← ReadVariable r;
      cell_result (fun '(ptr, len) => s ← string_at ptr len (snd p);
                                      Done (FBytes s)) p
  | Fixed =>
      p ← ReadFixed (u64 (col_size col)) r;
      cell_result (fun ptr => s ← string_at ptr (u64 (col_size col)) (snd p);
                              Done (FBytes s)) p
  | Unsupported => Done (None, r)
  end.

Fixpoint ReadCells (cols : list Column) (r : SuperChunkReader)
    : outcome exn (option (list field) * SuperChunkReader) :=
  match cols with
  | [] => Done (Some [], r)
  | col :: cols =>
      '(f, r) ← ReadCell col r;
      match f with
      | None => Done (None, r)
      | Some f =>
          '(fs, r) ← ReadCells cols r;
          Done (option_map (cons f) fs, r)
      end
  end.

Fixpoint ReadRows (n : nat) (r : SuperChunkReader)
    : outcome exn (option (list (list field)) * SuperChunkReader) :=
  match n with
  | O => Done (Some [], r)
  | S n =>
      '(fs, r) ← ReadCells (ColumnInfo (r_row_schema r)) r;
      match fs with
      | None => Done (None, r)
      | Some fs =>
          '(rows, r) ← ReadRows n r;
          Done (option_map (cons fs) rows, r)
      end
  end.

(** Rows given to [WriteRow] one after the other, until one is refused. *)
Fixpoint WriteRows (rows : list (list (option bytes) * list Z))
    (w : SuperChunkWriter) : outcome exn (bool * SuperChunkWriter) :=
  match rows with
  | [] => Done (true, w)
  | (row, lengths) :: rows =>
      '((written, w) : bool * SuperChunkWriter) ← WriteRow row lengths w;
      if written then WriteRows rows w else Done (false, w)
  end.

Fixpoint all_fields (cols : list Column)
    (rows : list (list (option bytes) * list Z))
    : outcome exn (list (list field)) :=
  match rows with
  | [] => Done []
  | (row, lengths) :: rows =>
      fs ← fields_of cols row lengths;
      fss ← all_fields cols rows;
      Done (fs :: fss)
  end.
End client.

(** What reading leaves alone; a read of 4 bytes counts its padding as
    consumed, see [ReadInt32_consumes]. *)
Record read_frame (r r' : SuperChunkReader) : Prop := {
  rdf_mem : mem_of (r_current_chunk r') = mem_of (r_current_chunk r);
  rdf_size : m_size (m_chunk (r_current_chunk r'))
             = m_size (m_chunk (r_current_chunk r));
  rdf_voff : voff (r_current_chunk r') = voff (r_current_chunk r);
  rdf_schema : r_row_schema r' = r_row_schema r
}.

#[export] Instance read_frame_preorder : PreOrder read_frame.
Proof. split; [done|]. intros ??? [] []. split; congruence. Qed.

(** A reader of a chunk as long as it says. *)
Record reader_geo (r : SuperChunkReader) : Prop := {
  rg_len : Z.of_nat (length (mem_of (r_current_chunk r)))
           = m_size (m_chunk (r_current_chunk r));
  rg_size : 0 <= m_size (m_chunk (r_current_chunk r)) < 2 ^ 62;
  rg_voff : 0 <= voff (r_current_chunk r) <= m_size (m_chunk (r_current_chunk r));
  rg_off : 0 <= m_offset (r_current_chunk r)
}.

Definition can (n : Z) (r : SuperChunkReader) : Prop :=
  m_offset (r_current_chunk r) + n <= m_size (m_chunk (r_current_chunk r)).

(** [m] reads the field [f] of [n] bytes. *)
Definition reads {A} (f : A) (n : Z) (r : SuperChunkReader)
    (m : outcome exn (option A * SuperChunkReader)) : Prop :=
  exists r', m = Done (Some f, r') /\ read_frame r r'
    /\ m_offset (r_current_chunk r') = m_offset (r_current_chunk r) + n.

Lemma reader_geo_frame r r' :
  reader_geo r -> read_frame r r' ->
  0 <= m_offset (r_current_chunk r') -> reader_geo r'.
Proof. intros [] [Em Es Ev _] Ho. split; rewrite ?Em, ?Es, ?Ev; done. Qed.

Section read_ops.
Context `{Build}.

Lemma ReadTyped_spec n sc :
  Z.of_nat (length (mem_of sc)) = m_size (m_chunk sc) ->
  m_size (m_chunk sc) < 2 ^ 62 -> 0 <= m_offset sc ->
  m_offset sc + Z.of_nat n <= m_size (m_chunk sc) ->
  ReadTyped n sc =
  Done (le_decode (slice (mem_of sc) (m_offset sc) (Z.of_nat n)),
        mkSuperChunk (m_chunk sc) (m_offset sc + Z.of_nat n)).
Proof using Type.
  intros Hl Hs Ho Hr. unfold ReadTyped, advance.
  assert (in_buffer sc (m_offset sc) (Z.of_nat n) = true) as ->
    by (unfold in_buffer; lia).
  by rewrite wrap_u_small by lia.
Qed.

Lemma CanRead_true n r :
  reader_geo r -> 0 <= n -> can n r ->
  CanRead (GetOffset (r_current_chunk r)) n r = true.
Proof using Type.
  intros [] Hn Hc. unfold CanRead, GetOffset, Size, can in *.
  rewrite wrap_u_small by lia. lia.
Qed.

Lemma ReadInt64_reads r :
  reader_geo r -> can 8 r ->
  reads (field_int64 (s64 (le_decode (slice (mem_of (r_current_chunk r))
           (m_offset (r_current_chunk r)) 8)))) 8 r
    (ReadInt64 r ≫= cell_result (fun n => Done (FNum n))).
Proof using Type.
  intros Hg Hc. unfold ReadInt64. rewrite CanRead_true by done. cbn [negb].
  unfold Read8. destruct Hg. unfold can in Hc.
  rewrite ReadTyped_spec by lia. rewrite !Done_bind. cbn [cell_result].
  unfold field_int64. destruct (_ =? int64Null); cbn;
    (eexists; split; [done|]; by split).
Qed.

Lemma ReadFloat_reads r :
  reader_geo r -> can 8 r ->
  reads (field_double (le_decode (slice (mem_of (r_current_chunk r))
           (m_offset (r_current_chunk r)) 8))) 8 r
    (ReadFloat r ≫= cell_result (fun n => Done (FNum n))).
Proof using Type.
  intros Hg Hc. unfold ReadFloat. rewrite CanRead_true by done. cbn [negb].
  unfold Read8. destruct Hg. unfold can in Hc.
  rewrite ReadTyped_spec by lia. rewrite !Done_bind. cbn [cell_result].
  unfold field_double. destruct (isnan _); cbn;
    (eexists; split; [done|]; by split).
Qed.

Lemma ReadInt32_reads r :
  reader_geo r -> can 8 r ->
  reads (field_int32 (s32 (le_decode (slice (mem_of (r_current_chunk r))
           (m_offset (r_current_chunk r)) 4)))) 8 r
    (ReadInt32 r ≫= cell_result (fun n => Done (FNum n))).
Proof using Type.
  intros Hg Hc. unfold ReadInt32. rewrite CanRead_true by done. cbn [negb].
  unfold Read4. destruct Hg. unfold can in Hc.
  rewrite ReadTyped_spec by lia. unfold Pad. rewrite !Done_bind.
  cbn [cell_result]. unfold field_int32.
  destruct (_ =? int32Null); cbn;
    (eexists; split; [done|]; split; [done|]; cbn;
     rewrite wrap_u_small by lia; lia).
Qed.

Lemma string_at_spec p len r :
  reader_geo r -> 0 <= p -> 0 <= len ->
  p + len <= m_size (m_chunk (r_current_chunk r)) ->
  string_at p len r = Done (slice (mem_of (r_current_chunk r)) p len).
Proof using Type.
  intros [] ???. unfold string_at, in_buffer.
  by assert ((0 <=? p) && (0 <=? len)
    && (p + len <=? Z.of_nat (length (mem_of (r_current_chunk r)))) = true) as ->
    by lia.
Qed.

Lemma PtrAt_spec p sc :
  0 <= p < m_size (m_chunk sc) ->
  Z.of_nat (length (mem_of sc)) = m_size (m_chunk sc) -> PtrAt p sc = Done p.
Proof using Type.
  intros Hp Hl. unfold PtrAt, Size. rewrite c_assert_true by lia.
  rewrite Done_bind. unfold in_buffer.
  by assert ((0 <=? p) && (0 <=? 0)
    && (p + 0 <=? Z.of_nat (length (mem_of sc))) = true) as -> by lia.
Qed.

(** [vo] and [len]: the two words of the fixed section. *)
Lemma ReadVariable_reads r vo len :
  reader_geo r -> can 16 r -> (ndebug = true \/ vo <> 0) ->
  0 <= len <= vo -> vo <= m_size (m_chunk (r_current_chunk r)) ->
  le_decode (slice (mem_of (r_current_chunk r))
               (m_offset (r_current_chunk r)) 8) = vo ->
  le_decode (slice (mem_of (r_current_chunk r))
               (m_offset (r_current_chunk r) + 8) 8) = len ->
  reads (field_variable (slice (mem_of (r_current_chunk r))
           (Z.of_nat (length (mem_of (r_current_chunk r))) - vo) len)) 16 r
    (p ← ReadVariable r;
     cell_result (fun '(ptr, len) => s ← string_at ptr len (snd p);
                                     Done (FBytes s)) p).
Proof using Type.
  intros Hg Hc Hdbg Hlen Hvo E1 E2. unfold ReadVariable.
  rewrite CanRead_true by done. cbn [negb].
  pose proof Hg as [Hl Hs Hv Ho]. unfold can in Hc. unfold Read8.
  rewrite ReadTyped_spec by lia. rewrite !Done_bind.
  change (Z.of_nat 8) with 8. rewrite E1.
  assert (c_assert (E := exn) (negb (vo =? 0)) "offset" = Done tt) as ->.
  { unfold c_assert. destruct Hdbg as [->|Hne]; [by rewrite orb_true_r|].
    by destruct (Z.eqb_spec vo 0). }
  rewrite Done_bind, ReadTyped_spec by (cbn; lia).
  cbn [m_chunk m_offset]. change (Z.of_nat 8) with 8.
  rewrite E2, Done_bind. cbv beta iota zeta.
  set (sc := mkSuperChunk _ (_ + 8 + 8)).
  destruct (Z.eqb_spec len 0) as [->|Hne].
  { rewrite Done_bind. cbn. eexists. split; [done|]. split; [done|].
    subst sc; cbn; lia. }
  unfold CanRead, Size. cbn [r_current_chunk set_r_chunk m_chunk sc].
  rewrite (wrap_u_small 64 (_ - vo)), (wrap_u_small 64) by lia.
  assert (m_size (m_chunk (r_current_chunk r)) - vo + len
          <=? m_size (m_chunk (r_current_chunk r)) = true) as -> by lia.
  cbn [negb]. rewrite PtrAt_spec by (subst sc; cbn; lia).
  rewrite !Done_bind. cbn [cell_result snd].
  rewrite string_at_spec by (try split; subst sc; cbn; lia).
  rewrite !Done_bind, <- Hl.
  exists (set_r_chunk sc r).
  split; [|split; [done|subst sc; cbn; lia]].
  do 3 f_equal. unfold field_variable. cbn [set_r_chunk r_current_chunk m_chunk sc].
  destruct (slice _ _ len) as [|? ?] eqn:Esl; [|done].
  pose proof (length_slice (mem_of (r_current_chunk r))
    (Z.of_nat (length (mem_of (r_current_chunk r))) - vo) len) as El.
  rewrite Esl in El. cbn in El. lia.
Qed.

Lemma ReadFixed_reads col r :
  reader_geo r -> can (fixed_len col) r -> col_ok col -> col_type col = Fixed ->
  reads (field_fixed (slice (mem_of (r_current_chunk r))
           (m_offset (r_current_chunk r)) (col_size col))) (fixed_len col) r
    (p ← ReadFixed (u64 (col_size col)) r;
     cell_result (fun ptr => s ← string_at ptr (u64 (col_size col)) (snd p);
                             Done (FBytes s)) p).
Proof using Type.
  intros Hg Hc Hok Ht. destruct (fixed_len_bounds col Hok) as [Hfl Hs].
  specialize (Hs Ht). pose proof (Hok Ht) as Hsz. unfold can in Hc.
  assert (sizeofAligned8 (u64 (col_size col)) = fixed_len col) as Ea
    by (unfold fixed_len; by rewrite Ht).
  unfold ReadFixed. rewrite (wrap_u_small 64 (col_size col)) in * by lia.
  destruct (Z.eqb_spec (col_size col) 0) as [?|_]; [lia|].
  pose proof Hg as [Hl Hsz' Hv Ho].
  unfold ReadAligned8, Size. rewrite Ea. cbv zeta.
  rewrite (wrap_u_small 64 (_ - _)) by lia.
  destruct (Z.ltb_spec (m_size (m_chunk (r_current_chunk r))
    - m_offset (r_current_chunk r)) (fixed_len col)) as [?|_]; [lia|].
  rewrite PtrAt_spec by lia. rewrite !Done_bind.
  unfold advance. rewrite wrap_u_small, wrap_s_small by lia.
  set (sc := mkSuperChunk _ _). cbn [m_chunk sc].
  rewrite IsNullBuffer_spec by (rewrite length_drop; lia). rewrite !Done_bind.
  change (take _ (drop _ (mem_of (r_current_chunk r))))
    with (slice (mem_of (r_current_chunk r)) (m_offset (r_current_chunk r))
            (col_size col)).
  unfold field_fixed. destruct (null_bytes _); cbn [cell_result snd].
  - eexists. split; [done|]. by split.
  - rewrite string_at_spec by (try split; subst sc; cbn; lia).
    eexists. split; [done|]. by split.
Qed.
End read_ops.

(** A debug build stops at a variable-length NULL that no value precedes (see
    [ReadVariable_debug]); these fields never make it do so. *)
Definition readable `{Build} (col : Column) (f : field) : Prop :=
  ndebug = true \/ (col_type col = Variable_ -> f <> FNull).

Section rows.
Context `{Build}.

Lemma ReadCell_reads col f r :
  reader_geo r -> can (fixed_len col) r -> col_ok col -> readable col f ->
  field_at (mem_of (r_current_chunk r)) (voff (r_current_chunk r))
    (m_offset (r_current_chunk r)) col f ->
  reads f (fixed_len col) r (ReadCell col r).
Proof using Type.
  intros Hg Hc Hok Hdbg Hf. unfold field_at, readable in *. unfold ReadCell.
  destruct (col_type col) eqn:Ht;
    try (assert (fixed_len col = 8) as E8 by (unfold fixed_len; by rewrite Ht);
         rewrite E8 in *; subst f;
         first [by apply ReadInt64_reads | by apply ReadInt32_reads
               | by apply ReadFloat_reads]).
  - assert (fixed_len col = 16) as E16 by (unfold fixed_len; by rewrite Ht).
    rewrite E16 in *. destruct Hf as (vo & len & Hlen & Hvo & E1 & E2 & ->).
    destruct (rg_voff _ Hg).
    apply ReadVariable_reads; try done; [|lia].
    destruct Hdbg as [?|Hn]; [by left|right]. intros ->.
    assert (len = 0) as -> by lia. by destruct Hn.
  - destruct Hf as [_ ->]. by apply ReadFixed_reads.
  - done.
Qed.

Lemma ReadCells_reads cols fs r :
  reader_geo r -> can (fixed_row cols) r -> Forall col_ok cols ->
  Forall2 readable cols fs ->
  fields_at (mem_of (r_current_chunk r)) (voff (r_current_chunk r))
    (m_offset (r_current_chunk r)) cols fs ->
  reads fs (fixed_row cols) r (ReadCells cols r).
Proof using Type.
  intros Hg Hc Hcs Hd. revert r Hg Hc Hcs.
  induction Hd as [|col f cols fs Hd Hds IH]; intros r Hg Hc Hcs Hf.
  { exists r. split; [done|]. split; [done|]. cbn. lia. }
  apply Forall_cons_iff in Hcs as [Hok Hcs]. destruct Hf as [Hf Hfs].
  pose proof (fixed_row_nonneg _ Hcs).
  pose proof (fixed_len_bounds _ Hok) as [Hfl _].
  cbn [fixed_row ReadCells] in *.
  destruct (ReadCell_reads col f r) as (r1 & -> & Hfr & Ho);
    try done; [unfold can in *; lia|].
  rewrite Done_bind. cbv beta iota zeta.
  pose proof Hfr as [Em Es Ev _]. destruct Hg.
  destruct (IH r1) as (r2 & -> & Hfr2 & Ho2); try done.
  { split; rewrite ?Em, ?Es, ?Ev; done || lia. }
  { unfold can in *. rewrite Es. lia. }
  { by rewrite Em, Ev, Ho. }
  exists r2. split; [done|]. split; [by etransitivity|lia].
Qed.

Lemma ReadRows_reads rows r :
  let cols := ColumnInfo (r_row_schema r) in
  reader_geo r -> can (Z.of_nat (length rows) * fixed_row cols) r ->
  Forall col_ok cols -> Forall (Forall2 readable cols) rows ->
  rows_at (mem_of (r_current_chunk r)) (voff (r_current_chunk r))
    (m_offset (r_current_chunk r)) cols rows ->
  reads rows (Z.of_nat (length rows) * fixed_row cols) r
    (ReadRows (length rows) r).
Proof using Type.
  intros cols Hg Hc Hcs Hd. subst cols. revert r Hg Hc Hcs Hd.
  induction rows as [|fs rows IH]; intros r Hg Hc Hcs Hd Hr.
  { exists r. split; [done|]. split; [done|]. cbn. lia. }
  apply Forall_cons_iff in Hd as [Hd Hds]. destruct Hr as [Hf Hfs].
  pose proof (fixed_row_nonneg _ Hcs). cbn [length ReadRows].
  rewrite Nat2Z.inj_succ in *. unfold can in Hc. cbn [length] in Hc.
  rewrite Nat2Z.inj_succ in Hc.
  destruct (ReadCells_reads (ColumnInfo (r_row_schema r)) fs r)
    as (r1 & -> & Hfr & Ho); try done; [unfold can; nia|].
  rewrite Done_bind. cbv beta iota zeta.
  pose proof Hfr as [Em Es Ev Esch]. destruct Hg.
  destruct (IH r1) as (r2 & -> & Hfr2 & Ho2); try rewrite Esch; try done.
  { split; rewrite ?Em, ?Es, ?Ev; done || lia. }
  { unfold can in *. rewrite Es. lia. }
  { by rewrite Em, Ev, Ho. }
  exists r2. split; [done|]. split; [by etransitivity|].
  rewrite Esch in Ho2. lia.
Qed.
End rows.

(** Bytes that a list of rows asks for. *)
Definition rows_need (cols : list Column)
    (rows : list (list (option bytes) * list Z)) : Z :=
  foldr (fun r n => row_need cols (snd r) + n) 0 rows.

Definition rows_ok (cols : list Column)
    (rows : list (list (option bytes) * list Z)) : Prop :=
  Forall (fun r => cells_ok cols (fst r) (snd r)) rows.

Lemma rows_need_nonneg cols rows : rows_ok cols rows -> 0 <= rows_need cols rows.
Proof.
  induction 1 as [|[row lengths] rows Hr _ IH]; [done|].
  pose proof (row_need_bounds _ _ _ Hr).
  change (0 <= row_need cols lengths + rows_need cols rows). cbn in *. lia.
Qed.

Section round_trip.
Context `{Build}.

Lemma WriteRows_ok rows fss w done_rows :
  let cols := ColumnInfo (m_row_schema w) in
  writer_ok w done_rows -> rows_ok cols rows -> rows_need cols rows <= free w ->
  all_fields cols rows = Done fss ->
  exists w', WriteRows rows w = Done (true, w')
    /\ writer_ok w' (done_rows ++ fss) /\ m_row_schema w' = m_row_schema w.
Proof using Type.
  intros cols. subst cols. revert fss w done_rows.
  induction rows as [|[row lengths] rows IH]; intros fss w ds Hw Hok Hn Hf.
  { cbn in Hf. injection Hf as <-. exists w. by rewrite app_nil_r. }
  apply Forall_cons_iff in Hok as [Hr Hrs]. cbn [fst snd] in *.
  cbn [all_fields] in Hf. inv_done.
  change (row_need (ColumnInfo (m_row_schema w)) lengths
          + rows_need (ColumnInfo (m_row_schema w)) rows <= free w) in Hn.
  pose proof (rows_need_nonneg _ _ Hrs). pose proof (row_need_bounds _ _ _ Hr).
  pose proof Hw as [[] Hsz _ _ _ _ _ _ _].
  destruct (WriteRow_written row lengths w ds a) as (w1 & Ew & Hw1 & Hfree & Hs);
    [done|done|unfold free in *; lia|lia|done|].
  cbn [WriteRows]. rewrite Ew, Done_bind. cbv beta iota zeta.
  destruct (IH a0 w1 (ds ++ [a])) as (w2 & Ew2 & Hw2 & Hs2); rewrite ?Hs; try done.
  { unfold free in *. lia. }
  exists w2. rewrite cons_middle, app_assoc. split; [done|]. split; [done|].
  congruence.
Qed.

(** A reader set on a chunk returns the rows that its memory has. *)
Lemma read_chunk sc schema rows err :
  let cols := ColumnInfo schema in
  sc_wf sc -> Forall col_ok cols -> Forall (Forall2 readable cols) rows ->
  row_count (m_chunk sc) = Z.of_nat (length rows) ->
  Z.of_nat (length rows) * fixed_row cols <= m_size (m_chunk sc) ->
  rows_at (mem_of sc) (voff sc) 0 cols rows ->
  exists r, ReadRows (Z.to_nat (row_count (m_chunk sc))) (Reset_reader (m_chunk sc) schema err)
              = Done (Some rows, r)
    /\ m_ptr (m_chunk (r_current_chunk r)) = mem_of sc.
Proof using Type.
  intros cols [] Hc Hd Hcnt Hsz Hr. rewrite Hcnt, Nat2Z.id.
  destruct (ReadRows_reads rows (Reset_reader (m_chunk sc) schema err))
    as (r & E & Hfr & _); cbn; try done.
  - split; cbn; try done; lia.
  - exists r. split; [done|]. by rewrite (rdf_mem _ _ Hfr).
Qed.

(** A reader set on the chunk of a writer returns the rows written to it. *)
Lemma read_written w rows err :
  writer_ok w rows ->
  Forall (Forall2 readable (ColumnInfo (m_row_schema w))) rows ->
  let chunk := m_chunk (m_current_chunk w) in
  exists r, ReadRows (Z.to_nat (row_count chunk))
              (Reset_reader chunk (m_row_schema w) err) = Done (Some rows, r)
    /\ m_ptr (m_chunk (r_current_chunk r)) = m_ptr chunk.
Proof using Type.
  intros [Hwf Hsz Hc _ Ho Hcnt Hr _ _] Hd chunk. apply read_chunk; try done.
  rewrite <- Ho. destruct Hwf. lia.
Qed.

(** C3. Round trip of a chunk: rows that fit into a fresh chunk are all written,
    and the reader returns for every cell of every row the value that the
    database gave for it: numbers unchanged, NULL as NULL, dates and times
    converted, fixed-length text padded with spaces. *)
Theorem write_read_rows chunk schema rows fss err :
  let cols := ColumnInfo schema in
  chunk_wf chunk -> consumed_size chunk = 0 -> variable_offset chunk = 0 ->
  row_count chunk = 0 -> Forall col_ok cols -> cols <> [] ->
  rows_ok cols rows -> rows_need cols rows <= m_size chunk ->
  all_fields cols rows = Done fss -> Forall (Forall2 readable cols) fss ->
  exists w, WriteRows rows (Reset chunk schema) = Done (true, w)
    /\ let chunk' := m_chunk (m_current_chunk w) in
       row_count chunk' = Z.of_nat (length rows)
       /\ exists r, ReadRows (Z.to_nat (row_count chunk'))
                      (Reset_reader chunk' schema err) = Done (Some fss, r).
Proof using Type.
  intros cols Hwf Hc Hv Hr Hcols Hne Hok Hn Hf Hd.
  destruct (WriteRows_ok rows fss (Reset chunk schema) [])
    as (w & Ew & Hw & Hs); try done.
  { by apply Reset_ok. }
  { change (rows_need cols rows <= m_size chunk - variable_offset chunk - 0). lia. }
  exists w. split; [done|]. cbv zeta. cbn in Hw.
  assert (length fss = length rows) as El.
  { clear -Hf. revert fss Hf. induction rows as [|[row l] rows IH]; intros fss Hf.
    - cbn in Hf. by injection Hf as <-.
    - cbn in Hf. inv_done. f_equal. by apply IH. }
  split; [by rewrite (wo_count _ _ Hw), El|].
  destruct (read_written w fss err Hw) as (r & Er & _); [by rewrite Hs|].
  exists r. by rewrite Hs in Er.
Qed.
End round_trip.

(** A reader does not look at the offset of the variable section, which
    [MoveChunk] does not copy. *)
Section moved.
Context `{Build}.
Context (v : Z).

Definition moved_chunk (sc : SuperChunk) : SuperChunk :=
  mkSuperChunk (set_variable_offset v (m_chunk sc)) (m_offset sc).
Definition moved (r : SuperChunkReader) : SuperChunkReader :=
  set_r_chunk (moved_chunk (r_current_chunk r)) r.

Definition moves {A} (m : outcome exn (A * SuperChunkReader)) : outcome exn (A * SuperChunkReader) :=
  '((a, r) : A * SuperChunkReader) ← m; Done (a, moved r).

Lemma ReadTyped_moved n sc :
  ReadTyped n (moved_chunk sc)
  = ('((x, sc) : Z * SuperChunk) ← ReadTyped n sc; Done (x, moved_chunk sc)).
Proof using Type.
  unfold ReadTyped. change (in_buffer (moved_chunk sc)) with (in_buffer sc).
  by destruct (in_buffer sc _ _).
Qed.

(** A read of a number. *)
Ltac read_moved r :=
  change (CanRead _ 8 (moved r)) with (CanRead (GetOffset (r_current_chunk r)) 8 r);
  destruct (negb _); [done|];
  change (r_current_chunk (moved r)) with (moved_chunk (r_current_chunk r));
  rewrite ReadTyped_moved; by destruct (ReadTyped _ _) as [[]| | |].

Lemma ReadInt64_moved r : ReadInt64 (moved r) = moves (ReadInt64 r).
Proof using Type.
  unfold ReadInt64, Read8. read_moved r.
Qed.

Lemma ReadFloat_moved r : ReadFloat (moved r) = moves (ReadFloat r).
Proof using Type.
  unfold ReadFloat, Read8. read_moved r.
Qed.

Lemma ReadInt32_moved r : ReadInt32 (moved r) = moves (ReadInt32 r).
Proof using Type.
  unfold ReadInt32, Read4. read_moved r.
Qed.

Lemma ReadVariable_moved r : ReadVariable (moved r) = moves (ReadVariable r).
Proof using Type.
  unfold ReadVariable. change (CanRead _ 16 (moved r)) with (CanRead (GetOffset (r_current_chunk r)) 16 r).
  destruct (negb _); [done|]. unfold Read8.
  change (r_current_chunk (moved r)) with (moved_chunk (r_current_chunk r)).
  rewrite ReadTyped_moved. destruct (ReadTyped 8 _) as [[o sc]| | |]; rewrite ?Done_bind; try done.
  cbv beta iota zeta. destruct (c_assert _ _); rewrite ?Done_bind; try done.
  rewrite ReadTyped_moved. destruct (ReadTyped 8 _) as [[len sc']| | |]; rewrite ?Done_bind; try done.
  cbv beta iota zeta. destruct (len =? 0); [done|].
  change (Size (moved_chunk sc')) with (Size sc').
  change (CanRead ?o len (set_r_chunk (moved_chunk sc') (moved r))) with (CanRead o len (set_r_chunk sc' r)).
  destruct (negb _); [done|]. change (PtrAt ?p (moved_chunk sc')) with (PtrAt p sc').
  by destruct (PtrAt _ sc').
Qed.

Lemma ReadFixed_moved len r : ReadFixed len (moved r) = moves (ReadFixed len r).
Proof using Type.
  unfold ReadFixed. destruct (len =? 0); [done|].
  change (r_current_chunk (moved r)) with (moved_chunk (r_current_chunk r)).
  set (sc := r_current_chunk r). unfold ReadAligned8. cbv zeta.
  change (Size (moved_chunk sc)) with (Size sc). change (m_offset (moved_chunk sc)) with (m_offset sc).
  destruct (_ <? _); [done|]. change (PtrAt ?p (moved_chunk sc)) with (PtrAt p sc).
  destruct (PtrAt _ sc) as [p| | |]; rewrite ?Done_bind; try done. cbv beta iota zeta.
  change (m_ptr (m_chunk (advance ?n (moved_chunk sc)))) with (m_ptr (m_chunk (advance n sc))).
  by destruct (IsNullBuffer _ _).
Qed.

Lemma cell_result_moved {A} (val val' : A -> outcome exn field) (p : read_result A * SuperChunkReader) :
  (forall a, val' a = val a) ->
  cell_result val' (fst p, moved (snd p)) = moves (cell_result val p).
Proof using Type.
  intros Hval. destruct p as [[|[] [a|]] r]; cbn; try done. rewrite Hval. by destruct (val a).
Qed.

Lemma ReadCell_moved col r : ReadCell col (moved r) = moves (ReadCell col r).
Proof using Type.
  unfold ReadCell.
  destruct (col_type col);
    rewrite ?ReadInt64_moved, ?ReadInt32_moved, ?ReadFloat_moved, ?ReadVariable_moved, ?ReadFixed_moved;
    [..|done].
  all: lazymatch goal with
    |- moves ?m ≫= _ = _ => destruct m as [[x r']| | |]; unfold moves at 1; rewrite ?Done_bind; try done
    end.
  all: by apply (cell_result_moved _ _ (x, r')); try (intros []).
Qed.

Lemma ReadCells_moved cols : forall r, ReadCells cols (moved r) = moves (ReadCells cols r).
Proof using Type.
  induction cols as [|col cols IH]; intros r; [done|]. cbn [ReadCells]. rewrite ReadCell_moved.
  destruct (ReadCell col r) as [[[f|] r']| | |]; unfold moves; rewrite ?Done_bind; try done.
  cbv beta iota zeta. rewrite IH.
  by destruct (ReadCells cols r') as [[]| | |].
Qed.

Lemma ReadRows_moved n : forall r, ReadRows n (moved r) = moves (ReadRows n r).
Proof using Type.
  induction n as [|n IH]; intros r; [done|]. cbn [ReadRows].
  change (r_row_schema (moved r)) with (r_row_schema r). rewrite ReadCells_moved.
  destruct (ReadCells _ r) as [[[fs|] r']| | |]; unfold moves; rewrite ?Done_bind; try done.
  cbv beta iota zeta. rewrite IH.
  by destruct (ReadRows n r') as [[]| | |].
Qed.
End moved.

(** ** Concrete chunks *)
Definition demo_schema : RowSchema :=
  mkRowSchema [mkColumn Int64 8 "a"; mkColumn Variable_ 0 "b"; mkColumn Fixed 4 "c"].

(** (1, 'hi', 'ab') and (NULL, NULL, NULL). *)
Definition demo_rows : list (list (option bytes) * list Z) :=
  [([Some (le_encode 8 1); Some (String.list_ascii_of_string "hi");
     Some (String.list_ascii_of_string "ab")], [8; 2; 2]);
   ([None; None; None], [0; 0; 0])].

Definition demo_fields : list (list field) :=
  [[FNum 1; FBytes (String.list_ascii_of_string "hi");
    FBytes (String.list_ascii_of_string "ab  ")];
   [FNull; FNull; FNull]].

Lemma write_read_rows_witness :
  exists w, WriteRows (H := release_build) demo_rows (Reset (fresh_chunk 80) demo_schema)
    = Done (true, w)
  /\ let chunk' := m_chunk (m_current_chunk w) in
     row_count chunk' = 2
     /\ exists r, ReadRows (H := release_build) (Z.to_nat (row_count chunk'))
          (Reset_reader chunk' demo_schema "") = Done (Some demo_fields, r).
Proof.
  apply (write_read_rows (H := release_build) (fresh_chunk 80) demo_schema demo_rows
    demo_fields ""); try done.
  - repeat constructor; unfold col_ok; cbn; try done; lia.
  - repeat constructor; cbn; try done; lia.
  - repeat constructor.
Defined.

(** ** What the reader does to the chunk it reads *)
Section reader_effects.
Context `{Build}.

(** Reading an [Int32] changes the chunk: the 4 bytes of padding that the
    writer has counted are added to [consumed_size] again. *)
Lemma ReadInt32_consumes r :
  reader_geo r -> can 8 r ->
  0 <= consumed_size (m_chunk (r_current_chunk r)) < 2 ^ 63 ->
  exists res r', ReadInt32 r = Done (res, r')
    /\ consumed_size (m_chunk (r_current_chunk r'))
       = consumed_size (m_chunk (r_current_chunk r)) + 4.
Proof using Type.
  intros Hg Hc Hb. unfold ReadInt32. rewrite CanRead_true by done. cbn [negb].
  unfold Read4. destruct Hg. unfold can in Hc.
  rewrite ReadTyped_spec by lia. unfold Pad. rewrite !Done_bind.
  do 2 eexists. split; [done|]. cbn. by rewrite wrap_u_small by lia.
Qed.

(** A variable-length NULL (or empty) value that no other value precedes in
    its chunk is stored with offset 0: a release build reads NULL, a debug
    build stops at the reader's assertion. *)
Theorem ReadVariable_first_null r :
  reader_geo r -> can 16 r ->
  le_decode (slice (mem_of (r_current_chunk r))
               (m_offset (r_current_chunk r)) 8) = 0 ->
  le_decode (slice (mem_of (r_current_chunk r))
               (m_offset (r_current_chunk r) + 8) 8) = 0 ->
  ReadVariable r =
  if ndebug then
    Done (ReadTrue true None,
          set_r_chunk (mkSuperChunk (m_chunk (r_current_chunk r))
            (m_offset (r_current_chunk r) + 16)) r)
  else AssertFail "offset".
Proof using Type.
  intros Hg Hc E1 E2. unfold ReadVariable. rewrite CanRead_true by done.
  cbn [negb]. destruct Hg. unfold can in Hc. unfold Read8.
  rewrite ReadTyped_spec by lia. rewrite !Done_bind.
  change (Z.of_nat 8) with 8. rewrite E1. unfold c_assert.
  cbn [Z.eqb negb orb]. destruct ndebug; [|done].
  rewrite Done_bind, ReadTyped_spec by (cbn; lia).
  cbn [m_chunk m_offset]. change (Z.of_nat 8) with 8. rewrite E2, Done_bind.
  cbv beta iota zeta. rewrite Z.eqb_refl. do 4 f_equal. lia.
Qed.
End reader_effects.

(** The NULL that a fresh writer stores is such a value. *)
Definition null_reader : SuperChunkReader :=
  match WriteRow (H := debug_build) [None] [0]
          (Reset (fresh_chunk 16) (mkRowSchema [mkColumn Variable_ 0 "v"])) with
  | Done (_, w) =>
      Reset_reader (m_chunk (m_current_chunk w)) (m_row_schema w) EmptyString
  | _ => Reset_reader (fresh_chunk 0) (mkRowSchema []) EmptyString
  end.

Lemma ReadVariable_first_null_witness :
  row_count (m_chunk (r_current_chunk null_reader)) = 1
  /\ ReadVariable (H := debug_build) null_reader = AssertFail "offset".
Proof.
  split; [reflexivity|].
  apply (ReadVariable_first_null (H := debug_build) null_reader);
    [split; vm_compute; repeat split; done|by vm_compute|reflexivity|reflexivity].
Defined.
