(* ===== verification/ApiRoundTrip.v ===== *)
(** The exported functions of [hdat_write_extern.h] and [hdat_read_extern.h]
    together, as SAS uses them: the caller writes a chunk value by value, ends
    each complete row with [WriteRowEnd] and stops at the first value that does
    not fit; the chunk is then read back.  [ChunkRoundTrip.v] has the same for
    the rows that the library writes itself. *)

From Stdlib Require Import Ascii String.
From stdpp Require Import base list strings numbers tactics.
From stdpp Require Import options.
From S2P Require Import Prelude Schema Text SuperChunk ChunkWriter ChunkReader ChunkFormat.
From S2P Require Import ChunkRoundTrip.

(** ** Writing value by value *)

(** The value and the function that writes it. *)
Inductive api_value :=
  | VInt64 (n : Z)
  | VInt32 (n : Z)
  | VDouble (bits : Z)
  | VFixed (b : bytes) (pad_with_zero : bool)
  | VVariable (b : bytes).

Section writing.
Context `{Build}.

Definition write_api_value (col : Column) (v : api_value) (w : SuperChunkWriter)
    : outcome exn (bool * SuperChunkWriter) :=
  match v with
  | VInt64 n => ChunkWriter.Extern.WriteInt64 n w
  | VInt32 n => ChunkWriter.Extern.WriteInt32 n w
  | VDouble d => ChunkWriter.Extern.WriteDouble d w
  | VFixed b zero =>
      ChunkWriter.Extern.WriteFixed (Some b) (Z.of_nat (length b)) (col_size col) zero w
  | VVariable b => ChunkWriter.Extern.WriteVariable (Some b) (Z.of_nat (length b)) w
  end.

(** Whether all values of the row have been written. *)
Fixpoint write_api_row (cols : list Column) (vs : list api_value) (w : SuperChunkWriter)
    : outcome exn (bool * SuperChunkWriter) :=
  match cols, vs with
  | col :: cols, v :: vs =>
      '((ok, w) : bool * SuperChunkWriter) ← write_api_value col v w;
      if ok then write_api_row cols vs w else Done (false, w)
  | _, _ => Done (true, w)
  end.

(** The number of complete rows, up to the first row that does not fit. *)
Fixpoint write_api_rows (cols : list Column) (rows : list (list api_value))
    (w : SuperChunkWriter) : outcome exn (nat * SuperChunkWriter) :=
  match rows with
  | [] => Done (0%nat, w)
  | row :: rows =>
      '((ok, w) : bool * SuperChunkWriter) ← write_api_row cols row w;
      if ok then
        w ← ChunkWriter.Extern.WriteRowEnd w;
        '((k, w) : nat * SuperChunkWriter) ← write_api_rows cols rows w;
        Done (S k, w)
      else Done (0%nat, w)
  end.
End writing.

(** ** What is written *)
Definition api_matches (col : Column) (v : api_value) : Prop :=
  match v with
  | VInt64 _ => is_int64 (col_type col)
  | VInt32 _ => is_int32 (col_type col)
  | VDouble d => col_type col = Double /\ 0 <= d < 2 ^ 64
  | VFixed b _ => col_type col = Fixed /\ Z.of_nat (length b) <= col_size col
  | VVariable b => col_type col = Variable_ /\ Z.of_nat (length b) < 2 ^ 31 - 16
  end.

(** The value that a reader gets: the numbers that stand for NULL, and an empty
    text, are NULL; a text of fixed length is padded. *)
Definition api_field (col : Column) (v : api_value) : field :=
  match v with
  | VInt64 n => field_int64 (s64 n)
  | VInt32 n => field_int32 (s32 n)
  | VDouble d => field_double d
  | VFixed b zero =>
      field_fixed (take (Z.to_nat (col_size col))
        (b ++ replicate (Z.to_nat (col_size col)) (pad_char zero)))
  | VVariable b => field_variable b
  end.

Definition api_var (v : api_value) : Z :=
  match v with VVariable b => Z.of_nat (length b) | _ => 0 end.

Fixpoint api_need (cols : list Column) (vs : list api_value) : Z :=
  match cols, vs with
  | col :: cols, v :: vs => fixed_len col + api_var v + api_need cols vs
  | _, _ => 0
  end.
Definition api_rows_need (cols : list Column) (rows : list (list api_value)) : Z :=
  foldr (fun row n => api_need cols row + n) 0 rows.

Section values.
Context `{Build}.

(** One value: written if there is space for it, otherwise the writer is as it
    was. *)
Lemma write_api_value_spec col v w :
  sc_wf (m_current_chunk w) -> m_chunk_size w = m_size (m_chunk (m_current_chunk w)) ->
  col_ok col -> api_matches col v ->
  if fixed_len col + api_var v <=? free w then
    exists w', write_api_value col v w = Done (true, w') /\ row_frame w w'
      /\ col_written col (api_field col v) (api_var v) (m_current_chunk w) (m_current_chunk w')
  else write_api_value col v w = Done (false, w).
Proof using Type.
  intros Hwf Hsz Hok Hm.
  assert (forall n f, n = fixed_len col + api_var v -> 0 <= n < 2 ^ 64 ->
    (room n (m_current_chunk w) -> writes col (api_field col v) (api_var v) w (f w)) ->
    if fixed_len col + api_var v <=? free w then
      exists w', ChunkWriter.Extern.guarded n f w = Done (true, w') /\ row_frame w w'
        /\ col_written col (api_field col v) (api_var v) (m_current_chunk w) (m_current_chunk w')
    else ChunkWriter.Extern.guarded n f w = Done (false, w)) as Hg.
  { intros n f -> Hn Hf. unfold ChunkWriter.Extern.guarded.
    rewrite (HasEnoughSpace_wf _ _ Hwf Hsz Hn), Done_bind.
    destruct (Z.leb_spec (fixed_len col + api_var v) (free w)) as [Hle|Hgt]; [|done].
    cbn [negb]. destruct Hf as (w' & -> & Hfr & Hc); [|by exists w'].
    unfold room, free in *. lia. }
  pose proof (fixed_len_bounds col Hok) as [Hfl _].
  destruct v as [n|n|d|b zero|b]; cbn [api_matches api_var api_field write_api_value] in *.
  - apply Hg; unfold defaultAlignmentSize; [|lia|intros Hr; by apply WriteInt64Numeric_writes].
    unfold fixed_len. by destruct (col_type col).
  - apply Hg; unfold defaultAlignmentSize; [|lia|intros Hr; by apply WriteInt32Numeric_writes].
    unfold fixed_len. by destruct (col_type col).
  - destruct Hm as [Ht Hd]. apply Hg; unfold defaultAlignmentSize; [by unfold fixed_len; rewrite Ht|lia|].
    intros Hr. eapply writes_on_chunk; [eapply WriteTyped_put; (done || lia)|].
    pose proof (double_written col (le_encode 8 d) _ Hwf Hr (length_le_encode 8 _) Ht) as Hw.
    by rewrite u64_encode in Hw.
  - destruct Hm as [Ht Hb]. specialize (Hok Ht) as Hsize. apply Hg.
    + unfold fixed_len. rewrite Ht. lia.
    + unfold fixed_len in Hfl. rewrite Ht in Hfl. lia.
    + intros Hr.
      pose proof (WriteFixed_writes col b (Z.of_nat (length b)) zero w Hwf) as Hw.
      rewrite Nat2Z.id, (take_ge b) in Hw by lia. apply Hw; try done; [|lia].
      unfold fixed_len. by rewrite Ht.
  - destruct Hm as [Ht Hb]. unfold ChunkWriter.Extern.WriteVariable, defaultAlignmentSize. cbv zeta.
    assert (fixed_len col = 16) as E16 by (unfold fixed_len; by rewrite Ht).
    rewrite (wrap_u_small 64 (_ + 2 * 8)), (wrap_s_small 32 eq_refl), (wrap_u_small 64) by lia.
    apply Hg; [lia|lia|]. intros Hr.
    pose proof (WriteVariable_writes col (Some b) (Z.of_nat (length b)) w Hwf) as Hw.
    cbn [source_bytes] in Hw. rewrite Nat2Z.id, firstn_all in Hw.
    apply Hw; try done; [|cbn; lia]. unfold room in *. lia.
Qed.

Definition api_fields (cols : list Column) (vs : list api_value) : list field :=
  zip_with api_field cols vs.
Definition api_vars (vs : list api_value) : Z := foldr (fun v n => api_var v + n) 0 vs.

Lemma api_var_nonneg v : 0 <= api_var v.
Proof using Type. destruct v; cbn; lia. Qed.

Lemma api_vars_nonneg vs : 0 <= api_vars vs.
Proof using Type.
  induction vs as [|v vs IH]; [done|]. pose proof (api_var_nonneg v).
  change (0 <= api_var v + api_vars vs). lia.
Qed.

Lemma api_need_split cols vs :
  length cols = length vs -> api_need cols vs = fixed_row cols + api_vars vs.
Proof using Type.
  revert vs. induction cols as [|col cols IH]; intros [|v vs] Hl; try done.
  change (fixed_len col + api_var v + api_need cols vs
          = fixed_len col + fixed_row cols + (api_var v + api_vars vs)).
  rewrite IH by (cbn in Hl; lia). lia.
Qed.

(** The writer after values that are not a whole row. *)
Definition row_begun (w w' : SuperChunkWriter) : Prop :=
  sc_wf (m_current_chunk w') /\ same_layout (m_current_chunk w) (m_current_chunk w')
  /\ m_offset (m_current_chunk w) <= m_offset (m_current_chunk w')
  /\ voff (m_current_chunk w) <= voff (m_current_chunk w')
  /\ agree (m_offset (m_current_chunk w))
       (m_size (m_chunk (m_current_chunk w)) - voff (m_current_chunk w))
       (mem_of (m_current_chunk w)) (mem_of (m_current_chunk w')).

Lemma write_api_row_spec cols : forall vs w,
  sc_wf (m_current_chunk w) -> m_chunk_size w = m_size (m_chunk (m_current_chunk w)) ->
  Forall col_ok cols -> Forall2 api_matches cols vs ->
  exists ok w', write_api_row cols vs w = Done (ok, w') /\ row_frame w w'
    /\ if ok : bool
       then row_written cols (api_fields cols vs) (api_vars vs)
              (m_current_chunk w) (m_current_chunk w')
       else row_begun w w' /\ free w < api_need cols vs.
Proof using Type.
  induction cols as [|col cols IH]; intros vs w Hwf Hsz Hcols Hm; inversion Hm as [|? v ? vs' Hv Hvs]; subst.
  { exists true, w. split; [done|]. split; [done|]. split; cbn; try done; lia. }
  apply Forall_cons_iff in Hcols as [Hok Hcols]. cbn [write_api_row].
  pose proof (Forall2_length Hvs) as Hl. pose proof (fixed_row_nonneg _ Hcols).
  pose proof (api_vars_nonneg vs'). pose proof (api_var_nonneg v).
  pose proof (fixed_len_bounds col Hok) as [Hfl _].
  pose proof (write_api_value_spec col v w Hwf Hsz Hok Hv) as Hw.
  destruct (Z.leb_spec (fixed_len col + api_var v) (free w)) as [Hle|Hgt].
  2: { rewrite Hw, Done_bind. exists false, w. split; [done|]. split; [done|].
       cbn [api_need]. rewrite (api_need_split cols vs' Hl). split; [|lia]. by split_and!. }
  destruct Hw as (w1 & -> & Hfr & Hc). rewrite Done_bind. pose proof Hc as [Hw1 Ho1 Hv1 Hl1 Ha1 _].
  destruct Hfr as [Es Ef Er Esch]. pose proof Hl1 as (L1 & S1 & _).
  destruct (IH vs' w1 Hw1) as (ok & w2 & -> & Hfr2 & Hres); [congruence|done|done|].
  exists ok, w2. split; [done|]. split; [by etransitivity; [|exact Hfr2]|].
  destruct ok.
  - unfold api_vars. cbn [foldr]. eapply row_written_cons; [done..|exact Hc|exact Hres].
  - destruct Hres as [(Hw2 & Hl2 & Ho2 & Hv2 & Ha2) Hfree]. split.
    + split_and!; [done| |lia|lia|].
      * destruct Hl1 as (? & ? & ? & ? & ?), Hl2 as (? & ? & ? & ? & ?). repeat split; congruence.
      * etransitivity; [exact Ha1|]. eapply agree_weaken; [exact Ha2|lia|]. rewrite S1. lia.
    + cbn [api_need]. unfold free in *. rewrite Es, Ho1, Hv1 in Hfree. lia.
Qed.

(** The rows that the caller completes: the first ones, while each fits into
    what the ones before it have left. *)
Fixpoint rows_fit (cols : list Column) (space : Z) (rows : list (list api_value)) : nat :=
  match rows with
  | [] => 0
  | row :: rows =>
      if api_need cols row <=? space
      then S (rows_fit cols (space - api_need cols row) rows) else 0
  end.

Lemma rows_fit_all cols space rows :
  Forall (fun row => 0 <= api_need cols row) rows ->
  api_rows_need cols rows <= space -> rows_fit cols space rows = length rows.
Proof using Type.
  intros Hpos. revert space. induction Hpos as [|row rows Hrow Hrows IH]; intros space Hs; [done|].
  change (api_need cols row + api_rows_need cols rows <= space) in Hs.
  assert (0 <= api_rows_need cols rows).
  { clear -Hrows. induction Hrows as [|row rows Hr _ IH]; [done|].
    change (0 <= api_need cols row + api_rows_need cols rows). lia. }
  cbn [rows_fit length]. rewrite (proj2 (Z.leb_le _ _)) by lia. f_equal. apply IH. lia.
Qed.

(** What a chunk holds after complete rows, and possibly values of one more. *)
Definition chunk_of_rows (cols : list Column) (rows : list (list field)) (sc : SuperChunk) : Prop :=
  sc_wf sc /\ row_count (m_chunk sc) = Z.of_nat (length rows)
  /\ Z.of_nat (length rows) * fixed_row cols <= m_size (m_chunk sc)
  /\ rows_at (mem_of sc) (voff sc) 0 cols rows.

Lemma writer_ok_chunk w rows :
  writer_ok w rows -> chunk_of_rows (ColumnInfo (m_row_schema w)) rows (m_current_chunk w).
Proof using Type.
  intros [Hwf Hsz Hc _ Ho Hcnt Hr _ _]. split_and!; try done. rewrite <- Ho. destruct Hwf. lia.
Qed.

(** The values of a row that is not completed change nothing of the others. *)
Lemma row_begun_chunk w w' rows :
  writer_ok w rows -> row_begun w w' ->
  chunk_of_rows (ColumnInfo (m_row_schema w)) rows (m_current_chunk w').
Proof using Type.
  intros Hw (Hwf' & (L & S & I & P & R) & Ho' & Hv & Ha).
  pose proof Hw as [Hwf Hsz Hc _ Ho Hcnt Hr _ _]. destruct Hwf.
  pose proof (fixed_row_nonneg _ Hc). split_and!; [done|congruence|rewrite S; lia|].
  eapply (rows_at_agree _ _ _ _ (voff (m_current_chunk w))); [exact Ha|done|done| | | |done|done]; lia.
Qed.

Lemma free_nonneg w rows : writer_ok w rows -> 0 <= free w.
Proof using Type. intros [[] Hsz _ _ _ _ _ _ _]. unfold free. lia. Qed.

Lemma write_api_rows_spec rows : forall w ds,
  let cols := ColumnInfo (m_row_schema w) in
  writer_ok w ds -> Forall (Forall2 api_matches cols) rows ->
  let k := rows_fit cols (free w) rows in
  exists w', write_api_rows cols rows w = Done (k, w')
    /\ chunk_of_rows cols (ds ++ (api_fields cols <$> take k rows)) (m_current_chunk w').
Proof using Type.
  induction rows as [|row rows IH]; intros w ds cols Hw Hrows.
  { exists w. split; [done|]. cbn. rewrite app_nil_r. by apply writer_ok_chunk. }
  apply Forall_cons_iff in Hrows as [Hrow Hrows]. pose proof Hw as [Hwf Hsz Hc _ _ _ _ _ _].
  destruct (write_api_row_spec cols row w Hwf Hsz Hc Hrow) as (ok & w1 & E & Hfr & Hres).
  cbv zeta. cbn [write_api_rows rows_fit]. rewrite E, Done_bind. cbv beta iota zeta. destruct ok.
  - destruct (WriteRowEnd_spec w w1 ds (api_fields cols row) (api_vars row) Hw Hfr Hres)
      as (w2 & E2 & Hw2 & Hfree2 & Hs2); [apply api_vars_nonneg|]. fold cols in Hfree2.
    rewrite <- Z.sub_add_distr, <- (api_need_split cols row) in Hfree2 by by eapply Forall2_length.
    unfold ChunkWriter.Extern.WriteRowEnd. rewrite E2, Done_bind.
    pose proof (free_nonneg _ _ Hw2).
    rewrite (proj2 (Z.leb_le _ _)) by lia.
    destruct (IH w2 (ds ++ [api_fields cols row]) Hw2) as (w3 & E3 & Hall); [by rewrite Hs2|].
    rewrite Hs2, Hfree2 in E3, Hall. fold cols in E3, Hall. rewrite E3, Done_bind.
    exists w3. split; [done|]. by rewrite <- app_assoc in Hall.
  - destruct Hres as [Hb Hfree]. rewrite (proj2 (Z.leb_gt _ _)) by lia.
    exists w1. split; [done|]. cbn. rewrite app_nil_r. by eapply row_begun_chunk.
Qed.

(** From a fresh chunk on. *)
Lemma write_api_fresh chunk schema rows :
  let cols := ColumnInfo schema in
  let k := rows_fit cols (m_size chunk) rows in
  chunk_wf chunk -> consumed_size chunk = 0 -> variable_offset chunk = 0 -> row_count chunk = 0 ->
  Forall col_ok cols -> cols <> [] -> Forall (Forall2 api_matches cols) rows ->
  exists w, write_api_rows cols rows (ChunkWriter.Extern.ResetWriter chunk schema) = Done (k, w)
    /\ chunk_of_rows cols (api_fields cols <$> take k rows) (m_current_chunk w).
Proof using Type.
  intros cols k Hwf Hc Hv Hr Hcols Hne Hrows.
  destruct (write_api_rows_spec rows (Reset chunk schema) []) as (w & E & Hsc); [by apply Reset_ok|done|].
  assert (free (Reset chunk schema) = m_size chunk) as Ef
    by (change (m_size chunk - variable_offset chunk - 0 = m_size chunk); lia).
  rewrite Ef in E, Hsc. by exists w.
Qed.
End values.

(** ** Reading value by value *)
Section reading.
Context `{Build}.

(** The calls for the column's type, as [ReadCell] makes the reader's own. *)
Definition read_api_value (col : Column) (r : SuperChunkReader)
    : outcome exn (option field * SuperChunkReader) :=
  match col_type col with
  | Int64 | DateTime | Time =>
      p ← ChunkReader.Extern.ReadInt64 r; cell_result (fun n => Done (FNum n)) p
  | Int32 | Date =>
      p ← ChunkReader.Extern.ReadInt32 r; cell_result (fun n => Done (FNum n)) p
  | Double => p ← ChunkReader.Extern.ReadFloat r; cell_result (fun n => Done (FNum n)) p
  | Variable_ =>
      p ← ChunkReader.Extern.ReadVariable r;
      cell_result (fun '(ptr, len) => s ← string_at ptr len (snd p); Done (FBytes s)) p
  | Fixed =>
      p ← ChunkReader.Extern.ReadFixed (u64 (col_size col)) r;
      cell_result (fun ptr => s ← string_at ptr (u64 (col_size col)) (snd p); Done (FBytes s)) p
  | Unsupported => Done (None, r)
  end.

Fixpoint read_api_row (cols : list Column) (r : SuperChunkReader)
    : outcome exn (option (list field) * SuperChunkReader) :=
  match cols with
  | [] => Done (Some [], r)
  | col :: cols =>
      '((f, r) : option field * SuperChunkReader) ← read_api_value col r;
      match f with
      | None => Done (None, r)
      | Some f =>
          '((fs, r) : option (list field) * SuperChunkReader) ← read_api_row cols r;
          Done (option_map (cons f) fs, r)
      end
  end.

(** [n] rows of the columns that [ResetReader] has set. *)
Fixpoint read_api_rows (n : nat) (r : SuperChunkReader)
    : outcome exn (option (list (list field)) * SuperChunkReader) :=
  match n with
  | O => Done (Some [], r)
  | S n =>
      '((fs, r) : option (list field) * SuperChunkReader) ← read_api_row (ColumnInfo (r_row_schema r)) r;
      match fs with
      | None => Done (None, r)
      | Some fs =>
          '((rows, r) : option (list (list field)) * SuperChunkReader) ← read_api_rows n r;
          Done (option_map (cons fs) rows, r)
      end
  end.

Lemma read_api_row_cells cols : forall r, read_api_row cols r = ReadCells cols r.
Proof using Type.
  induction cols as [|col cols IH]; intros r; [done|]. cbn [read_api_row ReadCells].
  change (read_api_value col r) with (ReadCell col r).
  destruct (ReadCell col r) as [[[f|] r1]| | |]; rewrite ?Done_bind; rewrite ?IH; done.
Qed.

Lemma read_api_rows_rows n : forall r, read_api_rows n r = ReadRows n r.
Proof using Type.
  induction n as [|n IH]; intros r; [done|]. cbn [read_api_rows ReadRows].
  rewrite read_api_row_cells.
  destruct (ReadCells _ r) as [[[fs|] r1]| | |]; rewrite ?Done_bind; rewrite ?IH; done.
Qed.

(** C18. Writing and reading a chunk through the exported functions: of rows that
    match the columns, the caller completes exactly those that fit, each into
    the space the rows before it have left, and all when the sum of what they
    need is no more than the chunk; whatever values of the row that did not fit
    were written before, a reader of the chunk returns exactly the completed
    rows, an integer that stands for NULL, a NaN and an empty text as NULL and
    a text of fixed length with its padding. *)
Theorem api_round_trip chunk schema rows err :
  let cols := ColumnInfo schema in
  chunk_wf chunk -> consumed_size chunk = 0 -> variable_offset chunk = 0 -> row_count chunk = 0 ->
  Forall col_ok cols -> cols <> [] -> Forall (Forall2 api_matches cols) rows ->
  Forall (Forall2 readable cols) (api_fields cols <$> rows) ->
  let k := rows_fit cols (m_size chunk) rows in
  (api_rows_need cols rows <= m_size chunk -> k = length rows)
  /\ exists w, write_api_rows cols rows (ChunkWriter.Extern.ResetWriter chunk schema) = Done (k, w)
    /\ let chunk' := m_chunk (m_current_chunk w) in
       row_count chunk' = Z.of_nat k
       /\ exists r, read_api_rows (Z.to_nat (row_count chunk'))
                      (ChunkReader.Extern.ResetReader chunk' schema err)
                    = Done (Some (api_fields cols <$> take k rows), r).
Proof using Type.
  intros cols Hwf Hc Hv Hr Hcols Hne Hrows Hread k.
  assert (k <= length rows)%nat as Hk.
  { subst k. generalize (m_size chunk). clear. induction rows as [|row rows IH]; intros z; [done|].
    cbn. case_match; [|lia]. specialize (IH (z - api_need cols row)). lia. }
  assert (Forall (fun row => 0 <= api_need cols row) rows) as Hpos.
  { refine (List.Forall_impl _ _ Hrows). intros row Hrow.
    rewrite api_need_split by by eapply Forall2_length.
    pose proof (fixed_row_nonneg _ Hcols). pose proof (api_vars_nonneg row). lia. }
  split; [by intros; apply rows_fit_all|].
  destruct (write_api_fresh chunk schema rows) as (w & E & Hw & Hcnt & Hsz & Hat); [done..|].
  fold cols k in E, Hcnt, Hsz, Hat. exists w. split; [done|]. cbv zeta.
  split; [rewrite Hcnt, length_fmap, length_take, Nat.min_l by exact Hk; done|].
  unfold ChunkReader.Extern.ResetReader.
  destruct (read_chunk (m_current_chunk w) schema (api_fields cols <$> take k rows) (r_error err))
    as (r & Er & _); [done|done| |done|done|done|].
  { rewrite fmap_take. by apply Forall_take. }
  exists r. by rewrite read_api_rows_rows.
Qed.
End reading.

(** A chunk with space for two rows and the integer of a third. *)
Definition api_rows : list (list api_value) :=
  [[VInt64 1; VVariable (String.list_ascii_of_string "hi"); VFixed (String.list_ascii_of_string "ab") false];
   [VInt64 int64Null; VVariable []; VFixed (String.list_ascii_of_string "abcd") true];
   [VInt64 3; VVariable (String.list_ascii_of_string "more"); VFixed [] true]].

Lemma api_rows_fit : rows_fit (ColumnInfo demo_schema) 80 api_rows = 2%nat.
Proof. vm_compute. reflexivity. Qed.

Definition api_rows_read : list (list field) :=
  [[FNum 1; FBytes (String.list_ascii_of_string "hi"); FBytes (String.list_ascii_of_string "ab  ")];
   [FNull; FNull; FBytes (String.list_ascii_of_string "abcd")]].

Lemma api_rows_read_eq :
  api_fields (ColumnInfo demo_schema) <$> take 2 api_rows = api_rows_read.
Proof. vm_compute. reflexivity. Qed.

Lemma api_rows_match : Forall (Forall2 api_matches (ColumnInfo demo_schema)) api_rows.
Proof. repeat constructor; cbn; lia. Qed.

Lemma api_round_trip_witness :
  exists w, write_api_rows (H := release_build) (ColumnInfo demo_schema) api_rows
      (ChunkWriter.Extern.ResetWriter (fresh_chunk 80) demo_schema) = Done (2%nat, w)
  /\ exists r, read_api_rows (H := release_build) (Z.to_nat (row_count (m_chunk (m_current_chunk w))))
        (ChunkReader.Extern.ResetReader (m_chunk (m_current_chunk w)) demo_schema
           (Reset_reader (fresh_chunk 0) demo_schema EmptyString))
      = Done (Some api_rows_read, r).
Proof.
  rewrite <- api_rows_read_eq, <- api_rows_fit.
  assert (chunk_wf (fresh_chunk 80)) as Hwf by (constructor; cbn; lia).
  assert (Forall col_ok (ColumnInfo demo_schema)) as Hok
    by (repeat first [apply List.Forall_nil | apply List.Forall_cons]; unfold col_ok; cbn;
        first [done | lia]).
  destruct (api_round_trip (H := release_build) (fresh_chunk 80) demo_schema api_rows
    (Reset_reader (fresh_chunk 0) demo_schema EmptyString) Hwf eq_refl eq_refl eq_refl Hok)
    as [_ (w & E & _ & Hr)].
  - discriminate.
  - exact api_rows_match.
  - repeat first [apply List.Forall_nil | apply List.Forall_cons | constructor; [by left|]
                 | constructor].
  - exists w. split; [exact E|exact Hr].
Defined.
