(* ===== verification/TsvWriter.v ===== *)
(** The class [TsvTableWriter] of [tsv_table_writer.cpp]: a chunk is printed
    as tab-separated text ([ChunkToTSV]), which the client library of the
    database then fetches in pieces through the [ss_local_infile_*]
    callbacks. *)

From Stdlib Require Import Ascii String.
From stdpp Require Import base list strings numbers tactics.
From stdpp Require Import options.
From S2P Require Import Prelude Schema Text Calendar SuperChunk ChunkWriter ChunkReader ChunkFormat ChunkRoundTrip.

(** ** [sprintf] of a double with "%.17e" *)

(** The exponent [x] with 10^x <= num/den < 10^(x+1), looked for downwards. *)
Definition reaches (num den x : Z) : bool :=
  if 0 <=? x then 10 ^ x * den <=? num else den <=? num * 10 ^ (- x).

Fixpoint exponent_search (fuel : nat) (num den x : Z) : Z :=
  match fuel with
  | O => x
  | S fuel => if reaches num den x then x else exponent_search fuel num den (x - 1)
  end.

(** [a / b] rounded to the nearest integer, ties to even. *)
Definition div_nearest (a b : Z) : Z :=
  let q := a / b in
  let r := 2 * (a mod b) in
  if r <? b then q
  else if b <? r then q + 1
  else if Z.even q then q else q + 1.

(** The 18 digits of num/den at exponent [x]. *)
Definition digits18 (num den x : Z) : Z :=
  if x <=? 17 then div_nearest (num * 10 ^ (17 - x)) den
  else div_nearest num (den * 10 ^ (x - 17)).

Definition exp_text (x : Z) : string :=
  "e" +:+ (if x <? 0 then "-" else "+") +:+ pad_left 2 "0" (to_string (Z.abs x)).

Definition e17_text (d x : Z) : string :=
  to_string (d / 10 ^ 17) +:+ "." +:+ pad_left 17 "0" (to_string (d mod 10 ^ 17))
  +:+ exp_text x.

(** Sign, exponent and mantissa of the bits of a double. *)
Definition dbl_exp (b : Z) : Z := b / 2 ^ 52 mod 2 ^ 11.
Definition dbl_frac (b : Z) : Z := b mod 2 ^ 52.
Definition dbl_neg (b : Z) : bool := 1 <=? b / 2 ^ 63.

(** The magnitude of a finite double, as a fraction. *)
Definition dbl_num (b : Z) : Z :=
  if dbl_exp b =? 0 then dbl_frac b
  else (2 ^ 52 + dbl_frac b) * 2 ^ Z.max 0 (dbl_exp b - 1075).
Definition dbl_den (b : Z) : Z :=
  if dbl_exp b =? 0 then 2 ^ 1074 else 2 ^ Z.max 0 (1075 - dbl_exp b).

Definition printf_e17 (b : Z) : string :=
  (if dbl_neg b then "-" else EmptyString) +:+
  if dbl_exp b =? 2047 then (if dbl_frac b =? 0 then "inf" else "nan")
  else
    let num := dbl_num b in
    let den := dbl_den b in
    if num =? 0 then e17_text 0 0
    else
      let x := exponent_search 632 num den 308 in
      let d := digits18 num den x in
      if d =? 10 ^ 18 then e17_text (10 ^ 17) (x + 1) else e17_text d x.

(** Checked against glibc: 1, -0.1 and the greatest double. *)
Example printf_e17_one : printf_e17 0x3ff0000000000000 = "1.00000000000000000e+00".
Proof. vm_compute. reflexivity. Qed.
Example printf_e17_tenth : printf_e17 0xbfb999999999999a = "-1.00000000000000006e-01".
Proof. vm_compute. reflexivity. Qed.
Example printf_e17_max : printf_e17 0x7fefffffffffffff = "1.79769313486231571e+308".
Proof. vm_compute. reflexivity. Qed.
(** ** ChunkToTSV *)

(** The text of a field in its column, as it is streamed out. *)
Definition tsv_field (col : Column) (f : field) : outcome exn string :=
  match f with
  | FNull => Done "\N"
  | FNum n =>
      match col_type col with
      | Double =>
          let text := printf_e17 n in
          if (String.length text <? 30)%nat then Done text
          else Undef "sprintf past the end of the buffer"
      | DateTime => fromDateTimeCAS n
      | Time => fromTimeCAS n
      | Date => fromDateCAS n
      | _ => Done (to_string n)
      end
  | FBytes l => Done (quoted "034"%char "\"%char (string_of_list_ascii l))
  end.

Section tsv.
Context `{Build}.

(** The columns of one row; [out] is the text so far, [first] tells
    [col_num == 0].  [false]: a read failed, or a column is unsupported. *)
Fixpoint tsv_columns (cols : list Column) (first : bool) (r : SuperChunkReader)
    (out : string) : outcome exn (bool * SuperChunkReader * string) :=
  match cols with
  | [] => Done (true, r, out)
  | col :: cols =>
      let out := if first then out else out +:+ String "009"%char EmptyString in
      '((f, r) : option field * SuperChunkReader) ← ReadCell col r;
      match f with
      | None => Done (false, r, out)
      | Some f =>
          text ← tsv_field col f;
          tsv_columns cols false r (out +:+ text)
      end
  end.

(** [n] rows are left. *)
Fixpoint tsv_rows (n : nat) (first : bool) (r : SuperChunkReader) (out : string)
    : outcome exn (bool * SuperChunkReader * string) :=
  match n with
  | O => Done (true, r, out)
  | S n =>
      let out := if first then out else out +:+ String "010"%char EmptyString in
      '((ok, r, out) : bool * SuperChunkReader * string) ←
        tsv_columns (ColumnInfo (r_row_schema r)) true r out;
      if ok then tsv_rows n false r out else Done (false, r, out)
  end.

Definition ChunkToTSV (r : SuperChunkReader) (row_count : Z) (m_tsv_rows : string)
    : outcome exn (bool * SuperChunkReader * string) :=
  tsv_rows (Z.to_nat row_count) true r m_tsv_rows.
End tsv.

(** ** The callbacks of LOAD DATA LOCAL *)

(** A [std::stringstream] that is only read from: what is left of the text,
    whether a read has reached its end, and whether it is broken. *)
Record stringstream := mkStream { ss_rest : string; ss_eof : bool; ss_bad : bool }.

(** [*ptr] becomes [caller_data]. *)
Definition ss_local_infile_init {A} (caller_data : A) : A * Z := (caller_data, 0).

(** The first [n] characters of a text, and the others. *)
Fixpoint split_at (n : nat) (s : string) : string * string :=
  match n, s with
  | S n, String c s => let '(a, b) := split_at n s in (String c a, b)
  | _, _ => (EmptyString, s)
  end.

(** [ss->read(buf, n)]: the stream after it, and the characters stored. *)
Definition ss_read (ss : stringstream) (n : nat) : stringstream * string :=
  if ss_bad ss || ss_eof ss then (ss, EmptyString)
  else
    let '(piece, rest) := split_at n (ss_rest ss) in
    (mkStream rest (String.length (ss_rest ss) <? n)%nat false, piece).

(** [None]: -1; [Some]: the bytes stored in the buffer, whose number is
    returned. *)
Definition ss_local_infile_read (ss : stringstream) (buf_len : Z)
    : stringstream * option string :=
  let '(ss, piece) := ss_read ss (Z.to_nat buf_len) in
  if ss_bad ss then (ss, None) else (ss, Some piece).

(** [strncpy] into a buffer of [len] bytes: zeros behind a shorter text. *)
Definition strncpy (text : string) (len : nat) : bytes :=
  take len (String.list_ascii_of_string text ++ replicate len "000"%char).

(** [None]: a null [ptr]. *)
Definition ss_local_infile_error (ptr : option stringstream) (error_msg_len : Z)
    : bytes * Z :=
  let msg text := strncpy text (Z.to_nat error_msg_len) in
  match ptr with
  | None => (msg "invalid *caller_data pointer", S2C_ERROR_INV_ARG)
  | Some ss =>
      if ss_bad ss then (msg "Read/write error on i/o operation", S2C_IO_ERROR)
      else (msg "Unknown error in LOAD DATA LOCAL INFILE", S2C_ERROR_UNKNOWN_FAILURE)
  end.

(** ** A printed double fits into its buffer *)
Lemma exponent_search_range fuel num den x :
  x - Z.of_nat fuel <= exponent_search fuel num den x <= x.
Proof.
  revert x. induction fuel as [|fuel IH]; intros x; cbn [exponent_search]; [lia|].
  destruct (reaches num den x); [lia|]. specialize (IH (x - 1)). lia.
Qed.

Lemma div_nearest_range a b k :
  0 < b -> 0 <= a -> a <= k * b -> 0 <= div_nearest a b <= k.
Proof.
  intros Hb Ha Hk. unfold div_nearest. cbv zeta.
  pose proof (Z.div_mod a b ltac:(lia)). pose proof (Z.mod_pos_bound a b Hb).
  pose proof (Z.div_pos a b Ha Hb).
  assert (a / b <= k) by (apply Z.div_le_upper_bound; lia).
  assert (a / b < k \/ 2 * (a mod b) < b) by nia.
  destruct (Z.ltb_spec (2 * (a mod b)) b); [lia|].
  destruct (Z.ltb_spec b (2 * (a mod b))); [lia|].
  destruct (Z.even _); lia.
Qed.

Lemma reaches_false num den x :
  reaches num den x = false ->
  if 0 <=? x then num < 10 ^ x * den else num * 10 ^ (- x) < den.
Proof. unfold reaches. destruct (0 <=? x); lia. Qed.

Lemma exponent_search_upper fuel num den x :
  reaches num den (x + 1) = false ->
  reaches num den (exponent_search fuel num den x + 1) = false.
Proof.
  revert x. induction fuel as [|fuel IH]; intros x Hx; cbn [exponent_search]; [done|].
  destruct (reaches num den x) eqn:E; [done|].
  apply IH. by replace (x - 1 + 1) with x by lia.
Qed.

Lemma digits18_range num den x :
  0 <= num -> 0 < den -> reaches num den (x + 1) = false ->
  0 <= digits18 num den x <= 10 ^ 18.
Proof.
  intros Hn Hd Hx. apply reaches_false in Hx. unfold digits18.
  destruct (Z.leb_spec x 17) as [Hle|Hgt].
  - apply div_nearest_range;
      [done|apply Z.mul_nonneg_nonneg; [done|apply Z.pow_nonneg; lia]|].
    destruct (Z.leb_spec 0 (x + 1)).
    + replace 18 with ((x + 1) + (17 - x)) by lia.
      rewrite Z.pow_add_r by lia. nia.
    + replace (17 - x) with (- (x + 1) + 18) by lia.
      rewrite Z.pow_add_r by lia. nia.
  - destruct (Z.leb_spec 0 (x + 1)); [|lia].
    assert (0 < 10 ^ (x - 17)) by (apply Z.pow_pos_nonneg; lia).
    apply div_nearest_range; [nia|done|].
    replace (x + 1) with ((x - 17) + 18) in Hx by lia.
    rewrite Z.pow_add_r in Hx by lia. nia.
Qed.

Lemma dbl_num_bound b : dbl_exp b <> 2047 -> 0 <= dbl_num b < 2 ^ 1024.
Proof.
  intros He. unfold dbl_num.
  pose proof (Z.mod_pos_bound b (2 ^ 52) ltac:(lia)) as Hf.
  pose proof (Z.mod_pos_bound (b / 2 ^ 52) (2 ^ 11) ltac:(lia)) as Hx.
  fold (dbl_frac b) in Hf. fold (dbl_exp b) in Hx.
  destruct (Z.eqb_spec (dbl_exp b) 0); [lia|].
  assert (0 < 2 ^ Z.max 0 (dbl_exp b - 1075) <= 2 ^ 971) as [H1 H2].
  { split; [lia|]. apply Z.pow_le_mono_r; lia. }
  generalize dependent (2 ^ Z.max 0 (dbl_exp b - 1075)). intros p H1 H2.
  split; [nia|].
  assert (2 ^ 1024 = 2 ^ 53 * 2 ^ 971) as -> by (rewrite <- Z.pow_add_r; lia).
  generalize dependent (2 ^ 971). intros q H2. nia.
Qed.

Lemma dbl_den_pos b : 0 < dbl_den b.
Proof.
  unfold dbl_den. destruct (dbl_exp b =? 0); apply Z.pow_pos_nonneg; lia.
Qed.

Lemma length_e17_text d x :
  0 <= d < 10 ^ 18 -> Z.abs x < 1000 -> (String.length (e17_text d x) <= 24)%nat.
Proof.
  intros Hd Hx. unfold e17_text, exp_text.
  rewrite !length_app_s, !length_pad_left.
  pose proof (length_to_string (d / 10 ^ 17) 1 ltac:(dlia) ltac:(lia)).
  pose proof (length_to_string (d mod 10 ^ 17) 17 ltac:(dlia) ltac:(lia)).
  pose proof (length_to_string (Z.abs x) 3 ltac:(lia) ltac:(lia)).
  destruct (x <? 0); cbn [String.length]; lia.
Qed.

(** The text of a double takes at most 25 characters, so [ChunkToTSV] never
    writes past its buffer of 30. *)
Theorem printf_e17_fits (b : Z) : (String.length (printf_e17 b) <= 25)%nat.
Proof.
  assert (forall s, (String.length s <= 24)%nat ->
    (String.length ((if dbl_neg b then "-" else EmptyString) +:+ s) <= 25)%nat) as Hsign.
  { intros s Hs. rewrite length_app_s. destruct (dbl_neg b); cbn [String.length]; lia. }
  unfold printf_e17. apply Hsign.
  destruct (Z.eqb_spec (dbl_exp b) 2047) as [_|He].
  { destruct (dbl_frac b =? 0); cbn; lia. }
  pose proof (dbl_num_bound b He) as Hn. pose proof (dbl_den_pos b) as Hd.
  generalize dependent (dbl_num b). generalize dependent (dbl_den b).
  intros den Hd num Hn. cbv zeta.
  destruct (Z.eqb_spec num 0); [by apply length_e17_text|].
  pose proof (exponent_search_range 632 num den 308) as Hx.
  assert (reaches num den (exponent_search 632 num den 308 + 1) = false) as Hu.
  { apply exponent_search_upper. unfold reaches.
    change (308 + 1) with 309. change (0 <=? 309) with true. cbv iota.
    assert (2 ^ 1024 <= 10 ^ 309) as Huv by (by vm_compute).
    generalize dependent (2 ^ 1024). generalize dependent (10 ^ 309).
    intros u v Hv Huv. apply Z.leb_gt. nia. }
  pose proof (digits18_range num den _ ltac:(lia) Hd Hu) as Hr.
  generalize dependent (exponent_search 632 num den 308). intros x Hx Hu Hr.
  destruct (Z.eqb_spec (digits18 num den x) (10 ^ 18)); apply length_e17_text; lia.
Qed.

(** ** What ChunkToTSV prints *)
Fixpoint texts_of (cols : list Column) (fs : list field) : outcome exn (list string) :=
  match cols, fs with
  | col :: cols, f :: fs =>
      t ← tsv_field col f;
      ts ← texts_of cols fs;
      Done (t :: ts)
  | _, _ => Done []
  end.

Fixpoint rows_texts (cols : list Column) (rows : list (list field))
    : outcome exn (list (list string)) :=
  match rows with
  | [] => Done []
  | fs :: rows =>
      ts ← texts_of cols fs;
      tss ← rows_texts cols rows;
      Done (ts :: tss)
  end.

(** Texts with a separator before each, but the first if [first]. *)
Fixpoint separated (sep : ascii) (first : bool) (ts : list string) : string :=
  match ts with
  | [] => EmptyString
  | t :: ts =>
      (if first then t else String sep t) +:+ separated sep false ts
  end.

Definition tsv_line (ts : list string) : string := separated "009"%char true ts.
Definition tsv_text (tss : list (list string)) : string :=
  separated "010"%char true (map tsv_line tss).

Section tsv_spec.
Context `{Build}.

Lemma ReadCell_schema col r res r' :
  ReadCell col r = Done (res, r') -> r_row_schema r' = r_row_schema r.
Proof using Type.
  unfold ReadCell, ReadInt64, ReadInt32, ReadFloat, ReadVariable, ReadFixed,
    read_fails, cell_result. intros E.
  destruct (col_type col); repeat (case_match || inv_done); done.
Qed.

Lemma ReadCells_schema cols r fs r' :
  ReadCells cols r = Done (Some fs, r') -> r_row_schema r' = r_row_schema r.
Proof using Type.
  revert r fs r'. induction cols as [|col cols IH]; intros r fs r' E.
  { cbn in E. by injection E as _ <-. }
  cbn [ReadCells] in E. inv_done. apply ReadCell_schema in Hm.
  destruct o as [f|]; inv_done. destruct o as [fs'|]; inv_done.
  by rewrite (IH _ _ _ Hm0).
Qed.

Lemma tsv_columns_spec cols first r fs r' ts out :
  ReadCells cols r = Done (Some fs, r') -> texts_of cols fs = Done ts ->
  tsv_columns cols first r out = Done (true, r', out +:+ separated "009"%char first ts).
Proof using Type.
  revert first r fs r' ts out.
  induction cols as [|col cols IH]; intros first r fs r' ts out E Et.
  { cbn in E. injection E as <- <-. cbn in Et. injection Et as <-.
    cbn. by rewrite app_nil_r_s. }
  cbn [ReadCells] in E. inv_done. cbn [tsv_columns]. rewrite Hm, Done_bind.
  cbv beta iota zeta. destruct o as [f|]; inv_done.
  destruct o as [fs'|]; inv_done.
  cbn [texts_of] in Et. inv_done. rewrite Hm1, Done_bind.
  rewrite (IH _ _ _ _ _ _ Hm0 Hm2). do 2 f_equal. cbn [separated].
  destruct first; by autorewrite with s2_text.
Qed.

Lemma tsv_rows_spec n first r rows r' tss out :
  ReadRows n r = Done (Some rows, r') ->
  rows_texts (ColumnInfo (r_row_schema r)) rows = Done tss ->
  tsv_rows n first r out
  = Done (true, r', out +:+ separated "010"%char first (map tsv_line tss)).
Proof using Type.
  revert first r rows r' tss out.
  induction n as [|n IH]; intros first r rows r' tss out E Et.
  { cbn in E. injection E as <- <-. cbn in Et. injection Et as <-.
    cbn. by rewrite app_nil_r_s. }
  cbn [ReadRows] in E. inv_done. destruct o as [fs|]; inv_done.
  destruct o as [rows'|]; inv_done.
  cbn [rows_texts] in Et. inv_done. cbn [tsv_rows].
  rewrite (tsv_columns_spec _ true _ _ _ _ _ Hm Hm1), Done_bind.
  cbv beta iota zeta. pose proof (ReadCells_schema _ _ _ _ Hm) as Hs.
  rewrite <- Hs in Hm2. rewrite (IH _ _ _ _ _ _ Hm0 Hm2).
  do 2 f_equal. cbn [map separated]. fold (tsv_line a).
  destruct first; by autorewrite with s2_text.
Qed.
End tsv_spec.

(** ** What the database reads from the text: FIELDS TERMINATED BY a tab,
    ENCLOSED BY a double quote, ESCAPED BY a backslash, LINES TERMINATED BY a
    newline, as [MakeLoadDataQuery] says *)
Definition field_end (c : ascii) : bool :=
  bool_decide (c = "009"%char \/ c = "010"%char).

Fixpoint read_raw (s : string) : string * string :=
  match s with
  | EmptyString => (EmptyString, EmptyString)
  | String c s' =>
      if field_end c then (EmptyString, s)
      else let '(a, b) := read_raw s' in (String c a, b)
  end.

(** [None] as a value is NULL. *)
Definition parse_field (s : string) : option (option string * string) :=
  if head_is "034"%char s then
    '(w, rest) ← unquote "034"%char "\"%char s; Some (Some w, rest)
  else
    let '(raw, rest) := read_raw s in
    Some (if decide (raw = "\N"%string) then None else Some raw, rest).

Fixpoint parse_tsv (fuel : nat) (s : string) : option (list (list (option string))) :=
  match fuel with
  | O => None
  | S fuel =>
      '(v, rest) ← parse_field s;
      match rest with
      | EmptyString => Some [[v]]
      | String c rest =>
          rows ← parse_tsv fuel rest;
          if decide (c = "010"%char) then Some ([v] :: rows)
          else if decide (c = "009"%char) then
            match rows with
            | row :: rows => Some ((v :: row) :: rows)
            | [] => None
            end
          else None
      end
  end.

Definition read_tsv (s : string) : option (list (list (option string))) :=
  parse_tsv (S (String.length s)) s.

(** What the database is to see in a cell. *)
Definition cell_value (f : field) (text : string) : option string :=
  match f with
  | FNull => None
  | FNum _ => Some text
  | FBytes l => Some (string_of_list_ascii l)
  end.

(** Characters that need no quoting. *)
Definition plain (c : ascii) : bool :=
  negb (field_end c) && negb (bool_decide (c = "034"%char \/ c = "\"%char)).

Lemma plain_digits c : is_digit c = true -> plain c = true.
Proof.
  intros Hd. unfold plain, field_end.
  rewrite !bool_decide_false; [done|..]; intros [-> | ->]; discriminate Hd.
Qed.

Lemma plain_to_string z : all_chars plain (to_string z) = true.
Proof. apply all_chars_to_string; [exact plain_digits|reflexivity]. Qed.

Ltac plain_text :=
  rewrite ?all_chars_app, ?all_chars_pad_left, ?plain_to_string by reflexivity;
  rewrite ?plain_to_string; try reflexivity.

Lemma plain_date t : all_chars plain (dateFormat t) = true.
Proof. unfold dateFormat, pad2. plain_text. Qed.

Lemma plain_datetime t : all_chars plain (dateTimeFormat t) = true.
Proof.
  unfold dateTimeFormat. rewrite all_chars_app, plain_date. unfold pad2. plain_text.
Qed.

Lemma plain_strftime n t s :
  strftime n t = Done s -> all_chars plain t = true -> all_chars plain s = true.
Proof. unfold strftime. case_match; [|done]. by intros [= ->]. Qed.

Lemma plain_e17 d x : all_chars plain (e17_text d x) = true.
Proof. unfold e17_text, exp_text. destruct (x <? 0); plain_text. Qed.

Lemma plain_printf b : all_chars plain (printf_e17 b) = true.
Proof.
  unfold printf_e17. cbv zeta. rewrite all_chars_app, andb_true_iff. split.
  - by destruct (dbl_neg b).
  - repeat case_match; try reflexivity; apply plain_e17.
Qed.

(** The text of a number, a date or a time is plain. *)
Lemma plain_tsv_field col n t :
  tsv_field col (FNum n) = Done t -> all_chars plain t = true.
Proof.
  unfold tsv_field. destruct (col_type col); try (intros [= <-]; apply plain_to_string).
  - case_match; [|done]. intros [= <-]. apply plain_printf.
  - unfold fromTimeCAS. case_match; [done|]. cbv zeta. intros [= <-].
    case_match; plain_text.
  - intros E. eapply plain_strftime; [exact E|]. apply plain_date.
  - unfold fromDateTimeCAS. destruct (if _ <? 0 then _ else _) as [m u].
    intros E. inv_done. apply plain_strftime in Hm; [|apply plain_datetime].
    repeat case_match; inv_done; [done|]. rewrite all_chars_app, Hm. plain_text.
Qed.

(** What may follow a cell: the end of the text, or a separator. *)
Definition ends (rest : string) : bool :=
  match rest with EmptyString => true | String c _ => field_end c end.

Lemma read_raw_plain t rest :
  all_chars (fun c => negb (field_end c)) t = true -> ends rest = true ->
  read_raw (t +:+ rest) = (t, rest).
Proof.
  induction t as [|c t IH]; intros Ht Hr.
  - rewrite app_nil_l_s. destruct rest as [|c rest]; [done|]. cbn in *. by rewrite Hr.
  - rewrite app_cons_s. cbn in *. apply andb_true_iff in Ht as [Hc Ht].
    apply negb_true_iff in Hc. by rewrite Hc, IH.
Qed.

Lemma plain_no_end t :
  all_chars plain t = true -> all_chars (fun c => negb (field_end c)) t = true.
Proof.
  induction t as [|c t IH]; [done|]. cbn. unfold plain at 1. intros Ht.
  apply andb_true_iff in Ht as [Hc Ht]. apply andb_true_iff in Hc as [-> _]. auto.
Qed.

Lemma parse_field_plain t rest :
  all_chars plain t = true -> ends rest = true ->
  parse_field (t +:+ rest) = Some (Some t, rest).
Proof.
  intros Ht Hr. unfold parse_field.
  assert (head_is "034"%char (t +:+ rest) = false) as ->.
  { destruct t as [|c t].
    - rewrite app_nil_l_s. destruct rest as [|c rest]; [done|]. cbn in *.
      apply bool_decide_false. intros ->. discriminate Hr.
    - rewrite app_cons_s. cbn in *. apply bool_decide_false. intros ->.
      discriminate Ht. }
  rewrite read_raw_plain by (done || by apply plain_no_end).
  case_decide as E; [|done]. by rewrite E in Ht.
Qed.

(** One cell is read back. *)
Lemma parse_field_cell col f t rest :
  tsv_field col f = Done t -> ends rest = true ->
  parse_field (t +:+ rest) = Some (cell_value f t, rest).
Proof.
  intros Ht Hr. destruct f as [|n|l].
  - injection Ht as <-. unfold parse_field.
    assert (head_is "034"%char ("\N" +:+ rest) = false) as -> by done.
    by rewrite read_raw_plain.
  - apply parse_field_plain; [|done]. by eapply plain_tsv_field.
  - injection Ht as <-. unfold parse_field.
    rewrite quoted_app_eq.
    assert (forall s, head_is "034"%char (quoted_app "034"%char "\"%char s rest) = true)
      as -> by done.
    by rewrite unquote_quoted.
Qed.

Fixpoint row_values (fs : list field) (ts : list string) : list (option string) :=
  match fs, ts with
  | f :: fs, t :: ts => cell_value f t :: row_values fs ts
  | _, _ => []
  end.

Lemma separated_cons sep t ts :
  ts <> [] ->
  separated sep true (t :: ts) = t +:+ String sep (separated sep true ts).
Proof.
  destruct ts as [|t' ts]; [done|]. intros _. cbn.
  by rewrite app_cons_s.
Qed.

(** A row, followed by the end or by a newline and more rows. *)
Lemma parse_tsv_row cols fs ts rest rows fuel :
  texts_of cols fs = Done ts -> length cols = length fs -> cols <> [] ->
  (rest = EmptyString /\ rows = [] \/
   exists s, rest = String "010"%char s
     /\ forall fuel', (String.length s < fuel')%nat -> parse_tsv fuel' s = Some rows) ->
  (String.length (tsv_line ts +:+ rest) < fuel)%nat ->
  parse_tsv fuel (tsv_line ts +:+ rest) = Some (row_values fs ts :: rows).
Proof.
  intros Ht Hlen Hne Hrest. revert fs ts fuel Ht Hlen Hne.
  induction cols as [|col cols IH]; intros fs ts fuel Ht Hlen Hne Hf; [done|].
  destruct fs as [|f fs]; [done|]. cbn [texts_of] in Ht. inv_done.
  destruct fuel as [|fuel]; [lia|]. cbn [parse_tsv].
  assert (ends rest = true) as He.
  { destruct Hrest as [[-> _]|(s & -> & _)]; done. }
  destruct (decide (cols = [])) as [->|Hc].
  - destruct fs; [|done]. cbn in Hm0. injection Hm0 as <-.
    unfold tsv_line in *. cbn [separated] in *. rewrite app_nil_r_s in *.
    rewrite (parse_field_cell _ _ _ _ Hm He). cbn.
    destruct Hrest as [[-> ->]|(s & -> & Hs)]; [done|].
    rewrite length_app_s in Hf. cbn in Hf.
    by rewrite Hs by lia.
  - assert (a0 <> []) as Ha.
    { destruct cols, fs; try done. cbn [texts_of] in Hm0. by inv_done. }
    unfold tsv_line in *. rewrite separated_cons in * by done.
    rewrite app_assoc_s, app_cons_s in *.
    rewrite (parse_field_cell _ _ _ _ Hm) by done. cbn.
    rewrite length_app_s in Hf. cbn [String.length] in Hf.
    rewrite (IH fs a0) by (done || (cbn in Hlen; lia)). done.
Qed.

Lemma parse_tsv_rows cols rows tss fuel :
  rows_texts cols rows = Done tss -> Forall (fun fs => length cols = length fs) rows ->
  cols <> [] -> rows <> [] -> (String.length (tsv_text tss) < fuel)%nat ->
  parse_tsv fuel (tsv_text tss) = Some (zip_with row_values rows tss).
Proof.
  intros Ht Hl Hc Hr. revert tss fuel Ht Hl Hr.
  induction rows as [|fs rows IH]; intros tss fuel Ht Hl Hr Hf; [done|].
  apply Forall_cons_iff in Hl as [Hlen Hl].
  cbn [rows_texts] in Ht. inv_done.
  unfold tsv_text in *. cbn [map] in *.
  destruct (decide (rows = [])) as [->|Hne].
  - cbn in Hm0. injection Hm0 as <-. cbn [map separated] in *.
    eapply parse_tsv_row; try done. by left.
  - assert (map tsv_line a0 <> []) as Ha.
    { destruct rows; [done|]. cbn [rows_texts] in Hm0. by inv_done. }
    rewrite separated_cons in * by done.
    eapply parse_tsv_row; try done. right. eexists. split; [done|].
    intros fuel' Hf'. by apply IH.
Qed.

(** The text of a chunk whose rows a reader gets. *)
Lemma ChunkToTSV_rows `{Build} n r rows r' tss :
  ReadRows (Z.to_nat n) r = Done (Some rows, r') ->
  rows_texts (ColumnInfo (r_row_schema r)) rows = Done tss ->
  ChunkToTSV r n EmptyString = Done (true, r', tsv_text tss).
Proof.
  intros Er Ht. unfold ChunkToTSV.
  by rewrite (tsv_rows_spec _ true _ rows r' tss EmptyString Er Ht), app_nil_l_s.
Qed.

(** C23. Writing to the database: [ChunkToTSV] on the chunk of a writer prints all
    its rows, and the text read back by the format that the LOAD DATA statement
    declares is the rows again: no content of a cell can break a field or a line. *)
Theorem ChunkToTSV_read_tsv `{Build} w rows tss err :
  let cols := ColumnInfo (m_row_schema w) in
  let chunk := m_chunk (m_current_chunk w) in
  writer_ok w rows -> rows <> [] -> Forall (Forall2 readable cols) rows ->
  rows_texts cols rows = Done tss ->
  exists r, ChunkToTSV (Reset_reader chunk (m_row_schema w) err) (row_count chunk)
              EmptyString = Done (true, r, tsv_text tss)
    /\ read_tsv (tsv_text tss) = Some (zip_with row_values rows tss).
Proof.
  intros cols chunk Hw Hne Hd Ht. subst chunk.
  destruct (read_written w rows err Hw Hd) as (r & Er & _).
  exists r. split.
  - by eapply ChunkToTSV_rows.
  - apply (parse_tsv_rows cols); try done; [|by apply wo_some in Hw|unfold lt; lia].
    revert Hd. apply Forall_impl. intros fs Hfs. by eapply Forall2_length.
Qed.

(** ** The fetching of the text by the client library *)

(** The buffers it offers, one after the other; [None] after a failed read. *)
Fixpoint infile_reads (ss : stringstream) (lens : list Z)
    : stringstream * option (list string) :=
  match lens with
  | [] => (ss, Some [])
  | len :: lens =>
      match ss_local_infile_read ss len with
      | (ss, None) => (ss, None)
      | (ss, Some piece) =>
          let '(ss, pieces) := infile_reads ss lens in
          (ss, option_map (cons piece) pieces)
      end
  end.

Definition sconcat : list string -> string := foldr String.append EmptyString.

Lemma split_at_app n s : let '(a, b) := split_at n s in a +:+ b = s.
Proof.
  revert s. induction n as [|n IH]; intros s; [done|]. destruct s as [|c s]; [done|].
  cbn. specialize (IH s). destruct (split_at n s) as [a b].
  by rewrite app_cons_s, IH.
Qed.

Lemma split_at_length n s :
  let '(a, b) := split_at n s in
  String.length a = Nat.min n (String.length s)
  /\ String.length b = (String.length s - n)%nat.
Proof.
  revert s. induction n as [|n IH]; intros s; [cbn; lia|]. destruct s as [|c s]; [done|].
  cbn. specialize (IH s). destruct (split_at n s) as [a b]. cbn. lia.
Qed.

(** Whatever buffers the client library offers, no read fails, every piece
    fits its buffer, and the pieces in order are the text up to where the buffers
    end: the whole text once they are long enough. *)
Theorem infile_reads_text (s : string) (lens : list Z) :
  Forall (fun n => 0 < n) lens ->
  exists ss pieces,
    infile_reads (mkStream s false false) lens = (ss, Some pieces)
    /\ sconcat pieces +:+ ss_rest ss = s
    /\ Forall2 (fun p n => Z.of_nat (String.length p) <= n) pieces lens
    /\ (Z.of_nat (String.length s) <= foldr Z.add 0 lens -> sconcat pieces = s).
Proof.
  intros Hl.
  assert (forall eof, (eof = true -> s = EmptyString) ->
    exists ss pieces,
      infile_reads (mkStream s eof false) lens = (ss, Some pieces)
      /\ sconcat pieces +:+ ss_rest ss = s
      /\ Forall2 (fun p n => Z.of_nat (String.length p) <= n) pieces lens
      /\ Z.of_nat (String.length (ss_rest ss))
         = Z.max 0 (Z.of_nat (String.length s) - foldr Z.add 0 lens)) as Hgen.
  { revert s. induction Hl as [|n lens Hn Hl IH]; intros s eof Heof.
    { eexists _, []. split; [done|]. cbn. split_and!; try done; lia. }
    cbn [infile_reads]. unfold ss_local_infile_read, ss_read. cbn [ss_bad ss_eof ss_rest].
    assert (0 <= foldr Z.add 0 lens) as Hsum.
    { clear -Hl. induction Hl; cbn; lia. }
    destruct eof; cbn [orb ss_bad].
    - rewrite Heof by done.
      destruct (IH EmptyString true) as (ss & ps & -> & E & Hf & Hlen); [done|].
      eexists _, (EmptyString :: ps). split; [done|]. cbn [sconcat foldr].
      rewrite app_nil_l_s. split_and!; [done|constructor; [cbn; lia|done]|].
      rewrite Hlen. cbn. lia.
    - pose proof (split_at_app (Z.to_nat n) s) as Ea.
      pose proof (split_at_length (Z.to_nat n) s) as El.
      destruct (split_at (Z.to_nat n) s) as [a b]. destruct El as [El1 El2].
      cbn [ss_bad].
      destruct (IH b (String.length s <? Z.to_nat n)%nat) as (ss & ps & -> & E & Hf & Hlen).
      { destruct (Nat.ltb_spec (String.length s) (Z.to_nat n)); [|done].
        intros _. destruct b; [done|]. cbn in El2. lia. }
      eexists _, (a :: ps). split; [done|]. cbn [sconcat foldr].
      split_and!.
      + by rewrite app_assoc_s, E.
      + constructor; [lia|done].
      + rewrite Hlen. cbn [foldr]. lia. }
  destruct (Hgen false) as (ss & ps & E & Ea & Hf & Hlen); [done|].
  exists ss, ps. split_and!; try done. intros Hs.
  destruct (ss_rest ss) as [|c rest].
  - by rewrite app_nil_r_s in Ea.
  - cbn in Hlen. lia.
Qed.

(** ** Concrete texts *)
Definition demo_writer : SuperChunkWriter :=
  match WriteRows (H := release_build) demo_rows (Reset (fresh_chunk 80) demo_schema) with
  | Done (_, w) => w
  | _ => Reset (fresh_chunk 80) demo_schema
  end.

Lemma demo_writer_ok : writer_ok demo_writer demo_fields.
Proof.
  destruct (WriteRows_ok (H := release_build) demo_rows demo_fields
    (Reset (fresh_chunk 80) demo_schema) []) as (w & E & Hw & _).
  - apply Reset_ok; try done. repeat constructor; unfold col_ok; cbn; try done; lia.
  - repeat constructor; cbn; try done; lia.
  - vm_compute. congruence.
  - reflexivity.
  - unfold demo_writer. by rewrite E.
Qed.

(** A row of values and a row of NULLs. *)
Lemma ChunkToTSV_read_tsv_witness :
  let chunk := m_chunk (m_current_chunk demo_writer) in
  let tss := [["1"; quoted "034"%char "092"%char "hi"; quoted "034"%char "092"%char "ab  "];
              ["\N"; "\N"; "\N"]]%string in
  exists r, ChunkToTSV (H := release_build) (Reset_reader chunk demo_schema "") 2 EmptyString
            = Done (true, r, tsv_text tss)
    /\ read_tsv (tsv_text tss) =
       Some [[Some "1"; Some "hi"; Some "ab  "]; [None; None; None]]%string.
Proof.
  intros chunk tss.
  apply (ChunkToTSV_read_tsv (H := release_build) demo_writer demo_fields tss "");
    [apply demo_writer_ok|discriminate|repeat constructor|reflexivity].
Defined.

Lemma infile_reads_text_witness :
  exists ss pieces,
    infile_reads (mkStream "1,2,3" false false) [2; 2; 2] = (ss, Some pieces)
    /\ sconcat pieces +:+ ss_rest ss = "1,2,3"%string
    /\ Forall2 (fun p n => Z.of_nat (String.length p) <= n) pieces [2; 2; 2]
    /\ (5 <= 6 -> sconcat pieces = "1,2,3"%string).
Proof.
  apply (infile_reads_text "1,2,3" [2; 2; 2]). repeat constructor.
Defined.
