(* ===== verification/SimpleQueue.v ===== *)
(** The class [ThreadSafeSimpleQueue] of [queue/thread_safe_simple_queue.hpp].
    A call holds the mutex from its first statement to its return, except
    while it waits on a condition variable: one evaluation of the loop's
    condition and, if it is false, the rest of the body is one step.  The
    threads that wait, the choice that [notify_one] makes among them and
    spurious wake-ups are part of the state and of the step relation. *)

From stdpp Require Import base list numbers relations tactics.
From stdpp Require Import options.
From S2P Require Import Prelude.

Section simple_queue.
Context {A : Type}.

(** ** The data that the mutex protects *)
Record simple_queue := mkSimpleQueue {
  m_queue : list A;
  m_capacity : Z;        (* uint32_t *)
  m_producers : Z        (* uint32_t *)
}.

Definition simple_queue_new (capacity producers : Z) : simple_queue :=
  mkSimpleQueue [] capacity producers.

Definition queue_size (q : simple_queue) : Z := Z.of_nat (length (m_queue q)).

(** One round of the loop of [Push]; [None]: the call waits on [m_fullCV]. *)
Definition Push (value : A) (q : simple_queue) : option simple_queue :=
  if m_capacity q <=? queue_size q then None
  else Some (mkSimpleQueue (m_queue q ++ [value]) (m_capacity q) (m_producers q)).

Inductive pop_result :=
  | PopWaits                                 (* on m_emptyCV *)
  | PopThrows                                (* std::out_of_range *)
  | PopReturns (res : A) (q : simple_queue).

(** One round of the loop of [Pop]. *)
Definition Pop (q : simple_queue) : pop_result :=
  match m_queue q with
  | [] => if m_producers q =? 0 then PopThrows else PopWaits
  | res :: rest => PopReturns res (mkSimpleQueue rest (m_capacity q) (m_producers q))
  end.

(** The new queue, and whether [m_emptyCV.notify_all()] is called. *)
Definition DeleteProducer (q : simple_queue) : simple_queue * bool :=
  let producers := u32 (m_producers q - 1) in
  (mkSimpleQueue (m_queue q) (m_capacity q) producers, producers =? 0).

(** ** The threads *)
Inductive status :=
  | Idle
  | Pushing (value : A)      (* awake, about to evaluate the condition *)
  | PushWait (value : A)     (* asleep on m_fullCV *)
  | Popping
  | PopWait.                 (* asleep on m_emptyCV *)

Definition wake_push (s : status) : status :=
  match s with PushWait v => Pushing v | _ => s end.
Definition wake_pop (s : status) : status :=
  match s with PopWait => Popping | _ => s end.

Definition push_asleep (s : status) : bool :=
  match s with PushWait _ => true | _ => false end.
Definition push_awake (s : status) : bool :=
  match s with Pushing _ => true | _ => false end.
Definition pop_asleep (s : status) : bool :=
  match s with PopWait => true | _ => false end.
Definition pop_awake (s : status) : bool :=
  match s with Popping => true | _ => false end.

(** [pushed] and [popped]: the values that calls have pushed and returned, in
    the order of the calls' steps. *)
Record system := mkSystem {
  queue : simple_queue;
  threads : list status;
  pushed : list A;
  popped : list A
}.

Definition set_thread (t : nat) (s : status) (y : system) : system :=
  mkSystem (queue y) (<[t := s]> (threads y)) (pushed y) (popped y).

Inductive step (y : system) : system -> Prop :=
  | call_Push t v :
      threads y !! t = Some Idle -> step y (set_thread t (Pushing v) y)
  | call_Pop t :
      threads y !! t = Some Idle -> step y (set_thread t Popping y)
  | Push_waits t v :
      threads y !! t = Some (Pushing v) -> Push v (queue y) = None ->
      step y (set_thread t (PushWait v) y)
  | Push_done t v q l :
      threads y !! t = Some (Pushing v) -> Push v (queue y) = Some q ->
      notify_one pop_asleep wake_pop (<[t := Idle]> (threads y)) l ->
      step y (mkSystem q l (pushed y ++ [v]) (popped y))
  | Pop_waits t :
      threads y !! t = Some Popping -> Pop (queue y) = PopWaits ->
      step y (set_thread t PopWait y)
  | Pop_throws t :
      threads y !! t = Some Popping -> Pop (queue y) = PopThrows ->
      step y (set_thread t Idle y)
  | Pop_done t v q l :
      threads y !! t = Some Popping -> Pop (queue y) = PopReturns v q ->
      notify_one push_asleep wake_push (<[t := Idle]> (threads y)) l ->
      step y (mkSystem q l (pushed y) (popped y ++ [v]))
  | Delete t :
      threads y !! t = Some Idle ->
      step y
        (let '(q, all) := DeleteProducer (queue y) in
         mkSystem q (if all then map wake_pop (threads y) else threads y)
           (pushed y) (popped y))
  | Spurious t s :
      threads y !! t = Some s ->
      step y (set_thread t (wake_push (wake_pop s)) y).

Definition initial (capacity producers : Z) (nthreads : nat) : system :=
  mkSystem (simple_queue_new capacity producers) (replicate nthreads Idle) [] [].

Definition reachable (capacity producers : Z) (y : system) : Prop :=
  exists n, rtc step (initial capacity producers n) y.

(** ** The invariant *)
Definition n_items (y : system) : Z := queue_size (queue y).

(** If a thread sleeps in [Pop] there are as many threads awake in [Pop] as
    there are values: none is overslept.  The same for [Push] and free places. *)
Record inv (capacity : Z) (y : system) : Prop := {
  inv_capacity : m_capacity (queue y) = capacity;
  inv_bound : n_items y <= capacity;
  inv_fifo : pushed y = popped y ++ m_queue (queue y);
  inv_pop : (1 <= count pop_asleep (threads y))%nat ->
            n_items y <= Z.of_nat (count pop_awake (threads y));
  inv_push : (1 <= count push_asleep (threads y))%nat ->
             capacity - n_items y <= Z.of_nat (count push_awake (threads y));
  inv_producers : m_producers (queue y) = 0 -> count pop_asleep (threads y) = 0%nat
}.

Lemma notify_pop l l' :
  notify_one pop_asleep wake_pop l l' ->
  count push_asleep l' = count push_asleep l /\
  count push_awake l' = count push_awake l /\
  ((count pop_asleep l = S (count pop_asleep l') /\
    count pop_awake l' = S (count pop_awake l)) \/
   (count pop_asleep l = 0%nat /\ l' = l)).
Proof using Type.
  intros [l0 t s Ht Hs|l0 Hl]; [|by apply count_zero in Hl; auto].
  destruct s; try done.
  pose proof (count_insert push_asleep l0 t _ Popping Ht).
  pose proof (count_insert push_awake l0 t _ Popping Ht).
  pose proof (count_insert pop_asleep l0 t _ Popping Ht).
  pose proof (count_insert pop_awake l0 t _ Popping Ht).
  cbn in *. lia.
Qed.

Lemma notify_push l l' :
  notify_one push_asleep wake_push l l' ->
  count pop_asleep l' = count pop_asleep l /\
  count pop_awake l' = count pop_awake l /\
  ((count push_asleep l = S (count push_asleep l') /\
    count push_awake l' = S (count push_awake l)) \/
   (count push_asleep l = 0%nat /\ l' = l)).
Proof using Type.
  intros [l0 t s Ht Hs|l0 Hl]; [|by apply count_zero in Hl; auto].
  destruct s as [| |v| |]; try done.
  pose proof (count_insert push_asleep l0 t _ (Pushing v) Ht).
  pose proof (count_insert push_awake l0 t _ (Pushing v) Ht).
  pose proof (count_insert pop_asleep l0 t _ (Pushing v) Ht).
  pose proof (count_insert pop_awake l0 t _ (Pushing v) Ht).
  cbn in *. lia.
Qed.

(** The four counts after thread [t], in status [s], has gone to [s']. *)
Ltac counts Ht s' :=
  pose proof (count_insert push_asleep _ _ _ s' Ht);
  pose proof (count_insert push_awake _ _ _ s' Ht);
  pose proof (count_insert pop_asleep _ _ _ s' Ht);
  pose proof (count_insert pop_awake _ _ _ s' Ht).

Lemma inv_set_thread capacity y t s s' :
  inv capacity y -> threads y !! t = Some s ->
  (pop_asleep s' = true -> pop_asleep s = true
     \/ (n_items y = 0 /\ m_producers (queue y) <> 0)) ->
  (push_asleep s' = true -> push_asleep s = true \/ capacity <= n_items y) ->
  (pop_awake s = true -> pop_awake s' = true \/ n_items y = 0) ->
  (push_awake s = true -> push_awake s' = true \/ capacity <= n_items y) ->
  inv capacity (set_thread t s' y).
Proof using Type.
  intros [] Ht H1 H2 H3 H4. counts Ht s'.
  split; unfold n_items in *; cbn [set_thread queue threads pushed popped];
    try done.
  - destruct (Z.le_gt_cases (queue_size (queue y)) 0); [lia|].
    assert (pop_asleep s' = true -> pop_asleep s = true)
      by (intros E; destruct (H1 E); [done|lia]).
    assert (pop_awake s = true -> pop_awake s' = true)
      by (intros E; destruct (H3 E); [done|lia]).
    destruct (pop_asleep s'), (pop_asleep s), (pop_awake s), (pop_awake s');
      simplify_eq/=; lia || intuition congruence.
  - destruct (Z.le_gt_cases capacity (queue_size (queue y))); [lia|].
    assert (push_asleep s' = true -> push_asleep s = true)
      by (intros E; destruct (H2 E); [done|lia]).
    assert (push_awake s = true -> push_awake s' = true)
      by (intros E; destruct (H4 E); [done|lia]).
    destruct (push_asleep s'), (push_asleep s), (push_awake s), (push_awake s');
      simplify_eq/=; lia || intuition congruence.
  - intros Hp. specialize (inv_producers0 Hp).
    assert (pop_asleep s' = true -> pop_asleep s = true)
      by (intros E; destruct (H1 E) as [|[_ ?]]; done).
    destruct (pop_asleep s'), (pop_asleep s); lia || intuition congruence.
Qed.

Lemma Push_Some v q q' :
  Push v q = Some q' ->
  queue_size q < m_capacity q
  /\ q' = mkSimpleQueue (m_queue q ++ [v]) (m_capacity q) (m_producers q).
Proof using Type.
  unfold Push. destruct (Z.leb_spec (m_capacity q) (queue_size q)); [done|].
  intros [= <-]. split; [lia|done].
Qed.

Lemma Pop_PopReturns v q q' :
  Pop q = PopReturns v q' ->
  exists rest, m_queue q = v :: rest
    /\ q' = mkSimpleQueue rest (m_capacity q) (m_producers q).
Proof using Type.
  unfold Pop. destruct (m_queue q) as [|x rest]; [by case_match|].
  intros [= <- <-]. eauto.
Qed.

Lemma Pop_empty q :
  (Pop q = PopWaits <-> m_queue q = [] /\ m_producers q <> 0)
  /\ (Pop q = PopThrows <-> m_queue q = [] /\ m_producers q = 0).
Proof using Type.
  unfold Pop. destruct (m_queue q); [|split; split; naive_solver].
  destruct (Z.eqb_spec (m_producers q) 0); naive_solver.
Qed.

Lemma queue_size_snoc l v c p :
  queue_size (mkSimpleQueue (l ++ [v]) c p) = Z.of_nat (length l) + 1.
Proof using Type. unfold queue_size. cbn. rewrite length_app. cbn. lia. Qed.

(** A push enters the value, and wakes a thread that sleeps in [Pop]. *)
Lemma inv_push_done capacity y t v q l :
  inv capacity y -> threads y !! t = Some (Pushing v) ->
  Push v (queue y) = Some q ->
  notify_one pop_asleep wake_pop (<[t := Idle]> (threads y)) l ->
  inv capacity (mkSystem q l (pushed y ++ [v]) (popped y)).
Proof using Type.
  intros [] Ht Hp Hn. apply Push_Some in Hp as [Hlt ->].
  apply notify_pop in Hn as (E1 & E2 & [[E3 E4]|[E3 ->]]); counts Ht Idle;
    unfold n_items, queue_size in *; cbn in *;
    (split; unfold n_items; cbn; rewrite ?queue_size_snoc;
      [done|lia|by rewrite inv_fifo0, app_assoc|lia|lia|lia]).
Qed.

(** A pop removes the oldest value, and wakes a thread that sleeps in [Push]. *)
Lemma inv_pop_done capacity y t v q l :
  inv capacity y -> threads y !! t = Some Popping ->
  Pop (queue y) = PopReturns v q ->
  notify_one push_asleep wake_push (<[t := Idle]> (threads y)) l ->
  inv capacity (mkSystem q l (pushed y) (popped y ++ [v])).
Proof using Type.
  intros [] Ht Hp Hn. apply Pop_PopReturns in Hp as (rest & Eq & ->).
  apply notify_push in Hn as (E1 & E2 & [[E3 E4]|[E3 ->]]); counts Ht Idle;
    unfold n_items, queue_size in *; rewrite Eq in *; cbn in *;
    (split; unfold n_items, queue_size; cbn;
      [done|lia|by rewrite inv_fifo0, <- app_assoc|lia|lia|lia]).
Qed.

Lemma inv_delete capacity y :
  inv capacity y ->
  inv capacity
    (let '(q, all) := DeleteProducer (queue y) in
     mkSystem q (if all then map wake_pop (threads y) else threads y)
       (pushed y) (popped y)).
Proof using Type.
  intros []. unfold DeleteProducer. cbv zeta.
  destruct (Z.eqb_spec (u32 (m_producers (queue y) - 1)) 0) as [E|E].
  - assert (count pop_asleep (map wake_pop (threads y)) = 0%nat) as Ez.
    { rewrite count_map. apply count_zero, Forall_true. by intros []. }
    assert (count push_asleep (map wake_pop (threads y))
            = count push_asleep (threads y)) as E1
      by (rewrite count_map; apply count_ext; by intros []).
    assert (count push_awake (map wake_pop (threads y))
            = count push_awake (threads y)) as E2
      by (rewrite count_map; apply count_ext; by intros []).
    split; unfold n_items, queue_size in *; cbn [queue threads pushed popped
      m_queue m_capacity m_producers] in *; rewrite ?Ez, ?E1, ?E2; try done; lia.
  - split; unfold n_items, queue_size in *; cbn in *; done.
Qed.

Lemma inv_step capacity y y' : inv capacity y -> step y y' -> inv capacity y'.
Proof using Type.
  intros Hi [t v Ht|t Ht|t v Ht Hp|t v q l Ht Hp Hn|t Ht Hp|t Ht Hp|t v q l Ht Hp Hn
            |t Ht|t s Ht].
  - by apply (inv_set_thread _ _ _ _ _ Hi Ht).
  - by apply (inv_set_thread _ _ _ _ _ Hi Ht).
  - apply (inv_set_thread _ _ _ _ _ Hi Ht); try done.
    all: unfold Push in Hp; destruct Hi;
      destruct (Z.leb_spec (m_capacity (queue y)) (queue_size (queue y))); [|done];
      right; unfold n_items; lia.
  - by eapply inv_push_done.
  - apply Pop_empty in Hp as [Hq Hp].
    assert (n_items y = 0) by (unfold n_items, queue_size; by rewrite Hq).
    apply (inv_set_thread _ _ _ _ _ Hi Ht); by auto.
  - apply Pop_empty in Hp as [Hq Hp].
    assert (n_items y = 0) by (unfold n_items, queue_size; by rewrite Hq).
    apply (inv_set_thread _ _ _ _ _ Hi Ht); by auto.
  - by eapply inv_pop_done.
  - by apply inv_delete.
  - apply (inv_set_thread _ _ _ _ _ Hi Ht); destruct s; by auto.
Qed.

Lemma inv_initial capacity producers n :
  0 <= capacity -> inv capacity (initial capacity producers n).
Proof using Type.
  intros Hc.
  assert (forall f, f Idle = false -> count f (replicate n Idle) = 0%nat) as Hz.
  { intros f Hf. apply count_zero, Forall_replicate. done. }
  split; unfold n_items, queue_size; cbn; rewrite ?Hz by done; done || lia.
Qed.

Lemma reachable_inv capacity producers y :
  0 <= capacity -> reachable capacity producers y -> inv capacity y.
Proof using Type.
  intros Hc [n Hr]. pose proof (inv_initial capacity producers n Hc) as Hi.
  induction Hr as [|y1 y2 y3 Hs _ IH]; [done|]. by apply IH, (inv_step _ y1).
Qed.

(** ** Properties *)

(** C26. In every state that calls of any number of threads lead to, the queue
    holds at most [capacity] values, and the values popped so far followed by the
    values it holds are the values pushed, in the order of the pushes: nothing is
    lost, duplicated or overtaken.  When [Pop] throws, every pushed value has been
    popped and no producer is left. *)
Theorem queue_fifo capacity producers y :
  0 <= capacity -> reachable capacity producers y ->
  queue_size (queue y) <= capacity
  /\ pushed y = popped y ++ m_queue (queue y)
  /\ (Pop (queue y) = PopThrows -> popped y = pushed y /\ m_producers (queue y) = 0).
Proof using Type.
  intros Hc Hr. destruct (reachable_inv _ _ _ Hc Hr).
  split; [done|]. split; [done|]. intros Hp. apply Pop_empty in Hp as [Hq Hp].
  by rewrite inv_fifo0, Hq, app_nil_r.
Qed.

(** C25. No wake-up is lost: a thread that sleeps in [Pop] while the queue holds a
    value has an awake thread to take it, so has a thread that sleeps in [Push]
    while there is a free place; and once no producer is left no thread sleeps in
    [Pop].  So when all threads sleep or are idle, those in [Pop] see an empty queue
    whose producers are not finished and those in [Push] see a full one. *)
Theorem queue_no_lost_wakeup capacity producers y t s :
  0 <= capacity -> reachable capacity producers y -> threads y !! t = Some s ->
  (s = PopWait ->
     m_producers (queue y) <> 0
     /\ (m_queue (queue y) <> [] -> exists t', threads y !! t' = Some Popping))
  /\ (forall v, s = PushWait v -> queue_size (queue y) < capacity ->
     exists t' v', threads y !! t' = Some (Pushing v')).
Proof using Type.
  intros Hc Hr Ht. destruct (reachable_inv _ _ _ Hc Hr). split.
  - intros ->.
    assert (1 <= count pop_asleep (threads y))%nat as Hs
      by (apply count_exists; eauto).
    split; [intros Hp; specialize (inv_producers0 Hp); lia|].
    intros Hne. specialize (inv_pop0 Hs). unfold n_items, queue_size in *.
    assert (1 <= count pop_awake (threads y))%nat as Ha
      by (destruct (m_queue (queue y)); [done|cbn in *; lia]).
    apply count_exists in Ha as (t' & s' & Ht' & Hs'). exists t'. by destruct s'.
  - intros v -> Hlt.
    assert (1 <= count push_asleep (threads y))%nat as Hs
      by (apply count_exists; eauto).
    specialize (inv_push0 Hs). unfold n_items in *.
    assert (1 <= count push_awake (threads y))%nat as Ha by lia.
    apply count_exists in Ha as (t' & s' & Ht' & Hs').
    destruct s' as [|v'| | |]; try done. by exists t', v'.
Qed.
End simple_queue.

(** ** A concrete run: thread 1 sleeps in [Pop], thread 0 pushes 7 *)
Definition demo_asleep : system (A := nat) :=
  mkSystem (simple_queue_new 1 1) [Idle; PopWait] [] [].

Definition demo_pushed : system (A := nat) :=
  mkSystem (mkSimpleQueue [7%nat] 1 1) [Idle; Popping] [7%nat] [].

Lemma demo_asleep_reachable : reachable 1 1 demo_asleep.
Proof.
  exists 2%nat. eapply rtc_l; [by apply (call_Pop _ 1)|].
  eapply rtc_l; [by apply (Pop_waits _ 1)|]. reflexivity.
Qed.

Lemma demo_pushed_reachable : reachable 1 1 demo_pushed.
Proof.
  destruct demo_asleep_reachable as [n Hr]. exists n.
  eapply rtc_r; [eapply rtc_r; [exact Hr|by apply (call_Push _ 0 7%nat)]|].
  apply (Push_done (set_thread 0 (Pushing 7%nat) demo_asleep) 0 7%nat
    (mkSimpleQueue [7%nat] 1 1) [Idle; Popping]); [done|done|].
  by apply (notify_some pop_asleep wake_pop [Idle; PopWait] 1 PopWait).
Qed.

Lemma queue_fifo_witness :
  queue_size (queue demo_pushed) <= 1
  /\ pushed demo_pushed = popped demo_pushed ++ m_queue (queue demo_pushed)
  /\ (Pop (queue demo_pushed) = PopThrows ->
      popped demo_pushed = pushed demo_pushed /\ m_producers (queue demo_pushed) = 0).
Proof. apply (queue_fifo 1 1 demo_pushed); [done|exact demo_pushed_reachable]. Defined.

Lemma queue_no_lost_wakeup_witness :
  threads demo_asleep !! 1%nat = Some PopWait
  /\ m_producers (queue demo_asleep) <> 0
  /\ (m_queue (queue demo_asleep) <> [] ->
      exists t', threads demo_asleep !! t' = Some Popping).
Proof.
  split; [reflexivity|].
  apply (queue_no_lost_wakeup 1 1 demo_asleep 1 PopWait);
    [done|exact demo_asleep_reachable|reflexivity|reflexivity].
Defined.
