(* ===== verification/BatchQueue.v ===== *)
(** The class [ThreadSafeBatchQueue] of [queue/thread_safe_batch_queue.hpp]:
    every producer has [m_batchSize] places, and no producer starts the next
    batch before all values of the current one have been read.  As for the
    simple queue, one round of a waiting loop under the mutex is one call of
    the definitions below, which say when the call waits instead. *)

From Stdlib Require Import String.
From stdpp Require Import base list numbers gmap relations tactics.
From stdpp Require Import options.
From S2P Require Import Prelude Schema.

Record DataContainer := mkData { valuePtr : option Chunk; isSet : bool }.

Record batch_queue := mkBatchQueue {
  m_queue : list Chunk;
  m_batchSize : Z;                       (* int *)
  m_activeProducers : Z;
  m_producerActiveArray : list bool;
  m_producerIds : list Z;
  m_partitionIdToNumber : gmap Z nat;
  m_dataArray : list DataContainer;
  m_currentBatch : Z;
  m_readInBatch : list Z;
  m_itemsToRead : Z
}.

Definition m_totalProducers (q : batch_queue) : nat := length (m_producerIds q).

(** [operator[]] of the map: a missing key reads as 0. *)
Definition partition_number (q : batch_queue) (producerId : Z) : nat :=
  default 0%nat (m_partitionIdToNumber q !! producerId).

Definition set_queue (l : list Chunk) (q : batch_queue) : batch_queue :=
  mkBatchQueue l (m_batchSize q) (m_activeProducers q) (m_producerActiveArray q)
    (m_producerIds q) (m_partitionIdToNumber q) (m_dataArray q) (m_currentBatch q)
    (m_readInBatch q) (m_itemsToRead q).

(** The constructor's loop: producer [i] is number [i], the last one of a
    repeated id wins. *)
Fixpoint number_producers (i : nat) (producers : list Z) (m : gmap Z nat) : gmap Z nat :=
  match producers with
  | [] => m
  | p :: producers => number_producers (S i) producers (<[p := i]> m)
  end.

Definition ThreadSafeBatchQueue (batch_size : Z) (producers : list Z) : batch_queue :=
  let n := length producers in
  mkBatchQueue [] batch_size (Z.of_nat n) (replicate n true) producers
    (number_producers 0 producers ∅)
    (replicate (n * Z.to_nat batch_size) (mkData None false))
    0 (replicate n 0) 0.

Definition targetIndex (q : batch_queue) (producerId valueId : Z) : Z :=
  Z.of_nat (partition_number q producerId) * m_batchSize q
  + Z.rem valueId (m_batchSize q).

(** [m_dataArray[idx]]; [None] is an index that is no place of the array. *)
Definition data_at (q : batch_queue) (idx : Z) : option DataContainer :=
  if 0 <=? idx then m_dataArray q !! Z.to_nat idx else None.

Lemma data_at_nonneg q idx : 0 <= idx -> data_at q idx = m_dataArray q !! Z.to_nat idx.
Proof. intros Hi. unfold data_at. by rewrite (proj2 (Z.leb_le _ _)). Qed.

Lemma data_at_Some q idx d :
  data_at q idx = Some d -> 0 <= idx /\ m_dataArray q !! Z.to_nat idx = Some d.
Proof. unfold data_at. destruct (Z.leb_spec 0 idx); [done|discriminate]. Qed.

(** The loop of [isBatchFinished] over the producers. *)
Fixpoint all_read (batchSize : Z) (active : list bool) (read : list Z) : bool :=
  match active, read with
  | a :: active, r :: read =>
      if a && negb (r =? batchSize) then false else all_read batchSize active read
  | _, _ => true
  end.

Definition isBatchFinished (q : batch_queue) : bool :=
  all_read (m_batchSize q) (m_producerActiveArray q) (m_readInBatch q)
  && (m_itemsToRead q =? 0).

Definition resetBatch (q : batch_queue) : batch_queue :=
  mkBatchQueue (m_queue q) (m_batchSize q) (m_activeProducers q)
    (m_producerActiveArray q) (m_producerIds q) (m_partitionIdToNumber q)
    (m_dataArray q) (m_currentBatch q + 1)
    (replicate (m_totalProducers q) 0) (m_itemsToRead q).

Definition finish_batch (q : batch_queue) : batch_queue :=
  if isBatchFinished q then resetBatch q else q.

(** The value is returned as it is, also where the place is not set. *)
Definition readValue (idx : Z) (q : batch_queue)
    : outcome exn (option Chunk * batch_queue) :=
  let i := Z.to_nat idx in
  let p := Z.to_nat (Z.quot idx (m_batchSize q)) in
  match data_at q idx, m_readInBatch q !! p with
  | Some d, Some r =>
      Done (valuePtr d,
        mkBatchQueue (m_queue q) (m_batchSize q) (m_activeProducers q)
          (m_producerActiveArray q) (m_producerIds q) (m_partitionIdToNumber q)
          (<[i := mkData (valuePtr d) false]> (m_dataArray q)) (m_currentBatch q)
          (<[p := r + 1]> (m_readInBatch q)) (m_itemsToRead q - 1))
  | _, _ => Undef "place or producer out of bounds"
  end.

(** [m_queue.pop()] *)
Definition pop_front (q : batch_queue) : outcome exn batch_queue :=
  match m_queue q with
  | [] => Undef "pop of an empty std::queue"
  | _ :: l => Done (set_queue l q)
  end.

Section operations.
Context `{Build}.

(** [None]: the call waits on [m_busyCV]. *)
Definition Push (val : Chunk) (q : batch_queue) : outcome exn (option batch_queue) :=
  let batchNum := s32 (id val / u64 (m_batchSize q)) in
  let valueIndex := targetIndex q (s32 (partition_id val)) (s32 (id val)) in
  if m_currentBatch q <? batchNum then Done None
  else
    match data_at q valueIndex with
    | None => Undef "m_dataArray out of bounds"
    | Some d =>
        _ ← c_assert (negb (isSet d)) "pushing to non-empty place";
        Done (Some
          (mkBatchQueue (m_queue q ++ [val]) (m_batchSize q) (m_activeProducers q)
             (m_producerActiveArray q) (m_producerIds q) (m_partitionIdToNumber q)
             (<[Z.to_nat valueIndex := mkData (Some val) true]> (m_dataArray q))
             (m_currentBatch q) (m_readInBatch q) (m_itemsToRead q + 1)))
    end.

(** [None]: the call waits on [m_emptyCV]. *)
Definition Pop (q : batch_queue) : outcome exn (option (Chunk * batch_queue)) :=
  if m_itemsToRead q =? 0 then
    if m_activeProducers q =? 0 then Throw (OutOfRange "Queue is empty")
    else Done None
  else
    match m_queue q with
    | [] => Undef "front of an empty std::queue"
    | res :: _ =>
        let valueIndex := targetIndex q (s32 (partition_id res)) (s32 (id res)) in
        '((_, q) : option Chunk * batch_queue) ← readValue valueIndex q;
        q ← pop_front q;
        Done (Some (res, finish_batch q))
    end.

(** The check at the entry of [Get]. *)
Definition Get_enter (q : batch_queue) : outcome exn unit :=
  if (m_itemsToRead q =? 0) && (m_activeProducers q =? 0)
  then Throw (OutOfRange "Queue is empty") else Done tt.

(** A round of its loop; [None]: the call waits on the producer's
    [m_dataNotReadyCV]. *)
Definition Get (producerId valueId : Z) (q : batch_queue)
    : outcome exn (option (option Chunk * batch_queue)) :=
  let valueIndex := targetIndex q producerId valueId in
  match data_at q valueIndex,
        m_producerActiveArray q !! partition_number q producerId with
  | Some d, Some active =>
      if (negb (isSet d) || negb (Z.quot valueId (m_batchSize q) =? m_currentBatch q))
         && active then Done None
      else if negb (isSet d) then Throw (OutOfRange "Asking for non-existsent chunk")
      else
        '((res, q) : option Chunk * batch_queue) ← readValue valueIndex q;
        q ← pop_front q;
        Done (Some (res, finish_batch q))
  | _, _ => Undef "place or producer out of bounds"
  end.

(** The new queue; whether [resetBatch] has run, which wakes the threads that
    sleep on [m_busyCV] and on every [m_dataNotReadyCV]; and whether
    [m_emptyCV.notify_all()] is called.  Nothing else wakes a thread here. *)
Definition DeleteProducer (producerId : Z) (q : batch_queue)
    : outcome exn (batch_queue * bool * bool) :=
  let i := partition_number q producerId in
  match m_producerActiveArray q !! i with
  | None => Undef "producer out of bounds"
  | Some _ =>
      let q :=
        mkBatchQueue (m_queue q) (m_batchSize q) (m_activeProducers q - 1)
          (<[i := false]> (m_producerActiveArray q)) (m_producerIds q)
          (m_partitionIdToNumber q) (m_dataArray q) (m_currentBatch q)
          (m_readInBatch q) (m_itemsToRead q) in
      let reset := isBatchFinished q in
      let q := if reset then resetBatch q else q in
      Done (q, reset, m_activeProducers q =? 0)
  end.

(** The first place that is set. *)
Fixpoint first_set (idx : nat) (l : list DataContainer) : option nat :=
  match l with
  | [] => None
  | d :: l => if isSet d then Some idx else first_set (S idx) l
  end.

(** One round of the outer loop of [FreeBatchData]. *)
Inductive free_result :=
  | FreeWaits                                          (* on m_emptyCV *)
  | FreeEnds
  | FreeNothing                                        (* no place is set *)
  | FreeOne (freed : option Chunk) (q : batch_queue).

Definition FreeBatchData (q : batch_queue) : outcome exn free_result :=
  if (m_activeProducers q =? 0) && (m_itemsToRead q =? 0) then Done FreeEnds
  else if (m_itemsToRead q =? 0) && negb (m_activeProducers q =? 0) then Done FreeWaits
  else
    match first_set 0 (m_dataArray q) with
    | None => Done FreeNothing
    | Some idx =>
        q ← pop_front q;
        '((res, q) : option Chunk * batch_queue) ← readValue (Z.of_nat idx) q;
        Done (FreeOne res (finish_batch q))
    end.
End operations.

(** ** The values that have been pushed and not been read *)
Definition place_value (d : DataContainer) : option Chunk :=
  if isSet d then valuePtr d else None.

Definition pending (q : batch_queue) : list Chunk := omap place_value (m_dataArray q).

(** The places of producer number [i]. *)
Definition block (bs i : nat) (l : list DataContainer) : list DataContainer :=
  take bs (drop (i * bs) l).

Lemma block_insert_eq bs i k l d :
  (k < bs)%nat -> block bs i (<[(i * bs + k)%nat := d]> l) = <[k := d]> (block bs i l).
Proof.
  intros Hk. unfold block. rewrite drop_insert_ge by lia.
  rewrite take_insert_lt by lia. do 2 f_equal. lia.
Qed.

Lemma block_insert_ne bs i j k l d :
  (k < bs)%nat -> i <> j -> block bs j (<[(i * bs + k)%nat := d]> l) = block bs j l.
Proof.
  intros Hk Hne. unfold block.
  destruct (decide (i < j)%nat) as [Hlt|Hge].
  - rewrite drop_insert_lt; [done|]. nia.
  - rewrite drop_insert_ge by nia. rewrite take_insert_ge; [done|]. nia.
Qed.

Lemma block_lookup bs i k l : (k < bs)%nat -> block bs i l !! k = l !! (i * bs + k)%nat.
Proof.
  intros Hk. unfold block. rewrite lookup_take, lookup_drop.
  by rewrite decide_True.
Qed.

(** One more value is pending, or one less. *)
Lemma pending_set (l : list DataContainer) j d c :
  l !! j = Some d -> isSet d = false ->
  omap place_value (<[j := mkData (Some c) true]> l) ≡ₚ c :: omap place_value l.
Proof.
  revert j. induction l as [|x l IH]; intros [|j] Hj Hd; try done.
  - injection Hj as ->. cbn. unfold place_value at 2. by rewrite Hd.
  - cbn in Hj |- *. destruct (place_value x); [|by apply IH].
    rewrite IH by done. apply Permutation_swap.
Qed.

Lemma pending_unset (l : list DataContainer) j d c :
  l !! j = Some d -> isSet d = true -> valuePtr d = Some c ->
  omap place_value l ≡ₚ c :: omap place_value (<[j := mkData (Some c) false]> l).
Proof.
  revert j. induction l as [|x l IH]; intros [|j] Hj Hd Hv; try done.
  - injection Hj as ->. cbn. unfold place_value at 1. by rewrite Hd, Hv.
  - cbn in Hj |- *. destruct (place_value x); [|by apply IH].
    rewrite (IH j) by done. apply Permutation_swap.
Qed.

(** ** The protocol of the producers: number [i] pushes the chunks 0, 1, ... of
    its partition; [next] holds the ids they come to next *)
Record binv (q : batch_queue) (next : list Z) : Prop := {
  bi_bs : 0 < m_batchSize q < 2 ^ 31;
  bi_nodup : NoDup (m_producerIds q);
  bi_ids : Forall (fun p => 0 <= p < 2 ^ 31) (m_producerIds q);
  bi_map i p : m_producerIds q !! i = Some p -> m_partitionIdToNumber q !! p = Some i;
  bi_len_active : length (m_producerActiveArray q) = m_totalProducers q;
  bi_len_read : length (m_readInBatch q) = m_totalProducers q;
  bi_len_data : length (m_dataArray q) = (m_totalProducers q * Z.to_nat (m_batchSize q))%nat;
  bi_len_next : length next = m_totalProducers q;
  bi_active : m_activeProducers q
              = Z.of_nat (count (fun b => b) (m_producerActiveArray q));
  bi_batch : 0 <= m_currentBatch q;
  bi_set i k d :
    m_dataArray q !! (i * Z.to_nat (m_batchSize q) + k)%nat = Some d ->
    (k < Z.to_nat (m_batchSize q))%nat -> isSet d = true ->
    exists c n, valuePtr d = Some c /\ m_producerIds q !! i = Some (partition_id c)
      /\ id c = m_currentBatch q * m_batchSize q + Z.of_nat k
      /\ next !! i = Some n /\ id c < n;
  bi_next i n : next !! i = Some n ->
    0 <= n <= (m_currentBatch q + 1) * m_batchSize q /\ n <= 2 ^ 31
    /\ (m_producerActiveArray q !! i = Some true ->
        m_currentBatch q * m_batchSize q <= n);
  bi_read i r n : m_readInBatch q !! i = Some r -> next !! i = Some n ->
    m_producerActiveArray q !! i = Some true ->
    r + Z.of_nat (count isSet (block (Z.to_nat (m_batchSize q)) i (m_dataArray q)))
    = n - m_currentBatch q * m_batchSize q;
  bi_items : m_itemsToRead q = Z.of_nat (length (pending q));
  bi_queue : Z.of_nat (length (m_queue q)) = m_itemsToRead q
}.

(** ** The place of a value *)
Lemma targetIndex_place q next i p v :
  binv q next -> m_producerIds q !! i = Some p -> 0 <= v ->
  Z.to_nat (targetIndex q p v)
  = (i * Z.to_nat (m_batchSize q) + Z.to_nat (v mod m_batchSize q))%nat
  /\ Z.quot (targetIndex q p v) (m_batchSize q) = Z.of_nat i
  /\ 0 <= targetIndex q p v
  /\ (Z.to_nat (v mod m_batchSize q) < Z.to_nat (m_batchSize q))%nat.
Proof.
  intros [] Hp Hv. unfold targetIndex.
  assert (partition_number q p = i) as ->
    by (unfold partition_number; by rewrite (bi_map0 i p Hp)).
  rewrite Z.rem_mod_nonneg by lia.
  pose proof (Z.mod_pos_bound v (m_batchSize q) ltac:(lia)) as Hm.
  rewrite Z.quot_div_nonneg by nia.
  assert ((Z.of_nat i * m_batchSize q + v mod m_batchSize q) / m_batchSize q
          = Z.of_nat i) as ->.
  { rewrite Z.div_add_l by lia. rewrite (Z.div_small (v mod _)) by lia. lia. }
  split; [|split; [done|nia]].
  rewrite Z2Nat.inj_add, Z2Nat.inj_mul by nia. lia.
Qed.

Lemma data_at_place q next i p v :
  binv q next -> m_producerIds q !! i = Some p -> 0 <= v ->
  data_at q (targetIndex q p v)
  = m_dataArray q !! (i * Z.to_nat (m_batchSize q) + Z.to_nat (v mod m_batchSize q))%nat.
Proof.
  intros Hi Hp Hv. destruct (targetIndex_place q next i p v Hi Hp Hv) as (<- & _ & H0 & _).
  by apply data_at_nonneg.
Qed.

(** A place of the array is one of a producer. *)
Lemma place_of_index q next j d :
  binv q next -> m_dataArray q !! j = Some d ->
  exists i k p, j = (i * Z.to_nat (m_batchSize q) + k)%nat
    /\ (k < Z.to_nat (m_batchSize q))%nat /\ m_producerIds q !! i = Some p.
Proof.
  intros [] Hj. apply lookup_lt_Some in Hj. rewrite bi_len_data0 in Hj.
  set (bs := Z.to_nat (m_batchSize q)) in *.
  assert (bs <> 0)%nat as Hbs by lia.
  pose proof (Nat.div_mod j bs Hbs). pose proof (Nat.mod_upper_bound j bs Hbs).
  assert (j / bs < m_totalProducers q)%nat as Hlt
    by (apply Nat.Div0.div_lt_upper_bound; lia).
  apply lookup_lt_is_Some in Hlt as [p Hp].
  exists (j / bs)%nat, (j mod bs)%nat, p. split; [lia|]. by split.
Qed.

(** Places of different producers, or numbers, are different. *)
Lemma place_inj (bs i k i' k' : nat) :
  (k < bs)%nat -> (k' < bs)%nat -> (i * bs + k = i' * bs + k')%nat -> i = i' /\ k = k'.
Proof. intros Hk Hk' E. assert (i = i') by nia. subst i'. lia. Qed.

(** ** Push *)
Section preservation.
Context `{Build}.

Definition chunk_of (p n : Z) (c : Chunk) : Prop := partition_id c = p /\ id c = n.

Lemma push_round q next i p n c :
  binv q next -> m_producerIds q !! i = Some p -> next !! i = Some n -> n < 2 ^ 31 ->
  m_producerActiveArray q !! i = Some true -> chunk_of p n c ->
  Push c q =
  if (m_currentBatch q + 1) * m_batchSize q <=? n then Done None
  else Done (Some
    (mkBatchQueue (m_queue q ++ [c]) (m_batchSize q) (m_activeProducers q)
       (m_producerActiveArray q) (m_producerIds q) (m_partitionIdToNumber q)
       (<[(i * Z.to_nat (m_batchSize q)
           + Z.to_nat (n - m_currentBatch q * m_batchSize q))%nat
          := mkData (Some c) true]> (m_dataArray q))
       (m_currentBatch q) (m_readInBatch q) (m_itemsToRead q + 1))).
Proof using Type.
  intros Hi Hp Hn Hlt Ha [Ep En]. pose proof Hi as []. unfold Push. cbv zeta.
  destruct (bi_next0 i n Hn) as ([Hn0 Hn1] & _ & Hn2). specialize (Hn2 Ha).
  pose proof (Forall_lookup_1 _ _ i p bi_ids0 Hp) as Hpr. cbn in Hpr.
  rewrite Ep, En, (wrap_u_small 64), (wrap_s_small 32 eq_refl p), (wrap_s_small 32 eq_refl n) by lia.
  assert (n / m_batchSize q <= n) as Hdiv by (apply Z.div_le_upper_bound; nia).
  pose proof (Z.div_pos n (m_batchSize q) ltac:(lia) ltac:(lia)).
  rewrite (wrap_s_small 32) by lia.
  destruct (Z.leb_spec ((m_currentBatch q + 1) * m_batchSize q) n) as [Hge|Hl].
  - assert (m_currentBatch q + 1 <= n / m_batchSize q)
      by (apply Z.div_le_lower_bound; lia).
    by destruct (Z.ltb_spec (m_currentBatch q) (n / m_batchSize q)); [|lia].
  - assert (n / m_batchSize q = m_currentBatch q /\
            n mod m_batchSize q = n - m_currentBatch q * m_batchSize q) as [Ed Em].
    { assert (n / m_batchSize q = m_currentBatch q) as E
        by (symmetry; apply (Z.div_unique n _ _ (n - m_currentBatch q * m_batchSize q));
            [left; lia|lia]).
      split; [done|]. pose proof (Z.div_mod n (m_batchSize q) ltac:(lia)). lia. }
    destruct (targetIndex_place q next i p n Hi Hp ltac:(lia)) as (Et & _ & _ & Hk).
    rewrite (data_at_place q next i p n Hi Hp) by lia.
    rewrite Et, Ed, Em in *. rewrite Z.ltb_irrefl.
    assert (is_Some (m_dataArray q !! (i * Z.to_nat (m_batchSize q)
      + Z.to_nat (n - m_currentBatch q * m_batchSize q))%nat)) as [d Hd].
    { apply lookup_lt_is_Some. rewrite bi_len_data0.
      apply lookup_lt_Some in Hp. fold (m_totalProducers q) in Hp. nia. }
    rewrite Hd. rewrite c_assert_true; [done|].
    destruct (isSet d) eqn:Hset; [|done].
    destruct (bi_set0 i _ d Hd Hk Hset) as (c' & n' & _ & _ & Eid & Hn' & Hlt').
    rewrite Hn in Hn'. injection Hn' as <-. lia.
Qed.

Lemma push_inv q next i p n c k :
  binv q next -> m_producerIds q !! i = Some p -> next !! i = Some n -> n < 2 ^ 31 ->
  m_producerActiveArray q !! i = Some true -> chunk_of p n c ->
  n < (m_currentBatch q + 1) * m_batchSize q ->
  k = Z.to_nat (n - m_currentBatch q * m_batchSize q) ->
  let q' := mkBatchQueue (m_queue q ++ [c]) (m_batchSize q) (m_activeProducers q)
       (m_producerActiveArray q) (m_producerIds q) (m_partitionIdToNumber q)
       (<[(i * Z.to_nat (m_batchSize q) + k)%nat := mkData (Some c) true]> (m_dataArray q))
       (m_currentBatch q) (m_readInBatch q) (m_itemsToRead q + 1) in
  binv q' (<[i := n + 1]> next) /\ pending q' ≡ₚ c :: pending q.
Proof using Type.
  intros Hi Hp Hn Hlt Ha [Ep En] Hin Hk. pose proof Hi as [].
  destruct (bi_next0 i n Hn) as (_ & _ & Hlo). specialize (Hlo Ha).
  assert (k < Z.to_nat (m_batchSize q))%nat as Hkb by nia.
  assert (i < m_totalProducers q)%nat as Hib by (by apply lookup_lt_Some in Hp).
  assert (i < length next)%nat as Hil by (by apply lookup_lt_Some in Hn).
  assert (is_Some (m_dataArray q !! (i * Z.to_nat (m_batchSize q) + k)%nat)) as [d Hd].
  { apply lookup_lt_is_Some. rewrite bi_len_data0. nia. }
  assert (isSet d = false) as Hset.
  { destruct (isSet d) eqn:E; [|done].
    destruct (bi_set0 i k d Hd Hkb E) as (c' & n' & _ & _ & Eid & Hn' & Hlt').
    rewrite Hn in Hn'. injection Hn' as <-. lia. }
  intros q'.
  assert (pending q' ≡ₚ c :: pending q) as Hpend by (by eapply pending_set).
  split; [|done]. subst q'.
  split; cbn [m_batchSize m_producerIds m_partitionIdToNumber m_producerActiveArray
    m_totalProducers m_readInBatch m_dataArray m_activeProducers m_currentBatch
    m_itemsToRead m_queue]; try done.
  - by rewrite length_insert.
  - by rewrite length_insert.
  - intros i' k' d' Hd' Hk' Hs'.
    destruct (decide ((i' * Z.to_nat (m_batchSize q) + k')%nat
                      = (i * Z.to_nat (m_batchSize q) + k)%nat)) as [E|E].
    + apply place_inj in E as [-> ->]; [|done|done].
      rewrite list_lookup_insert_eq in Hd' by (by apply lookup_lt_Some in Hd).
      injection Hd' as <-. exists c, (n + 1).
      rewrite list_lookup_insert_eq, Ep, En by done. split_and!; try done; lia.
    + rewrite list_lookup_insert_ne in Hd' by done.
      destruct (bi_set0 i' k' d' Hd' Hk' Hs') as (c' & n' & ? & ? & ? & Hn' & ?).
      destruct (decide (i' = i)) as [->|Hne].
      * rewrite Hn in Hn'. injection Hn' as <-. exists c', (n + 1).
        rewrite list_lookup_insert_eq by done. split_and!; try done; lia.
      * exists c', n'. by rewrite list_lookup_insert_ne.
  - intros i' n' Hn'. destruct (decide (i' = i)) as [->|Hne].
    + rewrite list_lookup_insert_eq in Hn' by done. injection Hn' as <-. lia.
    + rewrite list_lookup_insert_ne in Hn' by done. by apply bi_next0.
  - intros i' r n' Hr Hn' Ha'. destruct (decide (i' = i)) as [->|Hne].
    + rewrite list_lookup_insert_eq in Hn' by done. injection Hn' as <-.
      rewrite block_insert_eq by done.
      pose proof (count_insert isSet (block (Z.to_nat (m_batchSize q)) i (m_dataArray q))
        k d (mkData (Some c) true)) as Hc.
      rewrite block_lookup in Hc by done. specialize (Hc Hd).
      rewrite Hset in Hc. cbn in Hc. specialize (bi_read0 i r n Hr Hn Ha). lia.
    + rewrite list_lookup_insert_ne in Hn' by done.
      rewrite block_insert_ne by done. by apply bi_read0.
  - rewrite Hpend, bi_items0. cbn. lia.
  - rewrite length_app. cbn. lia.
Qed.
End preservation.

(** ** Reading a value, and the end of a batch *)
Lemma all_read_spec bs active read i r :
  all_read bs active read = true -> active !! i = Some true -> read !! i = Some r ->
  r = bs.
Proof.
  revert read i. induction active as [|a active IH]; intros read i H Ha Hr; [done|].
  destruct read as [|r0 read]; [done|]. cbn in H.
  destruct (a && negb (r0 =? bs)) eqn:E; [done|].
  destruct i as [|i]; cbn in Ha, Hr; simplify_eq; [|by eapply IH].
  cbn in E. apply negb_false_iff in E. lia.
Qed.

Lemma all_read_false bs active read :
  all_read bs active read = false ->
  exists i r, active !! i = Some true /\ read !! i = Some r /\ r <> bs.
Proof.
  revert read. induction active as [|a active IH]; intros [|r read]; try done. cbn.
  destruct (a && negb (r =? bs)) eqn:E.
  - intros _. apply andb_true_iff in E as [-> E]. apply negb_true_iff in E.
    exists 0%nat, r. split; [done|]. split; [done|lia].
  - intros Hf. destruct (IH _ Hf) as (i & r' & ? & ? & ?). by exists (S i), r'.
Qed.

(** [q] after the value [c] of place [k] of producer [i] has been read. *)
Definition after_read (i k : nat) (r : Z) (c : Chunk) (rest : list Chunk)
    (q : batch_queue) : batch_queue :=
  mkBatchQueue rest (m_batchSize q) (m_activeProducers q) (m_producerActiveArray q)
    (m_producerIds q) (m_partitionIdToNumber q)
    (<[(i * Z.to_nat (m_batchSize q) + k)%nat := mkData (Some c) false]> (m_dataArray q))
    (m_currentBatch q) (<[i := r + 1]> (m_readInBatch q)) (m_itemsToRead q - 1).

Lemma after_read_inv q next i k d r c rest :
  binv q next -> m_dataArray q !! (i * Z.to_nat (m_batchSize q) + k)%nat = Some d ->
  (k < Z.to_nat (m_batchSize q))%nat -> isSet d = true -> valuePtr d = Some c ->
  m_readInBatch q !! i = Some r ->
  Z.of_nat (length rest) = Z.of_nat (length (m_queue q)) - 1 ->
  binv (after_read i k r c rest q) next
  /\ pending q ≡ₚ c :: pending (after_read i k r c rest q).
Proof.
  intros Hi Hd Hk Hs Hv Hr Hrest. pose proof Hi as [].
  assert (pending q ≡ₚ c :: pending (after_read i k r c rest q)) as Hpend
    by (by eapply pending_unset).
  assert (i < length (m_readInBatch q))%nat as Hib by (by apply lookup_lt_Some in Hr).
  split; [|done].
  split; cbn [after_read m_batchSize m_producerIds m_partitionIdToNumber
    m_producerActiveArray m_totalProducers m_readInBatch m_dataArray m_activeProducers
    m_currentBatch m_itemsToRead m_queue]; try done.
  - by rewrite length_insert.
  - by rewrite length_insert.
  - intros i' k' d' Hd' Hk' Hs'.
    destruct (decide ((i' * Z.to_nat (m_batchSize q) + k')%nat
                      = (i * Z.to_nat (m_batchSize q) + k)%nat)) as [E|E].
    + rewrite E, list_lookup_insert_eq in Hd' by (by apply lookup_lt_Some in Hd).
      by injection Hd' as <-.
    + rewrite list_lookup_insert_ne in Hd' by done. by eapply bi_set0.
  - intros i' r' n' Hr' Hn' Ha'. destruct (decide (i' = i)) as [->|Hne].
    + rewrite list_lookup_insert_eq in Hr' by done. injection Hr' as <-.
      rewrite block_insert_eq by done.
      pose proof (count_insert isSet (block (Z.to_nat (m_batchSize q)) i (m_dataArray q))
        k d (mkData (Some c) false)) as Hc.
      rewrite block_lookup in Hc by done. specialize (Hc Hd).
      rewrite Hs in Hc. cbn in Hc. specialize (bi_read0 i r n' Hr Hn' Ha'). lia.
    + rewrite list_lookup_insert_ne in Hr' by done.
      rewrite block_insert_ne by done. by apply bi_read0.
  - rewrite bi_items0, Hpend. cbn. lia.
  - lia.
Qed.

Lemma pending_nil q next j d :
  binv q next -> pending q = [] -> m_dataArray q !! j = Some d -> isSet d = false.
Proof.
  intros Hi Hp Hj. destruct (isSet d) eqn:Hs; [|done].
  destruct (place_of_index _ _ _ _ Hi Hj) as (i & k & p & -> & Hk & _).
  destruct (bi_set _ _ Hi i k d Hj Hk Hs) as (c & n & Hv & _).
  assert (c ∈ pending q) as Hin.
  { unfold pending. apply list_elem_of_omap. exists d.
    split; [by eapply list_elem_of_lookup_2|]. unfold place_value. by rewrite Hs. }
  rewrite Hp in Hin. by apply not_elem_of_nil in Hin.
Qed.

Lemma finish_batch_inv q next :
  binv q next -> binv (finish_batch q) next /\ pending (finish_batch q) = pending q
    /\ m_queue (finish_batch q) = m_queue q.
Proof.
  intros Hi. unfold finish_batch. destruct (isBatchFinished q) eqn:Hf; [|done].
  unfold isBatchFinished in Hf. apply andb_true_iff in Hf as [Hall Hz].
  pose proof Hi as []. split; [|done].
  assert (pending q = []) as Hnil.
  { destruct (pending q); [done|]. cbn in bi_items0. lia. }
  assert (forall j d, m_dataArray q !! j = Some d -> isSet d = false) as Hunset
    by (intros j d Hj; by eapply pending_nil).
  assert (forall i n, next !! i = Some n -> m_producerActiveArray q !! i = Some true ->
    n = (m_currentBatch q + 1) * m_batchSize q) as Hfull.
  { intros i n Hn Ha.
    assert (is_Some (m_readInBatch q !! i)) as [r Hr].
    { apply lookup_lt_is_Some. apply lookup_lt_Some in Hn. congruence. }
    pose proof (all_read_spec _ _ _ _ _ Hall Ha Hr) as ->.
    specialize (bi_read0 i _ n Hr Hn Ha). specialize (bi_next0 i n Hn). lia. }
  split; cbn [resetBatch m_batchSize m_producerIds m_partitionIdToNumber
    m_producerActiveArray m_readInBatch m_dataArray m_activeProducers
    m_currentBatch m_itemsToRead m_queue]; try done.
  - by rewrite length_replicate.
  - lia.
  - intros i k d Hd Hk Hs. by rewrite (Hunset _ d Hd) in Hs.
  - intros i n Hn. destruct (bi_next0 i n Hn) as (Hn1 & Hn2 & _).
    split; [lia|]. split; [done|]. intros Ha. rewrite (Hfull i n Hn Ha). lia.
  - intros i r n Hr Hn Ha. apply lookup_replicate in Hr as [-> _].
    rewrite (Hfull i n Hn Ha).
    assert (count isSet (block (Z.to_nat (m_batchSize q)) i (m_dataArray q)) = 0%nat) as ->.
    { apply count_zero, Forall_lookup. intros k d Hd. unfold block in Hd.
      rewrite lookup_take, lookup_drop in Hd. case_decide; [|done]. by eapply Hunset. }
    lia.
Qed.

(** A finished batch is reset at once, unless all producers are finished. *)
Definition busy (q : batch_queue) : Prop :=
  isBatchFinished q = true -> m_activeProducers q = 0.

Lemma finish_batch_busy q next : binv q next -> busy (finish_batch q).
Proof.
  intros Hi Hf. pose proof (finish_batch_inv _ _ Hi) as ([] & _ & _).
  unfold finish_batch in *. destruct (isBatchFinished q) eqn:E; [|congruence].
  rewrite bi_active0. assert (count (fun b => b)
    (m_producerActiveArray (resetBatch q)) = 0%nat) as ->; [|done].
  apply count_zero, Forall_lookup. intros i b Hb. destruct b; [|done].
  unfold isBatchFinished in Hf. apply andb_true_iff in Hf as [Hall _].
  assert (i < m_totalProducers q)%nat as Hlt.
  { apply lookup_lt_Some in Hb. rewrite bi_len_active0 in Hb. done. }
  assert (m_readInBatch (resetBatch q) !! i = Some 0) as Hr
    by (cbn; by apply lookup_replicate).
  pose proof (all_read_spec _ _ _ _ _ Hall Hb Hr). lia.
Qed.

(** Reading the place of the value [c], wherever the queue stands. *)
Lemma read_round q next i k d c :
  binv q next -> m_dataArray q !! (i * Z.to_nat (m_batchSize q) + k)%nat = Some d ->
  (k < Z.to_nat (m_batchSize q))%nat -> (i < m_totalProducers q)%nat ->
  isSet d = true -> valuePtr d = Some c ->
  exists v rest r,
    m_queue q = v :: rest /\ m_readInBatch q !! i = Some r
    /\ binv (after_read i k r c rest q) next
    /\ pending q ≡ₚ c :: pending (after_read i k r c rest q).
Proof.
  intros Hi Hd Hk Hb Hs Hv. pose proof Hi as [].
  assert (is_Some (m_readInBatch q !! i)) as [r Hr]
    by (apply lookup_lt_is_Some; lia).
  assert (m_queue q <> []) as Hne.
  { intros E. rewrite E in bi_queue0. cbn in bi_queue0.
    assert (pending q = []) as Hp by (destruct (pending q); [done|cbn in *; lia]).
    by rewrite (pending_nil _ _ _ _ Hi Hp Hd) in Hs. }
  destruct (m_queue q) as [|v rest] eqn:Eq; [done|].
  exists v, rest, r. split; [done|]. split; [done|].
  eapply after_read_inv; try done. rewrite Eq. cbn. lia.
Qed.

Lemma readValue_after_read q next i k d r c v rest idx :
  binv q next -> m_dataArray q !! (i * Z.to_nat (m_batchSize q) + k)%nat = Some d ->
  (k < Z.to_nat (m_batchSize q))%nat -> valuePtr d = Some c ->
  m_readInBatch q !! i = Some r -> m_queue q = v :: rest ->
  idx = Z.of_nat i * m_batchSize q + Z.of_nat k ->
  ('((res, q') : option Chunk * batch_queue) ← readValue idx q;
   q' ← pop_front q'; Done (res, q')) = Done (Some c, after_read i k r c rest q)
  /\ (q' ← pop_front q;
      '((res, q') : option Chunk * batch_queue) ← readValue idx q';
      Done (res, q')) = Done (Some c, after_read i k r c rest q).
Proof.
  intros Hi Hd Hk Hv Hr Hq ->. destruct Hi as [Hbs _ _ _ _ _ _ _ _ _ _ _ _ _ _].
  assert (Z.to_nat (Z.of_nat i * m_batchSize q + Z.of_nat k)
          = (i * Z.to_nat (m_batchSize q) + k)%nat) as Ej
    by (rewrite Z2Nat.inj_add, Z2Nat.inj_mul by nia; lia).
  assert (Z.quot (Z.of_nat i * m_batchSize q + Z.of_nat k) (m_batchSize q)
          = Z.of_nat i) as Ei.
  { rewrite Z.quot_div_nonneg by nia. rewrite Z.div_add_l by lia.
    rewrite Z.div_small by lia. lia. }
  unfold readValue, pop_front, data_at. rewrite (proj2 (Z.leb_le _ _)) by nia.
  cbn [set_queue m_dataArray m_readInBatch m_batchSize m_queue].
  rewrite Hq, !Done_bind. cbn [m_dataArray m_readInBatch m_batchSize m_queue set_queue].
  rewrite Ej, Ei, Nat2Z.id, Hd, Hr, !Done_bind. cbn [m_queue]. rewrite Hv.
  by split.
Qed.

(** The invariant of a queue that is only popped from. *)
Record pop_inv (q : batch_queue) (next : list Z) : Prop := {
  pi_inv : binv q next;
  pi_queue : m_queue q ≡ₚ pending q
}.

(** A pending value is in the place of its partition and id. *)
Lemma pending_place q next c :
  binv q next -> c ∈ pending q ->
  exists i k d n, m_dataArray q !! (i * Z.to_nat (m_batchSize q) + k)%nat = Some d
    /\ (k < Z.to_nat (m_batchSize q))%nat /\ isSet d = true /\ valuePtr d = Some c
    /\ m_producerIds q !! i = Some (partition_id c)
    /\ id c = m_currentBatch q * m_batchSize q + Z.of_nat k
    /\ next !! i = Some n /\ id c < n /\ (i < m_totalProducers q)%nat
    /\ targetIndex q (s32 (partition_id c)) (s32 (id c))
       = Z.of_nat i * m_batchSize q + Z.of_nat k.
Proof.
  intros Hi Hc. unfold pending in Hc. apply list_elem_of_omap in Hc as (d & Hd & Hpv).
  unfold place_value in Hpv. destruct (isSet d) eqn:Hs; [|done].
  apply list_elem_of_lookup in Hd as [j Hj].
  destruct (place_of_index _ _ _ _ Hi Hj) as (i & k & p & -> & Hk & Hp).
  destruct (bi_set _ _ Hi i k d Hj Hk Hs) as (c' & n & Hv & Hp' & Hid & Hn & Hlt).
  rewrite Hpv in Hv. injection Hv as <-.
  exists i, k, d, n. split_and!; try done; [by apply lookup_lt_Some in Hp|].
  pose proof Hi as []. destruct (bi_next0 i n Hn) as (? & ? & _).
  pose proof (Forall_lookup_1 _ _ i _ bi_ids0 Hp') as Hpr. cbn in Hpr.
  rewrite (wrap_s_small 32 eq_refl (partition_id c)), (wrap_s_small 32 eq_refl (id c))
    by nia.
  destruct (targetIndex_place q next i (partition_id c) (id c) Hi Hp' ltac:(nia))
    as (Et & Eq & Ht0 & Hm).
  assert (id c mod m_batchSize q = Z.of_nat k) as Em.
  { rewrite Hid, Z.add_comm, Z.mod_add by lia. apply Z.mod_small. lia. }
  rewrite Em in *. rewrite <- (Z2Nat.id (targetIndex _ _ _)) by done.
  rewrite Et. nia.
Qed.

(** [Pop] returns the value pushed first of those pending. *)
Lemma Pop_spec q next :
  pop_inv q next ->
  match m_queue q with
  | [] => Pop q = if m_activeProducers q =? 0 then Throw (OutOfRange "Queue is empty")
                  else Done None
  | c :: rest => exists q', Pop q = Done (Some (c, q')) /\ pop_inv q' next
                   /\ m_queue q' = rest /\ busy q'
  end.
Proof.
  intros [Hi Hq]. pose proof Hi as []. unfold Pop.
  destruct (m_queue q) as [|c rest] eqn:Eq.
  { cbn in bi_queue0. by rewrite <- bi_queue0. }
  cbn [length] in bi_queue0.
  destruct (Z.eqb_spec (m_itemsToRead q) 0) as [?|_]; [lia|].
  assert (c ∈ pending q) as Hc by (rewrite <- Hq; by left).
  destruct (pending_place _ _ _ Hi Hc)
    as (i & k & d & n & Hd & Hk & Hs & Hv & Hp & Hid & Hn & Hlt & Hib & Et).
  destruct (read_round _ _ _ _ _ _ Hi Hd Hk Hib Hs Hv)
    as (v & rest' & r & Eq' & Hr & Hi' & Hpend).
  rewrite Eq in Eq'. injection Eq' as <- <-.
  destruct (readValue_after_read q next i k d r c c rest _ Hi Hd Hk Hv Hr Eq eq_refl)
    as [Er _].
  rewrite Et. cbv zeta.
  destruct (readValue _ q) as [[res q1]| | |] eqn:E1; try done.
  cbn in Er |- *. destruct (pop_front q1) as [q2| | |] eqn:E2; try done.
  cbn in Er |- *. injection Er as -> ->.
  destruct (finish_batch_inv _ _ Hi') as (Hi'' & Ep & Eq2).
  eexists. split; [done|]. split; [|split; [by rewrite Eq2|by eapply finish_batch_busy]].
  split; [done|]. rewrite Ep, Eq2. cbn [after_read m_queue].
  apply (Permutation_cons_inv (a := c)). by rewrite <- Hpend.
Qed.

(** What [Get] may do, for a producer of the queue. *)
Lemma Get_spec q next i p v active :
  binv q next -> m_producerIds q !! i = Some p -> 0 <= v ->
  m_producerActiveArray q !! i = Some active ->
  match Get p v q with
  | Done None => active = true
  | Throw e => e = OutOfRange "Asking for non-existsent chunk" /\ active = false
      /\ Forall (fun c => partition_id c = p -> id c mod m_batchSize q <> v mod m_batchSize q)
           (pending q)
  | Done (Some (res, q')) =>
      exists c, res = Some c /\ binv q' next /\ busy q' /\ pending q ≡ₚ c :: pending q'
        /\ partition_id c = p
        /\ id c = m_currentBatch q * m_batchSize q + v mod m_batchSize q
        /\ (active = true -> id c = v)
  | _ => False
  end.
Proof.
  intros Hi Hp Hv Ha. pose proof Hi as [].
  destruct (targetIndex_place q next i p v Hi Hp Hv) as (Et & Eq & Ht0 & Hk).
  set (k := Z.to_nat (v mod m_batchSize q)) in *.
  assert (i < m_totalProducers q)%nat as Hib by (by apply lookup_lt_Some in Hp).
  assert (is_Some (m_dataArray q !! (i * Z.to_nat (m_batchSize q) + k)%nat)) as [d Hd].
  { apply lookup_lt_is_Some. rewrite bi_len_data0. nia. }
  assert (partition_number q p = i) as Epn
    by (unfold partition_number; by rewrite (bi_map0 i p Hp)).
  pose proof (Z.mod_pos_bound v (m_batchSize q) ltac:(lia)) as Hm.
  unfold Get. rewrite (data_at_place q next i p v Hi Hp Hv). fold k. rewrite Hd, Epn, Ha.
  destruct (isSet d) eqn:Hs; cbn [negb orb].
  - assert (targetIndex q p v = Z.of_nat i * m_batchSize q + Z.of_nat k) as Ex.
    { rewrite <- (Z2Nat.id (targetIndex q p v)) by done. rewrite Et. nia. }
    destruct (bi_set0 i k d Hd Hk Hs) as (c & n & Hvp & Hpc & Hid & _ & _).
    destruct (read_round _ _ _ _ _ _ Hi Hd Hk Hib Hs Hvp)
      as (w & rest & r & Eqq & Hr & Hi' & Hpend).
    destruct (readValue_after_read q next i k d r c w rest _ Hi Hd Hk Hvp Hr Eqq eq_refl)
      as [Er _].
    rewrite Z.quot_div_nonneg by lia.
    destruct (negb (v / m_batchSize q =? m_currentBatch q) && active) eqn:Ew.
    { apply andb_true_iff in Ew as [_ ->]. done. }
    rewrite Ex. destruct (readValue _ q) as [[res q1]| | |] eqn:E1; try done.
    cbn in Er |- *. destruct (pop_front q1) as [q2| | |] eqn:E2; try done.
    cbn in Er |- *. injection Er as -> ->.
    destruct (finish_batch_inv _ _ Hi') as (Hi'' & Ep & _).
    exists c. split; [done|]. split; [done|]. split; [by eapply finish_batch_busy|].
    split; [by rewrite Ep|].
    rewrite Hp in Hpc. injection Hpc as <-. split; [done|].
    split; [lia|]. intros ->. rewrite andb_true_r in Ew. apply negb_false_iff in Ew.
    pose proof (Z.div_mod v (m_batchSize q) ltac:(lia)). nia.
  - destruct active; [done|]. cbn. split; [done|]. split; [done|].
    apply Forall_forall. intros c Hc%list_elem_of_In Hpc Hmod.
    destruct (pending_place _ _ _ Hi Hc)
      as (i' & k' & d' & n & Hd' & Hk' & Hs' & _ & Hp' & Hid & _).
    rewrite Hpc in Hp'. assert (i' = i) as ->
      by (eapply NoDup_lookup; [exact bi_nodup0|done|done]).
    assert (id c mod m_batchSize q = Z.of_nat k') as Ek.
    { rewrite Hid, Z.add_comm, Z.mod_add by lia. apply Z.mod_small. lia. }
    assert (k' = k) as -> by lia. congruence.
Qed.

Lemma count_all (l : list bool) i :
  l !! i = Some true ->
  Z.of_nat (count (fun b => b) (<[i := false]> l)) = Z.of_nat (count (fun b => b) l) - 1.
Proof. intros Hi. pose proof (count_insert (fun b => b) l i true false Hi). cbn in *. lia. Qed.

(** A producer that is finished. *)
Lemma DeleteProducer_spec q next i p :
  binv q next -> m_producerIds q !! i = Some p ->
  m_producerActiveArray q !! i = Some true ->
  exists q' reset, DeleteProducer p q = Done (q', reset, m_activeProducers q' =? 0)
    /\ binv q' next /\ busy q' /\ pending q' = pending q /\ m_queue q' = m_queue q
    /\ m_activeProducers q' = m_activeProducers q - 1.
Proof.
  intros Hi Hp Ha. pose proof Hi as []. unfold DeleteProducer.
  assert (partition_number q p = i) as ->
    by (unfold partition_number; by rewrite (bi_map0 i p Hp)).
  rewrite Ha. cbv zeta.
  set (q1 := mkBatchQueue _ _ _ (<[i := false]> _) _ _ _ _ _ _).
  assert (forall j, m_producerActiveArray q1 !! j = Some true ->
            m_producerActiveArray q !! j = Some true) as Hact.
  { intros j Hj. subst q1. cbn in Hj. destruct (decide (i = j)) as [->|?].
    - rewrite list_lookup_insert_eq in Hj; [done|by apply lookup_lt_Some in Ha].
    - by rewrite list_lookup_insert_ne in Hj. }
  assert (binv q1 next) as Hi1.
  { subst q1. split; cbn [m_batchSize m_producerIds m_partitionIdToNumber
      m_producerActiveArray m_readInBatch m_dataArray m_activeProducers
      m_currentBatch m_itemsToRead m_queue] in *; try done.
    - by rewrite length_insert.
    - rewrite count_all by done. lia.
    - intros j n Hn. destruct (bi_next0 j n Hn) as (? & ? & Hlo). auto.
    - intros j r n Hr Hn Hj. by apply bi_read0; [..|apply Hact]. }
  destruct (finish_batch_inv _ _ Hi1) as (Hi2 & Ep & Eq).
  exists (finish_batch q1), (isBatchFinished q1). split; [done|]. split; [done|].
  split; [by eapply finish_batch_busy|].
  split; [done|]. split; [done|]. unfold finish_batch. by case_match.
Qed.

(** ** Histories: calls of the producers and consumers, one at a time *)
Record system := mkSystem {
  queue : batch_queue;
  next : list Z;
  pushed : list Chunk;
  delivered : list Chunk     (* what [Pop] or [Get] returned *)
}.

Section histories.
Context `{Build}.

(** [popping]: the consumers call [Pop] (the first pass); otherwise they call
    [Get] (the later passes). *)
Inductive step (popping : bool) (y : system) : system -> Prop :=
  | do_push i p n c q :
      m_producerIds (queue y) !! i = Some p -> next y !! i = Some n -> n < 2 ^ 31 ->
      m_producerActiveArray (queue y) !! i = Some true -> chunk_of p n c ->
      Push c (queue y) = Done (Some q) ->
      step popping y (mkSystem q (<[i := n + 1]> (next y)) (pushed y ++ [c]) (delivered y))
  | do_pop c q :
      popping = true -> Pop (queue y) = Done (Some (c, q)) ->
      step popping y (mkSystem q (next y) (pushed y) (delivered y ++ [c]))
  | do_get i p v c q :
      popping = false -> m_producerIds (queue y) !! i = Some p -> 0 <= v ->
      Get p v (queue y) = Done (Some (Some c, q)) ->
      step popping y (mkSystem q (next y) (pushed y) (delivered y ++ [c]))
  | do_delete i p q r a :
      m_producerIds (queue y) !! i = Some p ->
      m_producerActiveArray (queue y) !! i = Some true ->
      DeleteProducer p (queue y) = Done (q, r, a) ->
      step popping y (mkSystem q (next y) (pushed y) (delivered y)).

Definition initial (batch_size : Z) (producers : list Z) : system :=
  mkSystem (ThreadSafeBatchQueue batch_size producers)
    (replicate (length producers) 0) [] [].

Definition reachable (popping : bool) (batch_size : Z) (producers : list Z)
    (y : system) : Prop :=
  rtc (step popping) (initial batch_size producers) y.

(** Producers as [MultiPassQueue] gives them: different partitions. *)
Definition producers_ok (batch_size : Z) (producers : list Z) : Prop :=
  0 < batch_size < 2 ^ 31 /\ NoDup producers
  /\ Forall (fun p => 0 <= p < 2 ^ 31) producers.

Record sys_inv (popping : bool) (y : system) : Prop := {
  si_inv : binv (queue y) (next y);
  si_all : pushed y ≡ₚ delivered y ++ pending (queue y);
  si_pop : popping = true ->
    m_queue (queue y) ≡ₚ pending (queue y)
    /\ pushed y = delivered y ++ m_queue (queue y);
  si_busy : busy (queue y)
}.

Lemma number_producers_lookup k ps m i p :
  NoDup ps -> ps !! i = Some p -> number_producers k ps m !! p = Some (k + i)%nat.
Proof using Type.
  intros Hnd. revert k m i. induction Hnd as [|x ps Hx Hnd IH]; intros k m i Hi; [done|].
  cbn. destruct i as [|i]; cbn in Hi.
  - injection Hi as ->. rewrite Nat.add_0_r.
    clear IH Hnd. assert (forall k' m', p ∉ ps -> m' !! p = Some k ->
      number_producers k' ps m' !! p = Some k) as Hk; [|by apply Hk; [|apply lookup_insert_eq]].
    clear. induction ps as [|x ps IH]; intros k' m' Hp Hm; [done|]. cbn.
    apply not_elem_of_cons in Hp as [Hne Hp].
    apply IH; [done|]. by rewrite lookup_insert_ne.
  - rewrite (IH (S k) _ i Hi). f_equal. lia.
Qed.

Lemma initial_inv popping batch_size producers :
  producers_ok batch_size producers -> sys_inv popping (initial batch_size producers).
Proof using Type.
  intros (Hbs & Hnd & Hids).
  set (n := length producers).
  assert (forall j d, replicate (n * Z.to_nat batch_size) (mkData None false) !! j = Some d
    -> d = mkData None false) as Hd by (intros j d [-> _]%lookup_replicate; done).
  assert (pending (ThreadSafeBatchQueue batch_size producers) = []) as Hp.
  { unfold pending. cbn [ThreadSafeBatchQueue m_dataArray].
    generalize (length producers * Z.to_nat batch_size)%nat. by intros m; induction m. }
  split; cbn [initial queue next pushed delivered]; rewrite ?Hp; try done.
  - split; cbn [ThreadSafeBatchQueue m_batchSize m_producerIds m_partitionIdToNumber
      m_producerActiveArray m_totalProducers m_readInBatch m_dataArray m_activeProducers
      m_currentBatch m_itemsToRead m_queue]; try done.
    + intros i p Hi. exact (number_producers_lookup 0 _ ∅ i p Hnd Hi).
    + by rewrite length_replicate.
    + by rewrite length_replicate.
    + by rewrite length_replicate.
    + by rewrite length_replicate.
    + by rewrite count_replicate.
    + intros i k d Hj _ Hs. by rewrite (Hd _ _ Hj) in Hs.
    + intros i m [-> _]%lookup_replicate. split; [lia|]. split; lia.
    + intros i r m [-> _]%lookup_replicate [-> _]%lookup_replicate _.
      fold n. assert (count isSet (block (Z.to_nat batch_size) i
        (replicate (n * Z.to_nat batch_size) (mkData None false))) = 0%nat) as ->; [|lia].
      apply count_zero, Forall_lookup. intros k d Hk. unfold block in Hk.
      rewrite lookup_take, lookup_drop in Hk. case_decide; [|done].
      by rewrite (Hd _ _ Hk).
    + by rewrite Hp.
  - unfold busy, isBatchFinished. cbn. fold n. destruct n as [|n]; [done|].
    cbn [replicate all_read]. destruct (Z.eqb_spec 0 batch_size) as [?|_]; [lia|].
    by intros ?.
Qed.

Lemma push_not_finished q next c :
  binv q next -> c ∈ pending q -> isBatchFinished q = false.
Proof using Type.
  intros [] Hc. unfold isBatchFinished.
  destruct (pending q) as [|x l]; [by apply not_elem_of_nil in Hc|].
  cbn in bi_items0. destruct (Z.eqb_spec (m_itemsToRead q) 0); [lia|].
  apply andb_false_r.
Qed.

Lemma sys_inv_step popping y y' :
  sys_inv popping y -> step popping y y' -> sys_inv popping y'.
Proof using Type.
  intros [Hi Hall Hpop Hbusy]
    [i p n c q Hp Hn Hlt Ha Hc Hpush|c q Hm E|i p v c q Hm Hp Hv E|i p q r a Hp Ha E].
  - rewrite (push_round _ _ _ _ _ _ Hi Hp Hn Hlt Ha Hc) in Hpush.
    destruct (Z.leb_spec ((m_currentBatch (queue y) + 1) * m_batchSize (queue y)) n)
      as [|Hin]; [done|].
    destruct (push_inv _ _ _ _ _ _ _ Hi Hp Hn Hlt Ha Hc Hin eq_refl) as [Hi' Hpend].
    assert (m_queue q = m_queue (queue y) ++ [c]) as Eq by by injection Hpush as <-.
    injection Hpush as Eqq. rewrite Eqq in Hi', Hpend. clear Eqq.
    split; cbn [queue next pushed delivered]; [done| | |].
    + rewrite Hpend, Hall, <- Permutation_cons_append. by rewrite Permutation_middle.
    + intros Hm. destruct (Hpop Hm) as [Hq Hl]. rewrite Hpend, <- Hq, Hl, Eq.
      split; [by rewrite <- Permutation_cons_append|by rewrite app_assoc].
    + intros Hf. rewrite (push_not_finished _ _ c Hi') in Hf; [done|].
      rewrite Hpend. by left.
  - subst popping. destruct (Hpop eq_refl) as [Hq Hl].
    pose proof (Pop_spec _ _ (Build_pop_inv _ _ Hi Hq)) as Hs. rewrite E in Hs.
    destruct (m_queue (queue y)) as [|c' rest] eqn:Eq; [by destruct (_ =? 0)|].
    destruct Hs as (q' & [= <- <-] & [Hi' Hq'] & Eq' & Hb).
    assert (pushed y = (delivered y ++ [c]) ++ rest) as Hl' by by rewrite Hl, <- app_assoc.
    split; cbn [queue next pushed delivered]; [done| | |done].
    + by rewrite Hl', <- Hq', Eq'.
    + intros _. split; [done|by rewrite Eq'].
  - pose proof (bi_len_active _ _ Hi) as Hla.
    assert (is_Some (m_producerActiveArray (queue y) !! i)) as [act Ha].
    { apply lookup_lt_is_Some. rewrite Hla. by apply lookup_lt_Some in Hp. }
    pose proof (Get_spec _ _ _ _ _ _ Hi Hp Hv Ha) as Hs. rewrite E in Hs.
    destruct Hs as (c' & [= <-] & Hi' & Hb & Hpend & _).
    split; cbn [queue next pushed delivered]; [done| |by rewrite Hm|done].
    rewrite Hall, Hpend. by rewrite <- app_assoc.
  - destruct (DeleteProducer_spec _ _ _ _ Hi Hp Ha) as (q' & r' & E' & Hi' & Hb & Ep & Eq & _).
    rewrite E in E'. injection E' as -> -> ->.
    split; cbn [queue next pushed delivered]; [done|by rewrite Ep|by rewrite Ep, Eq|done].
Qed.

Lemma reachable_sys_inv popping batch_size producers y :
  producers_ok batch_size producers -> reachable popping batch_size producers y ->
  sys_inv popping y.
Proof using Type.
  intros Hok Hr. pose proof (initial_inv popping _ _ Hok) as Hi.
  unfold reachable in Hr.
  induction Hr as [|y1 y2 y3 Hs _ IH]; [done|]. by apply IH, (sys_inv_step _ y1).
Qed.

(** If nothing is left to read, an active producer need not wait. *)
Lemma active_producer_ready q next :
  binv q next -> busy q -> pending q = [] -> m_activeProducers q <> 0 ->
  exists i n, m_producerActiveArray q !! i = Some true /\ next !! i = Some n
    /\ n < (m_currentBatch q + 1) * m_batchSize q.
Proof using Type.
  intros Hi Hbusy Hnil Hact. pose proof Hi as [].
  assert (all_read (m_batchSize q) (m_producerActiveArray q) (m_readInBatch q) = false) as Hall.
  { apply not_true_is_false. intros Hall. apply Hact, Hbusy. unfold isBatchFinished.
    rewrite Hall, bi_items0, Hnil. done. }
  destruct (all_read_false _ _ _ Hall) as (i & r & Ha & Hr' & Hne).
  assert (is_Some (next !! i)) as [n Hn].
  { apply lookup_lt_is_Some. rewrite bi_len_next0, <- bi_len_active0.
    by apply lookup_lt_Some in Ha. }
  exists i, n. split; [done|]. split; [done|].
  specialize (bi_read0 i r n Hr' Hn Ha). specialize (bi_next0 i n Hn).
  assert (count isSet (block (Z.to_nat (m_batchSize q)) i (m_dataArray q)) = 0%nat) as Hz.
  { apply count_zero, Forall_lookup. intros k d Hd. unfold block in Hd.
    rewrite lookup_take, lookup_drop in Hd. case_decide; [|done].
    by eapply pending_nil. }
  rewrite Hz in bi_read0. lia.
Qed.

(** The producers are never stopped by the queue's assertion, and are not held up
    for ever: the next push of an active producer stores its chunk, or waits because
    the chunk belongs to a later batch; and if nothing is left to read, some active
    producer need not wait. *)
Theorem batch_push_progress popping batch_size producers y :
  producers_ok batch_size producers -> reachable popping batch_size producers y ->
  (forall i p n c, m_producerIds (queue y) !! i = Some p -> next y !! i = Some n ->
     n < 2 ^ 31 -> m_producerActiveArray (queue y) !! i = Some true -> chunk_of p n c ->
     if (m_currentBatch (queue y) + 1) * m_batchSize (queue y) <=? n
     then Push c (queue y) = Done None
     else exists q, Push c (queue y) = Done (Some q))
  /\ (pending (queue y) = [] -> m_activeProducers (queue y) <> 0 ->
      exists i n, m_producerActiveArray (queue y) !! i = Some true
        /\ next y !! i = Some n
        /\ n < (m_currentBatch (queue y) + 1) * m_batchSize (queue y)).
Proof using Type.
  intros Hok Hr. destruct (reachable_sys_inv _ _ _ _ Hok Hr) as [Hi _ _ Hbusy]. split.
  - intros i p n c Hp Hn Hlt Ha Hc. rewrite (push_round _ _ _ _ _ _ Hi Hp Hn Hlt Ha Hc).
    destruct (_ <=? n); eauto.
  - by apply active_producer_ready.
Qed.

(** C12. First pass: every [Pop] returns the chunk that was pushed first among those
    not yet returned; it waits only if there is none and a producer is active, and
    throws only if there is none and all producers are finished, so then every pushed
    chunk has been returned. *)
Theorem batch_pop_fifo batch_size producers y :
  producers_ok batch_size producers -> reachable true batch_size producers y ->
  exists left, pushed y = delivered y ++ left /\
  match left with
  | [] => Pop (queue y) = if m_activeProducers (queue y) =? 0
                          then Throw (OutOfRange "Queue is empty") else Done None
  | c :: _ => exists q, Pop (queue y) = Done (Some (c, q))
  end.
Proof using Type.
  intros Hok Hr. destruct (reachable_sys_inv _ _ _ _ Hok Hr) as [Hi _ Hpop _].
  destruct (Hpop eq_refl) as [Hq Hl]. exists (m_queue (queue y)). split; [done|].
  pose proof (Pop_spec _ _ (Build_pop_inv _ _ Hi Hq)) as Hs.
  destruct (m_queue (queue y)); [done|]. destruct Hs as (q & E & _). eauto.
Qed.

(** C16. Later passes: [Get] of chunk [v] of a partition whose reader is active returns
    that chunk, which has been pushed and not been returned before; it never touches a
    place outside the array or an empty queue. *)
Theorem batch_get_exact batch_size producers y i p v :
  producers_ok batch_size producers -> reachable false batch_size producers y ->
  m_producerIds (queue y) !! i = Some p -> 0 <= v ->
  m_producerActiveArray (queue y) !! i = Some true ->
  Get p v (queue y) = Done None
  \/ exists c q, Get p v (queue y) = Done (Some (Some c, q))
       /\ partition_id c = p /\ id c = v /\ c ∈ pushed y
       /\ pushed y ≡ₚ (delivered y ++ [c]) ++ pending q.
Proof using Type.
  intros Hok Hr Hp Hv Ha. destruct (reachable_sys_inv _ _ _ _ Hok Hr) as [Hi Hall _ _].
  pose proof (Get_spec _ _ _ _ _ _ Hi Hp Hv Ha) as Hs.
  destruct (Get p v (queue y)) as [[[res q]|]| | |]; try done; [|by left|].
  - right. destruct Hs as (c & -> & _ & _ & Hpend & Hpc & _ & Hid).
    exists c, q. split; [done|]. split; [done|]. split; [by apply Hid|].
    rewrite Hall, Hpend. split; [apply elem_of_app; right; by left|].
    by rewrite <- app_assoc.
  - by destruct Hs as (_ & ? & _).
Qed.

(** C31. Batches do not overlap: what waits in the queue belongs to the current batch,
    and every chunk ever pushed has been returned or waits, so all chunks of earlier
    batches have been returned before the first chunk of a later one is stored. *)
Theorem batch_barrier popping batch_size producers y :
  producers_ok batch_size producers -> reachable popping batch_size producers y ->
  pushed y ≡ₚ delivered y ++ pending (queue y)
  /\ Forall (fun c => id c / m_batchSize (queue y) = m_currentBatch (queue y))
       (pending (queue y))
  /\ (forall c, c ∈ pushed y ->
        id c / m_batchSize (queue y) <> m_currentBatch (queue y) -> c ∈ delivered y).
Proof using Type.
  intros Hok Hr. destruct (reachable_sys_inv _ _ _ _ Hok Hr) as [Hi Hall _ _].
  assert (Forall (fun c => id c / m_batchSize (queue y) = m_currentBatch (queue y))
    (pending (queue y))) as Hb.
  { apply Forall_forall. intros c Hc%list_elem_of_In.
    destruct (pending_place _ _ _ Hi Hc)
      as (i & k & d & n & _ & Hk & _ & _ & _ & Hid & _). destruct Hi.
    rewrite Hid, Z.div_add_l by lia. rewrite Z.div_small by lia. lia. }
  split; [done|]. split; [done|]. intros c Hc Hne. rewrite Hall in Hc.
  apply elem_of_app in Hc as [Hc|Hc]; [done|].
  rewrite Forall_forall in Hb. specialize (Hb c). exfalso. apply Hne, Hb.
  by apply list_elem_of_In.
Qed.
End histories.

(** ** Freeing what is left, when the queue is destroyed *)
Inductive free_loop_result :=
  | LoopWaits
  | LoopNoFuel
  | LoopEnds (freed : list (option Chunk)) (q : batch_queue).

(** The loop of [FreeBatchData]; [fuel] bounds its rounds. *)
Fixpoint FreeBatchData_loop (fuel : nat) (freed : list (option Chunk)) (q : batch_queue)
    : outcome exn free_loop_result :=
  match fuel with
  | O => Done LoopNoFuel
  | S fuel =>
      r ← FreeBatchData q;
      match r with
      | FreeWaits => Done LoopWaits
      | FreeEnds => Done (LoopEnds freed q)
      | FreeNothing => FreeBatchData_loop fuel freed q
      | FreeOne c q => FreeBatchData_loop fuel (freed ++ [c]) q
      end
  end.

Lemma first_set_spec k l :
  match first_set k l with
  | Some j => exists i d, j = (k + i)%nat /\ l !! i = Some d /\ isSet d = true
  | None => Forall (fun d => isSet d = false) l
  end.
Proof.
  revert k. induction l as [|d l IH]; intros k; cbn; [done|].
  destruct (isSet d) eqn:Hd.
  - exists 0%nat, d. split; [lia|done].
  - specialize (IH (S k)). destruct (first_set (S k) l) as [j|].
    + destruct IH as (i & d' & -> & Hi & Hs). exists (S i), d'. split; [lia|done].
    + by constructor.
Qed.

Lemma finish_batch_active q :
  m_activeProducers (finish_batch q) = m_activeProducers q.
Proof. unfold finish_batch. by case_match. Qed.

(** One round takes a pending value out. *)
Lemma FreeBatchData_spec q next :
  binv q next ->
  match pending q with
  | [] => FreeBatchData q = Done (if m_activeProducers q =? 0 then FreeEnds else FreeWaits)
  | _ => exists c q', FreeBatchData q = Done (FreeOne (Some c) q') /\ binv q' next /\ busy q'
           /\ pending q ≡ₚ c :: pending q' /\ m_activeProducers q' = m_activeProducers q
  end.
Proof.
  intros Hi. pose proof Hi as []. unfold FreeBatchData. rewrite bi_items0.
  destruct (pending q) as [|x l0] eqn:Ep.
  { by destruct (m_activeProducers q =? 0). }
  cbn [length]. destruct (Z.eqb_spec (Z.of_nat (S (length l0))) 0) as [?|_]; [lia|].
  rewrite andb_false_r. cbn [andb].
  pose proof (first_set_spec 0 (m_dataArray q)) as Hfs.
  destruct (first_set 0 (m_dataArray q)) as [j|].
  - destruct Hfs as (j' & d & -> & Hj & Hs). cbn [Nat.add].
    destruct (place_of_index _ _ _ _ Hi Hj) as (i & k & p & -> & Hk & Hp).
    destruct (bi_set0 i k d Hj Hk Hs) as (c & n & Hv & _).
    assert (i < m_totalProducers q)%nat as Hib by (by apply lookup_lt_Some in Hp).
    destruct (read_round _ _ _ _ _ _ Hi Hj Hk Hib Hs Hv)
      as (v & rest & r & Eq & Hr & Hi' & Hpend).
    destruct (readValue_after_read q next i k d r c v rest
      (Z.of_nat (i * Z.to_nat (m_batchSize q) + k)) Hi Hj Hk Hv Hr Eq ltac:(nia))
      as [_ Er].
    destruct (pop_front q) as [q1| | |]; try done. cbn in Er |- *.
    destruct (readValue _ q1) as [[res q2]| | |]; try done. cbn in Er |- *.
    injection Er as -> ->.
    destruct (finish_batch_inv _ _ Hi') as (Hi'' & Ep' & _).
    do 2 eexists. split; [done|]. split; [done|].
    split; [by eapply finish_batch_busy|]. rewrite Ep', <- Ep.
    split; [done|by rewrite finish_batch_active].
  - assert (pending q = []) as E0; [|congruence].
    unfold pending. clear -Hfs. induction Hfs as [|d l Hd _ IH]; [done|].
    cbn. unfold place_value at 1. by rewrite Hd.
Qed.

Lemma FreeBatchData_loop_spec fuel freed q next :
  binv q next -> m_activeProducers q = 0 -> (length (pending q) < fuel)%nat ->
  exists l q', FreeBatchData_loop fuel freed q = Done (LoopEnds (freed ++ map Some l) q')
    /\ l ≡ₚ pending q.
Proof.
  revert freed q. induction fuel as [|fuel IH]; intros freed q Hi Ha Hf; [lia|].
  cbn [FreeBatchData_loop]. pose proof (FreeBatchData_spec q next Hi) as Hs.
  destruct (pending q) as [|x l0].
  { rewrite Hs, Ha. cbn. exists [], q. by rewrite app_nil_r. }
  destruct Hs as (c & q1 & -> & Hi1 & _ & Hpend & Ha1). cbn.
  destruct (IH (freed ++ [Some c]) q1 Hi1) as (l & q' & El & Hl); [congruence| |].
  { apply Permutation_length in Hpend. cbn [length] in *. lia. }
  exists (c :: l), q'. split; [by rewrite El, <- app_assoc|]. by rewrite Hl, Hpend.
Qed.

(** Destroying the queue once its readers have ended: [FreeBatchData] ends, and
    frees exactly the chunks that were pushed and never returned. *)
Theorem batch_free_rest `{Build} popping batch_size producers y fuel :
  producers_ok batch_size producers -> reachable popping batch_size producers y ->
  m_activeProducers (queue y) = 0 -> (length (pushed y) < fuel)%nat ->
  exists l q, FreeBatchData_loop fuel [] (queue y) = Done (LoopEnds (map Some l) q)
    /\ pushed y ≡ₚ delivered y ++ l.
Proof.
  intros Hok Hr Ha Hf. destruct (reachable_sys_inv _ _ _ _ Hok Hr) as [Hi Hall _ _].
  assert (length (pending (queue y)) < fuel)%nat as Hf'.
  { rewrite Hall, length_app in Hf. lia. }
  destruct (FreeBatchData_loop_spec fuel [] _ _ Hi Ha Hf') as (l & q & E & Hl).
  exists l, q. split; [exact E|]. by rewrite Hl.
Qed.

(** ** What [Get] does once a partition's reader has ended *)

(** Deleting the producer leaves its places as they are. *)
Lemma DeleteProducer_data q p q' r all :
  DeleteProducer p q = Done (q', r, all) ->
  m_dataArray q' = m_dataArray q /\ m_batchSize q' = m_batchSize q
  /\ m_producerIds q' = m_producerIds q
  /\ m_partitionIdToNumber q' = m_partitionIdToNumber q
  /\ (r = false -> m_currentBatch q' = m_currentBatch q)
  /\ m_producerActiveArray q' = <[partition_number q p := false]> (m_producerActiveArray q).
Proof.
  unfold DeleteProducer. destruct (m_producerActiveArray q !! _); [|done]. cbv zeta.
  destruct (isBatchFinished _); intros [= <- <- <-]; done.
Qed.

(** What a call that takes a value out does to the queue: the value's place is
    not set any more, and the batch may end. *)
Record took (q q' : batch_queue) : Prop := {
  tk_ids : m_producerIds q' = m_producerIds q;
  tk_map : m_partitionIdToNumber q' = m_partitionIdToNumber q;
  tk_size : m_batchSize q' = m_batchSize q;
  tk_active : m_producerActiveArray q' = m_producerActiveArray q;
  tk_producers : m_activeProducers q' = m_activeProducers q;
  tk_items : m_itemsToRead q' = m_itemsToRead q - 1;
  tk_data : exists j v, m_dataArray q' = <[j := mkData v false]> (m_dataArray q);
  tk_batch : m_currentBatch q' = m_currentBatch q \/ m_currentBatch q' = m_currentBatch q + 1
}.

Lemma read_took idx q res q1 q2 :
  (readValue idx q = Done (res, q1) /\ pop_front q1 = Done q2
   \/ pop_front q = Done q1 /\ readValue idx q1 = Done (res, q2)) ->
  took q (finish_batch q2).
Proof.
  unfold readValue, pop_front, finish_batch. intros [[E1 E2]|[E1 E2]];
    repeat case_match; simplify_eq; split; cbn; eauto.
Qed.

Lemma Pop_took `{Build} q c q' : Pop q = Done (Some (c, q')) -> took q q'.
Proof.
  unfold Pop. intros E. destruct (m_itemsToRead q =? 0); [by destruct (m_activeProducers q =? 0)|].
  destruct (m_queue q); [done|]. cbv zeta in E.
  apply bind_Done in E as ([res q1] & E1 & E). apply bind_Done in E as (q2 & E2 & E).
  injection E as _ <-. eapply read_took. by left.
Qed.

Lemma Get_took `{Build} p v q c q' : Get p v q = Done (Some (c, q')) -> took q q'.
Proof.
  unfold Get. intros E. destruct (data_at q _) as [d|]; [|done].
  destruct (m_producerActiveArray q !! _) as [active|]; [|done].
  destruct (_ && active); [done|]. destruct (negb (isSet d)); [done|].
  apply bind_Done in E as ([res q1] & E1 & E). apply bind_Done in E as (q2 & E2 & E).
  injection E as _ <-. eapply read_took. by left.
Qed.

Lemma FreeBatchData_took `{Build} q c q' : FreeBatchData q = Done (FreeOne c q') -> took q q'.
Proof.
  unfold FreeBatchData. intros E. do 2 (destruct (_ && _); [done|]).
  destruct (first_set _ _); [|done].
  apply bind_Done in E as (q1 & E1 & E). apply bind_Done in E as ([res q2] & E2 & E).
  injection E as _ <-. eapply read_took. right. by split.
Qed.

(** A thread that sleeps in [Get] for a chunk that its partition's reader never
    pushed is not woken when that reader ends, unless this ends the batch: its
    condition has become false ([Get] would now throw), and no condition variable it
    waits on is notified. *)
Theorem Get_not_woken `{Build} popping batch_size producers y i p v q all :
  producers_ok batch_size producers -> reachable popping batch_size producers y ->
  m_producerIds (queue y) !! i = Some p -> 0 <= v ->
  m_producerActiveArray (queue y) !! i = Some true ->
  Forall (fun c => partition_id c = p -> id c mod batch_size <> v mod batch_size)
    (pending (queue y)) ->
  DeleteProducer p (queue y) = Done (q, false, all) ->
  m_batchSize (queue y) = batch_size ->
  Get p v (queue y) = Done None
  /\ Get p v q = Throw (OutOfRange "Asking for non-existsent chunk").
Proof.
  intros Hok Hr Hp Hv Ha Hnone Hdel Hbs.
  destruct (reachable_sys_inv _ _ _ _ Hok Hr) as [Hi _ _ _]. rewrite <- Hbs in Hnone.
  destruct (DeleteProducer_spec _ _ _ _ Hi Hp Ha) as (q' & r & E & Hi' & _ & Ep & _).
  rewrite Hdel in E. injection E as <- <- _.
  destruct (DeleteProducer_data _ _ _ _ _ Hdel) as (_ & Eb & Eids & Emap & _ & Eact).
  pose proof (Get_spec _ _ _ _ _ _ Hi Hp Hv Ha) as H1.
  assert (m_producerActiveArray q !! i = Some false) as Ha'.
  { rewrite Eact. unfold partition_number. rewrite (bi_map _ _ Hi i p Hp).
    apply list_lookup_insert_eq. by apply lookup_lt_Some in Ha. }
  rewrite <- Eids in Hp.
  pose proof (Get_spec _ _ _ _ _ _ Hi' Hp Hv Ha') as H2.
  assert (forall qq c qr, m_batchSize qq = m_batchSize (queue y) ->
    pending qq = pending (queue y) -> pending qq ≡ₚ c :: qr -> partition_id c = p ->
    id c = m_currentBatch qq * m_batchSize qq + v mod m_batchSize qq -> False) as Hno.
  { intros qq c qr Eb' Ep' Hpend Hpc Hid. rewrite Forall_forall in Hnone.
    apply (Hnone c); [|done|].
    - apply list_elem_of_In. rewrite <- Ep', Hpend. by left.
    - destruct Hi. rewrite Hid, Eb', Z.add_comm, Z.mod_add, Z.mod_mod by lia. done. }
  split.
  - destruct (Get p v (queue y)) as [[[res q1]|]| | |]; try done.
    + destruct H1 as (c & _ & _ & _ & Hpend & Hpc & Hid & _).
      destruct (Hno (queue y) c _ eq_refl eq_refl Hpend Hpc Hid).
    + by destruct H1 as (_ & ? & _).
  - destruct (Get p v q) as [[[res q1]|]| | |]; try done.
    + destruct H2 as (c & _ & _ & _ & Hpend & Hpc & Hid & _).
      destruct (Hno q c _ Eb Ep Hpend Hpc Hid).
    + by destruct H2 as (-> & _).
Qed.

(** ** A concrete queue: two partitions, 3 and 5, batches of two chunks *)
Definition demo_chunk (p n : Z) : Chunk := mkChunk [] 0 0 0 0 n p.

#[local] Instance demo_build : Build := debug_build.

Definition demo_push (i : nat) (p n : Z) (y : system) : system :=
  match Push (demo_chunk p n) (queue y) with
  | Done (Some q) =>
      mkSystem q (<[i := n + 1]> (next y)) (pushed y ++ [demo_chunk p n]) (delivered y)
  | _ => y
  end.

Definition demo_delete (p : Z) (y : system) : system :=
  match DeleteProducer p (queue y) with
  | Done (q, _, _) => mkSystem q (next y) (pushed y) (delivered y)
  | _ => y
  end.

Definition demo_start : system := initial 2 [3; 5].
Definition demo_one : system := demo_push 0 3 0 demo_start.
Definition demo_two : system := demo_push 1 5 0 demo_one.
Definition demo_end : system := demo_delete 5 (demo_delete 3 demo_two).

Lemma demo_ok : producers_ok 2 [3; 5].
Proof.
  split; [lia|]. split; [by apply (bool_decide_unpack _)|].
  repeat (apply Forall_cons_2; [lia|]). by apply Forall_nil_2.
Qed.

Lemma demo_two_reachable popping : reachable popping 2 [3; 5] demo_two.
Proof.
  eapply rtc_l; [apply (do_push _ _ 0 3 0 (demo_chunk 3 0) (queue demo_one));
    [done..|by split|by vm_compute]|].
  eapply rtc_l; [apply (do_push _ _ 1 5 0 (demo_chunk 5 0) (queue demo_two));
    [done..|by split|by vm_compute]|].
  reflexivity.
Qed.

Lemma demo_end_reachable popping : reachable popping 2 [3; 5] demo_end.
Proof.
  eapply rtc_r; [eapply rtc_r; [apply demo_two_reachable|]|].
  - by eapply (do_delete _ _ 0 3).
  - by eapply (do_delete _ _ 1 5).
Qed.

Lemma batch_push_progress_witness :
  (exists q, Push (demo_chunk 3 1) (queue demo_two) = Done (Some q))
  /\ exists i n, m_producerActiveArray (queue demo_start) !! i = Some true
       /\ next demo_start !! i = Some n
       /\ n < (m_currentBatch (queue demo_start) + 1) * m_batchSize (queue demo_start).
Proof.
  split.
  - apply (proj1 (batch_push_progress false 2 [3; 5] demo_two demo_ok
      (demo_two_reachable false)) 0%nat 3 1 (demo_chunk 3 1)); try reflexivity. by split.
  - apply (proj2 (batch_push_progress false 2 [3; 5] demo_start demo_ok
      (rtc_refl _ _))); [reflexivity|by vm_compute].
Defined.

Lemma batch_pop_fifo_witness :
  exists left, pushed demo_two = delivered demo_two ++ left /\
  match left with
  | [] => Pop (queue demo_two) = if m_activeProducers (queue demo_two) =? 0
                          then Throw (OutOfRange "Queue is empty") else Done None
  | c :: _ => exists q, Pop (queue demo_two) = Done (Some (c, q))
  end.
Proof. apply (batch_pop_fifo 2 [3; 5]); [exact demo_ok|apply demo_two_reachable]. Defined.

Lemma batch_get_exact_witness :
  Get 3 0 (queue demo_two) = Done None
  \/ exists c q, Get 3 0 (queue demo_two) = Done (Some (Some c, q))
       /\ partition_id c = 3 /\ id c = 0 /\ c ∈ pushed demo_two
       /\ pushed demo_two ≡ₚ (delivered demo_two ++ [c]) ++ pending q.
Proof.
  apply (batch_get_exact 2 [3; 5] demo_two 0);
    [exact demo_ok|apply demo_two_reachable|reflexivity|lia|reflexivity].
Defined.

Lemma batch_barrier_witness :
  pushed demo_two ≡ₚ delivered demo_two ++ pending (queue demo_two)
  /\ Forall (fun c => id c / m_batchSize (queue demo_two) = m_currentBatch (queue demo_two))
       (pending (queue demo_two))
  /\ (forall c, c ∈ pushed demo_two ->
        id c / m_batchSize (queue demo_two) <> m_currentBatch (queue demo_two) ->
        c ∈ delivered demo_two).
Proof.
  apply (batch_barrier false 2 [3; 5]); [exact demo_ok|apply demo_two_reachable].
Defined.

Lemma batch_free_rest_witness :
  exists l q, FreeBatchData_loop 3 [] (queue demo_end) = Done (LoopEnds (map Some l) q)
    /\ pushed demo_end ≡ₚ delivered demo_end ++ l.
Proof.
  apply (batch_free_rest false 2 [3; 5] demo_end 3);
    [exact demo_ok|apply demo_end_reachable|by vm_compute|apply (bool_decide_unpack _); by vm_compute].
Defined.

(** Partition 5 has pushed one chunk, the only consumer asks partition 3 for chunk
    0, and the reader of partition 3 ends. *)
Definition demo_five : system := demo_push 1 5 0 demo_start.

Lemma demo_five_reachable : reachable false 2 [3; 5] demo_five.
Proof.
  eapply rtc_l; [apply (do_push _ _ 1 5 0 (demo_chunk 5 0) (queue demo_five));
    [done..|by split|by vm_compute]|].
  reflexivity.
Qed.

Lemma Get_not_woken_witness :
  exists q all, DeleteProducer 3 (queue demo_five) = Done (q, false, all)
    /\ Get 3 0 (queue demo_five) = Done None
    /\ Get 3 0 q = Throw (OutOfRange "Asking for non-existsent chunk").
Proof.
  do 2 eexists. split; [reflexivity|].
  eapply (Get_not_woken false 2 [3; 5] demo_five 0 3 0 _ false);
    [exact demo_ok|exact demo_five_reachable|reflexivity|lia|reflexivity| |reflexivity
    |reflexivity].
  repeat constructor. cbn. lia.
Defined.
