(* ===== verification/BatchWakeups.v ===== *)
(** The condition variables of the class [ThreadSafeBatchQueue]: readers wait on
    [m_busyCV] for the next batch, [Pop] and [FreeBatchData] on [m_emptyCV], and
    [Get] on the [m_dataNotReadyCV] of its partition.  As in [SimpleQueue.v] the
    threads that wait, the choices of [notify_one] and spurious wake-ups are part
    of the state and of the steps; a step is one round under the mutex. *)

From stdpp Require Import base list numbers gmap relations tactics.
From stdpp Require Import options.
From S2P Require Import Prelude Schema BatchQueue.

Section wakeups.
Context `{Build}.

(** ** The threads *)
Inductive status :=
  | Idle
  | Pushing (c : Chunk)
  | PushWait (c : Chunk)          (* asleep on m_busyCV *)
  | Popping
  | PopWait                       (* asleep on m_emptyCV *)
  | Getting (p v : Z)
  | GetWait (p v : Z)             (* asleep on the m_dataNotReadyCV of p *)
  | InFree
  | FreeWait.                     (* asleep on m_emptyCV *)

Definition empty_asleep (s : status) : bool :=
  match s with PopWait | FreeWait => true | _ => false end.
Definition empty_awake (s : status) : bool :=
  match s with Popping | InFree => true | _ => false end.

Definition wake_empty (s : status) : status :=
  match s with PopWait => Popping | FreeWait => InFree | s => s end.
Definition wake_busy (s : status) : status :=
  match s with PushWait c => Pushing c | s => s end.
Definition wake_data (s : status) : status :=
  match s with GetWait p v => Getting p v | s => s end.

(** [m_dataNotReadyCV[n]->notify_all ()] *)
Definition notify_data (q : batch_queue) (n : nat) (s : status) : status :=
  match s with
  | GetWait p v => if decide (partition_number q p = n) then Getting p v else s
  | _ => s
  end.

(** The notifications of [resetBatch], if the call has reached it. *)
Definition notify_reset (reset : bool) (l : list status) : list status :=
  if reset then map (fun s => wake_data (wake_busy s)) l else l.

Definition batch_changed (q q' : batch_queue) : bool :=
  negb (m_currentBatch q' =? m_currentBatch q).

Record wsystem := mkWSystem { w_queue : batch_queue; w_threads : list status }.

Definition set_status (t : nat) (s : status) (y : wsystem) : wsystem :=
  mkWSystem (w_queue y) (<[t := s]> (w_threads y)).

(** The arguments that the readers and the consumers give: a chunk of a
    partition of the queue, and a number of one. *)
Definition good_chunk (q : batch_queue) (c : Chunk) : Prop :=
  partition_id c ∈ m_producerIds q /\ 0 <= id c < 2 ^ 31.
Definition good_number (q : batch_queue) (p v : Z) : Prop :=
  p ∈ m_producerIds q /\ 0 <= v.

Inductive wstep (y : wsystem) : wsystem -> Prop :=
  | calls_Push t c :
      w_threads y !! t = Some Idle -> good_chunk (w_queue y) c ->
      wstep y (set_status t (Pushing c) y)
  | calls_Pop t :
      w_threads y !! t = Some Idle -> wstep y (set_status t Popping y)
  | calls_Get t p v :
      w_threads y !! t = Some Idle -> good_number (w_queue y) p v ->
      Get_enter (w_queue y) = Done tt -> wstep y (set_status t (Getting p v) y)
  | calls_Free t :
      w_threads y !! t = Some Idle -> wstep y (set_status t InFree y)
  | Push_sleeps t c :
      w_threads y !! t = Some (Pushing c) -> Push c (w_queue y) = Done None ->
      wstep y (set_status t (PushWait c) y)
  | Push_returns t c q l :
      w_threads y !! t = Some (Pushing c) -> Push c (w_queue y) = Done (Some q) ->
      notify_one empty_asleep wake_empty (<[t := Idle]> (w_threads y)) l ->
      wstep y (mkWSystem q (map (notify_data q (partition_number q (s32 (partition_id c)))) l))
  | Pop_sleeps t :
      w_threads y !! t = Some Popping -> Pop (w_queue y) = Done None ->
      wstep y (set_status t PopWait y)
  | Pop_returns t c q :
      w_threads y !! t = Some Popping -> Pop (w_queue y) = Done (Some (c, q)) ->
      wstep y (mkWSystem q (notify_reset (batch_changed (w_queue y) q)
                              (<[t := Idle]> (w_threads y))))
  | Pop_gives_up t e :
      w_threads y !! t = Some Popping -> Pop (w_queue y) = Throw e ->
      wstep y (set_status t Idle y)
  | Get_sleeps t p v :
      w_threads y !! t = Some (Getting p v) -> Get p v (w_queue y) = Done None ->
      wstep y (set_status t (GetWait p v) y)
  | Get_returns t p v c q :
      w_threads y !! t = Some (Getting p v) -> Get p v (w_queue y) = Done (Some (c, q)) ->
      wstep y (mkWSystem q (notify_reset (batch_changed (w_queue y) q)
                              (<[t := Idle]> (w_threads y))))
  | Get_gives_up t p v e :
      w_threads y !! t = Some (Getting p v) -> Get p v (w_queue y) = Throw e ->
      wstep y (set_status t Idle y)
  | Free_sleeps t :
      w_threads y !! t = Some InFree -> FreeBatchData (w_queue y) = Done FreeWaits ->
      wstep y (set_status t FreeWait y)
  | Free_goes_on t c q :
      w_threads y !! t = Some InFree -> FreeBatchData (w_queue y) = Done (FreeOne c q) ->
      wstep y (mkWSystem q (notify_reset (batch_changed (w_queue y) q) (w_threads y)))
  | Free_ends t :
      w_threads y !! t = Some InFree -> FreeBatchData (w_queue y) = Done FreeEnds ->
      wstep y (set_status t Idle y)
  | Delete_done t p q reset all :
      w_threads y !! t = Some Idle -> DeleteProducer p (w_queue y) = Done (q, reset, all) ->
      wstep y (mkWSystem q
                 (let l := notify_reset reset (w_threads y) in
                  if all : bool then map wake_empty l else l))
  | Spurious_wakeup t s :
      w_threads y !! t = Some s ->
      wstep y (set_status t (wake_empty (wake_busy (wake_data s))) y).

Definition wreachable (batch_size : Z) (producers : list Z) (y : wsystem) : Prop :=
  exists n, rtc wstep (mkWSystem (ThreadSafeBatchQueue batch_size producers)
                         (replicate n Idle)) y.

(** ** When a call waits *)
Lemma Push_waits c q :
  Push c q = Done None <->
  m_currentBatch q < s32 (id c / u64 (m_batchSize q)).
Proof using Type.
  unfold Push. cbv zeta. rewrite <- Z.ltb_lt. destruct (m_currentBatch q <? _); [done|].
  split; [|done]. destruct (data_at q _) as [d|]; [|done]. unfold c_assert.
  by repeat case_match.
Qed.

Lemma Get_waits p v q :
  Get p v q = Done None <->
  exists d, data_at q (targetIndex q p v) = Some d
    /\ m_producerActiveArray q !! partition_number q p = Some true
    /\ (isSet d = false \/ Z.quot v (m_batchSize q) <> m_currentBatch q).
Proof using Type.
  unfold Get. cbv zeta. split.
  - destruct (data_at q _) as [d|]; [|done].
    destruct (m_producerActiveArray q !! _) as [[]|]; [..|done].
    + rewrite andb_true_r. destruct (negb (isSet d) || _) eqn:E.
      * intros _. exists d. split; [done|]. split; [done|].
        apply orb_true_iff in E as [E|E]; apply negb_true_iff in E; [by left|].
        right. by apply Z.eqb_neq.
      * apply orb_false_iff in E as [-> _]. intros E1. exfalso.
        apply bind_Done in E1 as ([] & _ & E1). by apply bind_Done in E1 as (? & _ & ?).
    + rewrite andb_false_r. destruct (negb (isSet d)); [done|]. intros E1. exfalso.
      apply bind_Done in E1 as ([] & _ & E1). by apply bind_Done in E1 as (? & _ & ?).
  - intros (d & -> & -> & E). rewrite andb_true_r.
    destruct E as [->|E]; [done|]. rewrite (proj2 (Z.eqb_neq _ _) E). by rewrite orb_true_r.
Qed.

(** ** The invariant *)
Record wired (q : batch_queue) : Prop := {
  wd_size : 0 < m_batchSize q;
  wd_ids : Forall (fun p => 0 <= p < 2 ^ 31) (m_producerIds q);
  wd_map i p : m_producerIds q !! i = Some p -> m_partitionIdToNumber q !! p = Some i;
  wd_nodup : NoDup (m_producerIds q)
}.

(** A thread that sleeps would wait again, but for a [Get] whose partition's
    reader has ended. *)
Definition thread_ok (q : batch_queue) (s : status) : Prop :=
  match s with
  | Pushing c => good_chunk q c
  | PushWait c => good_chunk q c /\ Push c q = Done None
  | Getting p v => good_number q p v
  | GetWait p v => good_number q p v
      /\ (Get p v q = Done None
          \/ m_producerActiveArray q !! partition_number q p = Some false)
  | _ => True
  end.

Record winv (y : wsystem) : Prop := {
  wi_wired : wired (w_queue y);
  wi_threads : Forall (thread_ok (w_queue y)) (w_threads y);
  wi_empty : (1 <= count empty_asleep (w_threads y))%nat ->
    m_itemsToRead (w_queue y) <= Z.of_nat (count empty_awake (w_threads y));
  wi_active : m_activeProducers (w_queue y) = 0 -> count empty_asleep (w_threads y) = 0%nat
}.

(** What all calls keep. *)
Record same_shape (q q' : batch_queue) : Prop := {
  ss_size : m_batchSize q' = m_batchSize q;
  ss_ids : m_producerIds q' = m_producerIds q;
  ss_map : m_partitionIdToNumber q' = m_partitionIdToNumber q
}.

Lemma shape_wired q q' : same_shape q q' -> wired q -> wired q'.
Proof using Type. intros [E1 E2 E3] []. by split; rewrite ?E1, ?E2, ?E3. Qed.

Lemma shape_index q q' p v : same_shape q q' -> targetIndex q' p v = targetIndex q p v.
Proof using Type. intros [E1 E2 E3]. unfold targetIndex, partition_number. by rewrite E1, E3. Qed.

Lemma shape_number q q' p : same_shape q q' -> partition_number q' p = partition_number q p.
Proof using Type. intros [E1 E2 E3]. unfold partition_number. by rewrite E3. Qed.

Lemma shape_chunk q q' c : same_shape q q' -> good_chunk q c -> good_chunk q' c.
Proof using Type. intros [E1 E2 E3]. unfold good_chunk. by rewrite E2. Qed.

Lemma shape_good q q' p v : same_shape q q' -> good_number q p v -> good_number q' p v.
Proof using Type. intros [E1 E2 E3]. unfold good_number. by rewrite E2. Qed.

Lemma awake_ok q q' s :
  same_shape q q' -> thread_ok q s -> thread_ok q' (wake_data (wake_busy s)).
Proof using Type.
  intros Hs. destruct s; cbn; try done; try by eapply shape_chunk || by eapply shape_good.
  - intros [Ht _]. by eapply shape_chunk.
  - intros [Ht _]. by eapply shape_good.
Qed.

(** A thread keeps waiting while the batch stays, its reader's state stays or
    ends, and its place is not set. *)
Lemma waits_on q q' s :
  same_shape q q' -> m_currentBatch q' = m_currentBatch q ->
  (forall p v, s = GetWait p v ->
     (m_producerActiveArray q' !! partition_number q p = m_producerActiveArray q !! partition_number q p
      \/ m_producerActiveArray q' !! partition_number q p = Some false)
     /\ forall d, m_dataArray q !! Z.to_nat (targetIndex q p v) = Some d ->
          exists d', m_dataArray q' !! Z.to_nat (targetIndex q p v) = Some d'
            /\ (isSet d = false -> isSet d' = false)) ->
  thread_ok q s -> thread_ok q' s.
Proof using Type.
  intros Hs Eb Hget. destruct s as [|c|c| | |p v|p v| |]; cbn; try done.
  - by apply shape_chunk.
  - intros [Hg Hw]. split; [by eapply shape_chunk|]. apply Push_waits. apply Push_waits in Hw.
    by rewrite Eb, (ss_size _ _ Hs).
  - by apply shape_good.
  - intros [Hg Hw]. split; [by eapply shape_good|].
    destruct (Hget p v eq_refl) as [Hact Hdata]. rewrite (shape_number _ _ _ Hs).
    destruct Hact as [Hact|Hact]; [|by right]. rewrite Hact.
    destruct Hw as [Hw|Hw]; [left|by right].
    apply Get_waits in Hw as (d & [H0 Hd]%data_at_Some & Ha & Hwhy). apply Get_waits.
    destruct (Hdata d Hd) as (d' & Hd' & Hset). exists d'.
    rewrite (shape_index _ _ _ _ Hs), (shape_number _ _ _ Hs), Hact, Eb, (ss_size _ _ Hs).
    rewrite data_at_nonneg by done.
    split; [done|]. split; [done|]. destruct Hwhy; [left; auto|by right].
Qed.

Lemma took_shape q q' : took q q' -> same_shape q q'.
Proof using Type. by intros []. Qed.

Lemma took_threads q q' l :
  took q q' -> Forall (thread_ok q) l ->
  Forall (thread_ok q') (notify_reset (batch_changed q q') l).
Proof using Type.
  intros Hk Hl. pose proof (took_shape _ _ Hk) as Hs. unfold notify_reset, batch_changed.
  destruct (Z.eqb_spec (m_currentBatch q') (m_currentBatch q)) as [Eb|_]; cbn [negb].
  - eapply Forall_impl; [|exact Hl]. intros s. apply (waits_on q q' s Hs Eb).
    intros p v _. destruct Hk as [_ _ _ Ea _ _ (j & x & Ed) _]. rewrite Ea, Ed. split; [by left|].
    intros d Hd. destruct (decide (j = Z.to_nat (targetIndex q p v))) as [->|Hne].
    + exists (mkData x false). rewrite list_lookup_insert_eq by (by eapply lookup_lt_Some). done.
    + exists d. by rewrite list_lookup_insert_ne.
  - apply Forall_fmap. eapply Forall_impl; [|exact Hl]. intros s. by apply awake_ok.
Qed.

(** ** The calls keep the invariant *)
Lemma Push_pushed c q q' :
  Push c q = Done (Some q') ->
  q' = mkBatchQueue (m_queue q ++ [c]) (m_batchSize q) (m_activeProducers q)
         (m_producerActiveArray q) (m_producerIds q) (m_partitionIdToNumber q)
         (<[Z.to_nat (targetIndex q (s32 (partition_id c)) (s32 (id c)))
            := mkData (Some c) true]> (m_dataArray q))
         (m_currentBatch q) (m_readInBatch q) (m_itemsToRead q + 1).
Proof using Type.
  unfold Push. cbv zeta. destruct (_ <? _); [done|].
  destruct (data_at q _) as [d|]; [|done]. intros E.
  apply bind_Done in E as ([] & _ & E). by injection E as <-.
Qed.

Lemma places_differ q i k p p' v v' :
  wired q -> m_producerIds q !! i = Some p -> m_producerIds q !! k = Some p' ->
  i <> k -> 0 <= v -> 0 <= v' ->
  Z.to_nat (targetIndex q p v) <> Z.to_nat (targetIndex q p' v').
Proof using Type.
  intros [Hs _ Hmap _] Hp Hp' Hne Hv Hv' E. unfold targetIndex, partition_number in E.
  rewrite (Hmap _ _ Hp), (Hmap _ _ Hp') in E.
  change (default 0%nat (Some i)) with i in E. change (default 0%nat (Some k)) with k in E.
  rewrite !Z.rem_mod_nonneg in E by lia.
  pose proof (Z.mod_pos_bound v _ Hs). pose proof (Z.mod_pos_bound v' _ Hs).
  apply Z2Nat.inj in E; [|nia..].
  assert (Z.of_nat i < Z.of_nat k \/ Z.of_nat k < Z.of_nat i) as [?|?] by lia; nia.
Qed.

Lemma push_threads c q q' l :
  wired q -> good_chunk q c -> Push c q = Done (Some q') -> Forall (thread_ok q) l ->
  Forall (thread_ok q') (map (notify_data q' (partition_number q' (s32 (partition_id c)))) l).
Proof using Type.
  intros Hw [Hc Hid] E Hl. pose proof (Push_pushed _ _ _ E) as Eq.
  assert (same_shape q q') as Hs by (by rewrite Eq).
  apply list_elem_of_lookup in Hc as [k Hk].
  pose proof (Forall_lookup_1 _ _ _ _ (wd_ids _ Hw) Hk) as Hp. cbn in Hp.
  rewrite (shape_number _ _ _ Hs), (wrap_s_small 32) by lia.
  apply Forall_fmap. eapply Forall_impl; [|exact Hl]. intros s Hok. unfold compose.
  assert (partition_number q (partition_id c) = k) as Ek.
  { unfold partition_number. by rewrite (wd_map _ Hw _ _ Hk). }
  rewrite Ek.
  assert ((exists p v, s = GetWait p v /\ partition_number q p = k)
    \/ notify_data q' k s = s /\ forall p v, s = GetWait p v -> partition_number q p <> k)
    as [(p & v & -> & En)|[-> Hne]].
  { destruct s as [| | | | | |p v| |]; try by right. cbn. rewrite (shape_number _ _ _ Hs).
    destruct (decide (partition_number q p = k)); [by eauto|right].
    split; [done|]. by intros ? ? [= <- <-]. }
  - cbn. rewrite (shape_number _ _ _ Hs), decide_True by done. destruct Hok as [Hg _].
    by eapply shape_good.
  - apply (waits_on q q' s Hs); [by rewrite Eq| |done]. intros p v ->.
    split; [left; by rewrite Eq|]. intros d Hd. exists d. split; [|done].
    rewrite Eq. cbn [m_dataArray]. rewrite list_lookup_insert_ne; [done|].
    destruct Hok as [[Hg Hv] _]. apply list_elem_of_lookup in Hg as [i Hi].
    rewrite (wrap_s_small 32 eq_refl (partition_id c)), (wrap_s_small 32 eq_refl (id c)) by lia.
    eapply (places_differ q k i); try done; [|lia].
    intros <-. apply (Hne p v eq_refl). unfold partition_number.
    by rewrite (wd_map _ Hw _ _ Hi).
Qed.

Lemma delete_threads p q q' reset all l :
  DeleteProducer p q = Done (q', reset, all) -> Forall (thread_ok q) l ->
  Forall (thread_ok q') (notify_reset reset l).
Proof using Type.
  intros E Hl. destruct (DeleteProducer_data _ _ _ _ _ E) as (Ed & Es & Ei & Em & Eb & Ea).
  assert (same_shape q q') as Hs by done. unfold notify_reset. destruct reset.
  - apply Forall_fmap. eapply Forall_impl; [|exact Hl]. intros s. by apply awake_ok.
  - eapply Forall_impl; [|exact Hl]. intros s. apply (waits_on q q' s Hs (Eb eq_refl)).
    intros p' v _. rewrite Ea, Ed. split; [|by eauto].
    destruct (decide (partition_number q p = partition_number q p')) as [->|Hne];
      [|left; by rewrite list_lookup_insert_ne].
    destruct (m_producerActiveArray q !! partition_number q p') as [b|] eqn:Eb'.
    + right. apply list_lookup_insert_eq. by eapply lookup_lt_Some.
    + left. apply lookup_ge_None. rewrite length_insert. by apply lookup_ge_None.
Qed.

Lemma counts_reset reset l :
  count empty_asleep (notify_reset reset l) = count empty_asleep l
  /\ count empty_awake (notify_reset reset l) = count empty_awake l.
Proof using Type.
  destruct reset; [|done]. unfold notify_reset. rewrite !count_map.
  split; apply count_ext; by intros [].
Qed.

Lemma winv_set y t s s' :
  winv y -> w_threads y !! t = Some s -> thread_ok (w_queue y) s' ->
  (empty_asleep s' = true -> empty_asleep s = true
     \/ m_itemsToRead (w_queue y) = 0 /\ m_activeProducers (w_queue y) <> 0) ->
  (empty_awake s = true -> empty_awake s' = true \/ m_itemsToRead (w_queue y) = 0) ->
  winv (set_status t s' y).
Proof using Type.
  intros [Hw Hl He Ha] Ht Hok Hsleep Hawake.
  pose proof (count_insert empty_asleep _ _ _ s' Ht) as C1.
  pose proof (count_insert empty_awake _ _ _ s' Ht) as C2.
  split; cbn [set_status w_queue w_threads]; [done|by apply Forall_insert| |].
  - destruct (decide (m_itemsToRead (w_queue y) = 0)) as [->|Hn]; [lia|].
    destruct (empty_asleep s') eqn:E1, (empty_asleep s) eqn:E2, (empty_awake s) eqn:E3,
      (empty_awake s') eqn:E4; try lia;
      try (destruct (Hsleep eq_refl) as [?|[? _]]; done || lia);
      try (destruct (Hawake eq_refl); done || lia).
  - intros Hz. specialize (Ha Hz).
    destruct (empty_asleep s') eqn:E1; [|destruct (empty_asleep s); lia].
    destruct (Hsleep eq_refl) as [E|[_ ?]]; [rewrite E in C1; lia|done].
Qed.

Lemma winv_took y q' l :
  winv y -> took (w_queue y) q' -> Forall (thread_ok (w_queue y)) l ->
  count empty_asleep l = count empty_asleep (w_threads y) ->
  (count empty_awake (w_threads y) <= Datatypes.S (count empty_awake l))%nat ->
  winv (mkWSystem q' (notify_reset (batch_changed (w_queue y) q') l)).
Proof using Type.
  intros [Hw Hl He Ha] Hk Hok C1 C2.
  destruct (counts_reset (batch_changed (w_queue y) q') l) as [E1 E2].
  split; cbn [w_queue w_threads]; rewrite ?E1, ?E2.
  - eapply shape_wired; [by apply took_shape|done].
  - by apply took_threads.
  - rewrite C1, (tk_items _ _ Hk). intros Hs. specialize (He Hs). lia.
  - rewrite C1, (tk_producers _ _ Hk). exact Ha.
Qed.

Lemma notify_empty l l' :
  notify_one empty_asleep wake_empty l l' ->
  (count empty_asleep l = Datatypes.S (count empty_asleep l')
   /\ count empty_awake l' = Datatypes.S (count empty_awake l))
  \/ count empty_asleep l = 0%nat /\ l' = l.
Proof using Type.
  intros [l0 t s Ht Hs|l0 Hl]; [|by apply count_zero in Hl; auto]. left.
  pose proof (count_insert empty_asleep l0 t _ (wake_empty s) Ht).
  pose proof (count_insert empty_awake l0 t _ (wake_empty s) Ht).
  destruct s; try done; cbn in *; lia.
Qed.

Lemma wake_empty_ok q s : thread_ok q s -> thread_ok q (wake_empty s).
Proof using Type. by destruct s. Qed.

Lemma notify_empty_ok q l l' :
  notify_one empty_asleep wake_empty l l' -> Forall (thread_ok q) l -> Forall (thread_ok q) l'.
Proof using Type.
  intros [l0 t s Ht Hs|l0 Hl] Hok; [|done]. apply Forall_insert; [done|].
  apply wake_empty_ok. by eapply (Forall_lookup_1 _ l0).
Qed.

Lemma counts_data q n l :
  count empty_asleep (map (notify_data q n) l) = count empty_asleep l
  /\ count empty_awake (map (notify_data q n) l) = count empty_awake l.
Proof using Type.
  rewrite !count_map. split; apply count_ext; intros []; try done; cbn; by case_decide.
Qed.

Lemma Pop_nothing q :
  (Pop q = Done None -> m_itemsToRead q = 0 /\ m_activeProducers q <> 0)
  /\ forall e, Pop q = Throw e -> m_itemsToRead q = 0.
Proof using Type.
  unfold Pop, readValue, pop_front. destruct (Z.eqb_spec (m_itemsToRead q) 0).
  - by destruct (Z.eqb_spec (m_activeProducers q) 0).
  - destruct (m_queue q) eqn:Eq; [done|]. cbv zeta.
    split; [|intros e]; repeat (case_match; cbn; try done).
Qed.

Lemma Free_nothing q :
  (FreeBatchData q = Done FreeWaits -> m_itemsToRead q = 0 /\ m_activeProducers q <> 0)
  /\ (FreeBatchData q = Done FreeEnds -> m_itemsToRead q = 0).
Proof using Type.
  unfold FreeBatchData. destruct (Z.eqb_spec (m_itemsToRead q) 0).
  - by destruct (Z.eqb_spec (m_activeProducers q) 0).
  - rewrite andb_false_r. cbn [andb]. destruct (first_set _ _); [|done].
    split; intros E; apply bind_Done in E as (? & _ & E);
      by apply bind_Done in E as ([] & _ & E).
Qed.

Lemma winv_push y t c q l :
  winv y -> w_threads y !! t = Some (Pushing c) -> Push c (w_queue y) = Done (Some q) ->
  notify_one empty_asleep wake_empty (<[t := Idle]> (w_threads y)) l ->
  winv (mkWSystem q (map (notify_data q (partition_number q (s32 (partition_id c)))) l)).
Proof using Type.
  intros [Hw Hl He Ha] Ht E Hn. pose proof (Push_pushed _ _ _ E) as Eq.
  pose proof (count_insert empty_asleep _ _ _ Idle Ht) as C1.
  pose proof (count_insert empty_awake _ _ _ Idle Ht) as C2. cbn [empty_asleep empty_awake] in *.
  destruct (counts_data q (partition_number q (s32 (partition_id c))) l) as [E1 E2].
  split; cbn [w_queue w_threads]; rewrite ?E1, ?E2.
  - eapply shape_wired; [|done]. by rewrite Eq.
  - eapply push_threads; [done|by apply (Forall_lookup_1 _ _ _ _ Hl Ht)|done|].
    eapply notify_empty_ok; [done|by apply Forall_insert].
  - rewrite Eq. cbn [m_itemsToRead]. intros Hs.
    destruct (notify_empty _ _ Hn) as [[N1 N2]|[N1 ->]]; lia.
  - rewrite Eq. cbn [m_activeProducers]. intros Hz. specialize (Ha Hz).
    destruct (notify_empty _ _ Hn) as [[N1 N2]|[N1 ->]]; lia.
Qed.

Lemma winv_delete y p q reset all :
  winv y -> DeleteProducer p (w_queue y) = Done (q, reset, all) ->
  winv (mkWSystem q (let l := notify_reset reset (w_threads y) in
                     if all then map wake_empty l else l)).
Proof using Type.
  intros [Hw Hl He Ha] E. pose proof (delete_threads _ _ _ _ _ _ E Hl) as Hl'.
  destruct (DeleteProducer_data _ _ _ _ _ E) as (_ & Es & Ei & Em & _ & _).
  destruct (counts_reset reset (w_threads y)) as [E1 E2].
  assert (m_itemsToRead q = m_itemsToRead (w_queue y)
          /\ all = (m_activeProducers q =? 0)) as [Eit ->].
  { unfold DeleteProducer in E. cbv zeta in E. destruct (m_producerActiveArray _ !! _); [|done].
    destruct (isBatchFinished _); by injection E as <- _ <-. }
  assert (wired q) as Hwq by (eapply shape_wired; [|exact Hw]; done).
  cbv zeta. destruct (Z.eqb_spec (m_activeProducers q) 0) as [Hz|Hz].
  - assert (count empty_asleep (map wake_empty (notify_reset reset (w_threads y))) = 0%nat) as Hc.
    { rewrite count_map. apply count_zero, Forall_true. by intros []. }
    split; cbn [w_queue w_threads]; rewrite ?Hc; [done| |lia|done].
    apply Forall_fmap. eapply Forall_impl; [|exact Hl']. apply wake_empty_ok.
  - split; cbn [w_queue w_threads]; rewrite ?E1, ?E2, ?Eit; done.
Qed.

Lemma winv_step y y' : winv y -> wstep y y' -> winv y'.
Proof using Type.
  intros Hi Hs. pose proof Hi as [Hw Hl He Ha].
  assert (forall t s, w_threads y !! t = Some s -> thread_ok (w_queue y) s) as Hok
    by (intros t s; by apply Forall_lookup_1).
  destruct Hs as [t c Ht Hg|t Ht|t p v Ht Hg _|t Ht|t c Ht E|t c q l Ht E Hn|t Ht E|t c q Ht E
    |t e Ht E|t p v Ht E|t p v c q Ht E|t p v e Ht E|t Ht E|t c q Ht E|t Ht E|t p q r a Ht E|t s Ht].
  - by apply (winv_set _ _ Idle); try (left; done).
  - by apply (winv_set _ _ Idle).
  - by apply (winv_set _ _ Idle).
  - by apply (winv_set _ _ Idle).
  - apply (winv_set _ _ (Pushing c)); try done. split; [|done]. by apply (Hok t (Pushing c)).
  - by eapply winv_push.
  - destruct (Pop_nothing (w_queue y)) as [Hp _]. destruct (Hp E) as [Hz Hne].
    apply (winv_set _ _ Popping); try done; intros _; right; done.
  - pose proof (count_insert empty_asleep _ _ _ Idle Ht) as C1.
    pose proof (count_insert empty_awake _ _ _ Idle Ht) as C2. cbn [empty_asleep empty_awake] in *.
    apply winv_took; [done|by eapply Pop_took|by apply Forall_insert|lia|lia].
  - destruct (Pop_nothing (w_queue y)) as [_ Hp]. specialize (Hp e E).
    apply (winv_set _ _ Popping); try done; intros _; right; done.
  - apply (winv_set _ _ (Getting p v)); try done.
    split; [by apply (Hok t (Getting p v))|by left].
  - pose proof (count_insert empty_asleep _ _ _ Idle Ht) as C1.
    pose proof (count_insert empty_awake _ _ _ Idle Ht) as C2. cbn [empty_asleep empty_awake] in *.
    apply winv_took; [done|by eapply Get_took|by apply Forall_insert|lia|lia].
  - by apply (winv_set _ _ (Getting p v)).
  - destruct (Free_nothing (w_queue y)) as [Hp _]. destruct (Hp E) as [Hz Hne].
    apply (winv_set _ _ InFree); try done; intros _; right; done.
  - apply winv_took; [done|by eapply FreeBatchData_took|done|lia|lia].
  - destruct (Free_nothing (w_queue y)) as [_ Hp]. specialize (Hp E).
    apply (winv_set _ _ InFree); try done; intros _; right; done.
  - by eapply winv_delete.
  - specialize (Hok t s Ht). apply (winv_set _ _ s); try done.
    + by apply wake_empty_ok; destruct s; cbn in *; try done; destruct Hok.
    + by destruct s.
    + intros E. left. by destruct s.
Qed.

Lemma wreachable_winv batch_size producers y :
  producers_ok batch_size producers -> wreachable batch_size producers y -> winv y.
Proof using Type.
  intros Hok [n Hr].
  assert (winv (mkWSystem (ThreadSafeBatchQueue batch_size producers) (replicate n Idle))) as H0.
  { pose proof Hok as (Hs & Hnd & Hids). destruct (initial_inv true _ _ Hok) as [Hb _ _ _].
    split; cbn [w_queue w_threads].
    - split; [by destruct Hs|done|exact (bi_map _ _ Hb)|done].
    - by apply Forall_replicate.
    - rewrite count_replicate. cbn. lia.
    - by rewrite count_replicate. }
  clear Hok. induction Hr as [|y1 y2 y3 Hs _ IH]; [done|]. by apply IH, (winv_step y1).
Qed.

(** C20. The wake-ups of the multi-pass queue, for any number of threads: a reader
    that sleeps in [Push] would have to wait again, its chunk being of a later
    batch; while a thread sleeps on the queue's being empty, readers are left,
    and if there is a chunk some awake thread is about to take one; and a
    thread that sleeps in [Get] would have to wait again, with one exception:
    it may sleep on when the reader of its partition has ended. *)
Theorem batch_no_lost_wakeup batch_size producers y t s :
  producers_ok batch_size producers -> wreachable batch_size producers y ->
  w_threads y !! t = Some s ->
  match s with
  | PushWait c => Push c (w_queue y) = Done None
  | PopWait | FreeWait =>
      m_activeProducers (w_queue y) <> 0
      /\ (0 < m_itemsToRead (w_queue y) ->
          exists t' s', w_threads y !! t' = Some s' /\ empty_awake s' = true)
  | GetWait p v =>
      Get p v (w_queue y) = Done None
      \/ m_producerActiveArray (w_queue y) !! partition_number (w_queue y) p = Some false
  | _ => True
  end.
Proof using Type.
  intros Hok Hr Ht. destruct (wreachable_winv _ _ _ Hok Hr) as [_ Hl He Ha].
  pose proof (Forall_lookup_1 _ _ _ _ Hl Ht) as Hs.
  assert (empty_asleep s = true ->
    m_activeProducers (w_queue y) <> 0
    /\ (0 < m_itemsToRead (w_queue y) ->
        exists t' s', w_threads y !! t' = Some s' /\ empty_awake s' = true)) as Hempty.
  { intros Hsl. assert (1 <= count empty_asleep (w_threads y))%nat as Hc
      by (apply count_exists; eauto).
    split; [intros Hz; specialize (Ha Hz); lia|].
    intros Hpos. specialize (He Hc). apply count_exists. lia. }
  destruct s; try done; by auto || by destruct Hs.
Qed.
End wakeups.

(** The reader of partition 3 sleeps with its second chunk: the queue has one
    place for each reader. *)
#[local] Existing Instance debug_build.

Definition demo_waiting : wsystem :=
  mkWSystem (queue (demo_push 0 3 0 (initial 1 [3; 5]))) [PushWait (demo_chunk 3 1)].

Lemma demo_waiting_reachable : wreachable 1 [3; 5] demo_waiting.
Proof.
  assert (forall n, good_chunk (ThreadSafeBatchQueue 1 [3; 5]) (demo_chunk 3 n) <-> 0 <= n < 2 ^ 31) as Hg.
  { intros n. unfold good_chunk. cbn. split; [by intros [_ ?]|]. split; [left|done]. }
  exists 1%nat. eapply rtc_l.
  { apply (calls_Push _ 0 (demo_chunk 3 0)); [done|]. apply Hg. lia. }
  eapply rtc_l.
  { eapply (Push_returns _ 0 (demo_chunk 3 0)); [done|vm_compute; reflexivity|].
    apply notify_none. by repeat constructor. }
  eapply rtc_l.
  { apply (calls_Push _ 0 (demo_chunk 3 1)); [done|].
    split; [left|cbn; lia]. }
  eapply rtc_l; [by eapply (Push_sleeps _ 0 (demo_chunk 3 1))|]. reflexivity.
Qed.

Lemma batch_no_lost_wakeup_witness :
  w_threads demo_waiting !! 0%nat = Some (PushWait (demo_chunk 3 1))
  /\ Push (demo_chunk 3 1) (w_queue demo_waiting) = Done None.
Proof.
  split; [reflexivity|].
  apply (batch_no_lost_wakeup 1 [3; 5] demo_waiting 0 (PushWait (demo_chunk 3 1)));
    [|exact demo_waiting_reachable|reflexivity].
  split; [lia|]. split; [by apply (bool_decide_unpack _); vm_compute|].
  repeat (apply Forall_cons_2; [lia|]). by apply Forall_nil_2.
Defined.
