(* ===== verification/Utils.v ===== *)
(** The helper functions of [utils.cpp], namespace [utils]: which partitions a
    worker and each of its consumers read, the comparison of server versions,
    the choice of an aggregator, the row schema of a result set, and the
    release and the move of API objects.  The schema parser of the same
    namespace is in [Explain.v]. *)

From Stdlib Require Import Ascii String Sorted.
From stdpp Require Import base list strings numbers tactics.
From stdpp Require Import options.
From S2P Require Import Prelude Schema Text.

(** ** Partitions of a worker and of a consumer *)

(** The loop of [WorkerPartitions]; [i] is an [int], whose overflow is
    undefined. *)
Fixpoint WorkerPartitions_loop (fuel : nat) (i numWorkers totalPartitions : Z)
    (result : list Z) : outcome exn (list Z) :=
  match fuel with
  | O => Undef "the loop does not end"
  | S fuel =>
      if i <? totalPartitions then
        let result := result ++ [i] in
        if i + numWorkers <? 2 ^ 31
        then WorkerPartitions_loop fuel (i + numWorkers) numWorkers totalPartitions result
        else Undef "signed overflow of i"
      else Done result
  end.

Definition WorkerPartitions (numWorkers workerId totalPartitions : Z)
  : outcome exn (list Z) :=
  if numWorkers <=? 0 then s2_throw S2C_ERROR_INV_ARG "received negative numWorkers"
  else WorkerPartitions_loop (S (Z.to_nat (totalPartitions - workerId)))
         workerId numWorkers totalPartitions [].

(** The loop of [ConsumerPartitions]; [i] is a [uint64_t], the size of the
    vector bounds the index. *)
Fixpoint ConsumerPartitions_loop (fuel : nat) (i nConsumers : Z)
    (workerPartitions result : list Z) : outcome exn (list Z) :=
  match fuel with
  | O => Undef "the loop does not end"
  | S fuel =>
      match (if i <? Z.of_nat (length workerPartitions)
             then workerPartitions !! Z.to_nat i else None) with
      | Some p =>
          ConsumerPartitions_loop fuel (u64 (i + nConsumers)) nConsumers
            workerPartitions (result ++ [p])
      | None => Done result
      end
  end.

Definition ConsumerPartitions (nConsumers consumerId : Z) (workerPartitions : list Z)
  : outcome exn (list Z) :=
  if nConsumers <=? 0 then s2_throw S2C_ERROR_INV_ARG "received negative nConsumers"
  else ConsumerPartitions_loop (S (length workerPartitions)) (u64 consumerId) nConsumers
         workerPartitions [].

(** The elements of [l] at [i], [i + k], [i + 2k], ... *)
Fixpoint every (k skip : nat) (l : list Z) : list Z :=
  match l with
  | [] => []
  | x :: l => match skip with O => x :: every k (k - 1) l | S skip => every k skip l end
  end.

Lemma every_drop k skip l : every k skip l = every k 0 (drop skip l).
Proof.
  revert skip. induction l as [|x l IH]; intros [|skip]; cbn; auto.
Qed.

Lemma lookup_every k skip l j :
  (0 < k)%nat -> every k skip l !! j = l !! (skip + j * k)%nat.
Proof.
  intros Hk. revert skip j. induction l as [|y l IH]; intros skip j; [done|].
  destruct skip as [|skip]; cbn [every]; [|by rewrite IH].
  destruct j as [|j]; [done|].
  replace (0 + S j * k)%nat with (S (k - 1 + j * k)) by lia.
  change (every k (k - 1) l !! j = l !! (k - 1 + j * k)%nat). apply IH.
Qed.

Lemma StronglySorted_sublist {A} (R : relation A) l l' :
  sublist l' l -> StronglySorted R l -> StronglySorted R l'.
Proof.
  induction 1 as [|x l1 l2 H IH|x l1 l2 H IH]; [done|..];
    intros [? Hf]%StronglySorted_inv; [|auto].
  constructor; [auto|]. rewrite Forall_forall in Hf |- *. intros y Hy.
  apply Hf, list_elem_of_In. eapply elem_of_sublist; [|done]. by apply list_elem_of_In.
Qed.

Lemma StronglySorted_seqZ m n : StronglySorted Z.lt (seqZ m n).
Proof.
  replace (seqZ m n) with (seqZ m (n `max` 0)) by (unfold seqZ; f_equal; f_equal; lia).
  rewrite <- (Z2Nat.id (n `max` 0)) by lia. generalize (Z.to_nat (n `max` 0)) as k.
  intros k. revert m. induction k as [|k IH]; intros m; [constructor|].
  rewrite seqZ_cons by lia. constructor.
  - replace (Z.pred _) with (Z.of_nat k) by lia. apply IH.
  - apply Forall_forall. intros x Hx%list_elem_of_In%elem_of_seqZ. lia.
Qed.

Lemma every_sublist k skip l : sublist (every k skip l) l.
Proof.
  revert skip. induction l as [|x l IH]; intros [|skip]; cbn; by constructor.
Qed.

Lemma ConsumerPartitions_loop_every fuel i k l acc :
  (0 < k)%nat -> Z.of_nat k + Z.of_nat (length l) < 2 ^ 64 ->
  (length l - i < fuel)%nat ->
  ConsumerPartitions_loop fuel (Z.of_nat i) (Z.of_nat k) l acc =
  Done (acc ++ every k i l).
Proof.
  revert i acc. induction fuel as [|fuel IH]; intros i acc Hk Hb Hf; [lia|].
  cbn [ConsumerPartitions_loop]. rewrite Nat2Z.id, every_drop.
  destruct (Z.ltb_spec (Z.of_nat i) (Z.of_nat (length l))) as [Hi|Hi].
  - destruct (lookup_lt_is_Some_2 l i) as [p Hp]; [lia|]. rewrite Hp.
    rewrite wrap_u_small by lia. rewrite <- Nat2Z.inj_add.
    destruct (decide (i + k < length l)%nat).
    + rewrite IH by lia.
      rewrite (drop_S _ _ _ Hp). cbn [every].
      rewrite every_drop, (every_drop k (k - 1)), drop_drop.
      replace (S i + (k - 1))%nat with (i + k)%nat by lia. by rewrite <- (assoc_L (++)).
    + destruct fuel as [|fuel]; [lia|]. cbn [ConsumerPartitions_loop].
      destruct (Z.ltb_spec (Z.of_nat (i + k)) (Z.of_nat (length l))); [lia|].
      rewrite (drop_S _ _ _ Hp). cbn [every].
      rewrite (every_drop k (k - 1)), drop_drop, drop_ge by lia. done.
  - rewrite drop_ge by lia. cbn. by rewrite app_nil_r.
Qed.

(** A consumer takes every [nConsumers]-th partition of its worker. *)
Lemma ConsumerPartitions_every n c l :
  (0 < n)%nat ->
  Z.of_nat c < 2 ^ 64 -> Z.of_nat n + Z.of_nat (length l) < 2 ^ 64 ->
  ConsumerPartitions (Z.of_nat n) (Z.of_nat c) l = Done (every n c l).
Proof.
  intros Hn Hc Hb. unfold ConsumerPartitions.
  destruct (Z.leb_spec (Z.of_nat n) 0); [lia|].
  rewrite wrap_u_small by lia.
  by rewrite ConsumerPartitions_loop_every by lia.
Qed.

Lemma every_seqZ k i n start :
  (0 < k)%nat ->
  every k i (seqZ start n) =
  if bool_decide (Z.of_nat i < n)
  then (start + Z.of_nat i) :: every k i (seqZ (start + Z.of_nat k) (n - Z.of_nat k))
  else [].
Proof.
  intros Hk. rewrite (every_drop k i (seqZ start n)).
  assert (forall s m (j : nat), drop j (seqZ s m) = seqZ (s + Z.of_nat j) (m - Z.of_nat j)) as Hd.
  { intros s m j. apply list_eq. intros x. rewrite lookup_drop.
    apply option_eq. intros y. rewrite !lookup_seqZ. lia. }
  rewrite Hd. case_bool_decide as Hi.
  - rewrite seqZ_cons by lia. cbn [every]. f_equal.
    rewrite every_drop, (every_drop k i), !Hd. do 2 f_equal; lia.
  - by rewrite seqZ_nil by lia.
Qed.

Lemma WorkerPartitions_loop_every fuel start (i k : nat) n acc :
  (0 < k)%nat -> start + n + Z.of_nat k <= 2 ^ 31 -> 0 <= start ->
  n - Z.of_nat i < Z.of_nat fuel -> (0 < fuel)%nat ->
  WorkerPartitions_loop fuel (start + Z.of_nat i) (Z.of_nat k) (start + n) acc =
  Done (acc ++ every k i (seqZ start n)).
Proof.
  revert start n acc. induction fuel as [|fuel IH]; intros start n acc Hk Hb Hs Hf Hf0; [lia|].
  cbn [WorkerPartitions_loop]. rewrite every_seqZ by done.
  destruct (Z.ltb_spec (start + Z.of_nat i) (start + n)).
  - rewrite bool_decide_true by lia.
    destruct (Z.ltb_spec (start + Z.of_nat i + Z.of_nat k) (2 ^ 31)); [|lia].
    replace (start + Z.of_nat i + Z.of_nat k) with ((start + Z.of_nat k) + Z.of_nat i) by lia.
    replace (start + n) with ((start + Z.of_nat k) + (n - Z.of_nat k)) by lia.
    rewrite IH by lia. by rewrite <- (assoc_L (++)).
  - rewrite bool_decide_false by lia. by rewrite app_nil_r.
Qed.

(** A worker takes every [numWorkers]-th partition of the table. *)
Lemma WorkerPartitions_every k i n :
  (0 < k)%nat -> 0 <= n -> n + Z.of_nat k <= 2 ^ 31 ->
  WorkerPartitions (Z.of_nat k) (Z.of_nat i) n = Done (every k i (seqZ 0 n)).
Proof.
  intros Hk Hn Hb. unfold WorkerPartitions.
  destruct (Z.leb_spec (Z.of_nat k) 0); [lia|].
  apply (WorkerPartitions_loop_every _ 0 i k n []); lia.
Qed.

(** The partitions that consumer [c] of [nC] of worker [w] of [nW] reads. *)
Definition assigned (nW nC total : Z) (w c : Z) : outcome exn (list Z) :=
  wp ← WorkerPartitions nW w total; ConsumerPartitions nC c wp.

(** Position [j] of the assignment, in numbers. *)
Lemma lookup_every_every_seqZ kw iw kc ic n j p :
  (0 < kw)%nat -> (0 < kc)%nat ->
  every kc ic (every kw iw (seqZ 0 n)) !! j = Some p <->
  p < n /\ p = Z.of_nat iw + (Z.of_nat ic + Z.of_nat j * Z.of_nat kc) * Z.of_nat kw.
Proof. intros. rewrite !lookup_every, lookup_seqZ by done. lia. Qed.

Lemma partition_index n kw iw kc ic p :
  0 <= iw < kw -> 0 <= ic < kc ->
  (exists j : nat, p < n /\ p = iw + (ic + Z.of_nat j * kc) * kw) <->
  0 <= p < n /\ iw = p mod kw /\ ic = (p / kw) mod kc.
Proof.
  intros Hw Hc. split.
  - intros (j & Hp & ->). rewrite Z_mod_plus_full, Z.mod_small by lia.
    rewrite Z_div_plus_full, Z.div_small, Z.add_0_l by lia.
    rewrite Z_mod_plus_full, Z.mod_small by lia. split; [|done].
    split; [|done]. apply Z.add_nonneg_nonneg; [lia|]. apply Z.mul_nonneg_nonneg; nia.
  - intros (Hp & -> & ->). exists (Z.to_nat (p / kw / kc)).
    pose proof (Z.div_mod p kw ltac:(lia)). pose proof (Z.div_mod (p / kw) kc ltac:(lia)).
    pose proof (Z.div_pos p kw). pose proof (Z.div_pos (p / kw) kc).
    rewrite Z2Nat.id by lia. split; [lia|]. nia.
Qed.

(** Every partition of a table is read by exactly one consumer: with [nW]
    workers of [nC] consumers each, [WorkerPartitions] followed by
    [ConsumerPartitions] never fails, gives each consumer its partitions in
    increasing order, and gives partition [p] to consumer [p / nW mod nC] of
    worker [p mod nW] and to nobody else, once. *)
Theorem partition_assignment nW nC total w c :
  0 < nW -> 0 < nC -> 0 <= total ->
  total + nW <= 2 ^ 31 -> nC < 2 ^ 31 -> 0 <= w < nW -> 0 <= c < nC ->
  exists ps, assigned nW nC total w c = Done ps
    /\ StronglySorted Z.lt ps
    /\ forall p, p ∈ ps <->
         0 <= p < total /\ w = p mod nW /\ c = (p / nW) mod nC.
Proof.
  intros HW HC Ht Hb1 Hb2 Hw Hc.
  set (kw := Z.to_nat nW). set (kc := Z.to_nat nC).
  assert (nW = Z.of_nat kw) as EW by lia. assert (nC = Z.of_nat kc) as EC by lia.
  assert (w = Z.of_nat (Z.to_nat w)) as Ew by lia.
  assert (c = Z.of_nat (Z.to_nat c)) as Ec by lia.
  set (iw := Z.to_nat w) in *. set (ic := Z.to_nat c) in *. clearbody kw kc iw ic. subst.
  pose proof (every_sublist kw iw (seqZ 0 total)) as Hsub.
  pose proof (sublist_length _ _ Hsub) as Hlen. rewrite length_seqZ in Hlen.
  unfold assigned. rewrite WorkerPartitions_every, Done_bind by lia.
  rewrite ConsumerPartitions_every by lia. eexists. split; [done|]. split.
  - eapply StronglySorted_sublist; [|apply (StronglySorted_seqZ 0 total)].
    etrans; [apply every_sublist|done].
  - intros p. rewrite list_elem_of_lookup. setoid_rewrite lookup_every_every_seqZ; [|lia..].
    apply partition_index; lia.
Qed.

Lemma partition_assignment_witness :
  exists ps, assigned 2 3 16 1 2 = Done ps
    /\ StronglySorted Z.lt ps
    /\ forall p, p ∈ ps <-> 0 <= p < 16 /\ 1 = p mod 2 /\ 2 = (p / 2) mod 3.
Proof. apply partition_assignment; lia. Defined.

(** ** Server versions *)

(** The conversions of [sscanf (s, "%d.%d.%d", ...)] that succeed, at most
    [n]; each [.] of the format must be found. *)
Fixpoint scan_dots (n : nat) (s : string) : list Z :=
  match n with
  | O => []
  | S n =>
      match read_int s with
      | None => []
      | Some (a, String c rest) =>
          if decide (c = "."%char) then a :: scan_dots n rest else [a]
      | Some (a, EmptyString) => [a]
      end
  end.

(** A variable that [sscanf] should have set: reading it unset is undefined,
    and so is a conversion that overflows [int]. *)
Definition scanned (l : list Z) (i : nat) : outcome exn Z :=
  match l !! i with
  | Some z =>
      if (- 2 ^ 31 <=? z) && (z <? 2 ^ 31) then Done z else Undef "%d overflows"
  | None => Undef "version component not set by sscanf"
  end.

Definition CompareVersions (v1 v2 : string) : outcome exn Z :=
  let l1 := scan_dots 3 v1 in
  let l2 := scan_dots 3 v2 in
  v1Major ← scanned l1 0; v2Major ← scanned l2 0;
  if v1Major >? v2Major then Done 1 else
  if negb (v1Major =? v2Major) then Done (-1) else
  v1Minor ← scanned l1 1; v2Minor ← scanned l2 1;
  if v1Minor >? v2Minor then Done 1 else
  if negb (v1Minor =? v2Minor) then Done (-1) else
  v1Patch ← scanned l1 2; v2Patch ← scanned l2 2;
  if v1Patch >? v2Patch then Done 1 else
  if v1Patch =? v2Patch then Done 0 else Done (-1).

(** A version as the server writes it: three numbers and perhaps a suffix. *)
Definition version_text (v : Z * Z * Z) (suffix : string) : string :=
  let '(a, b, c) := v in
  to_string a +:+ "." +:+ to_string b +:+ "." +:+ to_string c +:+ suffix.

Definition is_int (z : Z) : Prop := - 2 ^ 31 <= z < 2 ^ 31.
Definition version_ok (v : Z * Z * Z) : Prop :=
  let '(a, b, c) := v in is_int a /\ is_int b /\ is_int c.

Definition Z_of_comparison (c : comparison) : Z :=
  match c with Lt => -1 | Eq => 0 | Gt => 1 end.

(** The order of versions: major, then minor, then patch. *)
Definition version_compare (v w : Z * Z * Z) : comparison :=
  let '(a, b, c) := v in
  let '(a', b', c') := w in
  match (a ?= a') with
  | Eq => match (b ?= b') with Eq => (c ?= c') | o => o end
  | o => o
  end.

Lemma scan_dots_version v suffix :
  starts_with_digit suffix = false -> head_is "." suffix = false ->
  scan_dots 3 (version_text v suffix) = let '(a, b, c) := v in [a; b; c].
Proof.
  intros Hs Hd. destruct v as [[a b] c]. unfold version_text. cbn [scan_dots].
  do 2 (rewrite read_int_to_string, app_cons_s by done; rewrite decide_True, app_nil_l_s by done).
  rewrite read_int_to_string by done.
  destruct suffix as [|ch suffix]; [done|]. apply bool_decide_eq_false in Hd.
  by rewrite decide_False.
Qed.

Lemma scanned_ok l i z : l !! i = Some z -> is_int z -> scanned l i = Done z.
Proof.
  intros H Hz. unfold scanned. rewrite H. unfold is_int in Hz.
  by rewrite (proj2 (Z.leb_le _ _)), (proj2 (Z.ltb_lt _ _)) by lia.
Qed.

Lemma cascade_step {A} x y (k : outcome exn A) (lt gt : A) :
  (if x >? y then Done gt else if negb (x =? y) then Done lt else k) =
  match (x ?= y) with Lt => Done lt | Eq => k | Gt => Done gt end.
Proof.
  rewrite Z.gtb_ltb. destruct (Z.compare_spec x y), (Z.ltb_spec y x), (Z.eqb_spec x y);
    (done || lia).
Qed.

(** Both versions are scanned whole, whatever the result of the comparison. *)
Lemma CompareVersions_done v w sv sw :
  version_ok v -> version_ok w ->
  starts_with_digit sv = false -> head_is "." sv = false ->
  starts_with_digit sw = false -> head_is "." sw = false ->
  exists c, CompareVersions (version_text v sv) (version_text w sw) = Done c.
Proof.
  intros Hv Hw Hsv Hdv Hsw Hdw. unfold CompareVersions.
  rewrite !scan_dots_version by done.
  destruct v as [[a b] c], w as [[a' b'] c'].
  destruct Hv as (?&?&?), Hw as (?&?&?). cbn zeta.
  do 6 (erewrite scanned_ok by done). rewrite !Done_bind. repeat case_match; eauto.
Qed.

(** [CompareVersions] is the comparison of the version numbers, component
    by component as numbers (10 is above 9), whatever suffix follows the patch
    number: 1, 0 or -1 as the first version is greater, equal or smaller. *)
Theorem CompareVersions_spec v w sv sw :
  version_ok v -> version_ok w ->
  starts_with_digit sv = false -> head_is "." sv = false ->
  starts_with_digit sw = false -> head_is "." sw = false ->
  CompareVersions (version_text v sv) (version_text w sw) =
  Done (Z_of_comparison (version_compare v w)).
Proof.
  intros Hv Hw Hsv Hdv Hsw Hdw. unfold CompareVersions.
  rewrite !scan_dots_version by done.
  destruct v as [[a b] c], w as [[a' b'] c'].
  destruct Hv as (?&?&?), Hw as (?&?&?). cbn zeta.
  do 6 (erewrite scanned_ok by done). rewrite !Done_bind, !cascade_step.
  cbn [version_compare].
  destruct (a ?= a'); [|done..]. destruct (b ?= b'); [|done..].
  rewrite Z.gtb_ltb. destruct (Z.compare_spec c c'), (Z.ltb_spec c' c), (Z.eqb_spec c c');
    (done || lia).
Qed.

Lemma CompareVersions_spec_witness :
  CompareVersions "7.8.14" "7.10.2-beta" = Done (-1).
Proof.
  apply (CompareVersions_spec (7, 8, 14) (7, 10, 2) "" "-beta");
    (reflexivity || (split_and!; vm_compute; split; congruence)).
Defined.

(** A version without its three numbers leaves variables unset: comparing it
    with one of the same major number reads them. *)
Lemma CompareVersions_short :
  CompareVersions "7.8.14" "7" = Undef "version component not set by sscanf"
  /\ CompareVersions "8" "7.8.14" = Done 1.
Proof. split; reflexivity. Qed.

(** ** The connection data of a partition's aggregator *)
Record Credentials := mkCredentials {
  host : string;
  port : Z;             (* uint32_t *)
  db : string;
  user : string;
  password : string;
  ssl_ca : option string
}.

Record AggregatorNode := mkAggregatorNode {
  agg_host : string;
  agg_port : Z;         (* int *)
  externalHost : string;
  externalPort : Z
}.

#[export] Instance AggregatorNode_eq_dec : EqDecision AggregatorNode.
Proof. solve_decision. Defined.
#[export] Instance Credentials_eq_dec : EqDecision Credentials.
Proof. solve_decision. Defined.

Definition set_address (h : string) (p : Z) (c : Credentials) : Credentials :=
  mkCredentials h p (db c) (user c) (password c) (ssl_ca c).

(** [partition] is an [int], converted to [size_t] by the remainder. *)
Definition FillCredentials (aggregators : list AggregatorNode) (partition : Z)
    (creds : Credentials) : Credentials :=
  match aggregators with
  | [] => creds
  | _ =>
      let aggNumber := s32 (u64 partition mod Z.of_nat (length aggregators)) in
      match aggregators !! Z.to_nat aggNumber with
      | None => creds
      | Some agg =>
          let creds :=
            if (0 <? String.length (externalHost agg))%nat
            then set_address (externalHost agg) (u32 (externalPort agg)) creds
            else set_address (agg_host agg) (u32 (agg_port agg)) creds in
          if decide (host creds = "localhost"%string)
          then set_address "127.0.0.1" (port creds) creds else creds
      end
  end.

(** What a connection to [agg] uses. *)
Definition agg_address (agg : AggregatorNode) : string * Z :=
  if decide (externalHost agg = ""%string) then (agg_host agg, u32 (agg_port agg))
  else (externalHost agg, u32 (externalPort agg)).

Definition tcp_host (h : string) : string :=
  if decide (h = "localhost"%string) then "127.0.0.1"%string else h.

(** Partitions are spread over the aggregators in turn: the connection of
    partition [p] goes to aggregator [p mod n] of the [n] known ones, to its
    external address when it has one, never by the name localhost (which the
    MySQL client would take for a Unix socket); the database, the user, the
    password and the CA stay.  Without aggregators nothing changes. *)
Theorem FillCredentials_spec aggregators p creds :
  0 <= p < 2 ^ 31 -> Z.of_nat (length aggregators) < 2 ^ 31 ->
  let creds' := FillCredentials aggregators p creds in
  (db creds', user creds', password creds', ssl_ca creds') =
    (db creds, user creds, password creds, ssl_ca creds)
  /\ match aggregators !! Z.to_nat (p mod Z.of_nat (length aggregators)) with
     | Some agg =>
         let '(h, pt) := agg_address agg in
         host creds' = tcp_host h /\ port creds' = pt /\ host creds' <> "localhost"%string
     | None => aggregators = [] /\ creds' = creds
     end.
Proof.
  intros Hp Hlen creds'. subst creds'. unfold FillCredentials.
  destruct aggregators as [|a0 rest]; [done|].
  set (l := a0 :: rest) in *. rewrite (wrap_u_small 64) by lia.
  assert (0 < Z.of_nat (length l)) as Hpos by (cbn; lia).
  pose proof (Z.mod_pos_bound p (Z.of_nat (length l)) Hpos).
  rewrite (wrap_s_small 32 eq_refl) by lia.
  destruct (lookup_lt_is_Some_2 l (Z.to_nat (p mod Z.of_nat (length l)))) as [agg Hagg];
    [lia|].
  rewrite Hagg. unfold agg_address, tcp_host.
  assert ((0 <? String.length (externalHost agg))%nat =
          negb (bool_decide (externalHost agg = ""%string))) as ->.
  { by destruct (externalHost agg). }
  case_bool_decide as He; rewrite ?(decide_True _ _ He), ?(decide_False _ _ He);
    cbn [negb]; cbn; case_decide; split_and!; done.
Qed.

Lemma FillCredentials_spec_witness :
  let aggs := [mkAggregatorNode "10.0.0.1" 3306 "" 0;
               mkAggregatorNode "10.0.0.2" 3306 "localhost" 3307] in
  let c := mkCredentials "master" 3306 "d" "u" "p" None in
  let c' := FillCredentials aggs 5 c in
  host c' = "127.0.0.1"%string /\ port c' = 3307 /\ password c' = "p"%string.
Proof.
  intros aggs c c'. assert (Z.of_nat (length aggs) < 2 ^ 31) as Hl by reflexivity.
  destruct (FillCredentials_spec aggs 5 c ltac:(lia) Hl) as (E & Hh & Hp & _).
  split_and!; [exact Hh|exact Hp|exact (f_equal (fun t => snd (fst t)) E)].
Defined.

(** ** The row schema of a result set

    The field types of [mysql.h] that the code names; every other type is
    [MYSQL_TYPE_OTHER]. *)
Inductive enum_field_types :=
  | MYSQL_TYPE_LONG | MYSQL_TYPE_LONGLONG | MYSQL_TYPE_DOUBLE
  | MYSQL_TYPE_STRING | MYSQL_TYPE_VAR_STRING | MYSQL_TYPE_LONG_BLOB
  | MYSQL_TYPE_MEDIUM_BLOB | MYSQL_TYPE_BLOB | MYSQL_TYPE_TINY_BLOB
  | MYSQL_TYPE_DATETIME | MYSQL_TYPE_DATE | MYSQL_TYPE_TIME
  | MYSQL_TYPE_OTHER (code : Z).

#[export] Instance enum_field_types_eq_dec : EqDecision enum_field_types.
Proof. solve_decision. Defined.

(** The members of [MYSQL_FIELD] that the code reads; a name is the buffer
    with its separate length. *)
Record MYSQL_FIELD := mkField {
  fld_name : string;
  fld_name_length : nat;
  fld_org_name : string;
  fld_org_name_length : nat;
  fld_type : enum_field_types;
  fld_length : Z            (* unsigned long *)
}.

(** [strndup (s, n)]: at most [n] bytes, up to a NUL. *)
Fixpoint strndup (s : string) (n : nat) : string :=
  match s, n with
  | String c s, S n =>
      if decide (c = "000"%char) then EmptyString else String c (strndup s n)
  | _, _ => EmptyString
  end.

(** The [switch] over the field's type; [old] is the size that the column had,
    which the cases for variable and unsupported columns leave. *)
Definition field_type (f : MYSQL_FIELD) (old : Z) : ColumnType * Z :=
  match fld_type f with
  | MYSQL_TYPE_LONG => (Int32, 4)
  | MYSQL_TYPE_LONGLONG => (Int64, 8)
  | MYSQL_TYPE_DOUBLE => (Double, 8)
  | MYSQL_TYPE_STRING => (Fixed, s64 (fld_length f))
  | MYSQL_TYPE_VAR_STRING | MYSQL_TYPE_LONG_BLOB | MYSQL_TYPE_MEDIUM_BLOB
  | MYSQL_TYPE_BLOB | MYSQL_TYPE_TINY_BLOB => (Variable_, old)
  | MYSQL_TYPE_DATETIME => (DateTime, 8)
  | MYSQL_TYPE_DATE => (Date, 4)
  | MYSQL_TYPE_TIME => (Time, 8)
  | MYSQL_TYPE_OTHER _ => (Unsupported, old)
  end.

Definition FieldToColumn (useOriginalName : bool) (f : MYSQL_FIELD) (c : Column) : Column :=
  let name :=
    if useOriginalName then strndup (fld_org_name f) (fld_org_name_length f)
    else strndup (fld_name f) (fld_name_length f) in
  let '(t, sz) := field_type f (col_size c) in
  mkColumn t sz name.

(** [rowSchema] comes with its array of columns; an array that is too short is
    written past its end. *)
Fixpoint FieldsToRowSchema (useOriginalName : bool) (fields : list MYSQL_FIELD)
    (column_info : list Column) : outcome exn (list Column) :=
  match fields, column_info with
  | [], _ => Done column_info
  | f :: fields, c :: column_info =>
      rest ← FieldsToRowSchema useOriginalName fields column_info;
      Done (FieldToColumn useOriginalName f c :: rest)
  | _ :: _, [] => Undef "write past the end of ColumnInfo"
  end.

Lemma FieldsToRowSchema_length b fields cols :
  length fields = length cols ->
  exists cols', FieldsToRowSchema b fields cols = Done cols'
    /\ length cols' = length cols
    /\ cols' = zip_with (FieldToColumn b) fields cols.
Proof.
  revert cols. induction fields as [|f fields IH]; intros [|c cols] Hl; try done.
  - by exists [].
  - destruct (IH cols) as (cols' & E & Hl' & ->); [by injection Hl|].
    cbn [FieldsToRowSchema]. rewrite E, Done_bind. eexists. split; [done|]. cbn. auto.
Qed.

(** ** API objects *)

(** [MoveChunk]: the members it copies; [out->variable_offset] stays. *)
Definition MoveChunk (out inn : Chunk) : Chunk :=
  mkChunk (m_ptr inn) (m_size inn) (row_count inn) (consumed_size inn)
    (variable_offset out) (id inn) (partition_id inn).

(** Everything moves but the offset of the variable section. *)
Lemma MoveChunk_members out inn :
  MoveChunk out inn = set_variable_offset (variable_offset out) inn.
Proof. reflexivity. Qed.

Lemma MoveChunk_loses_variable_offset :
  exists out inn, variable_offset (MoveChunk out inn) <> variable_offset inn.
Proof.
  exists (mkChunk [] 0 0 0 0 0 0), (mkChunk [] 0 0 0 8 0 0). by cbn.
Qed.
