(* ===== verification/Memory.v ===== *)
(** Memory that is allocated and freed by hand: a heap of blocks, each with the
    allocation function that made it, the schema objects that [RowSchemaFree]
    takes apart, and the chunks that go from a reader over a queue to the
    caller.  The other files take such objects as values; here are their
    allocations, and that what is freed is what was allocated, once and with
    the right function. *)

From Stdlib Require Import Ascii String.
From stdpp Require Import base list strings numbers gmap tactics.
From stdpp Require Import options.
From S2P Require Import Prelude Schema Utils.

(** ** The heap *)
Definition loc := positive.

(** [malloc] and [strndup]; [new]; [new[]]. *)
Inductive alloc_kind := Malloc | New | NewArray.
#[export] Instance alloc_kind_eq_dec : EqDecision alloc_kind.
Proof. solve_decision. Defined.

(** Bytes, arrays of pointers and of lengths, and the two objects of the API
    that hold a pointer. *)
Inductive contents :=
  | Data (b : bytes)
  | Pointers (l : list (option loc))
  | Longs (l : list Z)
  | SchemaObject (ColumnInfo : option loc) (numColumns : nat)
  | ChunkObject (m_ptr : option loc).

Abbreviation heap := (gmap loc (alloc_kind * contents)).

Definition allocate (k : alloc_kind) (c : contents) (h : heap) : loc * heap :=
  let l := fresh (dom h) in (l, <[l := (k, c)]> h).

(** [free], [delete] and [delete[]]; they accept a null pointer. *)
Definition deallocate (k : alloc_kind) (p : option loc) (h : heap) : outcome exn heap :=
  match p with
  | None => Done h
  | Some l =>
      match h !! l with
      | Some (k', _) =>
          if decide (k = k') then Done (delete l h)
          else Undef "memory freed with the wrong function"
      | None => Undef "memory freed that is not allocated"
      end
  end.

Definition load (p : option loc) (h : heap) : outcome exn (alloc_kind * contents) :=
  match p with
  | None => Undef "access through a null pointer"
  | Some l => match h !! l with Some b => Done b | None => Undef "access to freed memory" end
  end.

(** An element of an array of pointers, read and written. *)
Definition load_pointer (p : option loc) (i : nat) (h : heap) : outcome exn (option loc) :=
  b ← load p h;
  match b.2 with
  | Pointers l => match l !! i with Some q => Done q | None => Undef "index out of the array" end
  | _ => Undef "not an array of pointers"
  end.

Definition store (p : option loc) (c : contents) (h : heap) : outcome exn heap :=
  match p with
  | None => Undef "access through a null pointer"
  | Some l =>
      match h !! l with
      | Some (k, _) => Done (<[l := (k, c)]> h)
      | None => Undef "access to freed memory"
      end
  end.

(** Bytes that are written from the beginning of a block on. *)
Definition store_bytes (p : option loc) (b : bytes) (h : heap) : outcome exn heap :=
  block ← load p h;
  match block.2 with
  | Data old =>
      if (length b <=? length old)%nat then store p (Data (b ++ drop (length b) old)) h
      else Undef "write past the end of the block"
  | _ => Undef "not a block of bytes"
  end.

Definition store_pointer (p : option loc) (i : nat) (q : option loc) (h : heap)
    : outcome exn heap :=
  b ← load p h;
  match b.2 with
  | Pointers l =>
      if (i <? length l)%nat then store p (Pointers (<[i := q]> l)) h
      else Undef "index out of the array"
  | _ => Undef "not an array of pointers"
  end.

Definition store_long (p : option loc) (i : nat) (z : Z) (h : heap) : outcome exn heap :=
  b ← load p h;
  match b.2 with
  | Longs l =>
      if (i <? length l)%nat then store p (Longs (<[i := z]> l)) h
      else Undef "index out of the array"
  | _ => Undef "not an array of lengths"
  end.

Definition load_long (p : option loc) (i : nat) (h : heap) : outcome exn Z :=
  b ← load p h;
  match b.2 with
  | Longs l => match l !! i with Some z => Done z | None => Undef "index out of the array" end
  | _ => Undef "not an array of lengths"
  end.

Lemma allocate_fresh k c h : h !! (allocate k c h).1 = None.
Proof. apply not_elem_of_dom, is_fresh. Qed.

Lemma allocate_spec k c h l h' :
  allocate k c h = (l, h') -> h !! l = None /\ h' = <[l := (k, c)]> h.
Proof. intros E. pose proof (allocate_fresh k c h) as Hf. by injection E as <- <-. Qed.

Lemma deallocate_allocate k c h l h' :
  allocate k c h = (l, h') -> deallocate k (Some l) h' = Done h.
Proof.
  intros [Hl ->]%allocate_spec. unfold deallocate. rewrite lookup_insert_eq.
  rewrite decide_True by done. by rewrite delete_insert_id.
Qed.

(** ** Schema objects

    [memset] has set the array of columns to zero; only the names, which are
    pointers, are kept here. *)
Fixpoint strndup_names (i : nat) (names : list bytes) (columns : option loc) (h : heap)
    : outcome exn heap :=
  match names with
  | [] => Done h
  | name :: names =>
      let '(l, h) := allocate Malloc (Data name) h in
      h ← store_pointer columns i (Some l) h;
      strndup_names (S i) names columns h
  end.

(** The allocations of [S2Connection::GetRowSchema]. *)
Definition new_RowSchema (names : list bytes) (h : heap) : outcome exn (loc * heap) :=
  let n := length names in
  let '(columns, h) := allocate NewArray (Pointers (replicate n None)) h in
  let '(schema, h) := allocate New (SchemaObject (Some columns) n) h in
  h ← strndup_names 0 names (Some columns) h;
  Done (schema, h).

(** The loop over the columns, from column [i] on, with [k] left. *)
Fixpoint free_names (k i : nat) (columns : option loc) (h : heap) : outcome exn heap :=
  match k with
  | O => Done h
  | S k =>
      name ← load_pointer columns i h;
      h ← deallocate Malloc name h;
      free_names k (S i) columns h
  end.

Definition RowSchemaFree (schema : option loc) (h : heap) : outcome exn heap :=
  match schema with
  | None => Done h
  | Some l =>
      b ← load (Some l) h;
      match b.2 with
      | SchemaObject columns n =>
          h ← free_names n 0 columns h;
          h ← deallocate NewArray columns h;
          deallocate New (Some l) h
      | _ => Undef "not a RowSchema"
      end
  end.

(** ** Chunks *)

(** [malloc] and [NewChunk]. *)
Definition new_chunk (buffer : bytes) (h : heap) : loc * heap :=
  let '(ptr, h) := allocate Malloc (Data buffer) h in
  allocate New (ChunkObject (Some ptr)) h.

Definition chunk_ptr (chunk : option loc) (h : heap) : outcome exn (option loc) :=
  b ← load chunk h;
  match b.2 with ChunkObject p => Done p | _ => Undef "not a Chunk" end.

(** [MoveChunk]: the caller's chunk gets the buffer, [in] is deleted. *)
Definition MoveChunk_heap (inn : loc) (h : heap) : outcome exn (option loc * heap) :=
  ptr ← chunk_ptr (Some inn) h;
  h ← deallocate New (Some inn) h;
  Done (ptr, h).

(** [ChunkFree] of a chunk object with the buffer [ptr]. *)
Definition ChunkFree_buffer (ptr : option loc) (h : heap) : outcome exn heap :=
  deallocate Malloc ptr h.
Definition ChunkFree (chunk : option loc) (h : heap) : outcome exn heap :=
  match chunk with
  | None => Done h
  | Some l => ptr ← chunk_ptr (Some l) h; ChunkFree_buffer ptr h
  end.

(** What the destructors of the queues do with a chunk that is left. *)
Definition free_left_chunk (chunk : loc) (h : heap) : outcome exn heap :=
  h ← ChunkFree (Some chunk) h; deallocate New (Some chunk) h.

(** [free (ptr); delete chunk;] of the reading thread. *)
Definition discard_chunk (chunk : loc) (h : heap) : outcome exn heap :=
  ptr ← chunk_ptr (Some chunk) h;
  h ← deallocate Malloc ptr h; deallocate New (Some chunk) h.

(** ** What the operations do to blocks that are there *)
Lemma deallocate_block k c l h :
  h !! l = Some (k, c) -> deallocate k (Some l) h = Done (delete l h).
Proof. intros E. unfold deallocate. rewrite E. by rewrite decide_True. Qed.

Lemma load_pointer_spec l k ps i p h :
  h !! l = Some (k, Pointers ps) -> ps !! i = Some p -> load_pointer (Some l) i h = Done p.
Proof. intros E Hi. unfold load_pointer, load. by rewrite E, Done_bind; cbn; rewrite Hi. Qed.

Lemma load_long_spec l k zs i z h :
  h !! l = Some (k, Longs zs) -> zs !! i = Some z -> load_long (Some l) i h = Done z.
Proof. intros E Hi. unfold load_long, load. by rewrite E, Done_bind; cbn; rewrite Hi. Qed.

Lemma store_pointer_spec l k ps i p h :
  h !! l = Some (k, Pointers ps) -> (i < length ps)%nat ->
  store_pointer (Some l) i p h = Done (<[l := (k, Pointers (<[i := p]> ps))]> h).
Proof.
  intros E Hi. unfold store_pointer, load, store. rewrite E, Done_bind. cbn [snd].
  by apply Nat.ltb_lt in Hi as ->.
Qed.

Lemma store_long_spec l k zs i z h :
  h !! l = Some (k, Longs zs) -> (i < length zs)%nat ->
  store_long (Some l) i z h = Done (<[l := (k, Longs (<[i := z]> zs))]> h).
Proof.
  intros E Hi. unfold store_long, load, store. rewrite E, Done_bind. cbn [snd].
  by apply Nat.ltb_lt in Hi as ->.
Qed.

(** ** The cells of an array

    [cells_at k ps vs frame h]: besides the blocks of [frame], the heap [h] has
    the blocks that the pointers [ps] of an array point to, each made with [k]
    and each pointed to once; [vs] is what they hold.  The array itself is a
    block of the frame. *)
Definition cell_at (k : alloc_kind) (h : heap) (p : option loc) (v : option bytes) : Prop :=
  match p, v with
  | None, None => True
  | Some l, Some b => h !! l = Some (k, Data b)
  | _, _ => False
  end.

Record cells_at (k : alloc_kind) (ps : list (option loc)) (vs : list (option bytes))
    (frame h : heap) : Prop := {
  ca_cells : Forall2 (cell_at k h) ps vs;
  ca_distinct i j l : ps !! i = Some (Some l) -> ps !! j = Some (Some l) -> i = j;
  ca_frame l : Some l ∉ ps -> h !! l = frame !! l;
  ca_fresh l : Some l ∈ ps -> frame !! l = None
}.

Lemma cells_none k n frame : cells_at k (replicate n None) (replicate n None) frame frame.
Proof.
  split.
  - by apply Forall2_replicate.
  - intros i j l [E _]%lookup_replicate. done.
  - done.
  - intros l Hl%list_elem_of_lookup. destruct Hl as (i & [E _]%lookup_replicate). done.
Qed.

Lemma cells_all_none k n ps frame h :
  cells_at k ps (replicate n None) frame h -> h = frame.
Proof.
  intros [Hc _ Hf _]. apply map_eq. intros l. apply Hf. intros (i & Hi)%list_elem_of_lookup.
  destruct (Forall2_lookup_l _ _ _ _ _ Hc Hi) as (v & [-> _]%lookup_replicate & Hv). done.
Qed.

Lemma frame_not_cell k ps vs frame h l b :
  cells_at k ps vs frame h -> frame !! l = Some b -> Some l ∉ ps /\ h !! l = Some b.
Proof.
  intros [_ _ Hf Hn] Hl. assert (Some l ∉ ps) as Hnot.
  { intros Hin. apply Hn in Hin. congruence. }
  split; [done|]. by rewrite Hf.
Qed.

(** A block of the frame may change. *)
Lemma cells_frame k ps vs frame h l b b' :
  cells_at k ps vs frame h -> frame !! l = Some b ->
  cells_at k ps vs (<[l := b']> frame) (<[l := b']> h).
Proof.
  intros Hc Hl. destruct (frame_not_cell _ _ _ _ _ _ _ Hc Hl) as [Hnot _].
  destruct Hc as [Hc Hd Hf Hn]. split; [|done| |].
  - apply Forall2_same_length_lookup_2; [by eapply Forall2_length|]. intros i p v Hp Hv.
    pose proof (Forall2_lookup_lr _ _ _ _ _ _ Hc Hp Hv) as Hcell.
    destruct p as [q|], v as [v|]; try done. cbn in *. rewrite lookup_insert_ne; [done|].
    intros ->. apply Hnot. by eapply list_elem_of_lookup_2.
  - intros q Hq. destruct (decide (q = l)) as [->|Hne]; [by rewrite !lookup_insert_eq|].
    rewrite !lookup_insert_ne by done. by apply Hf.
  - intros q Hq. rewrite lookup_insert_ne; [by apply Hn|]. by intros ->.
Qed.

Lemma cells_other k ps vs h h' i :
  Forall2 (cell_at k h) ps vs -> (forall l, Some l ∈ <[i := None]> ps -> h' !! l = h !! l) ->
  Forall2 (cell_at k h') (<[i := None]> ps) (<[i := None]> vs).
Proof.
  intros Hc Hsame. apply Forall2_same_length_lookup_2.
  { rewrite !length_insert. by eapply Forall2_length. }
  intros j p v Hp Hv.
  destruct (decide (i = j)) as [<-|Hne].
  { apply list_lookup_insert_Some in Hp as [(_ & <- & _)|[? _]]; [|done].
    apply list_lookup_insert_Some in Hv as [(_ & <- & _)|[? _]]; done. }
  assert (Hp' := Hp). assert (Hv' := Hv). rewrite list_lookup_insert_ne in Hp' by done.
  rewrite list_lookup_insert_ne in Hv' by done.
  pose proof (Forall2_lookup_lr _ _ _ _ _ _ Hc Hp' Hv') as Hcell.
  destruct p as [q|], v as [v|]; try done. cbn in *. rewrite Hsame; [done|].
  by eapply list_elem_of_lookup_2.
Qed.

(** A cell is freed. *)
Lemma cells_free k ps vs frame h i p :
  cells_at k ps vs frame h -> ps !! i = Some p ->
  exists h', deallocate k p h = Done h'
    /\ cells_at k (<[i := None]> ps) (<[i := None]> vs) frame h'.
Proof.
  intros [Hc Hd Hf Hn] Hi. destruct (Forall2_lookup_l _ _ _ _ _ Hc Hi) as (v & Hv & Hcell).
  assert (forall l, Some l ∈ <[i := None]> ps -> exists j, j <> i /\ ps !! j = Some (Some l)) as Hin.
  { intros l (j & Hj)%list_elem_of_lookup.
    destruct (decide (i = j)) as [<-|Hne].
    - by apply list_lookup_insert_Some in Hj as [(_ & ? & _)|[? _]].
    - rewrite list_lookup_insert_ne in Hj by done. by exists j. }
  assert (forall l, Some l ∉ <[i := None]> ps -> Some l ∈ ps -> p = Some l) as Hout.
  { intros l Hnot (j & Hj)%list_elem_of_lookup. destruct (decide (i = j)) as [<-|Hne]; [congruence|].
    destruct Hnot. apply list_elem_of_lookup. exists j. by rewrite list_lookup_insert_ne. }
  destruct p as [l|], v as [b|]; try done; cbn in Hcell.
  - exists (delete l h). split; [by eapply deallocate_block|]. split.
    + apply (cells_other k ps vs h); [done|]. intros l' (j & Hne & Hj)%Hin.
      apply lookup_delete_ne. intros ->. by eapply Hne, Hd.
    + intros j j' l' Hj Hj'.
      destruct (decide (i = j)) as [<-|Hne];
        [by apply list_lookup_insert_Some in Hj as [(_ & ? & _)|[? _]]|].
      destruct (decide (i = j')) as [<-|Hne'];
        [by apply list_lookup_insert_Some in Hj' as [(_ & ? & _)|[? _]]|].
      rewrite list_lookup_insert_ne in Hj, Hj' by done. by eapply Hd.
    + intros l' Hl'. destruct (decide (l' = l)) as [->|Hne].
      * rewrite lookup_delete_eq. symmetry. apply Hn. by eapply list_elem_of_lookup_2.
      * rewrite lookup_delete_ne by done. apply Hf. intros Hin'. by injection (Hout _ Hl' Hin').
    + intros l' (j & _ & Hj)%Hin. apply Hn. by eapply list_elem_of_lookup_2.
  - exists h. split; [done|]. rewrite (list_insert_id ps), (list_insert_id vs) by done. by split.
Qed.

(** A null cell gets a new block. *)
Lemma cells_new k ps vs frame h i b l h' :
  cells_at k ps vs frame h -> vs !! i = Some None -> allocate k (Data b) h = (l, h') ->
  cells_at k (<[i := Some l]> ps) (<[i := Some b]> vs) frame h'.
Proof.
  intros [Hc Hd Hf Hn] Hv [Hl ->]%allocate_spec.
  assert (Some l ∉ ps) as Hnew.
  { intros (j & Hj)%list_elem_of_lookup.
    destruct (Forall2_lookup_l _ _ _ _ _ Hc Hj) as ([v|] & _ & Hcell); cbn in Hcell; congruence. }
  assert (i < length ps)%nat as Hi.
  { rewrite (Forall2_length Hc). by eapply lookup_lt_Some. }
  split.
  - apply Forall2_insert; [|cbn; by rewrite lookup_insert_eq].
    apply Forall2_same_length_lookup_2; [by eapply Forall2_length|]. intros j p v Hp Hv'.
    pose proof (Forall2_lookup_lr _ _ _ _ _ _ Hc Hp Hv') as Hcell.
    destruct p as [q|], v as [v|]; try done. cbn in *. rewrite lookup_insert_ne; [done|].
    intros ->. apply Hnew. by eapply list_elem_of_lookup_2.
  - assert (forall j l', <[i := Some l]> ps !! j = Some (Some l') ->
      j = i /\ l' = l \/ j <> i /\ l' <> l /\ ps !! j = Some (Some l')) as Hlook.
    { intros j l' Hj. apply list_lookup_insert_Some in Hj as [(<- & [= ->] & _)|(? & Hj)]; [by left|].
      right. split_and!; [done| |done]. intros ->. apply Hnew. by eapply list_elem_of_lookup_2. }
    intros j j' l' Hj%Hlook Hj'%Hlook. naive_solver.
  - intros l' Hnot. assert (l' <> l) as Hne.
    { intros ->. apply Hnot, list_elem_of_lookup. exists i. by apply list_lookup_insert_eq. }
    rewrite lookup_insert_ne by done. apply Hf. intros (j & Hj)%list_elem_of_lookup.
    destruct (Forall2_lookup_l _ _ _ _ _ Hc Hj) as (v & Hv' & Hcell).
    assert (j <> i) by (intros ->; rewrite Hv in Hv'; by injection Hv' as <-).
    apply Hnot, list_elem_of_lookup. exists j. by rewrite list_lookup_insert_ne.
  - intros l' (j & Hj)%list_elem_of_lookup.
    apply list_lookup_insert_Some in Hj as [(<- & [= ->] & _)|(? & Hj)].
    + rewrite <- Hf; done.
    + apply Hn. by eapply list_elem_of_lookup_2.
Qed.

(** A cell's block is written. *)
Lemma cells_write k ps vs frame h i l b :
  cells_at k ps vs frame h -> ps !! i = Some (Some l) ->
  exists h', store (Some l) (Data b) h = Done h'
    /\ cells_at k ps (<[i := Some b]> vs) frame h'.
Proof.
  intros [Hc Hd Hf Hn] Hi. destruct (Forall2_lookup_l _ _ _ _ _ Hc Hi) as ([v|] & Hv & Hcell);
    [|done].
  cbn in Hcell. exists (<[l := (k, Data b)]> h). split; [unfold store; by rewrite Hcell|].
  split; [|done| |done].
  - apply Forall2_same_length_lookup_2; [rewrite length_insert; by eapply Forall2_length|].
    intros j p v' Hp Hv'. apply list_lookup_insert_Some in Hv' as [(<- & <- & _)|[Hne Hv']].
    + rewrite Hi in Hp. injection Hp as <-. cbn. apply lookup_insert_eq.
    + pose proof (Forall2_lookup_lr _ _ _ _ _ _ Hc Hp Hv') as Hcell'.
      destruct p as [q|], v' as [v'|]; try done. cbn in *. rewrite lookup_insert_ne; [done|].
      intros ->. by eapply Hne, Hd.
  - intros l' Hl'. rewrite lookup_insert_ne; [by apply Hf|].
    intros ->. by eapply Hl', list_elem_of_lookup_2.
Qed.

(** ** Schema objects are freed completely *)
Lemma strndup_names_spec names : forall i ps vs frame h columns,
  cells_at Malloc ps vs frame h -> frame !! columns = Some (NewArray, Pointers ps) ->
  (forall j, (i <= j < length ps)%nat -> vs !! j = Some None) ->
  (i + length names <= length ps)%nat ->
  exists ps' vs' h', strndup_names i names (Some columns) h = Done h'
    /\ length ps' = length ps
    /\ cells_at Malloc ps' vs' (<[columns := (NewArray, Pointers ps')]> frame) h'.
Proof.
  induction names as [|name names IH]; intros i ps vs frame h columns Hc Hcol Hnone Hlen.
  { exists ps, vs, h. split; [done|]. split; [done|]. by rewrite insert_id. }
  cbn [strndup_names length] in *. destruct (allocate Malloc (Data name) h) as [l h1] eqn:El.
  pose proof (cells_new _ _ _ _ _ i name l h1 Hc (Hnone i ltac:(lia)) El) as Hc1.
  destruct (frame_not_cell _ _ _ _ _ _ _ Hc1 Hcol) as [_ Hcol1].
  rewrite (store_pointer_spec _ _ _ _ _ _ Hcol1), Done_bind by lia.
  destruct (IH (S i) (<[i := Some l]> ps) (<[i := Some name]> vs)
    (<[columns := (NewArray, Pointers (<[i := Some l]> ps))]> frame)
    (<[columns := (NewArray, Pointers (<[i := Some l]> ps))]> h1) columns)
    as (ps' & vs' & h' & E & Hl & Hc').
  - by eapply cells_frame.
  - apply lookup_insert_eq.
  - intros j Hj. rewrite length_insert in Hj. rewrite list_lookup_insert_ne by lia. apply Hnone. lia.
  - rewrite length_insert. lia.
  - exists ps', vs', h'. split; [done|]. split; [by rewrite Hl, length_insert|].
    by rewrite insert_insert_eq in Hc'.
Qed.

Lemma free_names_spec k : forall i ps vs aps frame h columns,
  cells_at Malloc ps vs frame h -> frame !! columns = Some (NewArray, Pointers aps) ->
  (i + k)%nat = length aps -> length ps = length aps ->
  (forall j, (i <= j)%nat -> ps !! j = aps !! j) ->
  (forall j, (j < i)%nat -> vs !! j = Some None) ->
  free_names k i (Some columns) h = Done frame.
Proof.
  induction k as [|k IH]; intros i ps vs aps frame h columns Hc Hcol Hk Hl Hps Hvs; cbn [free_names].
  - f_equal. apply (cells_all_none Malloc (length vs) ps). assert (replicate (length vs) None = vs) as ->; [|done].
    apply replicate_as_elem_of. split; [done|].
    intros v (j & Hj)%list_elem_of_lookup. pose proof (lookup_lt_Some _ _ _ Hj) as Hlt.
    rewrite <- (Forall2_length (ca_cells _ _ _ _ _ Hc)) in Hlt. rewrite Hvs in Hj by lia.
    by injection Hj.
  - destruct (lookup_lt_is_Some_2 ps i) as [p Hi]; [lia|].
    destruct (frame_not_cell _ _ _ _ _ _ _ Hc Hcol) as [_ Hcolh].
    assert (aps !! i = Some p) as Hai by (rewrite <- Hps; [done|lia]).
    rewrite (load_pointer_spec _ _ _ _ _ _ Hcolh Hai), Done_bind.
    destruct (cells_free _ _ _ _ _ _ _ Hc Hi) as (h1 & -> & Hc1). rewrite Done_bind.
    apply (IH (S i) _ _ aps _ _ _ Hc1 Hcol).
    + lia.
    + by rewrite length_insert.
    + intros j Hj. rewrite list_lookup_insert_ne by lia. apply Hps. lia.
    + intros j Hj. destruct (decide (j = i)) as [->|Hne].
      * apply list_lookup_insert_eq. rewrite <- (Forall2_length (ca_cells _ _ _ _ _ Hc)). lia.
      * rewrite list_lookup_insert_ne by lia. apply Hvs. lia.
Qed.

(** A schema that is made is freed as a whole: [RowSchemaFree] frees the names,
    the array of the columns and the object, each with the function that
    belongs to its allocation, and leaves the heap as it was. *)
Lemma schema_freed names h :
  exists s h', new_RowSchema names h = Done (s, h') /\ RowSchemaFree (Some s) h' = Done h.
Proof.
  unfold new_RowSchema. set (n := length names).
  destruct (allocate NewArray (Pointers (replicate n None)) h) as [columns h1] eqn:E1.
  destruct (allocate New (SchemaObject (Some columns) n) h1) as [s h2] eqn:E2.
  pose proof (allocate_spec _ _ _ _ _ E1) as [Hcol Eh1].
  pose proof (allocate_spec _ _ _ _ _ E2) as [Hs Eh2].
  assert (s <> columns) as Hne by (intros ->; by rewrite Eh1, lookup_insert_eq in Hs).
  assert (h2 !! columns = Some (NewArray, Pointers (replicate n None))) as Hc2
    by (by rewrite Eh2, lookup_insert_ne, Eh1, lookup_insert_eq).
  destruct (strndup_names_spec names 0 (replicate n None) (replicate n None) h2 h2 columns)
    as (ps & vs & h3 & E3 & Hl & Hc).
  - apply cells_none.
  - done.
  - intros j Hj. rewrite length_replicate in Hj. apply lookup_replicate. split; [done|lia].
  - by rewrite length_replicate.
  - rewrite E3, Done_bind. do 2 eexists. split; [done|]. rewrite length_replicate in Hl.
    unfold RowSchemaFree, load.
    set (frame := <[columns := (NewArray, Pointers ps)]> h2) in *.
    assert (frame !! s = Some (New, SchemaObject (Some columns) n)) as Hfs
      by (unfold frame; by rewrite lookup_insert_ne, Eh2, lookup_insert_eq).
    destruct (frame_not_cell _ _ _ _ _ _ _ Hc Hfs) as [_ ->]. rewrite Done_bind. cbn [snd].
    rewrite (free_names_spec n 0 ps vs ps frame h3 columns Hc), Done_bind; try done;
      [|by unfold frame; rewrite lookup_insert_eq|lia].
    rewrite (deallocate_block NewArray (Pointers ps)), Done_bind
      by (unfold frame; by rewrite lookup_insert_eq).
    unfold frame. rewrite delete_insert_eq, Eh2, delete_insert_ne by done.
    rewrite (deallocate_block New (SchemaObject (Some columns) n)) by apply lookup_insert_eq.
    rewrite delete_insert_eq, Eh1, delete_insert_eq.
    by rewrite !delete_id by (rewrite ?lookup_delete_ne by done; rewrite ?Eh1, ?lookup_insert_ne in Hs; done).
Qed.

(** ** Chunks are freed once *)

(** [chunk] is the object of a chunk with the buffer [ptr]. *)
Definition chunk_at (chunk ptr : loc) (buffer : bytes) (h : heap) : Prop :=
  chunk <> ptr /\ h !! chunk = Some (New, ChunkObject (Some ptr))
  /\ h !! ptr = Some (Malloc, Data buffer).

Lemma new_chunk_spec buffer h chunk h' :
  new_chunk buffer h = (chunk, h') ->
  exists ptr, h !! ptr = None /\ h !! chunk = None /\ chunk_at chunk ptr buffer h'
    /\ h' = <[chunk := (New, ChunkObject (Some ptr))]> (<[ptr := (Malloc, Data buffer)]> h).
Proof.
  unfold new_chunk. destruct (allocate Malloc (Data buffer) h) as [ptr h1] eqn:E1.
  intros [Hc ->]%allocate_spec. apply allocate_spec in E1 as [Hp ->]. exists ptr.
  assert (chunk <> ptr) as Hne by (intros ->; by rewrite lookup_insert_eq in Hc).
  rewrite lookup_insert_ne in Hc by done.
  split_and!; [done|done| |done]. split; [done|]. split; [apply lookup_insert_eq|].
  rewrite lookup_insert_ne by done. apply lookup_insert_eq.
Qed.

Lemma chunk_ptr_spec chunk ptr buffer h :
  chunk_at chunk ptr buffer h -> chunk_ptr (Some chunk) h = Done (Some ptr).
Proof. intros (_ & E & _). unfold chunk_ptr, load. by rewrite E, Done_bind. Qed.

Lemma free_left_chunk_spec chunk ptr buffer h :
  chunk_at chunk ptr buffer h -> free_left_chunk chunk h = Done (delete chunk (delete ptr h)).
Proof.
  intros Hc. unfold free_left_chunk, ChunkFree, ChunkFree_buffer.
  rewrite (chunk_ptr_spec _ _ _ _ Hc), Done_bind. destruct Hc as (Hne & Ec & Ep).
  rewrite (deallocate_block Malloc (Data buffer)), Done_bind by done.
  apply (deallocate_block New (ChunkObject (Some ptr))). by rewrite lookup_delete_ne.
Qed.

Lemma discard_chunk_spec chunk ptr buffer h :
  chunk_at chunk ptr buffer h -> discard_chunk chunk h = Done (delete chunk (delete ptr h)).
Proof.
  intros Hc. unfold discard_chunk. rewrite (chunk_ptr_spec _ _ _ _ Hc), Done_bind.
  destruct Hc as (Hne & Ec & Ep).
  rewrite (deallocate_block Malloc (Data buffer)), Done_bind by done.
  apply (deallocate_block New (ChunkObject (Some ptr))). by rewrite lookup_delete_ne.
Qed.

Lemma MoveChunk_heap_spec chunk ptr buffer h :
  chunk_at chunk ptr buffer h -> MoveChunk_heap chunk h = Done (Some ptr, delete chunk h).
Proof.
  intros Hc. unfold MoveChunk_heap. rewrite (chunk_ptr_spec _ _ _ _ Hc), Done_bind.
  destruct Hc as (Hne & Ec & Ep). by rewrite (deallocate_block _ _ _ _ Ec), Done_bind.
Qed.

(** The heap without the chunk is the heap before it. *)
Lemma delete_new_chunk chunk ptr (b b' : alloc_kind * contents) (h : heap) :
  chunk <> ptr -> h !! ptr = None -> h !! chunk = None ->
  delete chunk (delete ptr (<[chunk := b]> (<[ptr := b']> h))) = h.
Proof.
  intros Hne Hp Hc. apply map_eq. intros l.
  destruct (decide (l = chunk)) as [->|]; [by rewrite lookup_delete_eq|].
  rewrite lookup_delete_ne by done.
  destruct (decide (l = ptr)) as [->|]; [by rewrite lookup_delete_eq|].
  by rewrite lookup_delete_ne, !lookup_insert_ne by done.
Qed.

(** C30. The objects that the library hands out are freed completely and once.
    What [RowSchemaFree] frees is a whole schema object: the names, the array of
    the columns, the object, each with the function that belongs to its
    allocation.  A chunk is freed by whoever has it: by the reader that finds it
    empty, by the destructor of the queue, or by the caller: [MoveChunk] deletes
    the object and hands over the buffer, which [ChunkFree] frees. *)
Theorem api_objects_freed names buffer h :
  (exists s h1, new_RowSchema names h = Done (s, h1) /\ RowSchemaFree (Some s) h1 = Done h)
  /\ RowSchemaFree None h = Done h
  /\ let '(c, h1) := new_chunk buffer h in
     discard_chunk c h1 = Done h
     /\ free_left_chunk c h1 = Done h
     /\ exists ptr h2, MoveChunk_heap c h1 = Done (ptr, h2)
          /\ h2 !! c = None /\ ChunkFree_buffer ptr h2 = Done h.
Proof.
  split; [apply schema_freed|]. split; [done|].
  destruct (new_chunk buffer h) as [c h1] eqn:E.
  destruct (new_chunk_spec _ _ _ _ E) as (ptr & Hp & Hc & Hat & Eh).
  assert (delete c (delete ptr h1) = h) as Eh'.
  { rewrite Eh. apply delete_new_chunk; [by destruct Hat|done..]. }
  split; [by rewrite (discard_chunk_spec _ _ _ _ Hat), Eh'|].
  split; [by rewrite (free_left_chunk_spec _ _ _ _ Hat), Eh'|].
  exists (Some ptr), (delete c h1). rewrite (MoveChunk_heap_spec _ _ _ _ Hat).
  split; [done|]. split; [apply lookup_delete_eq|].
  unfold ChunkFree_buffer. destruct Hat as (Hne & _ & Ep).
  rewrite (deallocate_block Malloc (Data buffer)) by (by rewrite lookup_delete_ne).
  by rewrite delete_delete, Eh'.
Qed.
