(* ===== verification/Explain.v ===== *)
(** The parser of EXPLAIN texts of [utils.cpp] ([ExplainToRowSchema] with
    [ShowColumnsToRowSchemaHelper] and [FieldDefSplit]): the row schema of a
    query from the column list that EXPLAIN ... CREATE RESULT TABLE prints.

    A [std::string] that is indexed and searched is the list of its characters
    here; [size_t] arithmetic wraps, [npos] included.  The loops of the parser
    get as much fuel as there are positions: [parse_fuel_exact] shows that a
    loop which needs more never ends, [explain_loops] on which texts the loops
    end and on which they do not. *)

From Stdlib Require Import Ascii String.
From stdpp Require Import base list strings numbers finite tactics.
From stdpp Require Import options.
From S2P Require Import Prelude Schema Text Utils.

(** ** [std::string] *)
Definition npos : Z := 2 ^ 64 - 1.
Definition size (s : bytes) : Z := Z.of_nat (length s).

(** A literal. *)
Definition lit_bytes (s : string) : bytes := list_ascii_of_string s.

(** The first position at which [pat] occurs. *)
Fixpoint search (pat s : bytes) : option nat :=
  if bool_decide (take (length pat) s = pat) then Some 0%nat
  else match s with [] => None | _ :: s => Datatypes.S <$> search pat s end.

(** [s.find (pat, pos)]. *)
Definition find (pat s : bytes) (pos : Z) : Z :=
  if pos <=? size s then
    match search pat (drop (Z.to_nat pos) s) with
    | Some i => pos + Z.of_nat i
    | None => npos
    end
  else npos.

Definition find_char (c : ascii) (s : bytes) (pos : Z) : Z := find [c] s pos.

(** [s[i]]: the character after the last one is NUL. *)
Definition char_at (s : bytes) (i : Z) : outcome exn ascii :=
  if (0 <=? i) && (i <=? size s) then Done (default "000"%char (s !! Z.to_nat i))
  else Undef "index out of the string".

Definition substr (s : bytes) (pos len : Z) : outcome exn bytes :=
  if size s <? pos then Throw (OutOfRange "basic_string::substr")
  else Done (take (Z.to_nat (Z.min len (size s - pos))) (drop (Z.to_nat pos) s)).

(** [!s.compare (0, n, literal, 0, n)]. *)
Definition same_head (n : nat) (s : bytes) (literal : string) : bool :=
  bool_decide (take n s = take n (lit_bytes literal)).

Definition contains (pat s : bytes) : bool := bool_decide (is_Some (search pat s)).

Definition lower (s : bytes) : bytes := tolower <$> s.

Definition stoi (s : bytes) : outcome exn Z :=
  match read_int (string_of_list_ascii s) with
  | None => Throw (InvalidArgument "stoi")
  | Some (z, _) =>
      if (- 2 ^ 31 <=? z) && (z <? 2 ^ 31) then Done z else Throw (OutOfRange "stoi")
  end.

(** [strndup (s.c_str () + pos, len)], as the NUL-terminated text it makes. *)
Definition strndup_at (s : bytes) (pos len : Z) : outcome exn string :=
  if size s <? pos then Undef "read past the end of the string"
  else Done (strndup (string_of_list_ascii (drop (Z.to_nat pos) s))
               (Z.to_nat (Z.min len (size s)))).

(** ** Loops that move through a text *)

(** [step] from a position gives what the iteration collects and the next
    position, or that the loop ends here. *)
Fixpoint collect {A} (step : Z -> outcome exn (option (A * Z))) (fuel : nat) (pos : Z)
    : outcome exn (list A * Z) :=
  match fuel with
  | O => Undef "the loop does not end"
  | S fuel =>
      r ← step pos;
      match r with
      | None => Done ([], pos)
      | Some (a, pos) =>
          '((l, pos) : list A * Z) ← collect step fuel pos; Done (a :: l, pos)
      end
  end.

Definition parse_fuel (s : bytes) : nat := Datatypes.S (Datatypes.S (length s)).

(** ** The parser *)
Record FieldDefSplit := mkFieldDefSplit {
  name_start : Z;
  name_end : Z;
  type_start : Z;
  type_end : Z;
  field_end : Z
}.

Abbreviation backtick := "096"%char.

(** One test of the inner loop: a doubled backtick belongs to the name. *)
Definition backtick_step (s : bytes) (name_last_backtick : Z)
    : outcome exn (option (unit * Z)) :=
  c ← char_at s (u64 (name_last_backtick + 1));
  if decide (c = backtick)
  then Done (Some (tt, find_char backtick s (u64 (name_last_backtick + 2))))
  else Done None.

(** One field; [field_end_idx] is the end of the field before. *)
Definition field_step (s : bytes) (end_idx field_end_idx : Z)
    : outcome exn (option (FieldDefSplit * Z)) :=
  if field_end_idx <? end_idx then
    let name_start := u64 (find_char backtick s field_end_idx + 1) in
    '((_, name_last_backtick) : list unit * Z)
      ← collect (backtick_step s) (parse_fuel s) (find_char backtick s name_start);
    let name_end := u64 (name_last_backtick - 1) in
    let type_start := u64 (name_end + 3) in
    let type_end := find_char " " s type_start in
    let field_end_idx := find_char "," s type_end in
    let field_end_idx := if decide (field_end_idx = npos) then end_idx else field_end_idx in
    Done (Some (mkFieldDefSplit name_start name_end type_start type_end field_end_idx,
                field_end_idx))
  else Done None.

(** The types whose columns have no fixed size. *)
Definition is_variable_type (col_type : bytes) : bool :=
  same_head 7 col_type "varchar" || same_head 9 col_type "varbinary"
  || same_head 8 col_type "longtext" || same_head 8 col_type "longblob"
  || same_head 10 col_type "mediumblob" || same_head 4 col_type "blob"
  || same_head 8 col_type "tinyblob" || same_head 10 col_type "mediumtext"
  || same_head 4 col_type "text" || same_head 8 col_type "tinytext".

(** Type and size of the column of [f]; [junk] is what the new array of
    columns had as its size. *)
Definition column_type (s : bytes) (junk : Z) (f : FieldDefSplit)
    : outcome exn (ColumnType * Z) :=
  col_type ← substr s (type_start f) (u64 (type_end f - type_start f + 1));
  let col_type := lower col_type in
  if same_head 6 col_type "bigint" then Done (Int64, 8)
  else if same_head 3 col_type "int" then Done (Int32, 4)
  else if same_head 6 col_type "double" then Done (Double, 8)
  else if same_head 8 col_type "datetime(6)" then Done (DateTime, 8)
  else if same_head 4 col_type "date" then Done (Date, 4)
  else if same_head 4 col_type "time" then Done (Time, 8)
  else if same_head 6 col_type "binary" then
    digits ← substr s (u64 (type_start f + 7)) (u64 (type_end f - type_start f - 8));
    n ← stoi digits;
    Done (Fixed, n)
  else if same_head 4 col_type "char" then
    digits ← substr s (u64 (type_start f + 5)) (u64 (type_end f - type_start f - 6));
    size_in_char ← stoi digits;
    collation_part ← substr s (type_end f) (u64 (field_end f - type_end f + 1));
    let char_size := if contains (lit_bytes "utf8mb4") (lower collation_part) then 4 else 3 in
    if (- 2 ^ 31 <=? size_in_char * char_size) && (size_in_char * char_size <? 2 ^ 31)
    then Done (Fixed, size_in_char * char_size)
    else Undef "signed overflow of the size"
  else if is_variable_type col_type then Done (Variable_, 0)
  else Done (Unsupported, junk).

Definition field_column (s : bytes) (junk : Z) (f : FieldDefSplit) : outcome exn Column :=
  name ← strndup_at s (name_start f) (u64 (name_end f - name_start f + 1));
  '((t, sz) : ColumnType * Z) ← column_type s junk f;
  Done (mkColumn t sz name).

Fixpoint ShowColumnsToRowSchemaHelper (s : bytes) (junk : Z) (fieldDefs : list FieldDefSplit)
    : outcome exn (list Column) :=
  match fieldDefs with
  | [] => Done []
  | f :: fieldDefs =>
      c ← field_column s junk f;
      cs ← ShowColumnsToRowSchemaHelper s junk fieldDefs;
      Done (c :: cs)
  end.

Definition ExplainToRowSchema (explainStr : string) (junk : Z) : outcome exn RowSchema :=
  let s := lit_bytes explainStr in
  let show_columns_idx := find (lit_bytes " show_columns:[") s 0 in
  let start_idx := find_char "[" s show_columns_idx in
  let end_idx := find (lit_bytes "NULL] ") s show_columns_idx in
  '((field_defs, _) : list FieldDefSplit * Z)
    ← collect (field_step s end_idx) (parse_fuel s) start_idx;
  cols ← ShowColumnsToRowSchemaHelper s junk field_defs;
  Done (mkRowSchema cols).

(** ** Searching *)
Lemma search_here pat rest : search pat (pat ++ rest) = Some 0%nat.
Proof.
  destruct (pat ++ rest) eqn:E; cbn; rewrite <- E, take_app_length;
    by rewrite bool_decide_true.
Qed.

Lemma search_char c mid rest :
  c ∉ mid -> search [c] (mid ++ c :: rest) = Some (length mid).
Proof.
  induction mid as [|x mid IH]; intros Hc; [apply (search_here [c])|].
  apply not_elem_of_cons in Hc as [Hne Hc]. cbn.
  rewrite bool_decide_false by congruence. by rewrite IH.
Qed.

Lemma search_char_none c s : c ∉ s -> search [c] s = None.
Proof.
  induction s as [|x s IH]; intros Hc; [done|].
  apply not_elem_of_cons in Hc as [Hne Hc]. cbn.
  rewrite bool_decide_false by congruence. by rewrite IH.
Qed.

(** An occurrence that is the first one to be complete is found. *)
Lemma search_first q z mid rest :
  search (q ++ [z]) (mid ++ q) = None ->
  search (q ++ [z]) (mid ++ q ++ z :: rest) = Some (length mid).
Proof.
  intros Hn. assert (q ++ z :: rest = (q ++ [z]) ++ rest) as -> by by rewrite <- app_assoc.
  induction mid as [|x mid IH]; [exact (search_here (q ++ [z]) rest)|].
  cbn [app search] in *. case_bool_decide as Hne; [done|].
  rewrite bool_decide_false.
  - rewrite IH; [done|]. by destruct (search _ (mid ++ q)).
  - intros E. apply Hne. rewrite <- E at 2.
    rewrite length_app. cbn [length]. rewrite Nat.add_1_r. cbn.
    f_equal. rewrite <- app_assoc, app_assoc.
    by rewrite (take_app_le (mid ++ q)) by (rewrite length_app; lia).
Qed.

Lemma find_from pat P X :
  find pat (P ++ X) (size P) =
  match search pat X with Some i => size P + Z.of_nat i | None => npos end.
Proof.
  unfold find, size. rewrite length_app, Nat2Z.id, drop_app_length.
  destruct (Z.leb_spec (Z.of_nat (length P)) (Z.of_nat (length P + length X))); [done|lia].
Qed.

Lemma find_char_from c P mid rest :
  c ∉ mid -> find_char c (P ++ mid ++ c :: rest) (size P) = size (P ++ mid).
Proof.
  intros Hc. unfold find_char. rewrite find_from, search_char by done.
  unfold size. rewrite length_app. lia.
Qed.

Lemma size_app s t : size (s ++ t) = size s + size t.
Proof. unfold size. rewrite length_app. lia. Qed.

Lemma size_cons c s : size (c :: s) = 1 + size s.
Proof. unfold size. cbn [length]. lia. Qed.

Lemma size_nil : size [] = 0.
Proof. reflexivity. Qed.

Lemma size_nonneg s : 0 <= size s.
Proof. unfold size. lia. Qed.

Lemma substr_middle P m R len :
  len = size m -> substr (P ++ m ++ R) (size P) len = Done m.
Proof.
  intros ->. unfold substr. rewrite !size_app.
  pose proof (size_nonneg m). pose proof (size_nonneg R).
  destruct (Z.ltb_spec (size P + (size m + size R)) (size P)); [lia|].
  rewrite Z.min_l by lia. unfold size. rewrite !Nat2Z.id.
  by rewrite drop_app_length, take_app_length.
Qed.

Lemma char_at_middle P c R : char_at (P ++ c :: R) (size P) = Done c.
Proof.
  unfold char_at. rewrite size_app, size_cons.
  pose proof (size_nonneg P). pose proof (size_nonneg R).
  rewrite (proj2 (Z.leb_le _ _)), (proj2 (Z.leb_le _ _)) by lia. cbn [andb].
  unfold size. rewrite Nat2Z.id, lookup_app_r, Nat.sub_diag by lia. done.
Qed.

(** ** Names

    EXPLAIN shows a name between backticks, a backtick inside doubled. *)
Fixpoint escaped (name : bytes) : bytes :=
  match name with
  | [] => []
  | c :: name => if decide (c = backtick) then c :: c :: escaped name else c :: escaped name
  end.

Lemma length_escaped name : (length name <= length (escaped name))%nat.
Proof. induction name as [|c name IH]; cbn; [done|]. case_decide; cbn; lia. Qed.

Lemma find_char_skip c P x X :
  x <> c -> find_char c (P ++ x :: X) (size P) = find_char c ((P ++ [x]) ++ X) (size (P ++ [x])).
Proof.
  intros Hne. unfold find_char. rewrite !find_from. cbn [search].
  rewrite bool_decide_false by (cbn; congruence).
  destruct (search [c] X); cbn; [|done]. rewrite size_app, size_cons, size_nil. lia.
Qed.

Lemma backtick_step_at s P c R :
  s = P ++ backtick :: c :: R -> size s < 2 ^ 63 ->
  backtick_step s (size P) =
  if decide (c = backtick)
  then Done (Some (tt, find_char backtick s (size (P ++ [backtick; c])))) else Done None.
Proof.
  intros -> Hlt. unfold backtick_step.
  pose proof (size_nonneg P). pose proof (size_nonneg R).
  rewrite size_app, !size_cons in Hlt. rewrite !(wrap_u_small 64) by lia.
  replace (size P + 1) with (size (P ++ [backtick])) by (rewrite size_app; done).
  replace (size P + 2) with (size (P ++ [backtick; c])) by (rewrite size_app; done).
  replace (P ++ backtick :: c :: R) with ((P ++ [backtick]) ++ c :: R) at 1
    by (by rewrite <- app_assoc).
  by rewrite char_at_middle, Done_bind.
Qed.

Lemma find_char_here c P X : find_char c (P ++ c :: X) (size P) = size P.
Proof.
  change (c :: X) with ([] ++ c :: X).
  rewrite find_char_from by apply not_elem_of_nil. by rewrite app_nil_r.
Qed.

(** The inner loop goes on to the backtick that closes the name. *)
Lemma backtick_loop s P name rest fuel :
  s = P ++ escaped name ++ backtick :: " "%char :: rest ->
  size s < 2 ^ 63 -> (length name < fuel)%nat ->
  exists l, collect (backtick_step s) fuel (find_char backtick s (size P)) =
    Done (l, size (P ++ escaped name)).
Proof.
  revert P fuel. induction name as [|c name IH]; intros P fuel Hs Hlt Hf.
  - destruct fuel as [|fuel]; [cbn in Hf; lia|]. exists [].
    rewrite Hs at 2. cbn [escaped app]. rewrite find_char_here. cbn [collect].
    rewrite (backtick_step_at _ _ _ _ Hs Hlt), decide_False by done.
    by rewrite Done_bind, app_nil_r.
  - cbn [escaped] in *. destruct (decide (c = backtick)) as [->|Hne].
    + destruct fuel as [|fuel]; [cbn in Hf; lia|].
      destruct (IH (P ++ [backtick; backtick]) fuel) as [l El];
        [by rewrite Hs, <- !app_assoc|done|cbn in Hf; lia|].
      exists (tt :: l). rewrite Hs at 2. cbn [app]. rewrite find_char_here. cbn [collect].
      rewrite (backtick_step_at _ _ _ _ Hs Hlt), decide_True by done.
      rewrite Done_bind. cbv beta iota. rewrite El, Done_bind. cbv beta iota.
      by rewrite <- app_assoc.
    + destruct (IH (P ++ [c]) fuel) as [l El];
        [by rewrite Hs, <- app_assoc|done|cbn in Hf; lia|].
      exists l.
      assert (find_char backtick s (size P) = find_char backtick s (size (P ++ [c]))) as ->.
      { rewrite Hs. cbn [app]. rewrite find_char_skip by done. by rewrite <- app_assoc. }
      rewrite El. by rewrite <- app_assoc.
Qed.

(** ** Types *)
Inductive lob :=
  | tinyblob | blob | mediumblob | longblob | tinytext | text | mediumtext | longtext.

Definition lob_text (k : lob) : string :=
  match k with
  | tinyblob => "tinyblob" | blob => "blob" | mediumblob => "mediumblob"
  | longblob => "longblob" | tinytext => "tinytext" | text => "text"
  | mediumtext => "mediumtext" | longtext => "longtext"
  end.

(** The types of the server, with their lengths. *)
Inductive sql_type :=
  | TBigint (width : Z) | TInt (width : Z) | TDouble
  | TDatetime (micros : bool) | TDate | TTime (micros : bool) | TTimestamp (micros : bool)
  | TBinary (n : Z) | TChar (n : Z) | TVarchar (n : Z) | TVarbinary (n : Z) | TLob (k : lob)
  | TTinyint (width : Z) | TDecimal (m d : Z) | TFloat | TJson.

Definition dec (n : Z) : bytes := lit_bytes (to_string n).
Definition sized (name : string) (n : Z) : bytes := lit_bytes name ++ "("%char :: dec n ++ [")"%char].
Definition with_micros (name : string) (micros : bool) : bytes :=
  lit_bytes name ++ if micros then lit_bytes "(6)" else [].

Definition type_text (t : sql_type) : bytes :=
  match t with
  | TBigint w => sized "bigint" w
  | TInt w => sized "int" w
  | TDouble => lit_bytes "double"
  | TDatetime micros => with_micros "datetime" micros
  | TDate => lit_bytes "date"
  | TTime micros => with_micros "time" micros
  | TTimestamp micros => with_micros "timestamp" micros
  | TBinary n => sized "binary" n
  | TChar n => sized "char" n
  | TVarchar n => sized "varchar" n
  | TVarbinary n => sized "varbinary" n
  | TLob k => lit_bytes (lob_text k)
  | TTinyint w => sized "tinyint" w
  | TDecimal m d => lit_bytes "decimal(" ++ dec m ++ ","%char :: dec d ++ [")"%char]
  | TFloat => lit_bytes "float"
  | TJson => lit_bytes "json"
  end.

(** The lengths of fixed types fit the integers that hold the sizes. *)
Definition fixed_fits (t : sql_type) : Prop :=
  match t with
  | TBinary n => 0 <= n < 2 ^ 31
  | TChar n => 0 <= n /\ 4 * n < 2 ^ 31
  | _ => True
  end.

(** The column of each type; [wide]: whether its characters take four bytes. *)
Definition type_column (junk : Z) (t : sql_type) (wide : bool) : ColumnType * Z :=
  match t with
  | TBigint _ => (Int64, 8)
  | TInt _ => (Int32, 4)
  | TDouble => (Double, 8)
  | TDatetime _ => (DateTime, 8)
  | TDate => (Date, 4)
  | TTime _ | TTimestamp _ => (Time, 8)
  | TBinary n => (Fixed, n)
  | TChar n => (Fixed, n * if wide then 4 else 3)
  | TVarchar _ | TVarbinary _ | TLob _ => (Variable_, 0)
  | TTinyint _ | TDecimal _ _ | TFloat | TJson => (Unsupported, junk)
  end.

Lemma stoi_dec n : 0 <= n < 2 ^ 31 -> stoi (dec n) = Done n.
Proof.
  intros Hn. unfold stoi, dec, lit_bytes. rewrite string_of_list_ascii_of_string.
  pose proof (read_int_to_string n EmptyString eq_refl) as E. rewrite app_nil_r_s in E.
  rewrite E. cbv beta iota.
  rewrite (proj2 (Z.leb_le _ _)), (proj2 (Z.ltb_lt _ _)) by lia. done.
Qed.

Lemma substr_digits s P name n R off cut f :
  s = P ++ sized name n ++ R -> size s < 2 ^ 63 ->
  type_start f = size P -> type_end f = size (P ++ sized name n) ->
  off = size (lit_bytes name) + 1 -> cut = off + 1 ->
  substr s (u64 (type_start f + off)) (u64 (type_end f - type_start f - cut)) = Done (dec n).
Proof.
  intros -> Hlt Hts Hte -> ->.
  set (name' := lit_bytes name) in *.
  assert (P ++ sized name n ++ R = (P ++ name' ++ ["("%char]) ++ dec n ++ ")"%char :: R) as E.
  { unfold sized. fold name'. by rewrite <- !app_assoc; cbn; rewrite <- !app_assoc. }
  assert (size (sized name n) = size name' + 2 + size (dec n)) as Hs.
  { unfold sized. fold name'. rewrite size_app, size_cons, size_app, size_cons, size_nil. lia. }
  pose proof (size_nonneg name'). pose proof (size_nonneg (dec n)).
  pose proof (size_nonneg P). pose proof (size_nonneg R).
  rewrite Hts, Hte. rewrite !size_app in *. rewrite !(wrap_u_small 64) by lia. rewrite E.
  replace (size P + (size name' + 1)) with (size (P ++ name' ++ ["("%char]))
    by (rewrite !size_app; done).
  apply substr_middle. lia.
Qed.

Lemma column_type_shown s P t R junk f coll :
  s = P ++ type_text t ++ " "%char :: R -> size s < 2 ^ 63 -> fixed_fits t ->
  type_start f = size P -> type_end f = size (P ++ type_text t) ->
  substr s (type_end f) (u64 (field_end f - type_end f + 1)) = Done coll ->
  column_type s junk f = Done (type_column junk t (contains (lit_bytes "utf8mb4") (lower coll))).
Proof.
  intros Hs Hlt Hfits Hts Hte Hcoll. unfold column_type.
  assert (substr s (type_start f) (u64 (type_end f - type_start f + 1))
          = Done (type_text t ++ [" "%char])) as ->.
  { pose proof (size_nonneg P). pose proof (size_nonneg R). pose proof (size_nonneg (type_text t)).
    rewrite Hs, !size_app, size_cons in Hlt.
    rewrite Hts, Hte, size_app, (wrap_u_small 64) by lia.
    assert (s = P ++ (type_text t ++ [" "%char]) ++ R) as -> by (by rewrite Hs, <- app_assoc).
    apply substr_middle. rewrite size_app, size_cons, size_nil. lia. }
  rewrite Done_bind. cbv beta iota zeta.
  destruct t as [w|w| |[]| |[]|[]|n|n|n|n|[]|w|m d| |]; try reflexivity.
  - transitivity (digits ← substr s (u64 (type_start f + 7)) (u64 (type_end f - type_start f - 8));
                  m ← stoi digits; @Done exn _ (Fixed, m)); [reflexivity|].
    rewrite (substr_digits s P "binary" n (" "%char :: R)) by done.
    by rewrite Done_bind, stoi_dec, Done_bind.
  - transitivity (digits ← substr s (u64 (type_start f + 5)) (u64 (type_end f - type_start f - 6));
                  m ← stoi digits;
                  coll ← substr s (type_end f) (u64 (field_end f - type_end f + 1));
                  let k := if contains (lit_bytes "utf8mb4") (lower coll) then 4 else 3 in
                  if (- 2 ^ 31 <=? m * k) && (m * k <? 2 ^ 31) then @Done exn _ (Fixed, m * k)
                  else Undef "signed overflow of the size"); [reflexivity|].
    destruct Hfits as [Hn H4].
    rewrite (substr_digits s P "char" n (" "%char :: R)) by done.
    rewrite Done_bind, stoi_dec, Done_bind, Hcoll, Done_bind by lia. cbv zeta.
    rewrite (proj2 (Z.leb_le _ _)), (proj2 (Z.ltb_lt _ _)); [done|case_match; lia..].
Qed.

(** ** The text of a column

    A column is shown as its name between backticks, its type, and what follows
    the type (character set, collation), which ends in NULL. *)
Record shown := mkShown { sh_name : string; sh_type : sql_type; sh_attrs : string }.

Definition field_head (c : shown) : bytes :=
  backtick :: escaped (lit_bytes (sh_name c)) ++ backtick :: " "%char :: type_text (sh_type c)
  ++ " "%char :: lit_bytes (sh_attrs c).

Abbreviation NULL := (lit_bytes "NULL").
Abbreviation end_marker := (lit_bytes "NULL] ").
Abbreviation show_marker := (lit_bytes " show_columns:[").

(** The columns up to the NULL of the last one. *)
Fixpoint columns_head (c : shown) (cols : list shown) : bytes :=
  match cols with
  | [] => field_head c
  | c' :: cols => field_head c ++ NULL ++ lit_bytes ", " ++ columns_head c' cols
  end.

Definition explain_text (pre : bytes) (c : shown) (cols : list shown) (post : bytes) : bytes :=
  pre ++ show_marker ++ columns_head c cols ++ end_marker ++ post.

(** What follows a column, when [cols] are the columns after it. *)
Fixpoint tail_text (cols : list shown) (post : bytes) : bytes :=
  match cols with
  | [] => lit_bytes "] " ++ post
  | c :: cols => lit_bytes ", " ++ field_head c ++ NULL ++ tail_text cols post
  end.

Lemma columns_head_tail c cols post :
  columns_head c cols ++ end_marker ++ post = field_head c ++ NULL ++ tail_text cols post.
Proof.
  revert c. induction cols as [|c' cols IH]; intros c; [done|].
  cbn [columns_head tail_text]. rewrite <- !app_assoc. by rewrite IH.
Qed.

(** What the parser takes as the character set part of a column: up to the
    next comma; without one, up to the first letter of the last NULL. *)
Definition collation_part (c : shown) (rest : bytes) : bytes :=
  " "%char :: lit_bytes (sh_attrs c) ++
  match search [","%char] rest with
  | Some i => NULL ++ take (Datatypes.S i) rest
  | None => ["N"%char]
  end.

Definition is_wide (c : shown) (rest : bytes) : bool :=
  contains (lit_bytes "utf8mb4") (lower (collation_part c rest)).

Definition shown_column (junk : Z) (c : shown) (rest : bytes) : Column :=
  let '(t, sz) := type_column junk (sh_type c) (is_wide c rest) in
  mkColumn t sz (string_of_list_ascii (escaped (lit_bytes (sh_name c)))).

Fixpoint shown_columns (junk : Z) (c : shown) (cols : list shown) (post : bytes) : list Column :=
  shown_column junk c (tail_text cols post)
  :: match cols with [] => [] | c' :: cols => shown_columns junk c' cols post end.

Record shown_ok (c : shown) : Prop := {
  shown_name : "000"%char ∉ lit_bytes (sh_name c);
  shown_attrs : ","%char ∉ lit_bytes (sh_attrs c);
  shown_fits : fixed_fits (sh_type c)
}.

Lemma all_chars_not p s c : all_chars p s = true -> p c = false -> c ∉ lit_bytes s.
Proof.
  intros Hs Hc. induction s as [|x s IH]; cbn in *; [apply not_elem_of_nil|].
  apply andb_prop in Hs as [Hx Hs]. apply not_elem_of_cons. split; [congruence|auto].
Qed.

Lemma dec_no_space n : " "%char ∉ dec n.
Proof.
  apply (all_chars_not (fun c => negb (bool_decide (c = " "%char)))); [|done].
  apply all_chars_to_string; [|done].
  by intros [[] [] [] [] [] [] [] []].
Qed.

Lemma type_no_space t : " "%char ∉ type_text t.
Proof.
  pose proof dec_no_space as Hd.
  destruct t as [w|w| |[]| |[]|[]|n|n|n|n|[]|w|m d| |]; cbn [type_text];
    unfold sized, with_micros;
    rewrite ?not_elem_of_app, ?not_elem_of_cons, ?not_elem_of_app, ?not_elem_of_cons, ?not_elem_of_app;
    split_and?; first [apply Hd | by apply (bool_decide_unpack _); vm_compute | done].
Qed.

Lemma escaped_elem x name : x ∈ escaped name -> x ∈ name.
Proof.
  induction name as [|c name IH]; cbn; [done|].
  case_decide; rewrite !elem_of_cons; naive_solver.
Qed.

Lemma strndup_app l R :
  "000"%char ∉ l -> strndup (string_of_list_ascii (l ++ R)) (length l) = string_of_list_ascii l.
Proof.
  induction l as [|c l IH]; cbn; intros Hl.
  - by destruct (string_of_list_ascii R).
  - apply not_elem_of_cons in Hl as [Hc Hl]. rewrite decide_False by done. by rewrite IH.
Qed.

Lemma strndup_at_middle P l R :
  "000"%char ∉ l ->
  strndup_at (P ++ l ++ R) (size P) (size l) = Done (string_of_list_ascii l).
Proof.
  intros Hl. unfold strndup_at. rewrite !size_app.
  pose proof (size_nonneg P). pose proof (size_nonneg l). pose proof (size_nonneg R).
  destruct (Z.ltb_spec (size P + (size l + size R)) (size P)); [lia|].
  rewrite Z.min_l by lia. unfold size. rewrite !Nat2Z.id, drop_app_length.
  by rewrite strndup_app.
Qed.

Lemma search_le pat s i : search pat s = Some i -> (i + length pat <= length s)%nat.
Proof.
  revert i. induction s as [|x s IH]; intros i; cbn [search]; case_bool_decide as E.
  - intros [= <-]. rewrite <- E at 1. rewrite length_take. lia.
  - done.
  - intros [= <-]. rewrite <- E at 1. rewrite length_take. lia.
  - destruct (search pat s) as [j|] eqn:Ej; cbn; [|done].
    intros [= <-]. specialize (IH j eq_refl). cbn. lia.
Qed.

Lemma search_skip c m X :
  c ∉ m -> search [c] (m ++ X) = (Nat.add (length m)) <$> search [c] X.
Proof.
  induction m as [|x m IH]; intros Hm; [cbn [app length]; by destruct (search [c] X)|].
  apply not_elem_of_cons in Hm as [Hne Hm]. cbn [app search].
  rewrite bool_decide_false by (intros [=]; congruence). rewrite IH by done.
  by destruct (search _ X).
Qed.

(** Where the parts of a column are whose opening backtick is at [p]. *)
Definition split_at (p : Z) (c : shown) (field_end : Z) : FieldDefSplit :=
  let n := size (escaped (lit_bytes (sh_name c))) in
  mkFieldDefSplit (p + 1) (p + n) (p + n + 3) (p + n + 3 + size (type_text (sh_type c))) field_end.

(** Where the field ends: at the next comma, which follows NULL in the list, or
    at the end of the list. *)
Definition field_end_at (p : Z) (c : shown) (rest : bytes) (end_idx : Z) : Z :=
  match search [","%char] rest with
  | Some i => p + size (field_head c ++ NULL) + Z.of_nat i
  | None => end_idx
  end.

Fixpoint column_splits (p : Z) (c : shown) (cols : list shown) (post : bytes) (end_idx : Z)
    : list FieldDefSplit :=
  split_at p c (field_end_at p c (tail_text cols post) end_idx)
  :: match cols with
     | [] => []
     | c' :: cols => column_splits (p + size (field_head c ++ NULL) + 2) c' cols post end_idx
     end.

(** ** One field *)
Section field.
Context (s P gap R : bytes) (c : shown) (end_idx : Z).
Context (Hs : s = P ++ gap ++ field_head c ++ NULL ++ R).
Context (Hlt : size s < 2 ^ 63) (Hgap : backtick ∉ gap) (Hok : shown_ok c).

Let name := escaped (lit_bytes (sh_name c)).
Let Q := P ++ gap ++ [backtick].
Let T := Q ++ name ++ [backtick; " "%char].
Let U := T ++ type_text (sh_type c).
Let fe := field_end_at (size (P ++ gap)) c R end_idx.
Let f := mkFieldDefSplit (size Q) (size (Q ++ name) - 1) (size T) (size U) fe.

Lemma field_Q : s = Q ++ name ++ backtick :: " "%char
  :: type_text (sh_type c) ++ " "%char :: lit_bytes (sh_attrs c) ++ NULL ++ R.
Proof using All.
  rewrite Hs. unfold Q, name, field_head. rewrite <- !app_assoc. cbn [app].
  by rewrite <- !app_assoc; cbn [app]; rewrite <- !app_assoc; cbn [app].
Qed.

Lemma field_T : s = T ++ type_text (sh_type c) ++ " "%char :: lit_bytes (sh_attrs c) ++ NULL ++ R.
Proof using All. rewrite field_Q. unfold T. by rewrite <- !app_assoc. Qed.

Lemma field_U : s = U ++ " "%char :: lit_bytes (sh_attrs c) ++ NULL ++ R.
Proof using All. rewrite field_T. unfold U. by rewrite <- !app_assoc. Qed.

Lemma field_sizes :
  0 <= size P /\ 1 <= size Q /\ size P < size Q /\ 0 <= size name
  /\ size T = size Q + size name + 2
  /\ size U = size T + size (type_text (sh_type c))
  /\ 0 <= size (type_text (sh_type c))
  /\ size s = size U + 1 + size (lit_bytes (sh_attrs c)) + 4 + size R
  /\ 0 <= size (lit_bytes (sh_attrs c)) /\ 0 <= size R
  /\ size (P ++ gap) + size (field_head c ++ NULL) = size s - size R.
Proof using All.
  pose proof field_U as E. apply (f_equal size) in E.
  pose proof (f_equal size Hs) as E'.
  rewrite !size_app in E'. rewrite size_app, size_cons, !size_app in E.
  change (size NULL) with 4 in *.
  unfold U, T, Q in *. rewrite !size_app in *. rewrite !size_cons, !size_nil in *.
  pose proof (size_nonneg P). pose proof (size_nonneg gap). pose proof (size_nonneg R).
  pose proof (size_nonneg name). pose proof (size_nonneg (type_text (sh_type c))).
  pose proof (size_nonneg (lit_bytes (sh_attrs c))). change (size NULL) with 4.
  split_and!; lia.
Qed.

Lemma type_end_at : find_char " " s (size T) = size U.
Proof using All.
  rewrite field_T. unfold U. apply find_char_from, type_no_space.
Qed.

Lemma comma_at :
  match search [","%char] R with
  | Some i => find_char "," s (size U) = size (P ++ gap) + size (field_head c ++ NULL) + Z.of_nat i
  | None => find_char "," s (size U) = npos
  end.
Proof using All.
  pose proof field_U as E. destruct field_sizes as (_ & _ & _ & _ & _ & _ & _ & H1 & _ & _ & H2).
  rewrite H2, H1. clear H1 H2. rewrite E. unfold find_char. rewrite find_from.
  replace (" "%char :: lit_bytes (sh_attrs c) ++ NULL ++ R)
    with ((" "%char :: lit_bytes (sh_attrs c) ++ NULL) ++ R) by (cbn; by rewrite <- app_assoc).
  rewrite search_skip.
  2: { rewrite not_elem_of_cons, not_elem_of_app. split; [done|]. split; [apply Hok|].
       by apply (bool_decide_unpack _). }
  destruct (search [","%char] R); [|done]. cbn.
  rewrite length_app. unfold size. cbn. lia.
Qed.

Lemma split_here : split_at (size (P ++ gap)) c fe = f.
Proof using All.
  destruct field_sizes as (S1 & S2 & S3 & S4 & S5 & S6 & S7 & S8 & S9 & S10 & S11).
  unfold split_at, f. fold name. rewrite S6, S5. unfold Q. rewrite !size_app.
  change (size [backtick]) with 1. f_equal; lia.
Qed.

Lemma field_step_shown :
  size P < end_idx ->
  field_step s end_idx (size P) = Done (Some (split_at (size (P ++ gap)) c fe, fe)).
Proof using All.
  intros Hend. rewrite split_here. unfold field_step.
  rewrite (proj2 (Z.ltb_lt _ _)) by done.
  destruct field_sizes as (S1 & S2 & S3 & S4 & S5 & S6 & S7 & S8 & S9 & S10 & S11).
  assert (find_char backtick s (size P) + 1 = size Q) as ->.
  { rewrite Hs. unfold field_head. rewrite <- app_comm_cons, find_char_from by done.
    unfold Q. rewrite !size_app. cbn. unfold size. cbn. lia. }
  rewrite (wrap_u_small 64) by lia.
  destruct (backtick_loop s Q (lit_bytes (sh_name c)) _ (parse_fuel s) field_Q Hlt) as [l El].
  { pose proof (length_escaped (lit_bytes (sh_name c))) as Hle. fold name in Hle.
    unfold parse_fuel. unfold size in *. lia. }
  cbv zeta. rewrite El, Done_bind. cbv beta iota. fold name.
  rewrite size_app. rewrite (wrap_u_small 64 (size Q + size name - 1)) by lia.
  replace (size Q + size name - 1 + 3) with (size T) by lia.
  rewrite (wrap_u_small 64) by lia. rewrite type_end_at.
  pose proof comma_at as Hfe. unfold f, fe, field_end_at. rewrite size_app.
  destruct (search [","%char] R) as [i|] eqn:Ei; rewrite Hfe.
  - apply search_le in Ei. cbn [length] in Ei.
    rewrite decide_False; [done|]. unfold npos, size in *. lia.
  - by rewrite decide_True.
Qed.

Lemma field_column_shown junk :
  (search [","%char] R = None -> end_idx + 4 = size (P ++ gap) + size (field_head c ++ NULL)) ->
  field_column s junk (split_at (size (P ++ gap)) c fe) = Done (shown_column junk c R).
Proof using All.
  intros Hend. rewrite split_here. unfold field_column. pose proof field_U as HU.
  destruct field_sizes as (S1 & S2 & S3 & S4 & S5 & S6 & S7 & S8 & S9 & S10 & S11).
  change (name_start f) with (size Q). change (name_end f) with (size (Q ++ name) - 1).
  rewrite size_app, (wrap_u_small 64) by lia.
  replace (size Q + size name - 1 - size Q + 1) with (size name) by lia.
  rewrite field_Q at 1. rewrite strndup_at_middle, Done_bind.
  2: { intros Hin. apply (shown_name _ Hok). by apply escaped_elem. }
  rewrite (column_type_shown s T (sh_type c) _ junk f (collation_part c R) field_T Hlt
             (shown_fits _ Hok) eq_refl eq_refl).
  { rewrite Done_bind. unfold shown_column, is_wide. by destruct (type_column _ _ _). }
  change (type_end f) with (size U). change (field_end f) with fe.
  unfold collation_part, fe, field_end_at.
  destruct (search [","%char] R) as [i|] eqn:Ei.
  - apply search_le in Ei. cbn [length] in Ei.
    assert (s = U ++ (" "%char :: lit_bytes (sh_attrs c) ++ NULL ++ take (Datatypes.S i) R)
              ++ drop (Datatypes.S i) R) as E.
    { rewrite HU at 1. cbn [app]. rewrite <- !app_assoc. by rewrite take_drop. }
    assert (size (" "%char :: lit_bytes (sh_attrs c) ++ NULL ++ take (Datatypes.S i) R)
      = 1 + size (lit_bytes (sh_attrs c)) + 4 + (Z.of_nat i + 1)) as El.
    { rewrite size_cons, !size_app. change (size NULL) with 4.
      unfold size at 2. rewrite length_take. lia. }
    assert (Z.of_nat i < size R) by (unfold size; lia).
    rewrite E at 1. apply substr_middle.
    rewrite El, S11, S8. rewrite (wrap_u_small 64) by lia. lia.
  - specialize (Hend eq_refl).
    assert (s = U ++ (" "%char :: lit_bytes (sh_attrs c) ++ ["N"%char])
              ++ lit_bytes "ULL" ++ R) as E.
    { rewrite HU at 1. cbn [app]. by rewrite <- !app_assoc. }
    rewrite E at 1. apply substr_middle.
    rewrite size_cons, size_app. change (size ["N"%char]) with 1.
    rewrite (wrap_u_small 64) by lia. lia.
Qed.
End field.

Lemma size_field_head c : 4 <= size (field_head c).
Proof.
  unfold field_head. rewrite size_cons, size_app, !size_cons, size_app, size_cons.
  pose proof (size_nonneg (escaped (lit_bytes (sh_name c)))).
  pose proof (size_nonneg (type_text (sh_type c))).
  pose proof (size_nonneg (lit_bytes (sh_attrs c))). lia.
Qed.

Lemma size_tail_text cols post : size (lit_bytes "] " ++ post) <= size (tail_text cols post).
Proof.
  induction cols as [|c cols IH]; cbn [tail_text]; [done|].
  rewrite (size_app (lit_bytes ", ")), (size_app (field_head c)), (size_app NULL).
  pose proof (size_field_head c). change (size (lit_bytes ", ")) with 2.
  change (size NULL) with 4. lia.
Qed.

(** A field of the list ends before the end of the list, the last one there. *)
Lemma list_room s P gap c cols post end_idx :
  s = P ++ gap ++ field_head c ++ NULL ++ tail_text cols post ->
  end_idx + 4 = size s - size (lit_bytes "] " ++ post) ->
  size P < end_idx
  /\ size (P ++ gap) + size (field_head c ++ NULL) = size s - size (tail_text cols post)
  /\ match cols with
     | [] => end_idx + 4 = size (P ++ gap) + size (field_head c ++ NULL)
     | _ => size (P ++ gap) + size (field_head c ++ NULL) < end_idx
     end.
Proof.
  intros Hs Hend. pose proof (size_field_head c) as H1. pose proof (size_tail_text cols post) as H2.
  apply (f_equal size) in Hs. rewrite !size_app in Hs. rewrite !size_app in H2.
  rewrite !size_app in *. change (size NULL) with 4 in *.
  pose proof (size_nonneg gap). pose proof (size_nonneg P).
  destruct cols as [|c' cols]; cbn [tail_text] in *.
  - rewrite !size_app in *. lia.
  - pose proof (size_field_head c'). pose proof (size_tail_text cols post).
    rewrite !size_app in *. change (size NULL) with 4 in *.
    change (size (lit_bytes ", ")) with 2 in *. lia.
Qed.

(** The field after [c]. *)
Lemma next_field s P gap c c' cols post :
  s = P ++ gap ++ field_head c ++ NULL ++ tail_text (c' :: cols) post ->
  s = (P ++ gap ++ field_head c ++ NULL) ++ lit_bytes ", " ++ field_head c' ++ NULL
      ++ tail_text cols post
  /\ size (P ++ gap ++ field_head c ++ NULL) = size (P ++ gap) + size (field_head c ++ NULL)
  /\ size ((P ++ gap ++ field_head c ++ NULL) ++ lit_bytes ", ")
     = size (P ++ gap) + size (field_head c ++ NULL) + 2.
Proof.
  intros ->. cbn [tail_text]. split; [by rewrite <- !app_assoc|].
  rewrite !size_app. change (size (lit_bytes ", ")) with 2. lia.
Qed.

Lemma comma_first X : search [","%char] (lit_bytes ", " ++ X) = Some 0%nat.
Proof. reflexivity. Qed.

Lemma tail_comma c cols post : search [","%char] (tail_text (c :: cols) post) = Some 0%nat.
Proof. apply comma_first. Qed.

Lemma no_backtick_separator : backtick ∉ lit_bytes ", ".
Proof. by apply (bool_decide_unpack _). Qed.

(** The outer loop finds the columns one after the other, and no more. *)
Lemma fields_loop s post cols end_idx : forall P gap c,
  s = P ++ gap ++ field_head c ++ NULL ++ tail_text cols post ->
  size s < 2 ^ 63 -> backtick ∉ gap -> Forall shown_ok (c :: cols) ->
  end_idx + 4 = size s - size (lit_bytes "] " ++ post) ->
  exists p, end_idx <= p /\ forall fuel, (length cols + 2 <= fuel)%nat ->
    collect (field_step s end_idx) fuel (size P)
    = Done (column_splits (size (P ++ gap)) c cols post end_idx, p).
Proof.
  induction cols as [|c' cols IH]; intros P gap c Hs Hlt Hgap Hok Hend;
    apply Forall_cons_iff in Hok as [Hc Hok];
    destruct (list_room _ _ _ _ _ _ _ Hs Hend) as (Hp & Hr & He);
    pose proof (field_step_shown s P gap _ c end_idx Hs Hlt Hgap Hc Hp) as Hstep.
  - set (q := field_end_at _ _ _ _) in *. exists q. assert (end_idx <= q) as Hq.
    { subst q. unfold field_end_at. case_match; lia. }
    assert (field_step s end_idx q = Done None) as Hq'.
    { unfold field_step. by rewrite (proj2 (Z.ltb_ge _ _) Hq). }
    split; [done|]. intros [|[|fuel]] Hf; [cbn in Hf; lia..|].
    cbn [collect]. by rewrite Hstep, Done_bind, Hq', !Done_bind.
  - destruct (next_field _ _ _ _ _ _ _ Hs) as (Hs' & E1 & E2).
    destruct (IH _ _ c' Hs' Hlt no_backtick_separator Hok Hend) as (p & Hle & E).
    exists p. split; [done|]. intros [|fuel] Hf; [cbn in Hf; lia|].
    cbn [collect column_splits]. rewrite Hstep, Done_bind. cbv beta iota.
    assert (forall r, field_end_at r c (tail_text (c' :: cols) post) end_idx
                      = r + size (field_head c ++ NULL)) as Hfe
      by (intros r; unfold field_end_at; by rewrite tail_comma, Z.add_0_r).
    rewrite Hfe, <- E1, E, Done_bind by (cbn in Hf; lia). cbv beta iota. by rewrite E2, <- E1.
Qed.

Lemma fields_columns s junk post cols end_idx : forall P gap c,
  s = P ++ gap ++ field_head c ++ NULL ++ tail_text cols post ->
  size s < 2 ^ 63 -> backtick ∉ gap -> Forall shown_ok (c :: cols) ->
  end_idx + 4 = size s - size (lit_bytes "] " ++ post) ->
  ShowColumnsToRowSchemaHelper s junk (column_splits (size (P ++ gap)) c cols post end_idx)
  = Done (shown_columns junk c cols post).
Proof.
  induction cols as [|c' cols IH]; intros P gap c Hs Hlt Hgap Hok Hend;
    apply Forall_cons_iff in Hok as [Hc Hok];
    destruct (list_room _ _ _ _ _ _ _ Hs Hend) as (Hp & Hr & He);
    cbn [column_splits ShowColumnsToRowSchemaHelper shown_columns];
    (rewrite (field_column_shown s P gap _ c end_idx Hs Hlt Hgap Hc);
      [rewrite !Done_bind|intros Hn; try exact He; by rewrite tail_comma in Hn]).
  - done.
  - destruct (next_field _ _ _ _ _ _ _ Hs) as (Hs' & _ & E2).
    rewrite <- E2, (IH _ _ c' Hs' Hlt no_backtick_separator Hok Hend). by rewrite !Done_bind.
Qed.

Lemma columns_fuel c cols post :
  (length cols + 1 < length (field_head c ++ NULL ++ tail_text cols post))%nat.
Proof.
  pose proof (size_field_head c) as H1.
  assert (Z.of_nat (length cols) <= size (tail_text cols post)) as H2.
  { induction cols as [|c' cols IH]; [apply size_nonneg|].
    cbn [tail_text length]. rewrite (size_app (lit_bytes ", ")).
    rewrite (size_app (field_head c')), (size_app NULL).
    pose proof (size_field_head c'). change (size NULL) with 4.
    change (size (lit_bytes ", ")) with 2. lia. }
  unfold size in *. rewrite !length_app. cbn. lia.
Qed.

(** Where the markers of a list are. *)
Lemma show_marker_at pre X :
  search show_marker (pre ++ lit_bytes " show_columns:") = None ->
  find show_marker (pre ++ show_marker ++ X) 0 = size pre
  /\ find_char "[" (pre ++ show_marker ++ X) (size pre) = size (pre ++ lit_bytes " show_columns:").
Proof.
  intros Hpre. split.
  - pose proof (find_from show_marker [] (pre ++ show_marker ++ X)) as E.
    rewrite size_nil in E. cbn [app] in E. rewrite E.
    pose proof (search_first _ _ _ X Hpre) as Es.
    change show_marker with (lit_bytes " show_columns:" ++ ["["%char]) at 2.
    rewrite <- app_assoc. cbn [app]. setoid_rewrite Es. unfold size. lia.
  - change show_marker with (lit_bytes " show_columns:" ++ ["["%char]).
    rewrite <- app_assoc. cbn [app]. apply find_char_from. by apply (bool_decide_unpack _).
Qed.

Lemma end_marker_at pre c cols post :
  search end_marker (show_marker ++ columns_head c cols ++ lit_bytes "NULL]") = None ->
  let s := explain_text pre c cols post in
  find end_marker s (size pre) + 4 = size s - size (lit_bytes "] " ++ post).
Proof.
  intros Hbody s. subst s.
  pose proof (search_first (lit_bytes "NULL]") " "%char (show_marker ++ columns_head c cols) post) as Es.
  rewrite <- app_assoc in Es. specialize (Es Hbody).
  unfold explain_text. rewrite find_from, (app_assoc show_marker). setoid_rewrite Es.
  rewrite !size_app. unfold size. cbn [length]. rewrite length_app. cbn. lia.
Qed.

(** C19. The parser gives the schema of the query that EXPLAIN shows: for every
    list of columns, printed the way the comment on the function documents it
    (the name between backticks, the type, the character set, NULL) after the
    first " show_columns:[" of the text, with "NULL] " only at the end of the
    list, the result has one column for each in their order, with the name and
    the column type and size of its type; a CHAR counts four bytes a character
    when the text up to the next comma names utf8mb4 and three otherwise.
    [pre] and [post] are arbitrary text around the list. *)
Theorem ExplainToRowSchema_columns pre c cols post junk :
  Forall shown_ok (c :: cols) ->
  search show_marker (pre ++ lit_bytes " show_columns:") = None ->
  search end_marker (show_marker ++ columns_head c cols ++ lit_bytes "NULL]") = None ->
  size (explain_text pre c cols post) < 2 ^ 63 ->
  ExplainToRowSchema (string_of_list_ascii (explain_text pre c cols post)) junk
  = Done (mkRowSchema (shown_columns junk c cols post)).
Proof.
  intros Hok Hpre Hbody Hlt. unfold ExplainToRowSchema, lit_bytes.
  rewrite list_ascii_of_string_of_list_ascii.
  set (s := explain_text pre c cols post) in *.
  fold (lit_bytes " show_columns:[") (lit_bytes "NULL] ").
  assert (s = (pre ++ lit_bytes " show_columns:") ++ lit_bytes "[" ++ field_head c ++ NULL
              ++ tail_text cols post) as Hs.
  { unfold s, explain_text. rewrite columns_head_tail. by rewrite <- !app_assoc. }
  destruct (show_marker_at pre (columns_head c cols ++ end_marker ++ post) Hpre) as [E1 E2].
  fold (explain_text pre c cols post) in E1, E2. fold s in E1, E2. rewrite E1, E2.
  pose proof (end_marker_at pre c cols post Hbody) as Hend. fold s in Hend. cbv zeta in Hend.
  assert (backtick ∉ lit_bytes "[") as Hgap by (by apply (bool_decide_unpack _)).
  destruct (fields_loop s post cols _ _ _ c Hs Hlt Hgap Hok Hend) as (p & _ & E).
  rewrite E, Done_bind by (pose proof (columns_fuel c cols post); unfold parse_fuel;
                           rewrite Hs, !length_app in *; lia). cbv beta iota.
  by rewrite (fields_columns s junk post cols _ _ _ c Hs Hlt Hgap Hok Hend), Done_bind.
Qed.

(** A text that has every kind of column, read back; the parser takes the
    character set of the last column from the text after the list. *)
Definition demo_columns : list shown :=
  [mkShown "a`b" (TChar 10) "CHARACTER SET utf8mb4 COLLATE utf8mb4_general_ci ";
   mkShown "t" (TTimestamp true) "";
   mkShown "d" (TDecimal 10 2) "NOT ";
   mkShown "k" (TBinary 16) "";
   mkShown "l" (TChar 3) "CHARACTER SET utf8 "].

Lemma ExplainToRowSchema_columns_witness :
  ExplainToRowSchema (string_of_list_ascii
    (explain_text (lit_bytes "ResultTable t") (mkShown "i1" (TBigint 20) "") demo_columns
       (lit_bytes "charset:utf8mb4, rows:1"))) 77
  = Done (mkRowSchema [mkColumn Int64 8 "i1"; mkColumn Fixed 40 "a``b"; mkColumn Time 8 "t";
                       mkColumn Unsupported 77 "d"; mkColumn Fixed 16 "k";
                       mkColumn Fixed 12 "l"]).
Proof.
  rewrite ExplainToRowSchema_columns; [reflexivity| | reflexivity..].
  repeat constructor; try (by apply (bool_decide_unpack _); vm_compute);
    cbn; split; by apply Z.leb_le.
Defined.

(** ** The fuel of the loops

    More fuel than there are positions in the text changes nothing: a loop that
    uses it all has come to a position for the second time and never ends. *)
Section fuel.
Context {A : Type} (step : Z -> outcome exn (option (A * Z))).

(** The position after [k] iterations. *)
Fixpoint orbit (k : nat) (p : Z) : option Z :=
  match k with
  | O => Some p
  | S k => match step p with Done (Some (_, q)) => orbit k q | _ => None end
  end.

Lemma orbit_add i k p q : orbit i p = Some q -> orbit (i + k) p = orbit k q.
Proof using Type.
  revert p. induction i as [|i IH]; intros p; cbn.
  - by intros [= ->].
  - destruct (step p) as [[[a q']|]| | |]; naive_solver.
Qed.

Lemma orbit_le i k p : (i <= k)%nat -> is_Some (orbit k p) -> is_Some (orbit i p).
Proof using Type.
  revert k p. induction i as [|i IH]; intros [|k] p Hle; cbn; [eauto|eauto|lia|].
  destruct (step p) as [[[a q']|]| | |]; [|by intros [? [=]]..].
  apply IH. lia.
Qed.

(** A position that comes back comes back for ever. *)
Lemma orbit_cycle d q n : (0 < d)%nat -> orbit d q = Some q -> is_Some (orbit n q).
Proof using Type.
  intros Hd E. induction (lt_wf n) as [n _ IH].
  destruct (decide (n <= d)%nat) as [Hle|Hgt]; [eapply orbit_le; eauto|].
  replace n with (d + (n - d))%nat by lia. rewrite (orbit_add _ _ _ _ E). apply IH. lia.
Qed.

Lemma collect_orbit n p : is_Some (orbit n p) -> collect step n p = Undef "the loop does not end".
Proof using Type.
  revert p. induction n as [|n IH]; intros p; cbn; [done|].
  destruct (step p) as [[[a q]|]| | |]; try by intros [? [=]].
  intros H. rewrite Done_bind. by rewrite IH.
Qed.

Lemma collect_more n m p :
  orbit n p = None -> (n <= m)%nat -> collect step m p = collect step n p.
Proof using Type.
  revert m p. induction n as [|n IH]; intros [|m] p; cbn; try done; [lia|].
  intros E Hle. destruct (step p) as [[[a q]|]| | |]; [|done..].
  rewrite !Done_bind. rewrite (IH m); [done..|lia].
Qed.

Lemma collect_fuel (D : list Z) p n :
  p ∈ D ->
  (forall q a q', q ∈ D -> step q = Done (Some (a, q')) -> q' ∈ D) ->
  (length D < n)%nat ->
  collect step n p = collect step (Datatypes.S (length D)) p.
Proof using Type.
  intros Hp HD Hn.
  destruct (orbit (Datatypes.S (length D)) p) as [q|] eqn:E; [|apply collect_more; [done|lia]].
  assert (forall k r, orbit k p = Some r -> r ∈ D) as Hin.
  { clear E Hn. intros k. revert p Hp. induction k as [|k IH]; cbn; [naive_solver|].
    intros p Hp r. destruct (step p) as [[[a q']|]| | |] eqn:Es; [|done..]. eauto. }
  assert (forall m, is_Some (orbit m p)) as Hall.
  2: { by rewrite !collect_orbit by done. }
  destruct (list_pigeonhole ((fun k => orbit k p) <$> seq 0 (Datatypes.S (length D))) (Some <$> D))
    as (i & j & x & Hij & Hi & Hj).
  { intros x Hx. apply list_elem_of_fmap in Hx as (k & -> & Hk). apply elem_of_seq in Hk.
    destruct (orbit_le k (Datatypes.S (length D)) p) as [y Hy]; [lia|by eexists|].
    rewrite Hy. apply list_elem_of_fmap. eauto. }
  { rewrite !length_fmap, length_seq. lia. }
  apply list_lookup_fmap_Some in Hi as (i' & Ei & Hi), Hj as (j' & Ej & Hj).
  apply lookup_seq in Hi as [-> Hi], Hj as [-> Hj]. cbn in Ei, Ej.
  destruct (orbit_le i (Datatypes.S (length D)) p) as [y Hy]; [lia|by eexists|].
  intros m. apply (orbit_le m (i + m)); [lia|].
  rewrite (orbit_add _ _ _ _ Hy). apply (orbit_cycle (j - i)); [lia|].
  rewrite <- (orbit_add i (j - i) p y Hy). replace (i + (j - i))%nat with j by lia. congruence.
Qed.
End fuel.

(** The positions that a search in [s] can give. *)
Definition positions (s : bytes) : list Z := npos :: seqZ 0 (size s).

Lemma length_positions s : parse_fuel s = Datatypes.S (length (positions s)).
Proof. unfold parse_fuel, positions. cbn. rewrite length_seqZ. unfold size. lia. Qed.

Lemma find_position pat s pos :
  pat <> [] -> 0 <= pos -> find pat s pos ∈ positions s.
Proof.
  intros Hpat Hpos. unfold find, positions.
  destruct (Z.leb_spec pos (size s)); [|left].
  destruct (search pat _) as [i|] eqn:E; [|left]. right. apply elem_of_seqZ.
  apply search_le in E. rewrite length_drop in E. unfold size in *.
  destruct pat; [done|]. cbn in E. lia.
Qed.

(** From any position that a search gives, more fuel than [parse_fuel] gives the
    same result: a text on which the fuel runs out is one on which the loop of
    the code never ends. *)
Lemma parse_fuel_exact s pat start pos n :
  pat <> [] -> 0 <= start -> pos ∈ positions s -> (parse_fuel s <= n)%nat ->
  let end_idx := find pat s start in
  collect (field_step s end_idx) n pos = collect (field_step s end_idx) (parse_fuel s) pos
  /\ collect (backtick_step s) n pos = collect (backtick_step s) (parse_fuel s) pos.
Proof.
  intros Hpat Hstart Hpos Hn end_idx. rewrite length_positions in *.
  split; apply collect_fuel; try done; try lia; intros q a q' Hq.
  - unfold field_step at 1. case_match; [|done]. cbv zeta.
    destruct (collect _ _ _) as [[l p]| | |]; [|done..].
    rewrite Done_bind. intros [= <- <-].
    case_decide; [by apply find_position|]. apply find_position; [done|].
    unfold find_char. pose proof (find_position [" "%char] s) as Hp.
    assert (find [" "%char] s (u64 (u64 (p - 1) + 3)) ∈ positions s) as H'
      by (apply Hp; [done|]; apply (wrap_u_range 64); lia).
    unfold positions in H'. apply elem_of_cons in H' as [->|H']; [done|].
    apply elem_of_seqZ in H'. lia.
  - unfold backtick_step. destruct (char_at _ _) as [c| | |]; [|done..].
    rewrite Done_bind. case_decide; [|done]. intros [= <- <-].
    apply find_position; [done|]. apply (wrap_u_range 64); lia.
Qed.

(** ** A name that is not closed

    A list whose last name has no closing backtick: [pre] and the marker, the
    complete columns before it, and what follows its opening backtick. *)
Definition closed (cols : list shown) : bytes :=
  concat ((fun c => field_head c ++ NULL ++ lit_bytes ", ") <$> cols).

Definition unclosed_text (pre : bytes) (cols : list shown) (rest : bytes) : bytes :=
  pre ++ show_marker ++ closed cols ++ backtick :: rest.

Lemma search_upto c m X :
  exists i, search [c] (m ++ c :: X) = Some i /\ (i <= length m)%nat /\ (m ++ c :: X) !! i = Some c.
Proof.
  induction m as [|x m (i & Es & Hi & El)].
  - exists 0%nat. split; [exact (search_here [c] X)|done].
  - cbn [app search]. case_bool_decide as E.
    + exists 0%nat. cbn in E. injection E as ->. split; [done|]; split; [lia|done].
    + exists (Datatypes.S i). rewrite Es. split; [done|]; split; [cbn; lia|done].
Qed.

Lemma find_char_upto c A X pos :
  0 <= pos <= size A ->
  pos <= find_char c (A ++ c :: X) pos <= size A
  /\ (A ++ c :: X) !! Z.to_nat (find_char c (A ++ c :: X) pos) = Some c.
Proof.
  intros Hpos. unfold find_char, find.
  rewrite (proj2 (Z.leb_le _ _)) by (rewrite size_app, size_cons; pose proof (size_nonneg X); lia).
  rewrite drop_app_le by (unfold size in *; lia).
  destruct (search_upto c (drop (Z.to_nat pos) A) X) as (i & -> & Hi & El).
  rewrite length_drop in Hi. unfold size in *. split; [lia|].
  replace (Z.to_nat (pos + Z.of_nat i)) with (Z.to_nat pos + i)%nat by lia.
  rewrite <- lookup_drop, drop_app_le by lia. done.
Qed.

(** A search that finds nothing before a character it does not look for. *)
Lemma search_behind pat A c X i :
  search pat A = None -> c ∉ pat -> search pat (A ++ c :: X) = Some i -> (length A < i)%nat.
Proof.
  intros Hn Hc. revert i Hn. induction A as [|x A IH]; intros i Hn; cbn [app search].
  - case_bool_decide as E.
    + destruct pat as [|y pat]; [done|]. injection E as -> _. exfalso. apply Hc. by left.
    + destruct (search pat X); cbn; [|done]. intros [= <-]. cbn. lia.
  - cbn [search] in Hn. case_bool_decide as E; [done|].
    case_bool_decide as E'.
    + exfalso. destruct (decide (length pat <= length (x :: A))%nat) as [Hle|Hgt].
      * apply E. rewrite <- E' at 2. change (x :: A ++ c :: X) with ((x :: A) ++ c :: X).
        by rewrite take_app_le.
      * apply Hc. rewrite <- E'. change (x :: A ++ c :: X) with ((x :: A) ++ c :: X).
        rewrite take_app_ge by lia. apply elem_of_app. right.
        destruct (length pat - length (x :: A))%nat eqn:En; [lia|]. by left.
    + destruct (search pat A) as [k|]; [done|].
      destruct (search pat (A ++ c :: X)) as [k|]; [|done]. cbn. intros [= <-].
      specialize (IH k eq_refl eq_refl). lia.
Qed.
Section unclosed.
Context (s rest : bytes) (end_idx : Z).
Context (Hlt : size s < 2 ^ 63) (Hhead : s !! 0%nat <> Some backtick) (Hrest : backtick ∉ rest).
Context (Hend : size s - size rest - 1 <= end_idx).

(** The loop is before a column of the list or before the last name. *)
Definition in_list (p : Z) : Prop :=
  exists P gap cols, s = P ++ gap ++ closed cols ++ backtick :: rest /\ size P = p
    /\ backtick ∉ gap /\ Forall shown_ok cols /\ p < size s - size rest - 1.

(** Where it goes on when the name is not closed. *)
Definition first_comma : Z := find_char "," s (find_char " " s 1).

Lemma in_list_column P gap c cols :
  s = P ++ gap ++ closed (c :: cols) ++ backtick :: rest -> backtick ∉ gap ->
  Forall shown_ok (c :: cols) -> size P < size s - size rest - 1 ->
  exists f q, field_step s end_idx (size P) = Done (Some (f, q)) /\ in_list q.
Proof using All.
  intros Hs Hgap Hok Hp. apply Forall_cons_iff in Hok as [Hc Hok].
  assert (s = P ++ gap ++ field_head c ++ NULL ++ lit_bytes ", " ++ closed cols ++ backtick :: rest)
    as Hs1 by (rewrite Hs; unfold closed; cbn [fmap list_fmap concat]; by rewrite <- !app_assoc).
  assert (s = (P ++ gap ++ field_head c ++ NULL) ++ lit_bytes ", " ++ closed cols ++ backtick :: rest)
    as Hs2 by (rewrite Hs1; by rewrite <- !app_assoc).
  do 2 eexists. split; [apply (field_step_shown s P gap _ c end_idx Hs1 Hlt Hgap Hc); lia|].
  exists (P ++ gap ++ field_head c ++ NULL), (lit_bytes ", "), cols.
  assert (field_end_at (size (P ++ gap)) c (lit_bytes ", " ++ closed cols ++ backtick :: rest) end_idx
          = size (P ++ gap ++ field_head c ++ NULL)) as ->.
  { unfold field_end_at. rewrite comma_first, !size_app. lia. }
  split_and!; [done..|exact no_backtick_separator|done|].
  apply (f_equal size) in Hs2. rewrite (size_app (_ ++ _)), (size_app (lit_bytes ", ")) in Hs2.
  rewrite (size_app (closed cols)), size_cons in Hs2. change (size (lit_bytes ", ")) with 2 in Hs2.
  pose proof (size_nonneg (closed cols)). lia.
Qed.

Lemma unclosed_step P gap :
  s = P ++ gap ++ backtick :: rest -> backtick ∉ gap -> size P < end_idx -> first_comma <> npos ->
  exists f, field_step s end_idx (size P) = Done (Some (f, first_comma)).
Proof using All.
  intros Hs Hgap Hp Hq. unfold field_step. rewrite (proj2 (Z.ltb_lt _ _) Hp).
  assert (s = (P ++ gap ++ [backtick]) ++ rest) as Hs1 by (rewrite Hs; by rewrite <- !app_assoc).
  assert (find_char backtick s (size P) + 1 = size (P ++ gap ++ [backtick])) as ->.
  { rewrite Hs, find_char_from by done. rewrite !size_app. change (size [backtick]) with 1. lia. }
  pose proof (size_nonneg rest). pose proof (size_nonneg (P ++ gap ++ [backtick])).
  pose proof (f_equal size Hs1) as Hsz. rewrite (size_app (P ++ gap ++ [backtick])) in Hsz.
  rewrite (wrap_u_small 64) by lia. cbv zeta.
  assert (find_char backtick s (size (P ++ gap ++ [backtick])) = npos) as ->.
  { rewrite Hs1 at 1. unfold find_char. by rewrite find_from, search_char_none. }
  assert (backtick_step s npos = Done None) as Hb.
  { unfold backtick_step. change (u64 (npos + 1)) with 0. unfold char_at.
    rewrite (proj2 (Z.leb_le 0 (size s)) (size_nonneg s)). cbn [andb Z.leb Z.compare].
    change (Z.to_nat 0) with 0%nat. rewrite Done_bind.
    rewrite decide_False; [done|]. intros E. apply Hhead.
    destruct (s !! 0%nat) as [x|]; cbn in E; [by rewrite E|discriminate E]. }
  unfold parse_fuel. cbn [collect]. rewrite Hb, !Done_bind. cbv beta iota.
  change (u64 (u64 (npos - 1) + 3)) with 1. fold first_comma.
  rewrite decide_False by done. by eexists.
Qed.

(** The loop is at a place of the list after every number of iterations. *)
Lemma unclosed_forever p n : in_list first_comma -> in_list p -> is_Some (orbit (field_step s end_idx) n p).
Proof using All.
  intros Hq. revert p. induction n as [|n IH]; intros p Hp; [by exists p|].
  destruct Hp as (P & gap & [|c cols] & Hs & <- & Hgap & Hok & Hp); cbn [orbit].
  - destruct (unclosed_step P gap Hs Hgap) as (f & ->); [lia| |by apply IH].
    destruct Hq as (? & ? & ? & _ & <- & _ & _ & ?). unfold npos.
    pose proof (size_nonneg rest). lia.
  - destruct (in_list_column P gap c cols Hs Hgap Hok Hp) as (f & q & -> & Hin). by apply IH.
Qed.
End unclosed.

Lemma type_no_backtick t : backtick ∉ type_text t.
Proof.
  assert (forall n, backtick ∉ dec n) as Hd.
  { intros n. apply (all_chars_not (fun c => negb (bool_decide (c = backtick)))); [|done].
    apply all_chars_to_string; [|done].
    by intros [[] [] [] [] [] [] [] []]. }
  destruct t as [w|w| |[]| |[]|[]|n|n|n|n|[]|w|m d| |]; cbn [type_text];
    unfold sized, with_micros;
    rewrite ?not_elem_of_app, ?not_elem_of_cons, ?not_elem_of_app, ?not_elem_of_cons, ?not_elem_of_app;
    split_and?; first [apply Hd | by apply (bool_decide_unpack _); vm_compute | done].
Qed.

(** No comma in the name and no backtick in the character set. *)
Definition plain_column (c : shown) : Prop :=
  ","%char ∉ lit_bytes (sh_name c) /\ backtick ∉ lit_bytes (sh_attrs c).

(** A comma is before or behind a text without one. *)
Lemma comma_place B h t X q :
  ((B ++ h ++ t) ++ X) !! Z.to_nat q = Some ","%char -> ","%char ∉ h ->
  0 <= q <= size (B ++ h ++ t) ->
  exists P gap, size P = q /\ (B = P ++ gap \/ exists t1, P = (B ++ h) ++ t1 /\ t = t1 ++ gap).
Proof.
  intros Hsq Hh Hq. destruct (decide (q <= size B)) as [HqB|HqB].
  { exists (take (Z.to_nat q) B), (drop (Z.to_nat q) B). split; [|left; by rewrite take_drop].
    unfold size in *. rewrite length_take. lia. }
  destruct (decide (q < size (B ++ h))) as [Hqh|Hqh].
  { exfalso. apply Hh. apply (list_elem_of_lookup_2 _ (Z.to_nat q - length B)).
    rewrite <- Hsq, <- !app_assoc, lookup_app_r by (unfold size in *; lia).
    rewrite lookup_app_l; [done|]. rewrite size_app in Hqh. unfold size in *. lia. }
  set (j := Z.to_nat (q - size (B ++ h))).
  exists ((B ++ h) ++ take j t), (drop j t). split.
  - rewrite app_assoc, size_app in Hq. rewrite size_app.
    unfold size in *. rewrite length_take. lia.
  - right. exists (take j t). by rewrite take_drop.
Qed.

(** The comma that the loop goes back to is before the end of the first column. *)
Lemma first_comma_in_list pre c cols rest :
  backtick ∉ pre -> Forall shown_ok (c :: cols) -> plain_column c ->
  in_list (unclosed_text pre (c :: cols) rest) rest
    (first_comma (unclosed_text pre (c :: cols) rest)).
Proof.
  intros Hpre Hok [Hname Hattrs]. apply Forall_cons_iff in Hok as Hok'. destruct Hok' as [Hc Hcols].
  set (s := unclosed_text pre (c :: cols) rest).
  set (B := pre ++ show_marker).
  set (h := backtick :: escaped (lit_bytes (sh_name c)) ++ [backtick]).
  set (t := " "%char :: type_text (sh_type c) ++ " "%char :: lit_bytes (sh_attrs c) ++ NULL).
  set (Y := closed cols ++ backtick :: rest).
  assert (s = (B ++ h ++ t) ++ ","%char :: " "%char :: Y) as Hs.
  { subst s B h t Y. unfold unclosed_text, closed, field_head. cbn [fmap list_fmap concat].
    by repeat (rewrite <- ?app_assoc; cbn [app]). }
  assert (backtick ∉ B) as HB.
  { subst B. rewrite not_elem_of_app. split; [done|]. by apply (bool_decide_unpack _). }
  assert (","%char ∉ h) as Hh.
  { subst h. rewrite not_elem_of_cons, not_elem_of_app. split; [done|]. split.
    - intros Hin. by apply Hname, escaped_elem.
    - by apply (bool_decide_unpack _). }
  assert (backtick ∉ t) as Ht.
  { subst t. rewrite not_elem_of_cons, not_elem_of_app, not_elem_of_cons, not_elem_of_app.
    split_and!; [done|apply type_no_backtick|done|done|by apply (bool_decide_unpack _)]. }
  assert (1 <= size B) as HB1.
  { subst B. rewrite size_app. pose proof (size_nonneg pre). by change (size show_marker) with 15; lia. }
  pose proof (size_nonneg h). pose proof (size_nonneg t). pose proof (size_nonneg (closed cols)).
  pose proof (f_equal size Hs) as Hsz. rewrite !size_app, !size_cons in Hsz.
  unfold Y in Hsz. rewrite size_app, size_cons in Hsz.
  assert (1 <= find_char " " s 1 <= size (B ++ h)) as Hblank.
  { rewrite Hs. unfold t.
    match goal with |- context [find_char _ ?x] =>
      replace x with ((B ++ h) ++ " "%char :: type_text (sh_type c) ++ " "%char
        :: lit_bytes (sh_attrs c) ++ NULL ++ ","%char :: " "%char :: Y)
        by (by repeat (rewrite <- ?app_assoc; cbn [app])) end.
    apply find_char_upto. rewrite size_app. lia. }
  destruct (find_char_upto "," (B ++ h ++ t) (" "%char :: Y) (find_char " " s 1)) as [Hq Hsq];
    [rewrite !size_app in *; lia|].
  rewrite <- Hs in Hq, Hsq. fold (first_comma s) in Hq, Hsq. set (q := first_comma s) in *. rewrite Hs in Hsq.
  destruct (comma_place _ _ _ _ _ Hsq Hh) as (P & gap & HP & Hgap); [lia|].
  rewrite !size_app in Hq. destruct Hgap as [E|(t1 & E1 & E2)].
  - exists P, gap, (c :: cols). split_and!; [|done| |done|lia].
    + rewrite app_assoc, <- E. subst s B. unfold unclosed_text. by rewrite <- app_assoc.
    + intros Hin. apply HB. rewrite E. apply elem_of_app. by right.
  - exists P, (gap ++ lit_bytes ", "), cols. split_and!; [|done| |done|lia].
    + rewrite Hs, E1, E2. unfold Y. by repeat (rewrite <- ?app_assoc; cbn [app]).
    + rewrite not_elem_of_app. split; [|exact no_backtick_separator].
      intros Hin. apply Ht. rewrite E2. apply elem_of_app. by right.
Qed.

Definition columns_start (s : bytes) : Z := find_char "[" s (find show_marker s 0).
Definition columns_end (s : bytes) : Z := find end_marker s (find show_marker s 0).
Definition columns_step (s : bytes) : Z -> outcome exn (option (FieldDefSplit * Z)) :=
  field_step s (columns_end s).

(** A list whose last name is not closed. *)
Lemma unclosed_loop pre c cols rest :
  Forall shown_ok (c :: cols) ->
  search show_marker (pre ++ lit_bytes " show_columns:") = None ->
  let s := unclosed_text pre (c :: cols) rest in
  backtick ∉ pre -> backtick ∉ rest -> plain_column c ->
  search end_marker (show_marker ++ closed (c :: cols)) = None -> size s < 2 ^ 63 ->
  forall n, is_Some (orbit (columns_step s) n (columns_start s)).
Proof.
  intros Hok Hpre s Hpreb Hrest Hplain Hnend Hlt.
  destruct (show_marker_at pre (closed (c :: cols) ++ backtick :: rest) Hpre) as [E1 E2].
  fold (unclosed_text pre (c :: cols) rest) in E1, E2. fold s in E1, E2.
  assert (size s = size pre + size (show_marker ++ closed (c :: cols)) + 1 + size rest) as Hsz.
  { subst s. unfold unclosed_text. rewrite !size_app, size_cons. lia. }
  intros n. unfold columns_start, columns_step. rewrite E1, E2.
  apply (unclosed_forever s rest); [done| |done| |by apply first_comma_in_list|].
  - subst s. unfold unclosed_text. destruct pre as [|x pre]; [done|].
    intros [= ->]. apply Hpreb. by left.
  - unfold columns_end. rewrite E1. subst s. unfold unclosed_text at 2.
    rewrite find_from, app_assoc. rewrite Hsz. pose proof (size_nonneg rest).
    case_match eqn:Ei; [|unfold npos; lia].
    apply search_behind in Ei; [|done|by apply (bool_decide_unpack _)]. unfold size. lia.
  - exists (pre ++ lit_bytes " show_columns:"), (lit_bytes "["), (c :: cols).
    split_and!; [subst s; unfold unclosed_text; by rewrite <- app_assoc|done| |done|].
    + by apply (bool_decide_unpack _).
    + rewrite Hsz, !size_app. change (size show_marker) with 15.
      change (size (lit_bytes " show_columns:")) with 14.
      pose proof (size_nonneg (closed (c :: cols))). lia.
Qed.

(** C32. When the loops over the columns end.  On a list of complete columns,
    with any text around it and the markers only where the list begins and ends,
    the outer loop makes one iteration for each column and then ends, with every
    fuel above their number: it has found in their order the places of each name
    between its backticks, doubled backticks included, of its type, and of the
    comma after its NULL (for the last column: of the next comma of the text, or
    of the end of the list).  If a further column of the list has no closing
    backtick, and neither the text before the list nor the rest of it has one,
    then the loop never ends: after every number of iterations it makes another
    one, because the search for the name gives [npos] and the one for the end of
    the field starts again at the beginning of the text; here the name of the
    first column has no comma and its character set no backtick. *)
Theorem explain_loops pre c cols :
  Forall shown_ok (c :: cols) ->
  search show_marker (pre ++ lit_bytes " show_columns:") = None ->
  (forall post, let s := explain_text pre c cols post in
     search end_marker (show_marker ++ columns_head c cols ++ lit_bytes "NULL]") = None ->
     size s < 2 ^ 63 ->
     exists p, columns_end s <= p /\ forall fuel, (length cols + 2 <= fuel)%nat ->
       collect (columns_step s) fuel (columns_start s)
       = Done (column_splits (size (pre ++ show_marker)) c cols post (columns_end s), p))
  /\ (forall rest junk, let s := unclosed_text pre (c :: cols) rest in
     backtick ∉ pre -> backtick ∉ rest -> plain_column c ->
     search end_marker (show_marker ++ closed (c :: cols)) = None ->
     size s < 2 ^ 63 ->
     (forall n, is_Some (orbit (columns_step s) n (columns_start s)))
     /\ ExplainToRowSchema (string_of_list_ascii s) junk = Undef "the loop does not end").
Proof.
  intros Hok Hpre. split.
  - intros post s Hbody Hlt. unfold columns_start, columns_step, columns_end.
    destruct (show_marker_at pre (columns_head c cols ++ end_marker ++ post) Hpre) as [E1 E2].
    fold (explain_text pre c cols post) in E1, E2. fold s in E1, E2. rewrite !E1, E2.
    pose proof (end_marker_at pre c cols post Hbody) as Hend. fold s in Hend. cbv zeta in Hend.
    assert (pre ++ show_marker = (pre ++ lit_bytes " show_columns:") ++ lit_bytes "[") as ->
      by (by rewrite <- app_assoc).
    apply fields_loop; try done; [|by apply (bool_decide_unpack _)].
    subst s. unfold explain_text. rewrite columns_head_tail. by rewrite <- !app_assoc.
  - intros rest junk s Hpreb Hrest Hplain Hnend Hlt.
    assert (forall n, is_Some (orbit (columns_step s) n (columns_start s))) as Hforever.
    2: { split; [done|]. unfold ExplainToRowSchema. cbv zeta.
         assert (lit_bytes (string_of_list_ascii s) = s) as ->
           by apply list_ascii_of_string_of_list_ascii.
         pose proof (collect_orbit _ _ _ (Hforever (parse_fuel s))) as E.
         unfold columns_step, columns_start, columns_end in E. by rewrite E. }
    exact (unclosed_loop pre c cols rest Hok Hpre Hpreb Hrest Hplain Hnend Hlt).
Qed.

Lemma explain_loops_witness :
  let c := mkShown "a`b" (TInt 11) "" in
  let d := mkShown "d" (TDecimal 10 2) "NOT " in
  let s := explain_text [] c [d] (lit_bytes "r") in
  let u := unclosed_text [] [c; d] (lit_bytes "x text NULL] ") in
  (exists p, columns_end s <= p /\ forall fuel, (3 <= fuel)%nat ->
     collect (columns_step s) fuel (columns_start s)
     = Done ([mkFieldDefSplit 16 19 22 29 34; mkFieldDefSplit 37 37 40 53 58], p))
  /\ forall n, is_Some (orbit (columns_step u) n (columns_start u)).
Proof.
  intros c d s u.
  assert (Forall shown_ok [c; d]) as Hok.
  { repeat constructor; by apply (bool_decide_unpack _); vm_compute. }
  destruct (explain_loops [] c [d] Hok eq_refl) as [Hclosed Hunclosed]. split.
  - exact (Hclosed (lit_bytes "r") eq_refl eq_refl).
  - refine (proj1 (Hunclosed (lit_bytes "x text NULL] ") 0 _ _ _ eq_refl eq_refl));
      [apply not_elem_of_nil|by apply (bool_decide_unpack _)|].
    split; by apply (bool_decide_unpack _).
Defined.

(** The loop goes back to the first comma of the text when a name is not
    closed, and never ends. *)
Lemma unclosed_name_does_not_end :
  ExplainToRowSchema "a ,b show_columns:[`c int(11) NULL] " 0 = Undef "the loop does not end".
Proof. vm_compute. reflexivity. Qed.
