(* ===== verification/Sql.v ===== *)
(** The SQL texts the library sends: namespace [sql] of [utils.cpp].  The
    definitions are the string functions of the source; a small recogniser of
    the same grammar reads the texts back, which shows that a query determines
    the names and the numbers it was made of, whatever characters they have. *)

From Stdlib Require Import Ascii String.
From stdpp Require Import base list strings numbers tactics.
From stdpp Require Import options.
From S2P Require Import Prelude Schema Text Utils.

Inductive TableType := AggResultTable | AggResultTableMaterialized | RegularTable.

#[export] Instance TableType_eq_dec : EqDecision TableType.
Proof. solve_decision. Defined.

Inductive WriteBufferType := TSV | AVRO.

(** The members are a [std::set] and a [std::vector]; the set is kept as its
    list of elements. *)
Record TableKeys := mkTableKeys {
  shard_key : list string;
  sort_key : list string
}.

Abbreviation backtick := ("`"%char).

(** ** Names and lists *)
Definition QuotedName (name : string) : string := quoted backtick backtick name.

(** The loops of the [Join] functions: a comma before each further element. *)
Fixpoint join_more (result : string) (l : list string) : string :=
  match l with
  | [] => result
  | x :: l => join_more (result +:+ "," +:+ x) l
  end.

(** An array of at least [colsNum] numbers. *)
Definition JoinIds (cols : list Z) (colsNum : Z) : string :=
  match take (Z.to_nat colsNum) cols with
  | [] => ""
  | c :: cols => join_more (to_string c) (to_string <$> cols)
  end.

Definition JoinColumnNames (cols : list string) : string :=
  match cols with
  | [] => ""
  | c :: cols => join_more (QuotedName c) (QuotedName <$> cols)
  end.

(** The overload for a vector. *)
Definition JoinColumnNames_v `{Build} (cols : list string) : outcome exn string :=
  _ ← c_assert (0 <? length cols)%nat "cols && cols->size() > 0";
  match cols with
  | [] => Undef "(*cols)[0] of an empty vector"
  | c :: cols => Done (join_more (QuotedName c) (QuotedName <$> cols))
  end.

Definition BuildSortKey (partitionOrderByCols : list string) (keyColumnName : string)
  : string :=
  let result := JoinColumnNames partitionOrderByCols in
  let needAddKey :=
    negb (existsb (fun c => bool_decide (keyColumnName = c)) partitionOrderByCols) in
  if needAddKey then
    (if (0 <? String.length result)%nat then result +:+ "," else result)
      +:+ QuotedName keyColumnName
  else result.

Definition PartitionBy (partitionByCols partitionOrderByCols : list string)
    (keyColumnName : string) (tableType : TableType) : string :=
  if decide (tableType <> RegularTable) then
    if bool_decide (partitionByCols = []) && bool_decide (partitionOrderByCols = [])
    then ""
    else
      let result :=
        if decide (partitionByCols = []) then ""
        else " PARTITION BY (" +:+ JoinColumnNames partitionByCols +:+ ")" in
      if decide (partitionOrderByCols = []) then result
      else result +:+ " WITH (PARTITION_ORDER_BY = ("
             +:+ JoinColumnNames partitionOrderByCols +:+ "))"
  else
    let result :=
      if decide (partitionByCols = []) then ""
      else "SHARD KEY(" +:+ JoinColumnNames partitionByCols +:+ ")" in
    let result := if (0 <? String.length result)%nat then result +:+ "," else result in
    let result := result +:+ " SORT KEY("
      +:+ BuildSortKey partitionOrderByCols keyColumnName +:+ ")" in
    "(" +:+ result +:+ ")".

(** ** Queries *)
Definition table_kind (t : TableType) : string :=
  match t with
  | AggResultTableMaterialized => "MATERIALIZED RESULT TABLE "
  | AggResultTable => "RESULT TABLE "
  | RegularTable => "TABLE "
  end.

Definition MakeCreateTableQuery (resultTableName selectQuery keyColumnName : string)
    (tableType : TableType) (partitionByCols partitionOrderByCols : list string)
  : string :=
  "CREATE " +:+ table_kind tableType +:+ QuotedName resultTableName
  +:+ PartitionBy partitionByCols partitionOrderByCols keyColumnName tableType
  +:+ " AS " +:+ selectQuery.

Definition MakeDropResultQuery (resultTableName : string) : string :=
  "DROP RESULT TABLE " +:+ QuotedName resultTableName.

Definition MakeDropTableQuery (resultTableName : string) : string :=
  "DROP TABLE IF EXISTS " +:+ QuotedName resultTableName.

(** The sum [resultQuery + " AS alias "] is computed and dropped. *)
Definition MakeReadResultTableQuery (resultTableName : string) (partition : Z)
    (s2Version : string) : outcome exn string :=
  let resultQuery := "SELECT * FROM ::" +:+ QuotedName resultTableName in
  c ← CompareVersions s2Version "7.8.14";
  let dropped := if c >? 0 then resultQuery +:+ " AS alias " else "" in
  Done (resultQuery +:+ " WHERE partition_id() = " +:+ to_string partition).

Definition MakeReadColumnStoreTableQuery (tableName keyColumnName : string)
    (partitionOrderByCols : list string) (partition : Z) : string :=
  "SELECT * FROM " +:+ QuotedName tableName
  +:+ " WHERE partition_id() = " +:+ to_string partition
  +:+ " ORDER BY " +:+ BuildSortKey partitionOrderByCols keyColumnName.

(** [columnstoreFullSortKey] is [None] for the NULL pointer. *)
Definition MakeReadOriginalTableQuery `{Build} (query : string)
    (columnstoreFullSortKey : option (list string))
    (partitionOrderByCols : list string) (partition : Z) : outcome exn string :=
  let resultQuery := "SELECT * FROM (" +:+ query +:+ ")"
    +:+ " WHERE partition_id() = " +:+ to_string partition in
  match columnstoreFullSortKey with
  | Some ((_ :: _) as key) =>
      k ← JoinColumnNames_v key; Done (resultQuery +:+ " ORDER BY " +:+ k)
  | _ =>
      if decide (partitionOrderByCols = []) then Done resultQuery
      else Done (resultQuery +:+ " ORDER BY " +:+ JoinColumnNames partitionOrderByCols)
  end.

Definition MakePointInTimeQuery (table selectQuery keyColumnName : string)
    (partition_id row_id : Z) (is_result_table : bool) (s2Version : string)
  : outcome exn string :=
  if decide (selectQuery <> ""%string) then
    Done ("SELECT * FROM (" +:+ selectQuery +:+ ")"
          +:+ " WHERE partition_id() = " +:+ to_string partition_id
          +:+ " AND " +:+ keyColumnName +:+ "=" +:+ to_string row_id)
  else if is_result_table then
    let resultQuery := "SELECT * FROM ::" +:+ QuotedName table in
    c ← CompareVersions s2Version "7.8.14";
    let dropped := if c >=? 0 then resultQuery +:+ " AS alias " else "" in
    Done (resultQuery +:+ " WHERE partition_id() = " +:+ to_string partition_id
          +:+ " AND partition_row_id() = " +:+ to_string row_id)
  else
    Done ("SELECT * FROM " +:+ QuotedName table
          +:+ " WHERE partition_id() = " +:+ to_string partition_id
          +:+ " AND " +:+ QuotedName keyColumnName +:+ "=" +:+ to_string row_id).

Definition MakeRowIdFilterQuery (table selectQuery keyColumnName : string)
    (partition_id : Z) (rowIds : list Z) (rowIdsNum : Z) : string :=
  (if decide (selectQuery <> ""%string)
   then "SELECT * FROM (" +:+ selectQuery +:+ ")"
   else "SELECT * FROM " +:+ QuotedName table)
  +:+ " WHERE partition_id() = " +:+ to_string partition_id
  +:+ " AND " +:+ QuotedName keyColumnName +:+ " IN "
  +:+ "(" +:+ JoinIds rowIds rowIdsNum +:+ ")"
  +:+ " ORDER BY " +:+ QuotedName keyColumnName.

Definition MakeSelectQueryMeta (tableName : string) : string :=
  "SELECT * FROM " +:+ QuotedName tableName +:+ " WHERE 1 = 0".

Definition MakeExplainCreateResultTableQuery (selectQuery explainType : string) : string :=
  "EXPLAIN " +:+ explainType +:+ " CREATE RESULT TABLE tmp AS " +:+ selectQuery.

Definition MakeGetAggregatorsQuery : string :=
  "SELECT TYPE, IP_ADDR, PORT, EXTERNAL_HOST, EXTERNAL_PORT FROM information_schema.mv_nodes WHERE TYPE = 'CA' ORDER BY IP_ADDR, PORT, EXTERNAL_HOST, EXTERNAL_PORT".

Abbreviation sql_literal := (quoted "'"%char "092"%char).

Definition MakeGetTableKeysQuery (db tableName : string) : string :=
  "SELECT SEQ_IN_INDEX, COLUMN_NAME, INDEX_TYPE FROM INFORMATION_SCHEMA.STATISTICS"
  +:+ " WHERE TABLE_SCHEMA = " +:+ sql_literal db
  +:+ " AND TABLE_NAME = " +:+ sql_literal tableName
  +:+ " AND (INDEX_TYPE = 'CLUSTERED COLUMNSTORE' OR INDEX_TYPE = 'SHARD')"
  +:+ " ORDER BY INDEX_TYPE, SEQ_IN_INDEX".

(** ** Loading data *)
Definition MakeAvroFieldName (i : Z) : string := "col_" +:+ to_string i.
Definition MakeAvroVarName (i : Z) : string := "@var_" +:+ to_string i.

Abbreviation dquote := (String "034"%char EmptyString).

(** What a column adds: its mapping, and what is computed from the variable
    the mapping sets (nothing when the field is loaded as it is). *)
Definition avro_var_mapping (i : Z) : string :=
  MakeAvroVarName i +:+ " <- %::" +:+ MakeAvroFieldName i.

Definition ColumnAvro (i : Z) (c : Column) (treatZeroLenAsNull : bool)
  : string * option string :=
  let v := MakeAvroVarName i in
  let q := QuotedName (col_name c) in
  let direct := (q +:+ " <- %::" +:+ MakeAvroFieldName i, None) in
  match col_type c with
  | Int64 =>
      (avro_var_mapping i,
       Some (q +:+ " = IF(" +:+ v +:+ " != -9223372036854775808," +:+ v +:+ ",NULL)"))
  | Int32 =>
      (avro_var_mapping i,
       Some (q +:+ " = IF(" +:+ v +:+ " != -2147483648," +:+ v +:+ ",NULL)"))
  | DateTime =>
      (avro_var_mapping i,
       Some (q +:+ " = ADDDATE(" +:+ dquote +:+ "1960-01-01" +:+ dquote +:+ ", INTERVAL "
             +:+ v +:+ " MICROSECOND)"))
  | Time =>
      (avro_var_mapping i,
       Some (q +:+ "= IF(" +:+ v +:+ "= -9223372036854775808,NULL,CONCAT(IF(" +:+ v
             +:+ "> 0, '', '-'),ADDTIME(SEC_TO_TIME(FLOOR(ABS(" +:+ v
             +:+ "/1000000))),CONCAT('00:00:00.',LPAD(ABS(" +:+ v
             +:+ ") % 1000000 :> TEXT, 6, '0')))))"))
  | Date =>
      (avro_var_mapping i,
       Some (q +:+ " = ADDDATE(" +:+ dquote +:+ "1960-01-01" +:+ dquote +:+ ", INTERVAL "
             +:+ v +:+ " DAY)"))
  | Fixed | Variable_ =>
      if treatZeroLenAsNull then
        (avro_var_mapping i,
         Some (q +:+ " = IF(LENGTH(" +:+ v +:+ ") = 0, NULL," +:+ v +:+ ")"))
      else direct
  | Double | Unsupported => direct
  end.

Fixpoint MakeColumnsAvro_loop (i : Z) (cols : list Column) (treatZeroLenAsNull : bool)
    (mappingFieldsPart computingColumnsPart : string) : string * string :=
  match cols with
  | [] => (mappingFieldsPart, computingColumnsPart)
  | c :: cols =>
      let mappingFieldsPart :=
        if 0 <? i then mappingFieldsPart +:+ "," else mappingFieldsPart in
      let '(mapping, computing) := ColumnAvro i c treatZeroLenAsNull in
      let computingColumnsPart :=
        match computing with
        | None => computingColumnsPart
        | Some t =>
            (if (0 <? String.length computingColumnsPart)%nat
             then computingColumnsPart +:+ "," else computingColumnsPart +:+ "SET ")
            +:+ t
        end in
      MakeColumnsAvro_loop (i + 1) cols treatZeroLenAsNull
        (mappingFieldsPart +:+ mapping) computingColumnsPart
  end.

Definition MakeColumnsAvro (schema : RowSchema) (treatZeroLenAsNull : bool)
  : string * string :=
  MakeColumnsAvro_loop 0 (ColumnInfo schema) treatZeroLenAsNull "" "".

(** The JSON values the schema is built of. *)
Inductive json :=
  | json_string (s : string)
  | json_array (l : list json)
  | json_object (l : list (string * json)).

Definition avro_type (t : ColumnType) : option string :=
  match t with
  | Int64 | DateTime | Time => Some "long"%string
  | Int32 | Date => Some "int"%string
  | Double => Some "double"%string
  | Variable_ | Fixed => Some "bytes"%string
  | Unsupported => None
  end.

Fixpoint AvroFields (i : Z) (cols : list Column) (fields_arr : list json)
  : outcome exn (list json) :=
  match cols with
  | [] => Done fields_arr
  | c :: cols =>
      match avro_type (col_type c) with
      | Some t =>
          let field := json_object [("name"%string, json_string (MakeAvroFieldName i));
                                    ("type"%string, json_string t)] in
          AvroFields (i + 1) cols (fields_arr ++ [field])
      | None =>
          s2_throw S2C_ERROR_INV_ARG
            ("Unsupported data type: " +:+ to_string (ColumnType_to_int (col_type c)))
      end
  end.

(** [json_dumps] is jansson's printer. *)
Section avro.
Context (json_dumps : json -> string).

Definition MakeAvroJsonSchema (schema : RowSchema) : outcome exn string :=
  fields_arr ← AvroFields 0 (ColumnInfo schema) [];
  Done (json_dumps (json_object
    [("type"%string, json_string "record"); ("name"%string, json_string "schema_name");
     ("fields"%string, json_array fields_arr)])).

Definition MakeLoadDataQuery (tableName : string) (schema : RowSchema)
    (format : WriteBufferType) (treatZeroLenAsNull : bool) : outcome exn string :=
  let result := "LOAD DATA LOCAL INFILE 'placeholder' INTO TABLE "
    +:+ QuotedName tableName +:+ " " in
  match format with
  | TSV =>
      match ColumnInfo schema with
      | [] => Undef "ColumnInfo[0] of an empty schema"
      | c :: cols =>
          let columnsPart :=
            join_more (" (" +:+ QuotedName (col_name c))
              ((fun c => QuotedName (col_name c)) <$> cols) +:+ ") " in
          Done (result +:+ columnsPart +:+ " FIELDS OPTIONALLY ENCLOSED BY '"
                +:+ dquote +:+ "'")
      end
  | AVRO =>
      let '(mapping, computing) := MakeColumnsAvro schema treatZeroLenAsNull in
      avro_schema ← MakeAvroJsonSchema schema;
      Done (result +:+ " FORMAT AVRO " +:+ "(" +:+ mapping +:+ ")" +:+ " SCHEMA " +:+ "'"
            +:+ avro_schema +:+ "'" +:+ " " +:+ computing)
  end.
End avro.

(** ** Reading the texts back *)
Fixpoint lit (p s : string) : option string :=
  match p, s with
  | EmptyString, _ => Some s
  | String a p, String b s => if decide (a = b) then lit p s else None
  | String _ _, EmptyString => None
  end.

Definition ident (s : string) : option (string * string) := unquote backtick backtick s.

(** A comma-separated list of at least one item. *)
Fixpoint sep_by {A} (fuel : nat) (item : string -> option (A * string)) (s : string)
  : option (list A * string) :=
  match fuel with
  | O => None
  | S fuel =>
      '(x, s) ← item s;
      match lit "," s with
      | Some s => '(l, s) ← sep_by fuel item s; Some (x :: l, s)
      | None => Some ([x], s)
      end
  end.

Definition names (s : string) : option (list string * string) :=
  sep_by (S (String.length s)) ident s.
Definition numbers (s : string) : option (list Z * string) :=
  sep_by (S (String.length s)) read_int s.

(** What may follow a name or a number so that its end is seen. *)
Definition stops (s : string) : bool :=
  negb (head_is backtick s) && negb (starts_with_digit s).

Lemma lit_app p s : lit p (p +:+ s) = Some s.
Proof.
  induction p as [|a p IH]; [done|]. rewrite app_cons_s. cbn [lit].
  by rewrite decide_True.
Qed.

Lemma ident_QuotedName n s : stops s = true -> ident (QuotedName n +:+ s) = Some (n, s).
Proof.
  intros H. unfold QuotedName, ident. rewrite quoted_app_eq. apply unquote_quoted.
  intros _. apply andb_true_iff in H as [H _]. by apply negb_true_iff.
Qed.

Lemma read_int_stops z s : stops s = true -> read_int (to_string z +:+ s) = Some (z, s).
Proof.
  intros H. apply read_int_to_string.
  apply andb_true_iff in H as [_ H]. by apply negb_true_iff.
Qed.

Lemma lit_comma_stops s : head_is ","%char s = false -> lit "," s = None.
Proof.
  destruct s as [|c s]; [done|]. intros H%bool_decide_eq_false. cbn.
  rewrite decide_False by done. done.
Qed.

Lemma join_more_app r x l s :
  join_more r (x :: l) +:+ s = r +:+ "," +:+ (join_more x l +:+ s).
Proof.
  revert r x. induction l as [|y l IH]; intros r x; cbn [join_more].
  - by rewrite !app_assoc_s.
  - cbn [join_more] in IH. rewrite (IH (r +:+ "," +:+ x)), (IH x), !app_assoc_s. done.
Qed.

Lemma sep_by_join {A} (item : string -> option (A * string)) (pr : A -> string)
    fuel x l s :
  (forall x s, stops s = true -> item (pr x +:+ s) = Some (x, s)) ->
  (length l < fuel)%nat -> stops s = true -> head_is ","%char s = false ->
  sep_by fuel item (join_more (pr x) (pr <$> l) +:+ s) = Some (x :: l, s).
Proof.
  intros Hitem Hf Hs Hc. revert x fuel Hf. induction l as [|y l IH]; intros x fuel Hf.
  - destruct fuel as [|fuel]; [cbn in Hf; lia|]. cbn [sep_by fmap list_fmap join_more].
    rewrite Hitem by done. cbn [mbind option_bind]. by rewrite lit_comma_stops.
  - destruct fuel as [|fuel]; [cbn in Hf; lia|]. cbn [length] in Hf.
    change (pr <$> y :: l) with (pr y :: (pr <$> l)). rewrite join_more_app.
    cbn [sep_by]. rewrite Hitem by done. cbn [mbind option_bind].
    rewrite lit_app, IH by (done || lia). done.
Qed.

Lemma length_join_more r l :
  (length l <= String.length (join_more r l))%nat.
Proof.
  revert r. assert (forall r, (length l + String.length r <= String.length (join_more r l))%nat) as H.
  { induction l as [|x l IH]; intros r; cbn [join_more length]; [lia|].
    specialize (IH (r +:+ "," +:+ x)). rewrite !length_app_s in IH. cbn in IH. lia. }
  intros r. specialize (H r). lia.
Qed.

Lemma names_JoinColumnNames cols s :
  cols <> [] -> stops s = true -> head_is ","%char s = false ->
  names (JoinColumnNames cols +:+ s) = Some (cols, s).
Proof.
  intros Hne Hs Hc. destruct cols as [|x cols]; [done|]. unfold names, JoinColumnNames.
  apply (sep_by_join _ QuotedName); [apply ident_QuotedName| |done..].
  rewrite length_app_s. pose proof (length_join_more (QuotedName x) (QuotedName <$> cols)) as H.
  rewrite length_fmap in H. lia.
Qed.

Lemma numbers_JoinIds ids s :
  ids <> [] -> stops s = true -> head_is ","%char s = false ->
  numbers (JoinIds ids (Z.of_nat (length ids)) +:+ s) = Some (ids, s).
Proof.
  intros Hne Hs Hc. unfold numbers, JoinIds. rewrite Nat2Z.id, take_ge by done.
  destruct ids as [|x ids]; [done|].
  apply (sep_by_join _ to_string); [apply read_int_stops| |done..].
  rewrite length_app_s. pose proof (length_join_more (to_string x) (to_string <$> ids)) as H.
  rewrite length_fmap in H. lia.
Qed.

(** The columns of a sort key: those asked for, and the key column unless it
    is one of them. *)
Definition sort_key_columns (cols : list string) (key : string) : list string :=
  if decide (key ∈ cols) then cols else cols ++ [key].

Lemma join_more_snoc r l x : join_more r (l ++ [x]) = join_more r l +:+ "," +:+ x.
Proof. revert r. induction l as [|y l IH]; intros r; cbn; auto. Qed.

Lemma BuildSortKey_eq cols key :
  BuildSortKey cols key = JoinColumnNames (sort_key_columns cols key).
Proof.
  unfold BuildSortKey, sort_key_columns. destruct (decide (key ∈ cols)) as [Hin|Hin].
  - assert (existsb (fun c => bool_decide (key = c)) cols = true) as ->; [|done].
    apply existsb_exists. exists key. split; [by apply list_elem_of_In|].
    by apply bool_decide_eq_true.
  - assert (existsb (fun c => bool_decide (key = c)) cols = false) as ->.
    { apply not_true_is_false. intros (x & Hx%list_elem_of_In & <-%bool_decide_eq_true)%existsb_exists.
      done. }
    destruct cols as [|c cols]; [done|]. cbn [negb].
    assert (0 < String.length (JoinColumnNames (c :: cols)))%nat as Hl.
    { unfold JoinColumnNames. destruct (QuotedName <$> cols) as [|y l] eqn:E; [cbn; lia|].
      rewrite <- (app_nil_r_s (join_more _ _)), join_more_app, length_app_s. cbn. lia. }
    apply Nat.ltb_lt in Hl. rewrite Hl. change ((c :: cols) ++ [key]) with (c :: (cols ++ [key])).
    unfold JoinColumnNames. rewrite fmap_app. change (QuotedName <$> [key]) with [QuotedName key].
    rewrite join_more_snoc. by rewrite !app_assoc_s.
Qed.

Lemma sort_key_columns_ne cols key : sort_key_columns cols key <> [].
Proof.
  unfold sort_key_columns. case_decide as H; [|by destruct cols].
  intros ->. by apply not_elem_of_nil in H.
Qed.
#[export] Hint Resolve sort_key_columns_ne : s2.

(** The queries over one partition: the source they read from, the partition,
    and what follows. *)
Inductive from_source :=
  | FromResultTable (t : string)     (* ::`t` *)
  | FromTable (t : string)           (* `t` *)
  | FromQuery (query : string).      (* (query) *)

(** Where a comment or another statement begins, the text is not understood. *)
Definition comment_start (s : string) : bool :=
  head_is "#" s || head_is ";" s
  || match lit "--" s, lit "/*" s with None, None => false | _, _ => true end.

Definition quote_mark (c : ascii) : bool :=
  bool_decide (c = "'"%char \/ c = "034"%char \/ c = backtick).

(** The text of a subquery up to the parenthesis that closes it, inside of
    [depth] parentheses of its own and of the quotation marks [open]. *)
Fixpoint subquery (depth : nat) (open : option ascii) (s : string)
  : option (string * string) :=
  match s with
  | EmptyString => None
  | String c s' =>
      let more depth open := '(q, r) ← subquery depth open s'; Some (String c q, r) in
      match open with
      | Some mark =>
          if decide (c = mark) then more depth None
          else if decide (c = "092"%char /\ mark <> backtick) then
            match s' with
            | EmptyString => None
            | String d s'' => '(q, r) ← subquery depth open s''; Some (String c (String d q), r)
            end
          else more depth open
      | None =>
          if comment_start s then None
          else if decide (c = ")"%char) then
            match depth with O => Some (""%string, s') | S depth => more depth None end
          else if decide (c = "("%char) then more (S depth) None
          else if quote_mark c then more depth (Some c)
          else more depth None
      end
  end.

(** The query can stand between parentheses: its own parentheses and quotation
    marks are balanced, and it has no comment and no semicolon. *)
Definition closed_query (query : string) : Prop :=
  subquery 0 None (query +:+ ")") = Some (query, ""%string).

Definition from (s : string) : option (from_source * string) :=
  s ← lit "SELECT * FROM " s;
  match lit "::" s, lit "(" s with
  | Some s, _ => '(t, s) ← ident s; Some (FromResultTable t, s)
  | _, Some s => '(q, s) ← subquery 0 None s; Some (FromQuery q, s)
  | None, None => '(t, s) ← ident s; Some (FromTable t, s)
  end.

Definition at_partition (s : string) : option (Z * string) :=
  s ← lit " WHERE partition_id() = " s; read_int s.

(** What restricts and orders the rows of the partition. *)
Inductive row_clause :=
  | AllRows
  | OrderBy (cols : list string)
  | RowIs (row : Z)                                   (* partition_row_id() *)
  | KeyIs (key : string) (row : Z)
  | PlainKeyIs (key : string) (row : Z)               (* the name without quotes *)
  | KeyIn (key : string) (rows : list Z) (order : string).

(** A name without quotation marks. *)
Definition letter (c : ascii) : bool :=
  let n := Z_of_byte c in
  bool_decide (65 <= n <= 90 \/ 97 <= n <= 122 \/ n = 95).
Definition name_char (c : ascii) : bool :=
  letter c || is_digit c || bool_decide (c = "$"%char).

Fixpoint name_prefix (s : string) : string * string :=
  match s with
  | String c s' =>
      if name_char c then let '(n, r) := name_prefix s' in (String c n, r) else (""%string, s)
  | EmptyString => (""%string, s)
  end.

Definition plain_name (s : string) : bool :=
  match s with String c _ => letter c && all_chars name_char s | EmptyString => false end.

Definition row_clause_of (s : string) : option (row_clause * string) :=
  match lit " ORDER BY " s, lit " AND partition_row_id() = " s, lit " AND " s with
  | Some s, _, _ => '(cols, s) ← names s; Some (OrderBy cols, s)
  | _, Some s, _ => '(r, s) ← read_int s; Some (RowIs r, s)
  | _, _, Some s =>
      match ident s with
      | Some (key, s) =>
          match lit "=" s, lit " IN (" s with
          | Some s, _ => '(r, s) ← read_int s; Some (KeyIs key r, s)
          | _, Some s =>
              '(rows, s) ← numbers s;
              s ← lit ") ORDER BY " s;
              '(order, s) ← ident s; Some (KeyIn key rows order, s)
          | _, _ => None
          end
      | None =>
          let '(key, s) := name_prefix s in
          if plain_name key then
            s ← lit "=" s; '(r, s) ← read_int s; Some (PlainKeyIs key r, s)
          else None
      end
  | None, None, None => Some (AllRows, s)
  end.

Definition read_query (s : string) : option (from_source * Z * row_clause) :=
  '(f, s) ← from s;
  '(p, s) ← at_partition s;
  '(c, s) ← row_clause_of s;
  if decide (s = ""%string) then Some (f, p, c) else None.

Lemma ident_QuotedName_end n : ident (QuotedName n) = Some (n, ""%string).
Proof. rewrite <- (app_nil_r_s (QuotedName n)). by apply ident_QuotedName. Qed.

Lemma read_int_end z : read_int (to_string z) = Some (z, ""%string).
Proof. rewrite <- (app_nil_r_s (to_string z)). by apply read_int_stops. Qed.

Lemma names_end cols : cols <> [] -> names (JoinColumnNames cols) = Some (cols, ""%string).
Proof. intros. rewrite <- (app_nil_r_s (JoinColumnNames cols)). by apply names_JoinColumnNames. Qed.

Lemma lit_quoted p n s :
  head_is backtick p = false -> p <> ""%string -> lit p (QuotedName n +:+ s) = None.
Proof.
  intros Hp Hne. destruct p as [|c p]; [done|]. unfold QuotedName. rewrite quoted_app_eq.
  apply bool_decide_eq_false in Hp. cbn. by rewrite decide_False.
Qed.

Fixpoint mismatch (p q : string) : bool :=
  match p, q with
  | String a p, String b q => if decide (a = b) then mismatch p q else true
  | _, _ => false
  end.

Lemma lit_mismatch p q s : mismatch p q = true -> lit p (q +:+ s) = None.
Proof.
  revert q. induction p as [|a p IH]; intros [|b q] H; try done.
  rewrite app_cons_s. cbn in *. case_decide; auto.
Qed.

Lemma lit_longer p q r s : lit p q = Some r -> lit p (q +:+ s) = Some (r +:+ s).
Proof.
  revert q. induction p as [|a p IH]; intros [|b q] H; try done.
  - by injection H as <-.
  - injection H as <-. done.
  - rewrite app_cons_s. cbn in *. case_decide; [auto|done].
Qed.

Lemma lit_shorter p q r s : lit q p = Some r -> lit p (q +:+ s) = lit r s.
Proof.
  revert q. induction p as [|a p IH]; intros [|b q] H; try done.
  - by injection H as <-.
  - by injection H as <-.
  - rewrite app_cons_s. cbn in *. case_decide as Hd; [subst|done].
    rewrite decide_True by done. auto.
Qed.

(** The text of a subquery ends where it ended before more was added. *)
Lemma comment_start_app c d s t :
  comment_start (String c (String d s) +:+ t) = comment_start (String c (String d s)).
Proof.
  unfold comment_start. rewrite !app_cons_s. cbn [lit head_is].
  by repeat (case_decide; cbn [lit]).
Qed.

Lemma subquery_app depth open s q r t :
  subquery depth open s = Some (q, r) -> subquery depth open (s +:+ t) = Some (q, r +:+ t).
Proof.
  assert (forall n depth open s q, (String.length s < n)%nat ->
    subquery depth open s = Some (q, r) -> subquery depth open (s +:+ t) = Some (q, r +:+ t)) as H.
  2: { apply (H (S (String.length s))). lia. }
  clear. induction n as [|n IH]; intros depth open s q Hn E; [lia|].
  destruct s as [|c s]; [done|]. rewrite app_cons_s. cbn [subquery String.length] in *.
  assert (forall dp op q', (x ← subquery dp op s; let '(q, r) := x in Some (String c q, r)) = Some (q', r) ->
    (x ← subquery dp op (s +:+ t); let '(q, r) := x in Some (String c q, r)) = Some (q', r +:+ t)) as Hmore.
  { intros dp op q' E'. destruct (subquery dp op s) as [[q1 r1]|] eqn:E1; [|done].
    cbn in E'. injection E' as <- ->. by rewrite (IH dp op s q1) by (done || lia). }
  destruct open as [mark|].
  - case_decide; [by apply Hmore|]. case_decide; [|by apply Hmore].
    destruct s as [|d s]; [done|]. rewrite app_cons_s. cbn [String.length] in Hn.
    destruct (subquery depth (Some mark) s) as [[q1 r1]|] eqn:E1; [|done].
    cbn in E. injection E as <- ->. by rewrite (IH _ _ s q1) by (done || lia).
  - assert (comment_start (String c s +:+ t) = comment_start (String c s)
      \/ s = ""%string /\ c = ")"%char) as [Hc|[-> ->]].
    { destruct s as [|d s]; [|left; apply comment_start_app]. right. split; [done|].
      destruct (comment_start (String c "")); [done|]. case_decide; [done|].
      by repeat case_match. }
    + rewrite app_cons_s in Hc. rewrite Hc. destruct (comment_start (String c s)); [done|].
      case_decide; [destruct depth; [by injection E as <- <-|by apply Hmore]|].
      case_decide; [by apply Hmore|]. destruct (quote_mark c); by apply Hmore.
    + destruct depth; [|done]. by injection E as <- <-.
Qed.

Lemma subquery_closed query s :
  closed_query query -> subquery 0 None (query +:+ ")" +:+ s) = Some (query, s).
Proof. intros Hq. rewrite <- app_assoc_s. by rewrite (subquery_app _ _ _ _ _ _ Hq). Qed.

Lemma name_prefix_app n c s :
  all_chars name_char n = true -> name_char c = false ->
  name_prefix (n +:+ String c s) = (n, String c s).
Proof.
  intros Hn Hc. induction n as [|d n IH].
  - change (name_prefix (String c s) = (""%string, String c s)). cbn [name_prefix]. by rewrite Hc.
  - rewrite app_cons_s. cbn [name_prefix all_chars] in *.
    apply andb_true_iff in Hn as [-> Hn]. by rewrite IH.
Qed.

Lemma plain_name_prefix n c s :
  plain_name n = true -> name_char c = false -> name_prefix (n +:+ String c s) = (n, String c s).
Proof.
  intros Hn. apply name_prefix_app. destruct n as [|d n]; [done|]. by apply andb_true_iff in Hn as [_ Hn].
Qed.

Lemma plain_name_ident n s : plain_name n = true -> ident (n +:+ s) = None.
Proof.
  destruct n as [|d n]; [done|]. intros [Hd _]%andb_true_iff. rewrite app_cons_s.
  unfold ident, unquote. rewrite decide_False; [done|]. by intros ->.
Qed.

(** A name is not the beginning of a text that goes on after its name. *)
Lemma lit_name p q c r d n s :
  name_prefix p = (q, String c r) -> c <> d -> name_char d = false ->
  all_chars name_char n = true -> lit p (n +:+ String d s) = None.
Proof.
  intros Hp Hcd Hd. revert q n Hp. induction p as [|a p IH]; intros q n Hp Hn; [done|].
  cbn [name_prefix] in Hp. destruct n as [|b n].
  - change (lit (String a p) (String d s) = None). cbn [lit]. case_decide as Had; [subst a|done].
    rewrite Hd in Hp. by injection Hp as <- <- <-.
  - rewrite app_cons_s. cbn [lit all_chars] in *. apply andb_true_iff in Hn as [Hb Hn].
    case_decide; [subst b|done]. rewrite Hb in Hp.
    destruct (name_prefix p) as [q1 r1]. injection Hp as <- ->. by apply (IH q1).
Qed.

(** One step of reading: the next piece of the text is known. *)
Ltac read_step :=
  first
    [ rewrite lit_app | rewrite lit_mismatch by reflexivity
    | erewrite lit_longer by reflexivity
    | erewrite lit_shorter by reflexivity | rewrite lit_quoted by done
    | rewrite ident_QuotedName by reflexivity | rewrite ident_QuotedName_end
    | rewrite read_int_stops by reflexivity | rewrite read_int_end
    | rewrite names_JoinColumnNames by (auto with s2; reflexivity)
    | rewrite names_end by auto with s2
    | rewrite numbers_JoinIds by (done || reflexivity)
    | rewrite subquery_closed by assumption
    | rewrite plain_name_ident by assumption ];
  cbn [mbind option_bind].

(** A query over a columnstore table names exactly the table, the
    partition and the sort key it was made for, whatever characters the names
    have, and the sort key always has the key column: the rows of a partition
    come in one order. *)
Theorem read_column_store_query table key cols p :
  read_query (MakeReadColumnStoreTableQuery table key cols p) =
    Some (FromTable table, p, OrderBy (sort_key_columns cols key))
  /\ key ∈ sort_key_columns cols key.
Proof.
  split.
  - unfold MakeReadColumnStoreTableQuery, read_query, from, at_partition, row_clause_of.
    rewrite BuildSortKey_eq. repeat read_step. done.
  - unfold sort_key_columns. case_decide; [done|]. apply elem_of_app. right. by left.
Qed.

(** A usable server version: [sscanf] sets its three numbers. *)
Definition version_known (v : string) : Prop :=
  exists n suffix, v = version_text n suffix /\ version_ok n
    /\ starts_with_digit suffix = false /\ head_is "."%char suffix = false.

Lemma CompareVersions_known v :
  version_known v -> exists c, CompareVersions v "7.8.14" = Done c.
Proof.
  intros (n & suffix & -> & Hn & Hs & Hd).
  apply (CompareVersions_done n (7, 8, 14) suffix ""); [done| |done..].
  split_and!; vm_compute; split; congruence.
Qed.

(** A query over a result table is the same for every version of the server. *)
Lemma result_table_query table p :
  exists q, read_query q = Some (FromResultTable table, p, AllRows)
    /\ forall v, version_known v -> MakeReadResultTableQuery table p v = Done q.
Proof.
  exists ("SELECT * FROM ::" +:+ QuotedName table +:+ " WHERE partition_id() = " +:+ to_string p).
  split; [by unfold read_query, from, at_partition; repeat read_step|].
  intros v Hv. destruct (CompareVersions_known v Hv) as [c Ec].
  unfold MakeReadResultTableQuery. by rewrite Ec, Done_bind, app_assoc_s.
Qed.

(** C36. The query over a result table reads exactly the partition asked for
    of exactly the table asked for, and is the same for every version of the
    server: the alias that [MakeReadResultTableQuery] computes for newer
    servers is never part of it. *)
Theorem read_result_table_query table p v :
  version_known v ->
  exists q, MakeReadResultTableQuery table p v = Done q
    /\ read_query q = Some (FromResultTable table, p, AllRows)
    /\ forall w, version_known w -> MakeReadResultTableQuery table p w = Done q.
Proof.
  intros Hv. destruct (result_table_query table p) as (q & Hr & Hq).
  exists q. split; [by apply Hq|by split].
Qed.

(** The columns that the query over a subquery orders by: the full sort key when
    there is one, else the columns asked for. *)
Definition original_order (columnstoreFullSortKey : option (list string))
    (partitionOrderByCols : list string) : list string :=
  match columnstoreFullSortKey with
  | Some ((_ :: _) as key) => key
  | _ => partitionOrderByCols
  end.

Definition ordered_by (cols : list string) : row_clause :=
  if decide (cols = []) then AllRows else OrderBy cols.

(** The query over a subquery; the assertion on the sort key never fails. *)
Lemma MakeReadOriginalTableQuery_spec `{Build} query key order p :
  MakeReadOriginalTableQuery query key order p =
  Done ("SELECT * FROM (" +:+ query +:+ ") WHERE partition_id() = " +:+ to_string p
        +:+ match original_order key order with
            | [] => ""%string
            | cols => " ORDER BY " +:+ JoinColumnNames cols
            end).
Proof.
  unfold MakeReadOriginalTableQuery.
  destruct key as [[|k key]|]; cbn [original_order].
  2: { unfold JoinColumnNames_v. rewrite c_assert_true by reflexivity. rewrite !Done_bind.
       by rewrite !app_assoc_s. }
  all: destruct order as [|c order];
    [rewrite decide_True by done; by rewrite !app_nil_r_s, ?app_assoc_s|
     rewrite decide_False by done; by rewrite !app_assoc_s].
Qed.

Lemma original_table_query `{Build} query key order p :
  closed_query query ->
  exists q, MakeReadOriginalTableQuery query key order p = Done q
    /\ read_query q = Some (FromQuery query, p, ordered_by (original_order key order)).
Proof.
  intros Hq. rewrite MakeReadOriginalTableQuery_spec. eexists. split; [done|].
  unfold read_query, from, at_partition, row_clause_of.
  replace (") WHERE partition_id() = " +:+ _) with
    (")" +:+ " WHERE partition_id() = " +:+ to_string p
     +:+ match original_order key order with
         | [] => ""%string
         | cols => " ORDER BY " +:+ JoinColumnNames cols
         end) by done.
  destruct (original_order key order) as [|c cols]; [rewrite app_nil_r_s|]; by repeat read_step.
Qed.

(** A point query reads exactly the row asked for: by row number in a
    result table, by the key column elsewhere. *)
Lemma point_in_time_query table key p row v :
  version_known v ->
  (exists q, MakePointInTimeQuery table "" key p row true v = Done q
    /\ read_query q = Some (FromResultTable table, p, RowIs row))
  /\ (exists q, MakePointInTimeQuery table "" key p row false v = Done q
    /\ read_query q = Some (FromTable table, p, KeyIs key row)).
Proof.
  intros Hv. destruct (CompareVersions_known v Hv) as [c Ec].
  unfold MakePointInTimeQuery. rewrite Ec. cbn [decide].
  split; eexists; (split; [reflexivity|]); rewrite ?app_assoc_s;
    unfold read_query, from, at_partition, row_clause_of; repeat read_step; done.
Qed.

(** Over a subquery the point query has the name of the key column without
    quotation marks, so it is understood if the name needs none. *)
Lemma point_in_subquery table query key p row kind v :
  query <> ""%string -> closed_query query -> plain_name key = true ->
  exists q, MakePointInTimeQuery table query key p row kind v = Done q
    /\ read_query q = Some (FromQuery query, p, PlainKeyIs key row).
Proof.
  intros Hq Hclosed Hkey. unfold MakePointInTimeQuery. rewrite decide_True by done.
  eexists. split; [done|]. unfold read_query, from, at_partition, row_clause_of.
  repeat read_step. assert (all_chars name_char key = true) as Hall.
  { destruct key; [done|]. by apply andb_true_iff in Hkey as [_ ?]. }
  change ("=" +:+ to_string row) with (String "="%char (to_string row)).
  erewrite lit_name by (reflexivity || done).
  rewrite plain_name_prefix, Hkey by done. change (String "="%char (to_string row)) with ("=" +:+ to_string row).
  repeat read_step. done.
Qed.

(** The statement for a key column whose name needs quotation marks. *)
Lemma point_in_subquery_unquoted v :
  MakePointInTimeQuery "t" "SELECT a FROM b" "row id" 3 5 false v
    = Done "SELECT * FROM (SELECT a FROM b) WHERE partition_id() = 3 AND row id=5"%string
  /\ read_query "SELECT * FROM (SELECT a FROM b) WHERE partition_id() = 3 AND row id=5" = None
  /\ read_query "SELECT * FROM (SELECT a FROM b) WHERE partition_id() = 3 AND `row id`=5"
     = Some (FromQuery "SELECT a FROM b", 3, KeyIs "row id" 5).
Proof. by vm_compute. Qed.

(** A query for several rows by key reads exactly the rows asked for,
    ordered by the key. *)
Lemma row_id_filter_query table key p rows :
  rows <> [] ->
  let num := Z.of_nat (length rows) in
  read_query (MakeRowIdFilterQuery table "" key p rows num) =
    Some (FromTable table, p, KeyIn key rows key)
  /\ forall query, query <> ""%string -> closed_query query ->
       read_query (MakeRowIdFilterQuery table query key p rows num) =
         Some (FromQuery query, p, KeyIn key rows key).
Proof.
  intros Hne num. unfold MakeRowIdFilterQuery, num.
  split; [|intros query Hq Hclosed; rewrite decide_True by done];
    rewrite ?(decide_False (P := "" <> ""%string)) by (intros H; by apply H);
    unfold read_query, from, at_partition, row_clause_of; rewrite !app_assoc_s;
    repeat read_step; done.
Qed.

(** *** CREATE TABLE *)
Definition optional {A} (open close : string) (item : string -> option (list A * string))
    (s : string) : option (list A * string) :=
  match lit open s with
  | Some s => '(x, s) ← item s; s ← lit close s; Some (x, s)
  | None => Some ([], s)
  end.

Definition read_kind (s : string) : option (TableType * string) :=
  match lit "MATERIALIZED RESULT TABLE " s, lit "RESULT TABLE " s, lit "TABLE " s with
  | Some s, _, _ => Some (AggResultTableMaterialized, s)
  | _, Some s, _ => Some (AggResultTable, s)
  | _, _, Some s => Some (RegularTable, s)
  | _, _, _ => None
  end.

(** The kind of table, its name, the columns of its distribution, those of its
    order, and the query that fills it. *)
Definition read_create (s : string)
  : option (TableType * string * list string * list string * string) :=
  s ← lit "CREATE " s;
  '(kind, s) ← read_kind s;
  '(name, s) ← ident s;
  '(dist, order, s) ←
    (if decide (kind = RegularTable) then
       s ← lit "(" s;
       '(d, s) ← optional "SHARD KEY(" ")," names s;
       s ← lit " SORT KEY(" s; '(o, s) ← names s; s ← lit "))" s;
       Some (d, o, s)
     else
       '(d, s) ← optional " PARTITION BY (" ")" names s;
       '(o, s) ← optional " WITH (PARTITION_ORDER_BY = (" "))" names s;
       Some (d, o, s));
  select ← lit " AS " s;
  Some (kind, name, dist, order, select).

(** [open cols close], or nothing without columns. *)
Definition clause (open close : string) (cols : list string) (s : string) : string :=
  if decide (cols = []) then s else open +:+ JoinColumnNames cols +:+ close +:+ s.

Lemma optional_clause open close cols s :
  lit open s = None -> stops close = true -> head_is ","%char close = false ->
  close <> ""%string ->
  optional open close names (clause open close cols s) = Some (cols, s).
Proof.
  intros Hs H1 H2 H3. unfold optional, clause. case_decide as Hc.
  - by rewrite Hs, Hc.
  - rewrite lit_app, names_JoinColumnNames; [|done|by destruct close..].
    cbn [mbind option_bind]. by rewrite lit_app.
Qed.

Lemma lit_clause p open close cols s :
  mismatch p open = true -> lit p s = None -> lit p (clause open close cols s) = None.
Proof. intros. unfold clause. case_decide; [done|]. by apply lit_mismatch. Qed.

Lemma stops_clause open close cols s :
  open <> ""%string -> stops open = true -> stops s = true ->
  stops (clause open close cols s) = true.
Proof. intros. unfold clause. case_decide; [done|]. by destruct open. Qed.

Lemma PartitionBy_result dist order key kind s :
  kind <> RegularTable ->
  PartitionBy dist order key kind +:+ s =
  clause " PARTITION BY (" ")" dist (clause " WITH (PARTITION_ORDER_BY = (" "))" order s).
Proof.
  intros Hk. unfold PartitionBy, clause. rewrite decide_True by done.
  destruct (decide (dist = [])) as [->|Hd], (decide (order = [])) as [->|Ho];
    rewrite ?(bool_decide_true (_ = _)) by done;
    rewrite ?(bool_decide_false (dist = [])) by done;
    rewrite ?(bool_decide_false (order = [])) by done; cbn [andb];
    by rewrite ?app_assoc_s, ?app_nil_l_s.
Qed.

Lemma PartitionBy_regular dist order key s :
  PartitionBy dist order key RegularTable +:+ s =
  "(" +:+ clause "SHARD KEY(" ")," dist
    (" SORT KEY(" +:+ JoinColumnNames (sort_key_columns order key) +:+ "))" +:+ s).
Proof.
  unfold PartitionBy, clause. rewrite decide_False by naive_solver. rewrite BuildSortKey_eq.
  destruct (decide (dist = [])) as [->|Hd].
  - by rewrite !app_assoc_s, ?app_nil_l_s.
  - set (l := "SHARD KEY(" +:+ _). assert (0 < String.length l)%nat as Hl.
    { unfold l. rewrite length_app_s. cbn. lia. }
    apply Nat.ltb_lt in Hl. rewrite Hl. unfold l. by rewrite !app_assoc_s.
Qed.

Lemma read_create_query table select key kind dist order :
  read_create (MakeCreateTableQuery table select key kind dist order) =
  Some (kind, table, dist,
        if decide (kind = RegularTable) then sort_key_columns order key else order,
        select).
Proof.
  unfold MakeCreateTableQuery, read_create, read_kind.
  destruct kind; cbn [table_kind];
    rewrite ?PartitionBy_regular, ?PartitionBy_result by done;
    rewrite ?app_assoc_s; repeat read_step;
    rewrite ?ident_QuotedName by (by repeat apply stops_clause); cbn [mbind option_bind];
    rewrite ?decide_True by done; rewrite ?(decide_False (P := _ = RegularTable)) by done;
    repeat read_step;
    repeat (rewrite optional_clause by (done || by apply lit_clause); cbn [mbind option_bind]);
    repeat read_step; done.
Qed.

(** C35. CREATE TABLE carries everything it was asked for: its text determines
    the kind of the table, the name, the columns that distribute it, the
    columns that order it and the query that fills it; a regular table is
    always also ordered by the key column, a result table by just the columns
    asked for. *)
Theorem create_table_query table select key kind dist order :
  read_create (MakeCreateTableQuery table select key kind dist order) =
  Some (kind, table, dist,
        if decide (kind = RegularTable) then sort_key_columns order key else order,
        select).
Proof. apply read_create_query. Qed.

(** *** DROP TABLE: whether it is a result table, and the name *)
Definition read_drop (s : string) : option (bool * string) :=
  s ← lit "DROP " s;
  match lit "RESULT TABLE " s, lit "TABLE IF EXISTS " s with
  | Some s, _ => '(name, s) ← ident s; if decide (s = ""%string) then Some (true, name) else None
  | _, Some s => '(name, s) ← ident s; if decide (s = ""%string) then Some (false, name) else None
  | _, _ => None
  end.

Lemma read_drop_result table : read_drop (MakeDropResultQuery table) = Some (true, table).
Proof.
  unfold MakeDropResultQuery, read_drop. rewrite ?app_assoc_s. by repeat read_step.
Qed.

Lemma read_drop_table table : read_drop (MakeDropTableQuery table) = Some (false, table).
Proof.
  unfold MakeDropTableQuery, read_drop. rewrite ?app_assoc_s. by repeat read_step.
Qed.

(** *** Keys of a table *)
Definition literal (s : string) : option (string * string) := unquote "'" "092" s.

(** A query for the keys of a table, in the order of the kind of the key and of
    the place in it: the database and the table. *)
Definition read_keys (s : string) : option (string * string) :=
  s ← lit "SELECT SEQ_IN_INDEX, COLUMN_NAME, INDEX_TYPE FROM INFORMATION_SCHEMA.STATISTICS WHERE TABLE_SCHEMA = " s;
  '(d, s) ← literal s;
  s ← lit " AND TABLE_NAME = " s;
  '(t, s) ← literal s;
  s ← lit " AND (INDEX_TYPE = 'CLUSTERED COLUMNSTORE' OR INDEX_TYPE = 'SHARD') ORDER BY INDEX_TYPE, SEQ_IN_INDEX" s;
  if decide (s = ""%string) then Some (d, t) else None.

(** The query for the keys of a table names exactly the database and the
    table it was made for: both are string literals whose quotes and
    backslashes are escaped, so no name can end its literal early. *)
Theorem table_keys_query db table :
  read_keys (MakeGetTableKeysQuery db table) = Some (db, table).
Proof.
  unfold read_keys, MakeGetTableKeysQuery, literal.
  erewrite lit_shorter by reflexivity. erewrite lit_app. cbn [mbind option_bind].
  rewrite quoted_app_eq, unquote_quoted by done. cbn [mbind option_bind].
  rewrite lit_app. cbn [mbind option_bind].
  by rewrite quoted_app_eq, unquote_quoted.
Qed.

(** *** LOAD DATA *)
Definition join (l : list string) : string :=
  match l with [] => "" | x :: l => join_more x l end.

Definition set_clause (l : list string) : string :=
  match l with [] => "" | x :: l => join_more ("SET " +:+ x) l end.

Fixpoint avro_parts (i : Z) (cols : list Column) (b : bool)
  : list (string * option string) :=
  match cols with
  | [] => []
  | c :: cols => ColumnAvro i c b :: avro_parts (i + 1) cols b
  end.

Lemma join_snoc ms x :
  join (ms ++ [x]) = (if decide (ms = []) then x else join ms +:+ "," +:+ x).
Proof. destruct ms; cbn [app join]; [done|]. rewrite decide_False by done. apply join_more_snoc. Qed.

Lemma set_clause_snoc cs x :
  set_clause (cs ++ [x]) =
  (if (0 <? String.length (set_clause cs))%nat then set_clause cs +:+ ","
   else set_clause cs +:+ "SET ") +:+ x.
Proof.
  destruct cs as [|c cs]; cbn [app]; [done|].
  assert (0 < String.length (set_clause (c :: cs)))%nat as Hl.
  { unfold set_clause. destruct cs as [|y l]; [cbn [join_more]; rewrite length_app_s; cbn; lia|].
    rewrite <- (app_nil_r_s (join_more _ _)), join_more_app, !length_app_s. cbn [String.length]. lia. }
  apply Nat.ltb_lt in Hl. rewrite Hl. unfold set_clause. rewrite join_more_snoc.
  by rewrite app_assoc_s.
Qed.

Lemma MakeColumnsAvro_loop_eq i cols b ms cs :
  0 <= i -> (0 <? i) = bool_decide (ms <> []) ->
  MakeColumnsAvro_loop i cols b (join ms) (set_clause cs) =
  (join (ms ++ (avro_parts i cols b).*1), set_clause (cs ++ omap snd (avro_parts i cols b))).
Proof.
  revert i ms cs. induction cols as [|c cols IH]; intros i ms cs Hi Hms.
  { cbn. by rewrite !app_nil_r. }
  cbn [MakeColumnsAvro_loop avro_parts fmap list_fmap omap list_omap].
  destruct (ColumnAvro i c b) as [m o] eqn:E. cbn [fst snd].
  assert ((if 0 <? i then join ms +:+ "," else join ms) +:+ m = join (ms ++ [m])) as ->.
  { rewrite join_snoc, Hms. destruct (decide (ms = [])) as [->|Hne]; [done|].
    rewrite bool_decide_true by done. by rewrite app_assoc_s. }
  assert ((0 <? i + 1) = bool_decide (ms ++ [m] <> [])) as Hn.
  { rewrite bool_decide_true by (by destruct ms). apply Z.ltb_lt. lia. }
  destruct o as [t|].
  - rewrite <- set_clause_snoc, IH by (done || lia). by rewrite <- !(assoc_L (++)).
  - rewrite IH by (done || lia). by rewrite <- !(assoc_L (++)).
Qed.

(** The record type that the columns give; [None] if one is unsupported. *)
Fixpoint avro_fields (i : Z) (cols : list Column) : option (list json) :=
  match cols with
  | [] => Some []
  | c :: cols =>
      t ← avro_type (col_type c);
      l ← avro_fields (i + 1) cols;
      Some (json_object [("name"%string, json_string (MakeAvroFieldName i));
                         ("type"%string, json_string t)] :: l)
  end.

Lemma AvroFields_eq i cols acc :
  AvroFields i cols acc =
  match avro_fields i cols with
  | Some l => Done (acc ++ l)
  | None => s2_throw S2C_ERROR_INV_ARG "Unsupported data type: 8"
  end.
Proof.
  revert i acc. induction cols as [|c cols IH]; intros i acc; cbn [AvroFields avro_fields].
  { by rewrite app_nil_r. }
  destruct (col_type c) eqn:E; cbn [avro_type mbind option_bind]; [..|done];
    rewrite IH; destruct (avro_fields (i + 1) cols); cbn; by rewrite <- ?(assoc_L (++)).
Qed.

(** *** Reading an AVRO load statement back *)

(** Where a field of the record goes, and how a column is computed from the
    variable that a field was loaded to. *)
Inductive load_target := ToColumn (name : string) | ToVariable (i : Z).
Inductive computation :=
  | NullWhen (null : Z)          (* the value, NULL for the one that stands for it *)
  | NullWhenEmpty
  | MicrosecondsSince1960
  | DaysSince1960
  | SignedTime.                  (* microseconds, NULL for int64Null *)

Definition variable (s : string) : option (Z * string) := s ← lit "@var_" s; read_int s.
Definition this_variable (i : Z) (s : string) : option string :=
  '(j, s) ← variable s; if decide (i = j) then Some s else None.

Definition field_mapping (s : string) : option (load_target * Z * string) :=
  '(target, s) ← match variable s with
                 | Some (i, s) => Some (ToVariable i, s)
                 | None => '(n, s) ← ident s; Some (ToColumn n, s)
                 end;
  s ← lit " <- %::col_" s; '(f, s) ← read_int s; Some (target, f, s).

Definition column_expression (s : string) : option (Z * computation * string) :=
  match lit " = IF(LENGTH(" s, lit " = IF(" s,
        lit (" = ADDDATE(" +:+ dquote +:+ "1960-01-01" +:+ dquote +:+ ", INTERVAL ") s with
  | Some s, _, _ =>
      '(i, s) ← variable s; s ← lit ") = 0, NULL," s; s ← this_variable i s;
      s ← lit ")" s; Some (i, NullWhenEmpty, s)
  | None, Some s, _ =>
      '(i, s) ← variable s; s ← lit " != " s; '(null, s) ← read_int s;
      s ← lit "," s; s ← this_variable i s; s ← lit ",NULL)" s; Some (i, NullWhen null, s)
  | None, None, Some s =>
      '(i, s) ← variable s;
      match lit " MICROSECOND)" s, lit " DAY)" s with
      | Some s, _ => Some (i, MicrosecondsSince1960, s)
      | None, Some s => Some (i, DaysSince1960, s)
      | None, None => None
      end
  | None, None, None =>
      s ← lit "= IF(" s; '(i, s) ← variable s; s ← lit "= -9223372036854775808,NULL,CONCAT(IF(" s;
      s ← this_variable i s; s ← lit "> 0, '', '-'),ADDTIME(SEC_TO_TIME(FLOOR(ABS(" s;
      s ← this_variable i s; s ← lit "/1000000))),CONCAT('00:00:00.',LPAD(ABS(" s;
      s ← this_variable i s; s ← lit ") % 1000000 :> TEXT, 6, '0')))))" s;
      Some (i, SignedTime, s)
  end.

Definition computed_column (s : string) : option (string * Z * computation * string) :=
  '(name, s) ← ident s; '(i, e, s) ← column_expression s; Some (name, i, e, s).

(** The text up to a character, and what follows the character. *)
Fixpoint text_before (c : ascii) (s : string) : option (string * string) :=
  match s with
  | EmptyString => None
  | String a s =>
      if decide (a = c) then Some (""%string, s)
      else '(t, s) ← text_before c s; Some (String a t, s)
  end.

Definition set_columns (s : string) : option (list (string * Z * computation)) :=
  if decide (s = ""%string) then Some []
  else
    s ← lit "SET " s; '(l, s) ← sep_by (S (String.length s)) computed_column s;
    if decide (s = ""%string) then Some l else None.

(** The table, the mapping of the fields, the text of the record schema, and
    the computed columns. *)
Definition read_avro_load (q : string)
    : option (string * list (load_target * Z) * string * list (string * Z * computation)) :=
  s ← lit "LOAD DATA LOCAL INFILE 'placeholder' INTO TABLE " q;
  '(t, s) ← ident s;
  s ← lit "  FORMAT AVRO (" s;
  '(fields, s) ← sep_by (S (String.length s)) field_mapping s;
  s ← lit ") SCHEMA '" s;
  '(record, s) ← text_before "'" s;
  s ← lit " " s;
  computed ← set_columns s;
  Some (t, fields, record, computed).

(** What should be in it.  The type of the field of each column type: *)
Definition record_types : list (ColumnType * string) :=
  [(Int64, "long"); (DateTime, "long"); (Time, "long"); (Int32, "int"); (Date, "int");
   (Double, "double"); (Variable_, "bytes"); (Fixed, "bytes")]%string.

Definition record_schema (types : list string) : json :=
  json_object
    [("type"%string, json_string "record"); ("name"%string, json_string "schema_name");
     ("fields"%string,
      json_array (imap (fun i t =>
        json_object [("name"%string, json_string ("col_" +:+ to_string (Z.of_nat i)));
                     ("type"%string, json_string t)]) types))].

(** The columns that are computed; a text or binary column is one when empty
    values stand for NULL. *)
Definition computed_from (emptyIsNull : bool) (t : ColumnType) : option computation :=
  match t with
  | Int64 => Some (NullWhen int64Null)
  | Int32 => Some (NullWhen int32Null)
  | DateTime => Some MicrosecondsSince1960
  | Date => Some DaysSince1960
  | Time => Some SignedTime
  | Fixed | Variable_ => if emptyIsNull then Some NullWhenEmpty else None
  | Double | Unsupported => None
  end.

Definition loaded_field (b : bool) (i : Z) (c : Column) : load_target * Z :=
  (match computed_from b (col_type c) with
   | Some _ => ToVariable i
   | None => ToColumn (col_name c)
   end, i).
Definition loaded_computed (b : bool) (i : Z) (c : Column) : option (string * Z * computation) :=
  e ← computed_from b (col_type c); Some (col_name c, i, e).

(** The texts of a mapping and of a computed column. *)
Definition mapping_text (m : load_target * Z) : string :=
  match fst m with
  | ToColumn n => QuotedName n
  | ToVariable i => "@var_" +:+ to_string i
  end +:+ " <- %::col_" +:+ to_string (snd m).

Definition computation_text (v : string) (e : computation) : string :=
  match e with
  | NullWhen null => " = IF(" +:+ v +:+ " != " +:+ to_string null +:+ "," +:+ v +:+ ",NULL)"
  | NullWhenEmpty => " = IF(LENGTH(" +:+ v +:+ ") = 0, NULL," +:+ v +:+ ")"
  | MicrosecondsSince1960 =>
      " = ADDDATE(" +:+ dquote +:+ "1960-01-01" +:+ dquote +:+ ", INTERVAL " +:+ v
      +:+ " MICROSECOND)"
  | DaysSince1960 =>
      " = ADDDATE(" +:+ dquote +:+ "1960-01-01" +:+ dquote +:+ ", INTERVAL " +:+ v +:+ " DAY)"
  | SignedTime =>
      "= IF(" +:+ v +:+ "= -9223372036854775808,NULL,CONCAT(IF(" +:+ v
      +:+ "> 0, '', '-'),ADDTIME(SEC_TO_TIME(FLOOR(ABS(" +:+ v
      +:+ "/1000000))),CONCAT('00:00:00.',LPAD(ABS(" +:+ v +:+ ") % 1000000 :> TEXT, 6, '0')))))"
  end.
Definition computed_text (x : string * Z * computation) : string :=
  QuotedName x.1.1 +:+ computation_text ("@var_" +:+ to_string x.1.2) x.2.

Lemma ColumnAvro_texts i c b :
  ColumnAvro i c b =
  (mapping_text (loaded_field b i c), computed_text <$> loaded_computed b i c).
Proof.
  unfold ColumnAvro, loaded_field, loaded_computed, mapping_text, computed_text, avro_var_mapping.
  destruct (col_type c); cbn [computed_from mbind option_bind fmap option_fmap option_map fst snd computation_text];
    try destruct b; cbn [computed_from mbind option_bind fmap option_fmap option_map fst snd computation_text];
    unfold MakeAvroVarName, MakeAvroFieldName; by rewrite ?app_assoc_s.
Qed.

Lemma variable_app i s :
  stops s = true -> variable ("@var_" +:+ to_string i +:+ s) = Some (i, s).
Proof. intros Hs. unfold variable. rewrite lit_app. by apply read_int_stops. Qed.

Lemma this_variable_app i s :
  stops s = true -> this_variable i ("@var_" +:+ to_string i +:+ s) = Some s.
Proof.
  intros Hs. unfold this_variable. rewrite variable_app by done. cbn [mbind option_bind].
  by rewrite decide_True.
Qed.

Lemma variable_quoted n s : variable (QuotedName n +:+ s) = None.
Proof. unfold variable. by rewrite lit_quoted. Qed.

Lemma field_mapping_text m s :
  stops s = true -> field_mapping (mapping_text m +:+ s) = Some (m, s).
Proof.
  intros Hs. destruct m as [[n|i] f]; unfold field_mapping, mapping_text; cbn [fst snd];
    rewrite !app_assoc_s.
  - rewrite variable_quoted. repeat read_step. by rewrite read_int_stops.
  - rewrite variable_app by reflexivity. cbn [mbind option_bind]. rewrite lit_app.
    cbn [mbind option_bind]. by rewrite read_int_stops.
Qed.

Ltac read_variables :=
  repeat first
    [ read_step
    | rewrite variable_app by reflexivity; cbn [mbind option_bind]
    | rewrite this_variable_app by reflexivity; cbn [mbind option_bind] ].

Lemma computed_column_text x s :
  stops s = true -> computed_column (computed_text x +:+ s) = Some (x, s).
Proof.
  intros Hs. destruct x as [[n i] e]. unfold computed_column, computed_text. cbn [fst snd].
  rewrite !app_assoc_s.
  assert (column_expression (computation_text ("@var_" +:+ to_string i) e +:+ s) = Some (i, e, s)) as He.
  { unfold column_expression. destruct e; cbn [computation_text]; rewrite !app_assoc_s; read_variables;
      reflexivity. }
  rewrite ident_QuotedName; [cbn [mbind option_bind]; by rewrite He|].
  by destruct e.
Qed.

Lemma avro_parts_texts i cols b :
  (avro_parts i cols b).*1 =
    mapping_text <$> imap (fun j c => loaded_field b (i + Z.of_nat j) c) cols
  /\ omap snd (avro_parts i cols b) =
    computed_text <$> omap (fun x => x) (imap (fun j c => loaded_computed b (i + Z.of_nat j) c) cols).
Proof.
  revert i. induction cols as [|c cols IH]; intros i; [done|].
  cbn [avro_parts]. rewrite !imap_cons, ColumnAvro_texts, Z.add_0_r.
  destruct (IH (i + 1)) as [E1 E2].
  assert (forall A (g : Z -> Column -> A),
    imap ((fun (j : nat) c => g (i + Z.of_nat j) c) ∘ S) cols
    = imap (fun (j : nat) c => g (i + 1 + Z.of_nat j) c) cols) as Hs.
  { intros A g. apply imap_ext. intros j x _. unfold compose. f_equal. lia. }
  rewrite !Hs. split; cbn [fmap list_fmap fst omap list_omap snd].
  - by rewrite E1.
  - rewrite E2. by destruct (loaded_computed b i c).
Qed.

Lemma avro_fields_types i cols types :
  Forall2 (fun c t => (col_type c, t) ∈ record_types) cols types ->
  avro_fields i cols =
  Some (imap (fun j t =>
    json_object [("name"%string, json_string ("col_" +:+ to_string (i + Z.of_nat j)));
                 ("type"%string, json_string t)]) types).
Proof.
  intros Ht. revert i. induction Ht as [|c t cols types Hc _ IH]; intros i; [done|].
  cbn [avro_fields]. assert (avro_type (col_type c) = Some t) as ->.
  { unfold record_types in Hc. repeat (apply elem_of_cons in Hc as [[= -> ->]|Hc]; [done|]).
    by apply elem_of_nil in Hc. }
  cbn [mbind option_bind]. rewrite IH, imap_cons, Z.add_0_r. cbn [mbind option_bind].
  do 2 f_equal. apply imap_ext. intros j x _. unfold compose. do 5 f_equal. f_equal. lia.
Qed.

Lemma avro_fields_unsupported i cols :
  Exists (fun c => col_type c = Unsupported) cols -> avro_fields i cols = None.
Proof.
  intros He. revert i. induction He as [c cols Hc|c cols _ IH]; intros i; cbn [avro_fields].
  - by rewrite Hc.
  - rewrite IH. by destruct (avro_type (col_type c)).
Qed.

Lemma text_before_app c t s :
  c ∉ String.list_ascii_of_string t -> text_before c (t +:+ String c s) = Some (t, s).
Proof.
  induction t as [|a t IH]; intros Hc.
  - change (""%string +:+ String c s) with (String c s). cbn [text_before]. by rewrite decide_True.
  - cbn in Hc. apply not_elem_of_cons in Hc as [Hne Hc]. rewrite app_cons_s. cbn [text_before].
    rewrite decide_False by congruence. by rewrite IH.
Qed.

Lemma join_more_prefix p x l : join_more (p +:+ x) l = p +:+ join_more x l.
Proof.
  revert x. induction l as [|y l IH]; intros x; [done|]. cbn [join_more].
  by rewrite app_assoc_s, IH.
Qed.

Lemma set_columns_clause l : set_columns (set_clause (computed_text <$> l)) = Some l.
Proof.
  unfold set_columns. destruct l as [|x l]; [by rewrite decide_True|].
  cbn [fmap list_fmap set_clause]. rewrite join_more_prefix, decide_False by done.
  rewrite lit_app. cbn [mbind option_bind].
  rewrite <- (app_nil_r_s (join_more _ _)) at 2.
  rewrite (sep_by_join computed_column computed_text); [..|done|done].
  - done.
  - intros y s. apply computed_column_text.
  - pose proof (length_join_more (computed_text x) (computed_text <$> l)) as H.
    rewrite length_fmap in H. lia.
Qed.

(** C37. The AVRO load statement.  A schema with a column of an unsupported
    type is refused with the code for an invalid argument.  Otherwise the
    statement, read back, names the table; gives the record schema, which has a
    field "col_i" for column i of the type "long", "int", "double" or "bytes"
    that its column type takes; loads every field, in order, once: that of
    column i is "col_i", and goes to the column itself or to the variable i;
    and computes exactly the columns of the others, each under its name from
    its own variable: an integer that is NULL when it is the one that stands
    for NULL in a chunk, days or microseconds since 1960, a signed time in
    microseconds, and, when empty values stand for NULL, a text.  This holds as long as the text of the record
    schema has no quotation mark, which would end it early. *)
Theorem avro_load_statement json_dumps table schema b :
  let cols := ColumnInfo schema in
  let query := MakeLoadDataQuery json_dumps table schema AVRO b in
  (Exists (fun c => col_type c = Unsupported) cols ->
   query = s2_throw S2C_ERROR_INV_ARG "Unsupported data type: 8")
  /\ forall types,
     cols <> [] -> Forall2 (fun c t => (col_type c, t) ∈ record_types) cols types ->
     let record := json_dumps (record_schema types) in
     "'"%char ∉ String.list_ascii_of_string record ->
     exists q, query = Done q
       /\ read_avro_load q =
          Some (table, imap (fun i c => loaded_field b (Z.of_nat i) c) cols, record,
                omap (fun x => x) (imap (fun i c => loaded_computed b (Z.of_nat i) c) cols)).
Proof.
  intros cols query. unfold query, MakeLoadDataQuery, MakeColumnsAvro, MakeAvroJsonSchema.
  rewrite AvroFields_eq. fold cols.
  change (MakeColumnsAvro_loop 0 cols b "" "")
    with (MakeColumnsAvro_loop 0 cols b (join []) (set_clause [])).
  rewrite (MakeColumnsAvro_loop_eq 0 cols b [] []) by (done || lia).
  split; [intros Hu; by rewrite avro_fields_unsupported|].
  intros types Hne Ht Hq. set (record := json_dumps (record_schema types)) in *.
  rewrite (avro_fields_types 0 cols types Ht).
  rewrite !Done_bind. eexists. split; [reflexivity|].
  destruct (avro_parts_texts 0 cols b) as [-> ->]. cbn [app].
  change (json_dumps _) with record.
  change (imap (fun j c => loaded_field b (0 + Z.of_nat j) c) cols)
    with (imap (fun i c => loaded_field b (Z.of_nat i) c) cols).
  change (imap (fun j c => loaded_computed b (0 + Z.of_nat j) c) cols)
    with (imap (fun i c => loaded_computed b (Z.of_nat i) c) cols).
  set (computed := omap (fun x => x) _). unfold read_avro_load. rewrite !app_assoc_s.
  repeat read_step.
  destruct (imap (fun i c => loaded_field b (Z.of_nat i) c) cols) as [|m ms] eqn:Em;
    [by destruct cols|].
  cbn [fmap list_fmap join].
  rewrite (sep_by_join field_mapping mapping_text); [..|done|done].
  - cbn [mbind option_bind]. repeat read_step.
    change ("'" +:+ " " +:+ set_clause (computed_text <$> computed))
      with (String "'" (" " +:+ set_clause (computed_text <$> computed))).
    rewrite text_before_app by done. cbn [mbind option_bind]. rewrite lit_app.
    cbn [mbind option_bind]. by rewrite set_columns_clause.
  - intros y s. apply field_mapping_text.
  - rewrite length_app_s.
    pose proof (length_join_more (mapping_text m) (mapping_text <$> ms)) as H.
    rewrite length_fmap in H. lia.
Qed.

Definition NULL_test (c : Column) : option Z :=
  match col_type c with
  | Int64 | Time => Some int64Null
  | Int32 => Some int32Null
  | _ => None
  end.

(** The literals the computed columns compare with are the values that the
    chunk writer stores for NULL. *)
Lemma ColumnAvro_null_literals i c b z :
  NULL_test c = Some z ->
  exists pre mid, snd (ColumnAvro i c b) =
    Some (pre +:+ MakeAvroVarName i +:+ mid +:+ to_string z +:+ ","
          +:+ match col_type c with
              | Time => "NULL,CONCAT(IF(" +:+ MakeAvroVarName i
                  +:+ "> 0, '', '-'),ADDTIME(SEC_TO_TIME(FLOOR(ABS(" +:+ MakeAvroVarName i
                  +:+ "/1000000))),CONCAT('00:00:00.',LPAD(ABS(" +:+ MakeAvroVarName i
                  +:+ ") % 1000000 :> TEXT, 6, '0')))))"
              | _ => MakeAvroVarName i +:+ ",NULL)"
              end).
Proof.
  unfold NULL_test, ColumnAvro.
  assert (to_string int64Null = "-9223372036854775808"%string) as E1 by reflexivity.
  assert (to_string int32Null = "-2147483648"%string) as E2 by reflexivity.
  destruct (col_type c); intros [= <-]; rewrite ?E1, ?E2; cbn [snd].
  - exists (QuotedName (col_name c) +:+ " = IF("), " != ". by rewrite ?app_assoc_s.
  - exists (QuotedName (col_name c) +:+ " = IF("), " != ". by rewrite ?app_assoc_s.
  - exists (QuotedName (col_name c) +:+ "= IF("), "= ". by rewrite ?app_assoc_s.
Qed.

(** The table and the columns of a TSV load statement. *)
Definition read_tsv_load (q : string) : option (string * list string) :=
  s ← lit "LOAD DATA LOCAL INFILE 'placeholder' INTO TABLE " q;
  '(t, s) ← ident s;
  s ← lit "  (" s;
  '(cols, s) ← names s;
  s ← lit (")  FIELDS OPTIONALLY ENCLOSED BY '" +:+ dquote +:+ "'") s;
  if decide (s = ""%string) then Some (t, cols) else None.

(** The statement names exactly the table and the columns of the schema, in
    order, and declares that texts are enclosed in double quotes. *)
Lemma tsv_load_statement json_dumps table schema b :
  ColumnInfo schema <> [] ->
  exists q, MakeLoadDataQuery json_dumps table schema TSV b = Done q
    /\ read_tsv_load q = Some (table, col_name <$> ColumnInfo schema).
Proof.
  intros Hne. unfold MakeLoadDataQuery, read_tsv_load.
  destruct (ColumnInfo schema) as [|c cols]; [done|].
  eexists. split; [done|].
  rewrite join_more_prefix.
  change ((fun c => QuotedName (col_name c)) <$> cols) with (QuotedName ∘ col_name <$> cols).
  rewrite list_fmap_compose. change (join_more (QuotedName (col_name c)) (QuotedName <$> (col_name <$> cols)))
    with (JoinColumnNames (col_name <$> c :: cols)).
  rewrite !app_assoc_s. repeat read_step. done.
Qed.

Lemma version_known_815 : version_known "8.1.5".
Proof.
  exists (8, 1, 5), ""%string. split_and!; [reflexivity| |reflexivity..].
  split_and!; vm_compute; split; congruence.
Qed.

Lemma read_result_table_query_witness :
  exists q, MakeReadResultTableQuery "res" 7 "8.1.5" = Done q
    /\ read_query q = Some (FromResultTable "res", 7, AllRows)
    /\ forall w, version_known w -> MakeReadResultTableQuery "res" 7 w = Done q.
Proof. apply read_result_table_query, version_known_815. Defined.

(** A printer of JSON for texts without quotation marks. *)
Fixpoint demo_dumps (j : json) : string :=
  match j with
  | json_string s => dquote +:+ s +:+ dquote
  | json_array l => "[" +:+ join (demo_dumps <$> l) +:+ "]"
  | json_object l =>
      "{" +:+ join ((fun '(k, v) => dquote +:+ k +:+ dquote +:+ ": " +:+ demo_dumps v) <$> l) +:+ "}"
  end.

Definition demo_load_schema : RowSchema :=
  mkRowSchema [mkColumn Int64 8 "a`b"; mkColumn Double 8 "d"; mkColumn Date 4 "day";
               mkColumn Variable_ 0 "t"].

Lemma avro_load_statement_witness :
  MakeLoadDataQuery demo_dumps "t" (mkRowSchema [mkColumn Unsupported 0 "x"]) AVRO true
    = s2_throw S2C_ERROR_INV_ARG "Unsupported data type: 8"
  /\ exists q, MakeLoadDataQuery demo_dumps "my`table" demo_load_schema AVRO true = Done q
    /\ read_avro_load q =
       Some ("my`table",
             [(ToVariable 0, 0); (ToColumn "d", 1); (ToVariable 2, 2); (ToVariable 3, 3)],
             demo_dumps (record_schema ["long"; "double"; "int"; "bytes"]),
             [("a`b", 0, NullWhen int64Null); ("day", 2, DaysSince1960);
              ("t", 3, NullWhenEmpty)])%string.
Proof.
  split.
  - refine (proj1 (avro_load_statement demo_dumps "t" (mkRowSchema [mkColumn Unsupported 0 "x"]) true) _).
    by constructor.
  - refine (proj2 (avro_load_statement demo_dumps "my`table" demo_load_schema true)
      ["long"; "double"; "int"; "bytes"]%string _ _ _); [done| |].
    + repeat constructor; by apply (bool_decide_unpack _); vm_compute.
    + by apply (bool_decide_unpack _); vm_compute.
Defined.
