(* ===== verification/AvroWriter.v ===== *)
(** The LOAD DATA LOCAL callbacks over a buffer of AVRO records
    ([avro_table_writer.hpp], [avro_table_writer.cpp]): the client library
    takes the bytes of the buffer piece by piece.  The AVRO encoders that the
    same file exports are calls of libavro. *)

From Stdlib Require Import Ascii String.
From stdpp Require Import base list strings numbers tactics.
From stdpp Require Import options.
From S2P Require Import Prelude Schema Text TsvWriter.

Record AvroBuffer := mkAvroBuffer {
  avro_ptr : bytes;
  avro_size : Z;            (* int64_t *)
  m_current_pos : Z         (* int64_t *)
}.

Module Avro.
(** [*ptr] becomes [caller_data]. *)
Definition ss_local_infile_init {A} (caller_data : A) : A * Z := (caller_data, 0).

(** The bytes stored in the client's buffer, whose number is returned.  The
    number is an [int]; [memcpy] takes it as a [size_t]. *)
Definition ss_local_infile_read (b : AvroBuffer) (buf_len : Z)
    : outcome exn (AvroBuffer * bytes) :=
  let left := avro_size b - m_current_pos b in
  let n_bytes := s32 (if buf_len <=? left then buf_len else left) in
  if (0 <=? n_bytes) && (0 <=? m_current_pos b)
     && (m_current_pos b + n_bytes <=? Z.of_nat (length (avro_ptr b)))
  then Done (mkAvroBuffer (avro_ptr b) (avro_size b) (s64 (m_current_pos b + n_bytes)),
             slice (avro_ptr b) (m_current_pos b) n_bytes)
  else Undef "memcpy outside the source buffer".

(** [None]: a null [ptr]. *)
Definition ss_local_infile_error (ptr : option AvroBuffer) (error_msg_len : Z) : bytes * Z :=
  let msg text := strncpy text (Z.to_nat error_msg_len) in
  match ptr with
  | None => (msg "Invalid *caller_data pointer", S2C_ERROR_INV_ARG)
  | Some b =>
      if avro_size b <? m_current_pos b
      then (msg "Invalid operation on source buffer", S2C_IO_ERROR)
      else (msg "Unknown error in LOAD DATA LOCAL INFILE", S2C_ERROR_UNKNOWN_FAILURE)
  end.
End Avro.

(** The client's reads, with buffers of the given lengths. *)
Fixpoint avro_reads (b : AvroBuffer) (lens : list Z)
    : outcome exn (AvroBuffer * list bytes) :=
  match lens with
  | [] => Done (b, [])
  | len :: lens =>
      '((b, piece) : AvroBuffer * bytes) ← Avro.ss_local_infile_read b len;
      '((b, pieces) : AvroBuffer * list bytes) ← avro_reads b lens;
      Done (b, piece :: pieces)
  end.

Record avro_ok (b : AvroBuffer) : Prop := {
  ao_pos : 0 <= m_current_pos b <= avro_size b;
  ao_size : avro_size b <= Z.of_nat (length (avro_ptr b));
  ao_max : avro_size b < 2 ^ 63
}.

Lemma avro_read_spec b len :
  avro_ok b -> 0 <= len < 2 ^ 31 ->
  let n := Z.min len (avro_size b - m_current_pos b) in
  Avro.ss_local_infile_read b len =
  Done (mkAvroBuffer (avro_ptr b) (avro_size b) (m_current_pos b + n),
        slice (avro_ptr b) (m_current_pos b) n).
Proof.
  intros [] Hl n. unfold Avro.ss_local_infile_read. cbv zeta.
  assert ((if len <=? avro_size b - m_current_pos b then len
           else avro_size b - m_current_pos b) = n) as ->.
  { unfold n. destruct (Z.leb_spec len (avro_size b - m_current_pos b)); lia. }
  rewrite (wrap_s_small 32 eq_refl), (wrap_s_small 64 eq_refl) by lia.
  by rewrite !(proj2 (Z.leb_le _ _)) by lia.
Qed.

(** The reads of the client, whatever lengths it chooses. *)
Lemma avro_reads_spec b lens :
  avro_ok b -> Forall (fun n => 0 <= n < 2 ^ 31) lens ->
  let total := Z.min (foldr Z.add 0 lens) (avro_size b - m_current_pos b) in
  exists b' pieces, avro_reads b lens = Done (b', pieces) /\ avro_ok b'
    /\ avro_ptr b' = avro_ptr b /\ avro_size b' = avro_size b
    /\ m_current_pos b' = m_current_pos b + total
    /\ concat pieces = slice (avro_ptr b) (m_current_pos b) total
    /\ Forall2 (fun p n => Z.of_nat (length p) <= n) pieces lens.
Proof.
  intros Hb Hl. revert b Hb. induction Hl as [|n lens Hn Hl IH]; intros b Hb total.
  { exists b, []. split; [done|]. pose proof (ao_pos _ Hb).
    subst total. cbn [foldr]. rewrite Z.min_l by lia. split_and!; [done..|lia|done|constructor]. }
  cbn [avro_reads]. rewrite avro_read_spec, Done_bind by done. cbv beta iota zeta.
  pose proof Hb as [Hpos Hsz Hmax].
  set (k := Z.min n (avro_size b - m_current_pos b)).
  set (b1 := mkAvroBuffer (avro_ptr b) (avro_size b) (m_current_pos b + k)).
  assert (avro_ok b1) as Hb1 by (split; cbn; lia).
  assert (0 <= foldr Z.add 0 lens) as Hsum by (clear -Hl; induction Hl; cbn; lia).
  destruct (IH b1 Hb1) as (b' & pieces & E & Hb' & Ep & Es & Epos & Ec & Hlen). cbn in Ep, Es, Epos, Ec.
  assert (total = k + Z.min (foldr Z.add 0 lens) (avro_size b - (m_current_pos b + k))) as Et.
  { subst total k. cbn [foldr]. lia. }
  exists b', (slice (avro_ptr b) (m_current_pos b) k :: pieces). rewrite E, Done_bind.
  split_and!; [done..|rewrite Et; lia| |].
  - cbn [concat]. rewrite Ec, Et, slice_app by lia. done.
  - constructor; [|done]. rewrite length_slice by lia. lia.
Qed.

(** C38. The client gets the bytes of the AVRO buffer from its current position
    to its size, each once and in order, however it chooses the lengths of its
    buffers; all of them once the buffers are long enough, and then a read
    returns nothing.  No read leaves the buffer. *)
Theorem avro_reads_all b lens :
  avro_ok b -> Forall (fun n => 0 <= n < 2 ^ 31) lens ->
  let total := Z.min (foldr Z.add 0 lens) (avro_size b - m_current_pos b) in
  exists b' pieces, avro_reads b lens = Done (b', pieces) /\ avro_ok b'
    /\ avro_ptr b' = avro_ptr b /\ avro_size b' = avro_size b
    /\ m_current_pos b' = m_current_pos b + total
    /\ concat pieces = slice (avro_ptr b) (m_current_pos b) total
    /\ Forall2 (fun p n => Z.of_nat (length p) <= n) pieces lens.
Proof. apply avro_reads_spec. Qed.

Lemma avro_reads_all_witness :
  let b := mkAvroBuffer (replicate 10 "a"%char) 10 3 in
  exists b' pieces, avro_reads b [4; 4; 4] = Done (b', pieces) /\ m_current_pos b' = 10
    /\ concat pieces = slice (avro_ptr b) 3 7.
Proof.
  intros b. assert (avro_ok b) as Hb by (split; cbn; lia).
  destruct (avro_reads_all b [4; 4; 4] Hb ltac:(repeat constructor; lia))
    as (b' & pieces & E & _ & _ & _ & Ep & Ec & _).
  exists b', pieces. split; [exact E|]. split; [exact Ep|exact Ec].
Defined.
