(* ===== verification/AvroEncoder.v ===== *)
(** Writing AVRO data: the exported functions [WriteInt64Avro],
    [WriteInt32Avro], [WriteDoubleAvro] and [WriteBytesAvro]
    ([avro_table_writer.cpp]) over the binary encoding of libavro, and the
    protocol that [avro_write_extern.h] prescribes to the caller, who writes
    row by row into a buffer in memory and passes the complete rows to
    [LoadDataAvro].  libavro is an interface with its laws; what the server
    does with the bytes is the AVRO format, read under the types of the schema
    that [MakeAvroJsonSchema] makes ([Sql.v]). *)

From Stdlib Require Import Ascii String.
From stdpp Require Import base list strings numbers tactics.
From stdpp Require Import options.
From S2P Require Import Prelude Schema TsvWriter Sql AvroWriter.

(** ** libavro

    [avro_binary_encoding] and [avro_writer_tell]; a result other than 0 is an
    error, for which the value may be written in part. *)
Class AvroEncoding (W : Type) := {
  write_long : W -> Z -> Z * W;
  write_int : W -> Z -> Z * W;
  write_double : W -> Z -> Z * W;       (* the bits of the double *)
  write_bytes : W -> bytes -> Z -> Z * W;
  avro_writer_tell : W -> Z
}.

(** ** The exported functions *)
Section encoders.
Context {W : Type} `{!AvroEncoding W}.

Definition WriteInt64Avro (w : W) (val : Z) : Z * W := write_long w (s64 val).
Definition WriteInt32Avro (w : W) (val : Z) : Z * W := write_int w (s32 val).
Definition WriteDoubleAvro (w : W) (val : Z) : Z * W := write_double w val.
Definition WriteBytesAvro (w : W) (val : bytes) (len : Z) : Z * W :=
  write_bytes w val (s64 len).

(** ** The protocol of the caller *)
Inductive avro_value :=
  | AvroLong (n : Z)
  | AvroInt (n : Z)
  | AvroDouble (bits : Z)
  | AvroBytes (b : bytes).

Definition write_value (v : avro_value) (w : W) : Z * W :=
  match v with
  | AvroLong n => WriteInt64Avro w n
  | AvroInt n => WriteInt32Avro w n
  | AvroDouble d => WriteDoubleAvro w d
  | AvroBytes b => WriteBytesAvro w b (Z.of_nat (length b))
  end.

(** Whether all values of the row have been written; the first one that has
    not ends it. *)
Fixpoint write_row (row : list avro_value) (w : W) : bool * W :=
  match row with
  | [] => (true, w)
  | v :: row =>
      let '(err, w) := write_value v w in
      if err =? 0 then write_row row w else (false, w)
  end.

(** [total_bytes_written] after all rows or up to the first one that cannot be
    written. *)
Fixpoint write_avro_rows (rows : list (list avro_value)) (w : W) (total_bytes_written : Z)
    : Z * W :=
  match rows with
  | [] => (total_bytes_written, w)
  | row :: rows =>
      let '(ok, w) := write_row row w in
      if ok : bool then write_avro_rows rows w (s32 (avro_writer_tell w))
      else (total_bytes_written, w)
  end.

(** ** What libavro and the AVRO format promise *)
Definition value_type (v : avro_value) : string :=
  match v with
  | AvroLong _ => "long" | AvroInt _ => "int" | AvroDouble _ => "double" | AvroBytes _ => "bytes"
  end.

(** The values that the arguments can hold. *)
Definition value_ok (v : avro_value) : Prop :=
  match v with
  | AvroLong n => - 2 ^ 63 <= n < 2 ^ 63
  | AvroInt n => - 2 ^ 31 <= n < 2 ^ 31
  | AvroDouble d => 0 <= d < 2 ^ 64
  | AvroBytes b => Z.of_nat (length b) < 2 ^ 63
  end.

(** [code v]: the bytes of a value; [parse t b]: a value of type [t] and what is
    left of [b]; [buffer w]: what has been written to the memory.  A writer only
    appends. *)
Class AvroLaws := {
  code : avro_value -> bytes;
  parse : string -> bytes -> option (avro_value * bytes);
  buffer : W -> bytes;
  tell_buffer w : avro_writer_tell w = Z.of_nat (length (buffer w));
  write_law v w err w' :
    value_ok v ->
    match v with
    | AvroLong n => write_long w n
    | AvroInt n => write_int w n
    | AvroDouble d => write_double w d
    | AvroBytes b => write_bytes w b (Z.of_nat (length b))
    end = (err, w') ->
    exists written, buffer w' = (buffer w ++ written)%list /\ (err = 0 -> written = code v);
  parse_code v rest : value_ok v -> parse (value_type v) (code v ++ rest) = Some (v, rest);
  code_not_empty v : code v <> []
}.
Context `{!AvroLaws}.

(** A record: a value of each type. *)
Fixpoint parse_record (types : list string) (b : bytes) : option (list avro_value * bytes) :=
  match types with
  | [] => Some ([], b)
  | t :: types =>
      '(v, b) ← parse t b; '(vs, b) ← parse_record types b; Some (v :: vs, b)
  end.

(** The records up to the end of the data; there are at most [fuel]. *)
Fixpoint parse_records (fuel : nat) (types : list string) (b : bytes)
    : option (list (list avro_value)) :=
  match b, fuel with
  | [], _ => Some []
  | _, O => None
  | _, S fuel =>
      '(row, b) ← parse_record types b; rows ← parse_records fuel types b; Some (row :: rows)
  end.

Lemma write_value_spec v w err w' :
  value_ok v -> write_value v w = (err, w') ->
  exists written, buffer w' = (buffer w ++ written)%list /\ (err = 0 -> written = code v).
Proof using Type.
  intros Hv E. apply write_law; [done|]. rewrite <- E. destruct v as [n|n|d|b]; cbn in Hv |- *.
  - unfold WriteInt64Avro. by rewrite (wrap_s_small 64 eq_refl).
  - unfold WriteInt32Avro. by rewrite (wrap_s_small 32 eq_refl).
  - done.
  - unfold WriteBytesAvro. by rewrite (wrap_s_small 64 eq_refl) by lia.
Qed.

Lemma write_row_spec row : forall w ok w',
  Forall value_ok row -> write_row row w = (ok, w') ->
  exists written, buffer w' = (buffer w ++ written)%list
    /\ (ok = true -> written = concat (code <$> row)).
Proof using Type.
  induction row as [|v row IH]; intros w ok w' Hrow E.
  { injection E as <- <-. exists []. by rewrite app_nil_r. }
  apply Forall_cons_iff in Hrow as [Hv Hrow]. cbn [write_row] in E.
  destruct (write_value v w) as [err w1] eqn:E1. apply write_value_spec in E1 as (x & Hx & Hc); [|done].
  destruct (Z.eqb_spec err 0) as [He|He].
  - apply IH in E as (y & Hy & Hr); [|done]. exists (x ++ y)%list.
    rewrite Hy, Hx, app_assoc. split; [done|]. intros Hok. cbn. by rewrite Hc, Hr by done.
  - injection E as <- <-. exists x. by split.
Qed.

(** The rows that have been written completely. *)
Definition rows_code (rows : list (list avro_value)) : bytes :=
  concat ((fun row => concat (code <$> row)) <$> rows).

Lemma write_avro_rows_spec rows : forall w total total' w',
  Forall (Forall value_ok) rows -> total = Z.of_nat (length (buffer w)) ->
  write_avro_rows rows w total = (total', w') -> Z.of_nat (length (buffer w')) < 2 ^ 31 ->
  exists k rest, (k <= length rows)%nat
    /\ buffer w' = (buffer w ++ rows_code (take k rows) ++ rest)%list
    /\ total' = Z.of_nat (length (buffer w ++ rows_code (take k rows))%list)
    /\ (k < length rows -> exists row w1, rows !! k = Some row /\ fst (write_row row w1) = false)%nat.
Proof using Type.
  induction rows as [|row rows IH]; intros w total total' w' Hrows Ht E Hlen.
  { injection E as <- <-. exists 0%nat, []. cbn. rewrite !app_nil_r. split_and!; [done|done|done|lia]. }
  apply Forall_cons_iff in Hrows as [Hrow Hrows]. cbn [write_avro_rows] in E.
  destruct (write_row row w) as [ok w1] eqn:E1. assert (E0 := E1).
  apply write_row_spec in E1 as (x & Hx & Hok); [|done]. destruct ok.
  - assert (exists y, buffer w' = (buffer w1 ++ y)%list) as [y Hy].
    { clear -E Hrows. revert E. generalize (s32 (avro_writer_tell w1)) as t. intros t E.
      revert t w1 E. induction Hrows as [|r rows Hr _ IH]; intros t w1 E.
      - injection E as _ <-. exists []. by rewrite app_nil_r.
      - cbn [write_avro_rows] in E. destruct (write_row r w1) as [ok w2] eqn:E2.
        apply write_row_spec in E2 as (x & Hx & _); [|done]. destruct ok.
        + apply IH in E as (y & Hy). exists (x ++ y)%list. by rewrite Hy, Hx, app_assoc.
        + injection E as _ <-. by exists x. }
    apply IH in E as (k & rest & Hk & Hb & Et & Hbad); [|done| |done].
    + exists (S k), rest. cbn [length take rows_code fmap list_fmap concat].
      rewrite Hx, Hok in Hb, Et by done. unfold rows_code in Hb, Et.
      rewrite <- !app_assoc in Hb. rewrite <- !app_assoc in Et.
      split_and!; [lia|by rewrite <- app_assoc|done|]. intros Hlt. apply Hbad. lia.
    + rewrite tell_buffer, (wrap_s_small 32 eq_refl); [done|].
      rewrite Hy, length_app in Hlen. lia.
  - injection E as <- <-. exists 0%nat, x. cbn [take rows_code fmap list_fmap concat app].
    rewrite app_nil_r. split_and!; [lia|done|done|]. intros _. exists row, w. by rewrite E0.
Qed.

(** ** Reading the records back *)
Lemma parse_record_code row rest :
  Forall value_ok row ->
  parse_record (value_type <$> row) (concat (code <$> row) ++ rest) = Some (row, rest).
Proof using Type.
  induction 1 as [|v row Hv _ IH]; [done|]. cbn. rewrite <- app_assoc, parse_code by done. cbn.
  by rewrite IH.
Qed.

Definition row_of_types (types : list string) (row : list avro_value) : Prop :=
  Forall value_ok row /\ value_type <$> row = types.

Lemma parse_records_code types rows : forall fuel,
  types <> [] -> Forall (row_of_types types) rows -> (length rows <= fuel)%nat ->
  parse_records fuel types (rows_code rows) = Some rows.
Proof using Type.
  induction rows as [|row rows IH]; intros fuel Hne Hrows Hfuel; [by destruct fuel|].
  apply Forall_cons_iff in Hrows as [[Hok Ht] Hrows]. destruct fuel as [|fuel]; [cbn in Hfuel; lia|].
  assert (rows_code (row :: rows) <> []) as Hcode.
  { destruct row as [|v row]; [by rewrite <- Ht in Hne|]. unfold rows_code. cbn.
    pose proof (code_not_empty v). by destruct (code v). }
  change (rows_code (row :: rows)) with (concat (code <$> row) ++ rows_code rows)%list in *.
  cbn [parse_records]. destruct (concat (code <$> row) ++ rows_code rows)%list as [|c b] eqn:Eb; [done|].
  rewrite <- Eb, <- Ht, parse_record_code by done. cbn. rewrite Ht, IH; [done|done|done|].
  cbn in Hfuel. lia.
Qed.

(** What is written row by row is what a reader of records gets.  The values have
    the types of the schema; the caller writes the rows as the header prescribes,
    until they end or a value does not fit.  The memory up to
    [total_bytes_written] then holds exactly the complete rows, in order: all of
    them, or those before the first row that could not be written. *)
Lemma written_rows_parse schema types rows w0 total w tail :
  mapM (fun c => avro_type (col_type c)) (ColumnInfo schema) = Some types ->
  ColumnInfo schema <> [] -> Forall (row_of_types types) rows ->
  buffer w0 = [] -> write_avro_rows rows w0 0 = (total, w) ->
  Z.of_nat (length (buffer w)) < 2 ^ 31 ->
  exists k, (k <= length rows)%nat /\ 0 <= total <= Z.of_nat (length (buffer w))
    /\ parse_records (length rows) types (slice (buffer w ++ tail) 0 total) = Some (take k rows)
    /\ (k < length rows -> exists row w1, rows !! k = Some row /\ fst (write_row row w1) = false)%nat.
Proof using Type.
  intros Htypes Hne Hrows Hw0 E Hlen.
  destruct (write_avro_rows_spec rows w0 0 total w) as (k & rest & Hk & Hb & Et & Hbad); [| |done|done|].
  { eapply Forall_impl; [|exact Hrows]. by intros row []. }
  { by rewrite Hw0. }
  rewrite Hw0 in Hb, Et. cbn [app] in Hb, Et.
  pose proof (f_equal length Hb) as Hl. rewrite length_app in Hl.
  set (bs := rows_code (take k rows)) in *.
  exists k. split; [done|]. split; [lia|]. split; [|done].
  assert (slice (buffer w ++ tail) 0 total = bs) as ->.
  { unfold slice. rewrite Hb, Et, drop_0, Nat2Z.id, <- app_assoc. by apply take_app_length. }
  apply parse_records_code.
  - intros ->. apply Hne. destruct (ColumnInfo schema) as [|c cols]; [done|]. cbn in Htypes.
    by destruct (avro_type (col_type c)), (mapM _ cols).
  - by apply Forall_take.
  - rewrite length_take. lia.
Qed.
End encoders.

(** ** A writer into a memory of a fixed size

    Not the encoding of AVRO, but one that keeps its promises: numbers of fixed
    width, and bytes after their length.  What does not fit is cut off. *)
Record fixed_writer := mkWriter { f_written : bytes; f_capacity : nat }.

Definition fixed_put (bs : bytes) (w : fixed_writer) : Z * fixed_writer :=
  let room := (f_capacity w - length (f_written w))%nat in
  ((if (length bs <=? room)%nat then 0 else 28),
   mkWriter (f_written w ++ take room bs) (f_capacity w)).

#[export] Instance fixed_encoding : AvroEncoding fixed_writer := {
  write_long w n := fixed_put (le_encode 8 n) w;
  write_int w n := fixed_put (le_encode 4 n) w;
  write_double w d := fixed_put (le_encode 8 d) w;
  write_bytes w b len := fixed_put (le_encode 8 len ++ b) w;
  avro_writer_tell w := Z.of_nat (length (f_written w))
}.

Definition fixed_code (v : avro_value) : bytes :=
  match v with
  | AvroLong n => le_encode 8 n
  | AvroInt n => le_encode 4 n
  | AvroDouble d => le_encode 8 d
  | AvroBytes b => le_encode 8 (Z.of_nat (length b)) ++ b
  end.

Definition fixed_parse (t : string) (b : bytes) : option (avro_value * bytes) :=
  let number n := le_decode (take n b) in
  if decide (t = "long"%string) then Some (AvroLong (s64 (number 8%nat)), drop 8 b)
  else if decide (t = "int"%string) then Some (AvroInt (s32 (number 4%nat)), drop 4 b)
  else if decide (t = "double"%string) then Some (AvroDouble (number 8%nat), drop 8 b)
  else
    let len := Z.to_nat (number 8%nat) in
    Some (AvroBytes (take len (drop 8 b)), drop len (drop 8 b)).

Lemma fixed_put_written bs w err w' :
  fixed_put bs w = (err, w') ->
  exists written, f_written w' = (f_written w ++ written)%list /\ (err = 0 -> written = bs).
Proof.
  unfold fixed_put. intros [= <- <-]. eexists. split; [done|].
  destruct (Nat.leb_spec (length bs) (f_capacity w - length (f_written w))); [|done].
  intros _. by apply take_ge.
Qed.

Lemma take_drop_encode n z (rest : bytes) :
  take n (le_encode n z ++ rest) = le_encode n z /\ drop n (le_encode n z ++ rest) = rest.
Proof.
  split; [apply take_app_length'|apply drop_app_length']; by rewrite length_le_encode.
Qed.

#[export] Instance fixed_laws : AvroLaws (W := fixed_writer).
Proof.
  refine {| code := fixed_code; parse := fixed_parse; buffer := f_written |}.
  - done.
  - intros [n|n|d|b] w err w' _ E; by eapply fixed_put_written.
  - intros [n|n|d|b] rest Hv; cbn in Hv; unfold fixed_parse; cbn -[le_encode le_decode take drop];
      repeat (first [rewrite decide_True by done|rewrite decide_False by done]).
    + destruct (take_drop_encode 8 n rest) as [-> ->]. rewrite le_decode_encode.
      change (n mod 256 ^ Z.of_nat 8) with (u64 n). by rewrite (wrap_s_of_u 64 eq_refl), (wrap_s_small 64 eq_refl).
    + destruct (take_drop_encode 4 n rest) as [-> ->]. rewrite le_decode_encode.
      change (n mod 256 ^ Z.of_nat 4) with (u32 n). by rewrite (wrap_s_of_u 32 eq_refl), (wrap_s_small 32 eq_refl).
    + destruct (take_drop_encode 8 d rest) as [-> ->]. rewrite le_decode_encode.
      by rewrite Z.mod_small.
    + rewrite <- app_assoc. destruct (take_drop_encode 8 (Z.of_nat (length b)) (b ++ rest)) as [-> ->].
      rewrite le_decode_encode, Z.mod_small, Nat2Z.id by lia.
      by rewrite take_app_length, drop_app_length.
  - by intros [n|n|d|b].
Defined.
