(* ===== verification/TableReader.v ===== *)
(** Reading one partition: [S2Connection::NextChunk] fills a chunk from the
    rows of a connection, and the class [ResultTableReader] of
    [result_table_reader.*] pushes such chunks into a queue until the rows
    end.  The connection is the interface [RowSource] here ([Connection.v] has
    the implementation); what the reader does to its queue is kept as the
    sequence of its calls, which is what the queues' protocols ask of a
    producer. *)

From Stdlib Require Import Ascii String.
From stdpp Require Import base list strings numbers tactics.
From stdpp Require Import options.
From S2P Require Import Prelude Schema Text SuperChunk ChunkWriter ChunkReader ChunkFormat.
From S2P Require Import ChunkRoundTrip BatchQueue.

(** ** What the reader uses of a connection

    A row is the array of its values with the array of their lengths.  The
    state that a call leaves when it throws is not used again. *)
Class RowSource (S : Type) := {
  m_last_fetched : S -> option (list (option bytes) * list Z);
  Advance : S -> outcome exn S;
  Prepare : string -> bool -> bool -> S -> outcome exn S;
  Execute : string -> bool -> S -> outcome exn S
}.

Section next_chunk.
Context `{Build} {S : Type} `{!RowSource S}.

Definition HasNextRow (s : S) : bool := bool_decide (is_Some (m_last_fetched s)).

(** The loop of [NextChunk] (and of [GetMultipleRows]). *)
Fixpoint NextChunk_loop (fuel : nat) (writer : SuperChunkWriter) (s : S) (row_count : Z)
    : outcome exn (SuperChunkWriter * S * Z) :=
  match fuel with
  | O => Undef "the rows do not end"
  | Datatypes.S fuel =>
      match m_last_fetched s with
      | None => Done (writer, s, row_count)
      | Some (row, lengths) =>
          '((was_row_written, writer) : bool * SuperChunkWriter)
            ← WriteRow row lengths writer;
          if was_row_written then
            s ← Advance s;
            NextChunk_loop fuel writer s (u64 (row_count + 1))
          else Done (writer, s, row_count)
      end
  end.

(** The chunk that the writer held, and the connection after it. *)
Definition NextChunk (fuel : nat) (chunk : Chunk) (rowSchema : RowSchema) (s : S)
    : outcome exn (Chunk * S) :=
  '((writer, s, row_count) : SuperChunkWriter * S * Z)
    ← NextChunk_loop fuel (Reset chunk rowSchema) s 0;
  Done (set_row_count row_count (m_chunk (m_current_chunk writer)), s).

(** ** class ResultTableReader *)
Record ResultTableReader := mkReader {
  m_conn : S;
  m_is_parallel : bool;
  m_partition : Z;
  m_active : bool;
  m_query : string;
  r_chunk_size : Z;
  r_schema : option RowSchema;
  m_use_prepared_protocol : bool;
  m_error : S2ClientError
}.

Definition set_error (e : S2ClientError) (rd : ResultTableReader) : ResultTableReader :=
  mkReader (m_conn rd) (m_is_parallel rd) (m_partition rd) (m_active rd) (m_query rd)
    (r_chunk_size rd) (r_schema rd) (m_use_prepared_protocol rd) e.
Definition SetActive (a : bool) (rd : ResultTableReader) : ResultTableReader :=
  mkReader (m_conn rd) (m_is_parallel rd) (m_partition rd) a (m_query rd)
    (r_chunk_size rd) (r_schema rd) (m_use_prepared_protocol rd) (m_error rd).
Definition set_conn (s : S) (rd : ResultTableReader) : ResultTableReader :=
  mkReader s (m_is_parallel rd) (m_partition rd) (m_active rd) (m_query rd)
    (r_chunk_size rd) (r_schema rd) (m_use_prepared_protocol rd) (m_error rd).

(** The readers that [CreateReader] and [CreateReaderNonParallel] make once
    they have a connection. *)
Definition CreateReader (conn : S) (query : string) (schema : option RowSchema)
    (partition size : Z) : ResultTableReader :=
  mkReader conn true partition true query size schema true no_error.
Definition CreateReaderNonParallel (conn : S) (query : string)
    (schema : option RowSchema) (size : Z) (usePreparedProtocol : bool)
    : ResultTableReader :=
  mkReader conn false 0 true query size schema usePreparedProtocol no_error.

(** Only [S2ClientError] is caught here. *)
Definition PrepareRead (prefetch : bool) (rd : ResultTableReader)
    : outcome exn ResultTableReader :=
  match (if m_use_prepared_protocol rd
         then Prepare (m_query rd) true prefetch (m_conn rd)
         else Execute (m_query rd) prefetch (m_conn rd)) with
  | Done s => Done (set_conn s rd)
  | Throw (S2Exn e) => Done (set_error e rd)
  | Throw e => Throw e
  | AssertFail what => AssertFail what
  | Undef what => Undef what
  end.

Definition Prefetch (rd : ResultTableReader) : outcome exn ResultTableReader :=
  s ← Advance (m_conn rd); Done (set_conn s rd).

Definition GetError (rd : ResultTableReader) : S2ClientError := m_error rd.

(** A call of the reader on its queue. *)
Inductive queue_call :=
  | call_Push (c : Chunk)
  | call_DeleteProducer (producerId : Z).

(** [malloc n]: the fresh buffer for chunk number [n], NULL as [None];
    [m_stop_reading n]: the flag as the loop reads it before chunk [n]. *)
Context (malloc : Z -> option bytes) (m_stop_reading : Z -> bool).

Definition no_memory (size : Z) : S2ClientError :=
  mkS2ClientError S2C_ERROR_MEMORY_ALLOCATION
    ("ResultTableReader cannot allocate chunk size: " +:+ to_string size).

(** The loop of [Read]: the chunks pushed, and how it ends: the connection and
    the error it recorded.  [chunkId] is an [int]. *)
Fixpoint Read_loop (fuel : nat) (chunkId : Z) (size partition : Z) (schema : RowSchema)
    (s : S) : list Chunk * outcome exn (S * option S2ClientError) :=
  match fuel with
  | O => ([], Undef "the rows do not end")
  | Datatypes.S fuel' =>
      if m_stop_reading chunkId || negb (HasNextRow s) then ([], Done (s, None))
      else
        match malloc chunkId with
        | None => ([], Done (s, Some (no_memory size)))
        | Some ptr =>
            match NextChunk fuel (NewChunk ptr size chunkId partition) schema s with
            | Done (chunk, s) =>
                if row_count chunk =? 0 then ([], Done (s, None))
                else if 2 ^ 31 <=? chunkId + 1
                then ([chunk], Undef "signed overflow of chunkId")
                else
                  let '(chunks, res) :=
                    Read_loop fuel' (chunkId + 1) size partition schema s in
                  (chunk :: chunks, res)
            | Throw e => ([], Throw e)
            | AssertFail what => ([], AssertFail what)
            | Undef what => ([], Undef what)
            end
        end
  end.

(** What the handlers of [Read] catch, and the error they record. *)
Definition caught (e : exn) : option S2ClientError :=
  match e with
  | InvalidArgument what => Some (mkS2ClientError S2C_ERROR_UNKNOWN_FAILURE what)
  | BadAlloc =>
      Some (mkS2ClientError S2C_ERROR_MEMORY_ALLOCATION "Memory allocation error")
  | S2Exn err => Some err
  | OutOfRange _ => None
  end.

(** The body of the reading thread: its calls on the queue, in order, and the
    reader it leaves.  An exception that is not caught ends the program. *)
Definition Read (fuel : nat) (rd : ResultTableReader)
    : list queue_call * outcome exn ResultTableReader :=
  let del := [call_DeleteProducer (m_partition rd)] in
  match r_schema rd with
  | None =>
      (del, Done (SetActive false (set_error
         (mkS2ClientError S2C_ERROR_UNKNOWN_FAILURE
            "Failed to get RowSchema from the queue") rd)))
  | Some schema =>
      match (if m_is_parallel rd then PrepareRead true rd else Done rd) with
      | Done rd =>
          if negb (m_errorCode (m_error rd) =? 0) then (del, Done (SetActive false rd))
          else
            let '(chunks, res) :=
              Read_loop fuel 0 (r_chunk_size rd) (m_partition rd) schema (m_conn rd) in
            let pushes := call_Push <$> chunks in
            match res with
            | Done (s, None) => (pushes ++ del, Done (SetActive false (set_conn s rd)))
            | Done (s, Some e) =>
                (pushes ++ del, Done (SetActive false (set_error e (set_conn s rd))))
            | Throw e =>
                match caught e with
                | Some err => (pushes ++ del, Done (SetActive false (set_error err rd)))
                | None => (pushes, Throw e)
                end
            | AssertFail what => (pushes, AssertFail what)
            | Undef what => (pushes, Undef what)
            end
      | Throw e => ([], Throw e)
      | AssertFail what => ([], AssertFail what)
      | Undef what => ([], Undef what)
      end
  end.

(** ** Specification *)

(** The rows a connection still has to give, and how it ends: with no more
    rows, or with an exception of the call that should fetch the next one. *)
Inductive gives : S -> list (list (option bytes) * list Z) -> option exn -> Prop :=
  | gives_end s : m_last_fetched s = None -> gives s [] None
  | gives_fail s row e :
      m_last_fetched s = Some row -> Advance s = Throw e -> gives s [row] (Some e)
  | gives_row s row s' rows e :
      m_last_fetched s = Some row -> Advance s = Done s' -> gives s' rows e ->
      gives s (row :: rows) e.

(** What [ReadRows] returns for a chunk. *)
Definition holds (schema : RowSchema) (chunk : Chunk) (rows : list (list field)) : Prop :=
  row_count chunk = Z.of_nat (length rows)
  /\ forall err, exists r,
       ReadRows (Z.to_nat (row_count chunk)) (Reset_reader chunk schema err) =
       Done (Some rows, r).

(** The rows can be stored: their shape is the schema's, their cells have CAS
    values that can be read back, and a chunk of [size] bytes takes any of
    them. *)
Definition row_fine (schema : RowSchema) (size : Z)
    (row : list (option bytes) * list Z) (fs : list field) : Prop :=
  let cols := ColumnInfo schema in
  cells_ok cols row.1 row.2 /\ row_need cols row.2 <= size
  /\ fields_of cols row.1 row.2 = Done fs /\ Forall2 readable cols fs.

(** One row: written after the others, or refused by a chunk that has rows. *)
Lemma WriteRow_fine size w ds row fs :
  writer_ok w ds -> free w <= size -> size < 2 ^ 62 -> (ds = [] -> free w = size) ->
  row_fine (m_row_schema w) size row fs ->
  (exists w1, WriteRow row.1 row.2 w = Done (true, w1) /\ writer_ok w1 (ds ++ [fs])
     /\ m_row_schema w1 = m_row_schema w /\ identity w1 = identity w
     /\ free w - row_need (ColumnInfo (m_row_schema w)) row.2 <= free w1 <= size)
  \/ ds <> [] /\ WriteRow row.1 row.2 w = Done (false, w)
     /\ free w < row_need (ColumnInfo (m_row_schema w)) row.2.
Proof using Type.
  intros Hw Hfree Hsz Hfull (Hcells & Hneed & Hfields & _).
  destruct (Z.leb_spec (row_need (ColumnInfo (m_row_schema w)) row.2) (free w)) as [Hfit|Hfit].
  - destruct (WriteRow_written row.1 row.2 w ds fs) as (w1 & E & Hw1 & Hfree1 & Hs1);
      [done|done|lia|done|done|]. left.
    pose proof (row_need_bounds _ _ _ Hcells).
    exists w1. split_and!; [done..|by eapply WriteRow_keeps|lia|lia].
  - right. assert (ds <> []) as Hne by (intros ->; rewrite Hfull in Hfit by done; lia).
    split; [done|]. split; [|done]. apply (WriteRow_full _ _ _ ds); [done..|lia|done|done].
Qed.

Lemma rows_need_cons cols row rows :
  rows_need cols (row :: rows) = row_need cols row.2 + rows_need cols rows.
Proof using Type. done. Qed.

Lemma fine_needs schema size rows fss :
  Forall2 (row_fine schema size) rows fss -> 0 <= rows_need (ColumnInfo schema) rows.
Proof using Type.
  intros Hf. apply rows_need_nonneg. induction Hf as [|row fs rows fss [Hc _] _ IH]; by constructor.
Qed.

(** Every row is written to a chunk, in order, until one does not fit or the
    rows end. *)
Lemma NextChunk_loop_spec size rows e fuel w s ds fss :
  writer_ok w ds -> free w <= size -> size < 2 ^ 62 -> (ds = [] -> free w = size) ->
  Forall2 (row_fine (m_row_schema w) size) rows fss -> gives s rows e ->
  (length rows < fuel)%nat -> Z.of_nat (length ds) + Z.of_nat (length rows) < 2 ^ 62 ->
  match NextChunk_loop fuel w s (Z.of_nat (length ds)) with
  | Done (w', s', rc) =>
      exists k, (k <= length rows)%nat /\ writer_ok w' (ds ++ take k fss)
        /\ m_row_schema w' = m_row_schema w /\ identity w' = identity w
        /\ rc = Z.of_nat (length (ds ++ take k fss))
        /\ gives s' (drop k rows) e
        /\ (ds = [] -> rows <> [] -> (0 < k)%nat)
        /\ (rows_need (ColumnInfo (m_row_schema w)) rows <= free w -> k = length rows)
  | Throw ex => e = Some ex
  | _ => False
  end.
Proof using Type.
  revert rows w s ds fss. induction fuel as [|fuel IH];
    intros rows w s ds fss Hw Hfree Hsz Hfull Hfine Hg Hfuel Hlen; [lia|].
  cbn [NextChunk_loop].
  pose proof (fine_needs _ _ _ _ Hfine) as Hneeds.
  assert (ds <> [] -> free w < rows_need (ColumnInfo (m_row_schema w)) rows ->
    exists k, (k <= length rows)%nat /\ writer_ok w (ds ++ take k fss)
      /\ m_row_schema w = m_row_schema w /\ identity w = identity w
      /\ Z.of_nat (length ds) = Z.of_nat (length (ds ++ take k fss))
      /\ gives s (drop k rows) e /\ (ds = [] -> rows <> [] -> (0 < k)%nat)
      /\ (rows_need (ColumnInfo (m_row_schema w)) rows <= free w -> k = length rows)) as Hstop.
  { intros Hne Hfit. exists 0%nat. cbn [take drop]. rewrite app_nil_r. by split_and!; lia || done. }
  destruct Hg as [s Hend|s row ex Hrow Hadv|s row s1 rows e Hrow Hadv Hg].
  { rewrite Hend. inversion Hfine. exists 0%nat. cbn [take drop]. rewrite app_nil_r.
    split_and!; [lia|done..| |by intros _ ?|done]. by constructor. }
  all: apply Forall2_cons_inv_l in Hfine as (fs & fss' & Hf & Hfine & ->); rewrite Hrow;
    destruct row as [row lengths];
    destruct (WriteRow_fine size w ds _ fs Hw Hfree Hsz Hfull Hf)
      as [(w1 & E & Hw1 & Hs1 & Hid & Hfree1)|(Hne & E & Hfit)]; cbn [fst snd] in *;
    pose proof (fine_needs _ _ _ _ Hfine) as Hneeds';
    rewrite rows_need_cons in Hneeds, Hstop |- *; cbn [snd] in *;
    rewrite E, Done_bind; cbv beta iota zeta; [|by apply Hstop; [|lia]].
  - by rewrite Hadv.
  - rewrite Hadv, Done_bind. cbn [length] in *.
    replace (u64 (Z.of_nat (length ds) + 1)) with (Z.of_nat (length (ds ++ [fs])))
      by (rewrite wrap_u_small by lia; rewrite length_app; cbn [length]; lia).
    rewrite <- Hs1 in Hfine.
    specialize (IH rows w1 s1 (ds ++ [fs]) fss' Hw1 ltac:(lia) Hsz).
    specialize (IH ltac:(intros; by destruct ds) Hfine Hg ltac:(lia)).
    rewrite length_app in IH at 1. cbn [length] in IH. specialize (IH ltac:(lia)).
    destruct (NextChunk_loop fuel w1 s1 _) as [[[w' s'] rc]| | |]; [|done..].
    destruct IH as (k & Hk & Hw' & Hs' & Hid' & Hrc & Hg' & _ & Hall). exists (1 + k)%nat.
    cbn [Nat.add take drop]. rewrite cons_middle, (assoc_L (++)).
    split_and!; [lia|done|congruence|congruence|done|done|lia|].
    intros Hn. rewrite Hs1 in Hall. rewrite Hall; [done|lia].
Qed.

Lemma set_row_count_same c : set_row_count (row_count c) c = c.
Proof using Type. by destruct c. Qed.

(** [NextChunk] on a fresh chunk: some first rows go to the chunk, which holds
    exactly them, and the others stay in the connection; the chunk is empty
    only when no row was left.  An exception of the connection ends it. *)
Lemma NextChunk_spec size schema rows e fuel ptr cid p s fss :
  Z.of_nat (length ptr) = size -> size < 2 ^ 62 ->
  Forall col_ok (ColumnInfo schema) -> ColumnInfo schema <> [] ->
  Forall2 (row_fine schema size) rows fss -> gives s rows e ->
  (length rows < fuel)%nat -> Z.of_nat (length rows) < 2 ^ 62 ->
  match NextChunk fuel (NewChunk ptr size cid p) schema s with
  | Done (chunk, s') =>
      exists k, (k <= length rows)%nat /\ holds schema chunk (take k fss)
        /\ chunk_of p cid chunk /\ gives s' (drop k rows) e /\ (rows <> [] -> (0 < k)%nat)
        /\ (rows_need (ColumnInfo schema) rows <= size -> k = length rows)
  | Throw ex => e = Some ex
  | _ => False
  end.
Proof using Type.
  intros Hptr Hsz Hcols Hne Hfine Hg Hfuel Hlen. unfold NextChunk.
  set (w := Reset (NewChunk ptr size cid p) schema).
  assert (writer_ok w []) as Hw by (apply Reset_ok; try done; split; cbn; lia).
  pose proof (NextChunk_loop_spec size rows e fuel w s [] fss Hw) as HL.
  assert (free w = size) as Hf by (unfold free; cbn; lia).
  specialize (HL ltac:(lia) Hsz ltac:(done) Hfine Hg Hfuel ltac:(cbn; lia)).
  cbn [length app] in HL. change (Z.of_nat 0) with 0 in HL.
  destruct (NextChunk_loop fuel w s 0) as [[[w' s'] rc]| | |]; [|done..].
  destruct HL as (k & Hk & Hw' & Hs' & Hid & Hrc & Hg' & Hpos & Hall). rewrite Hf in Hall.
  rewrite Done_bind. cbv beta iota zeta. exists k.
  rewrite <- (wo_count _ _ Hw') in Hrc. subst rc. rewrite set_row_count_same.
  split; [done|]. split; [|split; [|split; [done|split; [by apply Hpos|done]]]].
  - split; [apply (wo_count _ _ Hw')|]. intros err.
    destruct (read_written w' (take k fss) err Hw') as (r & Er & _).
    { rewrite Hs'. apply Forall_take. clear -Hfine.
      induction Hfine as [|row fs rows fss (_ & _ & _ & Hr) _ IH]; constructor; done. }
    exists r. by rewrite Hs' in Er.
  - unfold identity, chunk_identity, chunk_of in *. cbn in Hid. by injection Hid.
Qed.

(** The chunks of one partition, in the order they are pushed. *)
Definition numbered (p first : Z) (chunks : list Chunk) : Prop :=
  forall i c, chunks !! i = Some c -> chunk_of p (first + Z.of_nat i) c.

Lemma numbered_cons p first c chunks :
  chunk_of p first c -> numbered p (first + 1) chunks -> numbered p first (c :: chunks).
Proof using Type.
  intros Hc Hcs [|i] c' Hi; cbn in Hi.
  - injection Hi as <-. by rewrite Z.add_0_r.
  - replace (first + Z.of_nat (Datatypes.S i)) with (first + 1 + Z.of_nat i) by lia. by apply Hcs.
Qed.

(** The rows that the pushed chunks hold: all of them, or a prefix when the
    connection failed. *)
Definition delivered_rows (schema : RowSchema) (chunks : list Chunk)
    (fss : list (list field)) : Prop :=
  exists parts, Forall2 (holds schema) chunks parts /\ Forall (fun l => l <> []) parts
    /\ concat parts = fss.

Lemma Read_loop_spec schema size p rows e fuel cid s fss :
  (forall n, exists ptr, malloc n = Some ptr /\ Z.of_nat (length ptr) = size) ->
  (forall n, m_stop_reading n = false) ->
  size < 2 ^ 62 -> Forall col_ok (ColumnInfo schema) -> ColumnInfo schema <> [] ->
  Forall2 (row_fine schema size) rows fss -> gives s rows e ->
  (length rows < fuel)%nat -> 0 <= cid -> cid + Z.of_nat (length rows) < 2 ^ 31 ->
  let '(chunks, res) := Read_loop fuel cid size p schema s in
  numbered p cid chunks
  /\ exists k, (k <= length rows)%nat /\ delivered_rows schema chunks (take k fss)
     /\ match res with
        | Done (_, err) => e = None /\ err = None /\ k = length rows
        | Throw ex => e = Some ex
        | _ => False
        end.
Proof using Type.
  intros Hmalloc Hstop Hsz Hcols Hne. revert rows cid s fss.
  induction fuel as [|fuel IH]; intros rows cid s fss Hfine Hg Hfuel Hcid Hlen; [lia|].
  cbn [Read_loop]. rewrite Hstop. cbn [orb].
  destruct (HasNextRow s) eqn:Hrow; cbn [negb].
  2: { apply bool_decide_eq_false in Hrow.
       destruct Hg as [s Hend|s row ex H1 _|s row s1 rows e H1 _ _];
         [|exfalso; apply Hrow; by eexists..].
       inversion Hfine. subst. split; [by intros [|]|]. exists 0%nat. split; [done|].
       split; [by exists []|done]. }
  assert (rows <> []) as Hrows.
  { intros ->. apply bool_decide_eq_true in Hrow as [? Hx]. inversion Hg. congruence. }
  destruct (Hmalloc cid) as (ptr & -> & Hptr).
  pose proof (NextChunk_spec size schema rows e (Datatypes.S fuel) ptr cid p s fss) as HN.
  specialize (HN Hptr Hsz Hcols Hne Hfine Hg Hfuel ltac:(lia)).
  destruct (NextChunk _ _ schema s) as [[chunk s']| ex | |]; [|..].
  2: { split; [by intros [|]|]. exists 0%nat. split; [lia|]. split; [by exists []|done]. }
  2,3: done.
  destruct HN as (k & Hk & Hholds & Hchunk & Hg' & Hpos & _). specialize (Hpos Hrows).
  pose proof (Forall2_length Hfine) as Hlf.
  assert (length (take k fss) = k) as Hlk by (rewrite length_take; lia).
  destruct Hholds as [Hrc Hreads]. rewrite Hlk in Hrc.
  destruct (Z.eqb_spec (row_count chunk) 0); [lia|].
  destruct (Z.leb_spec (2 ^ 31) (cid + 1)); [lia|].
  specialize (IH (drop k rows) (cid + 1) s' (drop k fss)).
  specialize (IH ltac:(by apply Forall2_drop) Hg').
  rewrite length_drop in IH. specialize (IH ltac:(lia) ltac:(lia) ltac:(lia)).
  destruct (Read_loop fuel (cid + 1) size p schema s') as [chunks res].
  destruct IH as (Hnum & k' & Hk' & (parts & Hparts & Hpne & Hconcat) & Hres).
  split; [by apply numbered_cons|]. exists (k + k')%nat. split; [lia|]. split.
  - exists (take k fss :: parts). split; [constructor; [|done]|split].
    + split; [by rewrite Hrc, Hlk|done].
    + constructor; [|done]. intros Hx. rewrite Hx in Hlk. cbn in Hlk. lia.
    + cbn. rewrite Hconcat. by rewrite take_take_drop.
  - destruct res as [[s'' err]| | |]; [|done..]. destruct Hres as (? & ? & ->).
    split_and!; [done..|lia].
Qed.

Lemma PrepareRead_partition prefetch rd rd' :
  PrepareRead prefetch rd = Done rd' ->
  m_partition rd' = m_partition rd /\ r_chunk_size rd' = r_chunk_size rd.
Proof using Type.
  unfold PrepareRead. repeat case_match; intros ?; by simplify_eq/=.
Qed.

Lemma NextChunk_loop_identity fuel w s rc w' s' rc' :
  NextChunk_loop fuel w s rc = Done (w', s', rc') -> identity w' = identity w.
Proof using Type.
  revert w s rc. induction fuel as [|fuel IH]; intros w s rc E; [done|].
  cbn [NextChunk_loop] in E. destruct (m_last_fetched s) as [[row lengths]|].
  - apply bind_Done in E as ([b w1] & E1 & E). apply WriteRow_keeps in E1.
    destruct b; [apply bind_Done in E as (s1 & _ & E); apply IH in E; congruence|].
    by injection E as -> -> ->.
  - by injection E as -> -> ->.
Qed.

Lemma NextChunk_chunk_of fuel ptr size cid p schema s chunk s' :
  NextChunk fuel (NewChunk ptr size cid p) schema s = Done (chunk, s') ->
  chunk_of p cid chunk.
Proof using Type.
  intros E. unfold NextChunk in E. apply bind_Done in E as ([[w' s1] rc] & E1 & E).
  apply NextChunk_loop_identity in E1. injection E as <- _.
  unfold identity, chunk_identity in E1. cbn in E1. by injection E1.
Qed.

Lemma Read_loop_numbered fuel cid size p schema s :
  numbered p cid (Read_loop fuel cid size p schema s).1
  /\ Forall (fun c => row_count c <> 0) (Read_loop fuel cid size p schema s).1.
Proof using Type.
  assert (forall cid, numbered p cid []) as Hnil by (by intros ? [|]).
  revert cid s. induction fuel as [|fuel IH]; intros cid s; cbn [Read_loop]; [done|].
  destruct (_ || _); [done|]. destruct (malloc cid) as [ptr|]; [|done].
  destruct (NextChunk _ _ _ _) as [[chunk s1]| | |] eqn:E; [|done..].
  apply NextChunk_chunk_of in E. destruct (Z.eqb_spec (row_count chunk) 0) as [|Hrc]; [done|].
  destruct (2 ^ 31 <=? cid + 1).
  - split; [by apply numbered_cons|by constructor].
  - destruct (IH (cid + 1) s1) as [H1 H2].
    destruct (Read_loop fuel _ _ _ _ _) as [chunks res].
    split; [by apply numbered_cons|by constructor].
Qed.

(** The numbers of the chunks fit an [int], one above the last included. *)
Lemma Read_loop_ids fuel cid size p schema s :
  match Read_loop fuel cid size p schema s with
  | (_, Undef _) => True
  | (chunks, _) => Forall (fun c => id c + 1 < 2 ^ 31) chunks
  end.
Proof using Type.
  revert cid s. induction fuel as [|fuel IH]; intros cid s; cbn [Read_loop]; [done|].
  destruct (_ || _); [done|]. destruct (malloc cid) as [ptr|]; [|done].
  destruct (NextChunk _ _ _ _) as [[chunk s1]| | |] eqn:E; [|done..].
  apply NextChunk_chunk_of in E as [_ E]. destruct (row_count chunk =? 0); [done|].
  destruct (Z.leb_spec (2 ^ 31) (cid + 1)); [done|]. specialize (IH (cid + 1) s1).
  destruct (Read_loop fuel _ _ _ _ _) as [chunks []]; try done;
    (constructor; [lia|done]).
Qed.

(** The calls of a run that ends. *)
Lemma Read_calls fuel rd calls rd' :
  Read fuel rd = (calls, Done rd') ->
  exists chunks, calls = (call_Push <$> chunks) ++ [call_DeleteProducer (m_partition rd)]
    /\ numbered (m_partition rd) 0 chunks
    /\ Forall (fun c => row_count c <> 0) chunks
    /\ Forall (fun c => id c + 1 < 2 ^ 31) chunks.
Proof using Type.
  intros E. unfold Read in E.
  assert (numbered (m_partition rd) 0 []) as Hnil by (by intros [|]).
  destruct (r_schema rd) as [schema|]; [|injection E as <- <-; by exists []].
  destruct (if m_is_parallel rd then PrepareRead true rd else Done rd) as [rd1| | |] eqn:E1;
    [|by injection E..].
  assert (m_partition rd1 = m_partition rd) as Ep.
  { destruct (m_is_parallel rd); [by apply PrepareRead_partition in E1 as [-> _]|by injection E1 as ->]. }
  destruct (negb (m_errorCode (m_error rd1) =? 0)); [injection E as <- <-; by exists []|].
  destruct (Read_loop_numbered fuel 0 (r_chunk_size rd1) (m_partition rd1) schema (m_conn rd1))
    as [Hnum Hrc].
  pose proof (Read_loop_ids fuel 0 (r_chunk_size rd1) (m_partition rd1) schema (m_conn rd1)) as Hids.
  rewrite Ep in *.
  destruct (Read_loop fuel 0 _ _ _ _) as [chunks res]. cbn [fst] in *. exists chunks.
  repeat case_match; simplify_eq/=; done.
Qed.

Lemma Read_inactive fuel rd calls rd' :
  Read fuel rd = (calls, Done rd') -> m_active rd' = false.
Proof using Type.
  unfold Read. intros E. repeat case_match; simplify_eq/=; done.
Qed.

(** The reading thread is a proper producer of its queue whatever the
    database does: it pushes non-empty chunks of its own partition numbered
    0, 1, 2, ..., and then, also after an error, a failed allocation or a
    request to stop, deletes its producer exactly once, as its last call,
    and marks itself inactive. *)
Theorem Read_protocol fuel rd calls rd' :
  Read fuel rd = (calls, Done rd') ->
  exists chunks, calls = (call_Push <$> chunks) ++ [call_DeleteProducer (m_partition rd)]
    /\ numbered (m_partition rd) 0 chunks
    /\ Forall (fun c => row_count c <> 0) chunks
    /\ m_active rd' = false.
Proof using Type.
  intros E. pose proof (Read_inactive _ _ _ _ E) as Ha.
  apply Read_calls in E as (chunks & ? & ? & ? & _). by exists chunks.
Qed.

(** The calls of a reading thread that gets its rows, and how it leaves its
    reader. *)
Lemma Read_delivers fuel rd rd1 schema rows e fss :
  r_schema rd = Some schema ->
  (if m_is_parallel rd then PrepareRead true rd else Done rd) = Done rd1 ->
  m_error rd1 = no_error -> gives (m_conn rd1) rows e ->
  (forall n, exists ptr, malloc n = Some ptr /\ Z.of_nat (length ptr) = r_chunk_size rd) ->
  (forall n, m_stop_reading n = false) ->
  r_chunk_size rd < 2 ^ 62 -> Forall col_ok (ColumnInfo schema) -> ColumnInfo schema <> [] ->
  Forall2 (row_fine schema (r_chunk_size rd)) rows fss ->
  (length rows < fuel)%nat -> Z.of_nat (length rows) < 2 ^ 31 ->
  (forall ex, e = Some ex -> is_Some (caught ex)) ->
  exists chunks rd' k,
    Read fuel rd = ((call_Push <$> chunks) ++ [call_DeleteProducer (m_partition rd)], Done rd')
    /\ numbered (m_partition rd) 0 chunks
    /\ delivered_rows schema chunks (take k fss)
    /\ match e with
       | None => take k fss = fss /\ m_error rd' = no_error
       | Some ex => Some (m_error rd') = caught ex
       end.
Proof using Type.
  intros Hs Hp He Hg Hmalloc Hstop Hsz Hcols Hne Hfine Hfuel Hlen Hcaught.
  assert (m_partition rd1 = m_partition rd /\ r_chunk_size rd1 = r_chunk_size rd) as [Ep Es].
  { destruct (m_is_parallel rd); [by apply PrepareRead_partition in Hp|by injection Hp as ->]. }
  unfold Read. rewrite Hs, Hp, He. cbn [m_errorCode no_error Z.eqb negb].
  rewrite Ep, Es.
  pose proof (Read_loop_spec schema (r_chunk_size rd) (m_partition rd) rows e fuel 0
    (m_conn rd1) fss Hmalloc Hstop Hsz Hcols Hne Hfine Hg Hfuel ltac:(lia) ltac:(lia)) as HR.
  destruct (Read_loop fuel 0 _ _ _ _) as [chunks res].
  destruct HR as (Hnum & k & Hk & Hdel & Hres).
  destruct res as [[s err]|ex| |]; [|..].
  - destruct Hres as (-> & -> & ->). do 3 eexists. split; [done|]. split; [done|]. split; [done|].
    split; [|done]. apply take_ge. by rewrite (Forall2_length Hfine).
  - subst e. destruct (Hcaught ex eq_refl) as [err Herr]. rewrite Herr.
    do 3 eexists. split; [done|]. split; [done|]. split; [done|]. done.
  - done.
  - done.
Qed.

(** C10. The reading thread delivers the partition: when the rows of the query
    have the shape of the schema and each fits a chunk, the pushed chunks
    hold, one after the other, the values of all the rows, each row once and
    in order, and no error is recorded; when the connection fails on the way,
    they hold the rows up to some point and the failure is recorded.  The
    loops end: one more round than there are rows is enough. *)
Theorem Read_delivers_rows fuel rd rd1 schema rows e fss :
  r_schema rd = Some schema ->
  (if m_is_parallel rd then PrepareRead true rd else Done rd) = Done rd1 ->
  m_error rd1 = no_error -> gives (m_conn rd1) rows e ->
  (forall n, exists ptr, malloc n = Some ptr /\ Z.of_nat (length ptr) = r_chunk_size rd) ->
  (forall n, m_stop_reading n = false) ->
  r_chunk_size rd < 2 ^ 62 -> Forall col_ok (ColumnInfo schema) -> ColumnInfo schema <> [] ->
  Forall2 (row_fine schema (r_chunk_size rd)) rows fss ->
  (length rows < fuel)%nat -> Z.of_nat (length rows) < 2 ^ 31 ->
  (forall ex, e = Some ex -> is_Some (caught ex)) ->
  exists chunks rd' k,
    Read fuel rd = ((call_Push <$> chunks) ++ [call_DeleteProducer (m_partition rd)], Done rd')
    /\ delivered_rows schema chunks (take k fss)
    /\ match e with
       | None => take k fss = fss /\ m_error rd' = no_error
       | Some ex => Some (m_error rd') = caught ex
       end.
Proof using Type.
  intros Hs Hp He Hg Hmalloc Hstop Hsz Hcols Hne Hfine Hfuel Hlen Hcaught.
  destruct (Read_delivers fuel rd rd1 schema rows e fss Hs Hp He Hg Hmalloc Hstop Hsz Hcols Hne
    Hfine Hfuel Hlen Hcaught) as (chunks & rd' & k & ? & _ & ? & ?).
  by exists chunks, rd', k.
Qed.

End next_chunk.

(** ** A source that is a list of rows *)
Definition list_source : Type := list (list (option bytes) * list Z) * option exn.

Definition list_Advance (s : list_source) : outcome exn list_source :=
  match s with
  | ([], e) => Done ([], e)
  | ([_], Some ex) => Throw ex
  | (_ :: l, e) => Done (l, e)
  end.

Definition list_row_source : RowSource list_source := {|
  m_last_fetched s := head s.1;
  Advance := list_Advance;
  Prepare _ _ _ s := Done s;
  Execute _ _ s := Done s
|}.

Definition demo_malloc (n : Z) : option bytes := Some (replicate 40 "000"%char).

Definition demo_reader (e : option exn) : ResultTableReader (S := list_source) :=
  CreateReader (demo_rows, e) "SELECT * FROM t" (Some demo_schema) 3 40.

Definition demo_lost : option exn :=
  Some (S2Exn (mkS2ClientError 2013 "lost connection")).

Lemma demo_rows_fine : Forall2 (row_fine (H := release_build) demo_schema 40) demo_rows demo_fields.
Proof.
  repeat constructor; cbn; try done; try lia.
Qed.

(** Two chunks of 40 bytes, a row in each; and the failure after them. *)
Lemma Read_delivers_rows_witness :
  (exists chunks rd' k,
    Read (H := release_build) (RowSource0 := list_row_source) demo_malloc (fun _ => false) 3
      (demo_reader None) = ((call_Push <$> chunks) ++ [call_DeleteProducer 3], Done rd')
    /\ delivered_rows (H := release_build) demo_schema chunks (take k demo_fields)
    /\ take k demo_fields = demo_fields /\ m_error rd' = no_error)
  /\ (exists chunks rd' k,
    Read (H := release_build) (RowSource0 := list_row_source) demo_malloc (fun _ => false) 3
      (demo_reader demo_lost) =
      ((call_Push <$> chunks) ++ [call_DeleteProducer 3], Done rd')
    /\ delivered_rows (H := release_build) demo_schema chunks (take k demo_fields)
    /\ Some (m_error rd') = Some (mkS2ClientError 2013 "lost connection")).
Proof.
  split.
  - apply (Read_delivers_rows (H := release_build) (RowSource0 := list_row_source)
      demo_malloc (fun _ => false) 3 (demo_reader None) (demo_reader None) demo_schema
      demo_rows None demo_fields); try reflexivity; try done.
    + eapply gives_row; [reflexivity..|]. eapply gives_row; [reflexivity..|]. by apply gives_end.
    + intros n. eexists. split; reflexivity.
    + repeat constructor; unfold col_ok; cbn; try done; lia.
    + apply demo_rows_fine.
    + cbn. lia.
  - apply (Read_delivers_rows (H := release_build) (RowSource0 := list_row_source)
      demo_malloc (fun _ => false) 3 (demo_reader demo_lost) (demo_reader demo_lost) demo_schema
      demo_rows demo_lost demo_fields);
      try reflexivity; try done.
    + eapply gives_row; [reflexivity..|]. eapply gives_fail; reflexivity.
    + intros n. eexists. split; reflexivity.
    + repeat constructor; unfold col_ok; cbn; try done; lia.
    + apply demo_rows_fine.
    + cbn. lia.
    + intros ex [= <-]. by eexists.
Defined.

Lemma Read_protocol_witness :
  exists calls rd',
    Read (H := release_build) (RowSource0 := list_row_source) demo_malloc (fun _ => false) 3
      (demo_reader None) = (calls, Done rd')
    /\ exists chunks, calls = (call_Push <$> chunks) ++ [call_DeleteProducer 3]
         /\ numbered 3 0 chunks /\ Forall (fun c => row_count c <> 0) chunks
         /\ m_active rd' = false.
Proof.
  destruct (Read (H := release_build) (RowSource0 := list_row_source) demo_malloc
    (fun _ => false) 3 (demo_reader None)) as [calls res] eqn:E.
  destruct res as [rd'| | |]; [|vm_compute in E; discriminate E..].
  exists calls, rd'. split; [done|].
  exact (Read_protocol (H := release_build) (RowSource0 := list_row_source) demo_malloc
    (fun _ => false) 3 (demo_reader None) calls rd' E).
Defined.
