(* ===== verification/ChunkMemory.v ===== *)
(** The memory of the chunks that a reading thread makes: [TableReader.v] takes
    a chunk as a value, here its object and its buffer are blocks of the heap of
    [Memory.v].  The loop of [ResultTableReader::Read] allocates them; whoever
    takes a chunk out of the queue frees them, the caller of the library or the
    destructor of the queue. *)

From Stdlib Require Import Ascii String.
From stdpp Require Import base list strings numbers gmap tactics.
From stdpp Require Import options.
From S2P Require Import Prelude Schema SuperChunk Memory ChunkRoundTrip TableReader.

(** ** Chunks on the heap *)

(** The heap without the two blocks of a chunk. *)
Definition without_chunk (c ptr : loc) (h : heap) : heap := delete c (delete ptr h).

(** [chunks_at cs frame h]: the heap is [frame] and the chunks [cs]. *)
Inductive chunks_at : list loc -> heap -> heap -> Prop :=
  | chunks_none h : chunks_at [] h h
  | chunks_cons c cs ptr buffer frame h :
      chunk_at c ptr buffer h -> chunks_at cs frame (without_chunk c ptr h) ->
      chunks_at (c :: cs) frame h.

Lemma chunk_at_other c1 p1 c2 p2 b2 h :
  chunk_at c2 p2 b2 (without_chunk c1 p1 h) ->
  chunk_at c2 p2 b2 h /\ c1 <> c2 /\ c1 <> p2 /\ p1 <> c2 /\ p1 <> p2.
Proof.
  unfold without_chunk. intros (Hne & E1 & E2).
  apply lookup_delete_Some in E1 as [? E1], E2 as [? E2].
  apply lookup_delete_Some in E1 as [? E1], E2 as [? E2]. by split_and!.
Qed.

Lemma chunk_at_without c1 p1 c2 p2 b1 h :
  chunk_at c1 p1 b1 h -> c1 <> c2 -> c1 <> p2 -> p1 <> c2 -> p1 <> p2 ->
  chunk_at c1 p1 b1 (without_chunk c2 p2 h).
Proof.
  intros (Hne & E1 & E2) ????. unfold without_chunk.
  split; [done|]. by rewrite !lookup_delete_ne.
Qed.

Lemma without_chunk_comm c1 p1 c2 p2 h :
  without_chunk c1 p1 (without_chunk c2 p2 h) = without_chunk c2 p2 (without_chunk c1 p1 h).
Proof.
  unfold without_chunk. apply map_eq. intros l.
  destruct (decide (l = c1)), (decide (l = p1)), (decide (l = c2)), (decide (l = p2)); subst;
    rewrite ?lookup_delete_eq, ?(lookup_delete_ne _ _ _ ltac:(done)),
      ?lookup_delete_eq, ?lookup_delete_ne, ?lookup_delete_eq by done;
    rewrite ?lookup_delete_ne, ?lookup_delete_eq by done; done.
Qed.

(** The chunks may be taken in any order. *)
#[export] Instance chunks_at_perm : Proper ((≡ₚ) ==> (=) ==> (=) ==> iff) chunks_at.
Proof.
  assert (forall cs cs' frame h, cs ≡ₚ cs' -> chunks_at cs frame h -> chunks_at cs' frame h) as Hp.
  { intros cs cs' frame h Hp. revert h. induction Hp as [|c cs cs' _ IH|c1 c2 cs|]; intros h Hcs.
    - done.
    - inversion Hcs; subst. econstructor; [done|]. by apply IH.
    - inversion Hcs as [|? ? p1 b1 ? ? H1 Hcs1]; subst.
      inversion Hcs1 as [|? ? p2 b2 ? ? H2 Hcs2]; subst.
      destruct (chunk_at_other _ _ _ _ _ _ H2) as (H2' & ? & ? & ? & ?).
      econstructor; [exact H2'|]. econstructor; [by apply chunk_at_without|].
      by rewrite without_chunk_comm.
    - auto. }
  intros cs cs' Hcs ? frame -> ? h ->. split; by apply Hp.
Qed.

Lemma chunks_at_app cs1 cs2 frame mid h :
  chunks_at cs1 mid h -> chunks_at cs2 frame mid -> chunks_at (cs1 ++ cs2) frame h.
Proof. induction 1; intros H2; [done|]. cbn. econstructor; [done|]. auto. Qed.

Lemma new_chunk_at buffer h c h' :
  new_chunk buffer h = (c, h') -> chunks_at [c] h h'.
Proof.
  intros (ptr & Hp & Hc & Hat & Eh)%new_chunk_spec. econstructor; [done|].
  unfold without_chunk. rewrite Eh, delete_new_chunk by (done || by destruct Hat). constructor.
Qed.

(** How a chunk leaves the queue: the caller takes it ([MoveChunk]) and frees
    what it got, or the destructor of the queue frees it. *)
Inductive fate := Taken | Left.

Definition release (c : loc) (f : fate) (h : heap) : outcome exn heap :=
  match f with
  | Taken =>
      '((ptr, h) : option loc * heap) ← MoveChunk_heap c h; ChunkFree_buffer ptr h
  | Left => free_left_chunk c h
  end.

Fixpoint release_all (cs : list (loc * fate)) (h : heap) : outcome exn heap :=
  match cs with
  | [] => Done h
  | (c, f) :: cs => h ← release c f h; release_all cs h
  end.

Lemma release_spec c ptr buffer f h :
  chunk_at c ptr buffer h -> release c f h = Done (without_chunk c ptr h).
Proof.
  intros Hc. destruct f; cbn [release]; [|by eapply free_left_chunk_spec].
  rewrite (MoveChunk_heap_spec _ _ _ _ Hc), Done_bind. destruct Hc as (Hne & E1 & E2).
  unfold ChunkFree_buffer. rewrite (deallocate_block Malloc (Data buffer)).
  - unfold without_chunk. by rewrite delete_delete.
  - by rewrite lookup_delete_ne.
Qed.

Lemma release_all_spec cs frame h :
  chunks_at (fst <$> cs) frame h -> release_all cs h = Done frame.
Proof.
  revert h. induction cs as [|[c f] cs IH]; intros h Hcs; inversion Hcs; subst; [done|].
  cbn [release_all]. rewrite (release_spec _ _ _ f _ ltac:(eassumption)), Done_bind. by apply IH.
Qed.

(** ** The loop of the reading thread *)
Section reading.
Context `{Build} {S : Type} `{!RowSource S}.
Context (malloc : Z -> option bytes) (m_stop_reading : Z -> bool).

(** [TableReader.Read_loop] with the heap; a pushed chunk has its object. *)
Fixpoint Read_loop_heap (fuel : nat) (chunkId : Z) (size partition : Z) (schema : RowSchema)
    (s : S) (h : heap)
    : list (Chunk * loc) * outcome exn (S * option S2ClientError) * heap :=
  match fuel with
  | O => ([], Undef "the rows do not end", h)
  | Datatypes.S fuel' =>
      if m_stop_reading chunkId || negb (HasNextRow s) then ([], Done (s, None), h)
      else
        match malloc chunkId with
        | None => ([], Done (s, Some (no_memory size)), h)
        | Some ptr =>
            let '(c, h) := new_chunk ptr h in
            match NextChunk fuel (NewChunk ptr size chunkId partition) schema s with
            | Done (chunk, s) =>
                if row_count chunk =? 0 then
                  match discard_chunk c h with
                  | Done h => ([], Done (s, None), h)
                  | _ => ([], Undef "the chunk is not there", h)
                  end
                else if 2 ^ 31 <=? chunkId + 1
                then ([(chunk, c)], Undef "signed overflow of chunkId", h)
                else
                  let '(chunks, res, h) :=
                    Read_loop_heap fuel' (chunkId + 1) size partition schema s h in
                  ((chunk, c) :: chunks, res, h)
            | Throw e => ([], Throw e, h)
            | AssertFail what => ([], AssertFail what, h)
            | Undef what => ([], Undef what, h)
            end
        end
  end.

(** The blocks that are there when the loop has ended: those of the chunks that
    were pushed, and, when an exception has ended it while a chunk was filled,
    those of that chunk, which nobody has. *)
Definition leaves_heap (res : outcome exn (S * option S2ClientError)) (cs : list loc)
    (frame h : heap) : Prop :=
  match res with
  | Done _ => chunks_at cs frame h
  | Throw _ => exists lost, chunks_at (cs ++ [lost]) frame h
  | _ => True
  end.

Lemma Read_loop_heap_spec fuel : forall chunkId size partition schema s h,
  let '(cs, res, h') := Read_loop_heap fuel chunkId size partition schema s h in
  Read_loop malloc m_stop_reading fuel chunkId size partition schema s = (fst <$> cs, res)
  /\ leaves_heap res (snd <$> cs) h h'.
Proof using Type.
  induction fuel as [|fuel IH]; intros chunkId size partition schema s h; [done|].
  cbn [Read_loop_heap Read_loop].
  destruct (m_stop_reading chunkId || negb (HasNextRow s)); [split; [done|constructor]|].
  destruct (malloc chunkId) as [ptr|]; [|split; [done|constructor]].
  destruct (new_chunk ptr h) as [c h1] eqn:Ec. pose proof (new_chunk_at _ _ _ _ Ec) as Hc.
  destruct (NextChunk _ _ schema s) as [[chunk s1]|e|w|w]; [|split; [done|by exists c]|done|done].
  destruct (row_count chunk =? 0).
  { apply new_chunk_spec in Ec as (p & Hp & Hn & Hat & Eh).
    rewrite (discard_chunk_spec _ _ _ _ Hat). split; [done|]. cbn.
    rewrite Eh, delete_new_chunk by (done || by destruct Hat). constructor. }
  destruct (2 ^ 31 <=? chunkId + 1); [done|].
  specialize (IH (chunkId + 1) size partition schema s1 h1).
  destruct (Read_loop_heap fuel (chunkId + 1) size partition schema s1 h1) as [[cs res] h2].
  destruct IH as [-> Hh]. split; [done|]. destruct res as [a|e|w|w]; cbn in *; [| |done|done].
  - rewrite Permutation_cons_append. by eapply chunks_at_app.
  - destruct Hh as (lost & Hh). exists lost. rewrite Permutation_cons_append.
    by eapply chunks_at_app.
Qed.

(** C11. A reading thread accounts for its memory.  With the heap beside it, the
    loop pushes the same chunks and ends in the same way; and when all pushed
    chunks have been released, in whatever order they leave the queue, each
    taken by the caller or freed by the destructor, the heap is what it was
    before the thread started, unless an exception has ended the loop: then the
    chunk that was being filled is still there, and nobody frees it. *)
Theorem Read_loop_memory fuel chunkId size partition schema s h cs res h' released :
  Read_loop_heap fuel chunkId size partition schema s h = (cs, res, h') ->
  fst <$> released ≡ₚ snd <$> cs ->
  Read_loop malloc m_stop_reading fuel chunkId size partition schema s = (fst <$> cs, res)
  /\ (is_done res = true -> release_all released h' = Done h)
  /\ (forall e, res = Throw e -> exists lost ptr buffer h2,
        release_all released h' = Done h2 /\ chunk_at lost ptr buffer h2
        /\ without_chunk lost ptr h2 = h).
Proof using Type.
  intros E Hrel. pose proof (Read_loop_heap_spec fuel chunkId size partition schema s h) as Hs.
  rewrite E in Hs. destruct Hs as [-> Hh]. split; [done|]. split.
  - intros Hd. destruct res as [a| | |]; try done. apply release_all_spec. by rewrite Hrel.
  - intros e ->. destruct Hh as (lost & Hh). cbn [leaves_heap] in Hh. rewrite <- Hrel in Hh.
    assert (exists h2, chunks_at (fst <$> released) h2 h' /\ chunks_at [lost] h h2) as (h2 & H1 & H2).
    { clear -Hh. revert h' Hh. induction (fst <$> released) as [|c l IH]; intros h' Hh.
      - exists h'. split; [constructor|done].
      - inversion Hh as [|? ? ptr buffer ? ? Hat Hcs]; subst.
        destruct (IH _ Hcs) as (h2 & H1 & H2). exists h2. split; [by econstructor|done]. }
    inversion H2 as [|? ? ptr buffer ? ? Hat Hcs]; subst. inversion Hcs; subst.
    exists lost, ptr, buffer, h2. split; [by apply release_all_spec|done].
Qed.
End reading.

(** ** Two chunks, read to the end and up to a failure *)
#[local] Existing Instance release_build.
#[local] Existing Instance list_row_source.

Abbreviation demo_loop e :=
  (Read_loop_heap demo_malloc (fun _ => false) 3 0 40 3 demo_schema (demo_rows, e) ∅).
Definition demo_failure : exn := S2Exn (mkS2ClientError 2013 "lost connection").

Lemma demo_loop_done :
  exists cs res h', demo_loop None = (cs, res, h') /\ length cs = 2%nat /\ is_done res = true.
Proof. do 3 eexists. split; [vm_compute; reflexivity|]. by vm_compute. Qed.

Lemma demo_loop_fails :
  exists cs h', demo_loop (Some demo_failure) = (cs, Throw demo_failure, h') /\ length cs = 1%nat.
Proof. do 2 eexists. split; [vm_compute; reflexivity|]. by vm_compute. Qed.

(** The first chunk is taken, the second one is left for the destructor; or the
    failure comes while the second one is filled. *)
Lemma Read_loop_memory_witness :
  (exists cs res h', demo_loop None = (cs, res, h')
     /\ release_all (zip (snd <$> cs) [Taken; Left]) h' = Done ∅)
  /\ exists cs h', demo_loop (Some demo_failure) = (cs, Throw demo_failure, h')
     /\ exists lost ptr buffer h2, release_all (zip (snd <$> cs) [Taken]) h' = Done h2
          /\ chunk_at lost ptr buffer h2.
Proof.
  split.
  - destruct demo_loop_done as (cs & res & h' & E & Hl & Hd). exists cs, res, h'. split; [exact E|].
    apply (Read_loop_memory _ _ _ _ _ _ _ _ _ _ _ _ _ E); [|exact Hd].
    destruct cs as [|a [|b [|]]]; done.
  - destruct demo_loop_fails as (cs & h' & E & Hl). exists cs, h'. split; [exact E|].
    destruct (Read_loop_memory _ _ _ _ _ _ _ _ _ _ _ _ (zip (snd <$> cs) [Taken]) E)
      as (_ & _ & Hlost).
    { destruct cs as [|a [|]]; done. }
    destruct (Hlost _ eq_refl) as (lost & ptr & buffer & h2 & E2 & Hat & _).
    exists lost, ptr, buffer, h2. split; [exact E2|exact Hat].
Defined.
