(* ===== verification/Connection.v ===== *)
(** The class [S2Connection] of [s2_connection.hpp] and [s2_connection.cpp]:
    the queries about the cluster, the fetching of rows by the binary and the
    text protocol, reads of single rows, and the loading of data.

    MariaDB's client library is the interface [MysqlClient]; one state stands
    for the connection, its statement and the server behind them.  The library
    returns a list for a stored result and the contents of the bound buffers
    for a fetched row. *)

From Stdlib Require Import Ascii String.
From stdpp Require Import base list strings numbers tactics.
From stdpp Require Import options.
From S2P Require Import Prelude Schema Text Calendar SuperChunk ChunkWriter ChunkReader ChunkFormat.
From S2P Require Import ChunkRoundTrip TsvWriter AvroWriter BatchQueue Utils Explain Sql TableReader.

(** ** The client library *)

(** What [mysql_stmt_fetch] leaves for a bound column: [is_null], the length
    of the value on the server, the bytes of the bound buffer. *)
Record bound_column := mkBound { is_null : bool; value_length : Z; buffer : bytes }.

Class MysqlClient (M : Type) := {
  mysql_init : option M;
  (** SSL with the given CA, or no SSL. *)
  mysql_ssl : option string -> M -> M;
  (** Host, user, password, database, port; whether it failed. *)
  mysql_real_connect : string -> string -> string -> string -> Z -> M -> bool * M;
  mysql_errno : M -> Z;
  mysql_error : M -> string;
  mysql_stmt_errno : M -> Z;
  mysql_stmt_error : M -> string;
  (** A query, and whether it failed. *)
  mysql_query : string -> M -> bool * M;
  mysql_store_result : M -> option (list (list (option string)));
  mysql_affected_rows : M -> Z;
  (** The fields of a result that is fetched row by row. *)
  mysql_use_result : M -> option (list MYSQL_FIELD);
  mysql_fetch_row : M -> option (list (option bytes)) * M;
  mysql_stmt_init : M -> bool * M;               (* whether there is a statement *)
  mysql_stmt_prepare : string -> M -> bool * M;  (* whether it failed *)
  mysql_stmt_execute : M -> bool * M;
  mysql_stmt_field_count : M -> nat;
  (** The columns in the metadata of the statement's result. *)
  mysql_stmt_fields : M -> option (list MYSQL_FIELD);
  (** The array of the columns of a result, with an element for each; NULL as
      [None]. *)
  mysql_fetch_fields : list MYSQL_FIELD -> M -> option (list MYSQL_FIELD);
  mysql_stmt_bind_result : M -> bool * M;
  (** The status, and the bound columns of the given buffer lengths. *)
  mysql_stmt_fetch : list Z -> M -> Z * list bound_column * M;
  (** Column [i] into a buffer of the given length; whether it failed. *)
  mysql_stmt_fetch_column : nat -> Z -> M -> bool * bytes * M;
  mysql_stmt_close : M -> M;
  mysql_close : M -> M;
  (** [None]: an error; whether LOAD DATA LOCAL is enabled. *)
  mysql_get_local_infile : M -> option bool;
  (** A LOAD DATA LOCAL statement that takes its data from the callbacks over
      a text or over an AVRO buffer. *)
  mysql_load_text : string -> string -> M -> bool * M;
  mysql_load_avro : string -> AvroBuffer -> M -> bool * M
}.

Definition MYSQL_NO_DATA : Z := 100.
Definition MYSQL_DATA_TRUNCATED : Z := 101.

Section connection.
Context `{Build} {M : Type} `{!MysqlClient M}.

(** What the connection was made with; the members keep the pointers that
    [Connect] got, a NULL pointer is [None]. *)
Record connect_args := mkArgs {
  m_host : string;
  m_port : Z;                (* uint32_t *)
  m_db : string;
  m_user : option string;
  m_password : string;
  m_ssl_ca : option string
}.

(** [m_stmt]: whether the pointer is set; [m_res]: the fields of the result
    of the text protocol; [m_args]: the constant members. *)
Record S2Connection := mkConnection {
  mysql : M;
  m_stmt : bool;
  m_res : option (list MYSQL_FIELD);
  m_use_binary_protocol : bool;
  m_last_fetched_row : option (list (option bytes) * list Z);
  m_need_stmt_close : bool;
  m_args : connect_args
}.

Definition set_mysql (m : M) (c : S2Connection) : S2Connection :=
  mkConnection m (m_stmt c) (m_res c) (m_use_binary_protocol c) (m_last_fetched_row c)
    (m_need_stmt_close c) (m_args c).
Definition set_fetched (r : option (list (option bytes) * list Z)) (c : S2Connection)
    : S2Connection :=
  mkConnection (mysql c) (m_stmt c) (m_res c) (m_use_binary_protocol c) r
    (m_need_stmt_close c) (m_args c).
Definition set_stmt (b : bool) (m : M) (c : S2Connection) : S2Connection :=
  mkConnection m b (m_res c) (m_use_binary_protocol c) (m_last_fetched_row c)
    (m_need_stmt_close c) (m_args c).
Definition set_protocol (binary : bool) (c : S2Connection) : S2Connection :=
  mkConnection (mysql c) (m_stmt c) (m_res c) binary (m_last_fetched_row c)
    (m_need_stmt_close c) (m_args c).
Definition set_res (r : option (list MYSQL_FIELD)) (m : M) (c : S2Connection) : S2Connection :=
  mkConnection m (m_stmt c) r (m_use_binary_protocol c) (m_last_fetched_row c)
    (m_need_stmt_close c) (m_args c).
Definition DiscardStmtClose (c : S2Connection) : S2Connection :=
  mkConnection (mysql c) (m_stmt c) (m_res c) (m_use_binary_protocol c)
    (m_last_fetched_row c) false (m_args c).

Definition throw_mysql {A} (m : M) : outcome exn A :=
  s2_throw (mysql_errno m) (mysql_error m).
Definition throw_stmt {A} (m : M) : outcome exn A :=
  s2_throw (mysql_stmt_errno m) (mysql_stmt_error m).

Definition FreeLastFetched (c : S2Connection) : S2Connection := set_fetched None c.

Definition CleanupStatement (needFreeResult : bool) (c : S2Connection) : S2Connection :=
  let c := set_stmt false (mysql_stmt_close (mysql c)) c in
  if needFreeResult then FreeLastFetched c else c.

(** The destructor, with the order of the calls that close the statement and
    the connection; [m_conn] is never NULL in a connection that exists. *)
Definition destroy (c : S2Connection) : S2Connection :=
  let c := FreeLastFetched c in
  let c := if m_stmt c && m_need_stmt_close c then CleanupStatement false c else c in
  let c := set_mysql (mysql_close (mysql c)) c in
  if m_stmt c then CleanupStatement false c else c.

(** ** Connecting *)

(** The overload with single arguments; a NULL [user] is [None]. *)
Definition ConnectTo (host : string) (port : Z) (db : string) (user : option string)
    (password : string) (ssl_ca : option string) : outcome exn S2Connection :=
  match mysql_init with
  | None =>
      s2_throw S2C_ERROR_UNKNOWN_FAILURE "Failed to init a connection using MySQL C client"
  | Some m =>
      let ca := match ssl_ca with Some EmptyString => None | ca => ca end in
      let '(failed, m) :=
        mysql_real_connect host (default "root"%string user) password db port
          (mysql_ssl ca m) in
      if failed : bool then throw_mysql m
      else
        let '(ok, m) := mysql_stmt_init m in
        if negb ok then throw_mysql m
        else Done (mkConnection m true None true None true
                (mkArgs host port db user password ssl_ca))
  end.

Definition Connect (creds : Credentials) : outcome exn S2Connection :=
  ConnectTo (host creds) (port creds) (db creds) (Some (user creds)) (password creds)
    (ssl_ca creds).

(** A NULL connection is [None]; the error that is left in [err]. *)
Definition ConnectWithRetryMA (creds masterCreds : Credentials) (err : S2ClientError)
    : outcome exn (option S2Connection * S2ClientError) :=
  match Connect creds with
  | Done c => Done (Some c, err)
  | Throw (S2Exn _) =>
      match Connect masterCreds with
      | Done c => Done (Some c, err)
      | Throw (S2Exn e) => Done (None, e)
      | Throw e => Throw e
      | AssertFail what => AssertFail what
      | Undef what => Undef what
      end
  | Throw e => Throw e
  | AssertFail what => AssertFail what
  | Undef what => Undef what
  end.

(** ** The cluster *)

(** A query whose result is stored; [on_null]: what is thrown without one. *)
Definition stored_query (query : string) (on_null : M -> S2ClientError)
    (c : S2Connection) : outcome exn (list (list (option string)) * S2Connection) :=
  let '(failed, m) := mysql_query query (mysql c) in
  if failed : bool then throw_mysql m
  else
    match mysql_store_result m with
    | None => Throw (S2Exn (on_null m))
    | Some rows => Done (rows, set_mysql m c)
    end.

Definition mysql_failure (m : M) : S2ClientError :=
  mkS2ClientError (mysql_errno m) (mysql_error m).

(** [row[i]]. *)
Definition cell (row : list (option string)) (i : nat) : outcome exn (option string) :=
  match row !! i with Some v => Done v | None => Undef "row[i] out of bounds" end.

Fixpoint CountMasters (rows : list (list (option string))) (numPartitions : Z)
    : outcome exn Z :=
  match rows with
  | [] => Done numPartitions
  | row :: rows =>
      role ← cell row 3;
      match role with
      | None =>
          s2_throw S2C_ERROR_UNKNOWN_FAILURE
            "Failed to get SHOW PARTITIONS result: database returned invalid data"
      | Some r =>
          CountMasters rows
            (if decide (smap tolower r = "master"%string) then numPartitions + 1
             else numPartitions)
      end
  end.

Definition GetPartitionsNumber (c : S2Connection) : outcome exn (Z * S2Connection) :=
  '((rows, c) : list (list (option string)) * S2Connection)
    ← stored_query "SHOW PARTITIONS" mysql_failure c;
  n ← CountMasters rows 0; Done (n, c).

Definition GetServerVersion (c : S2Connection) : outcome exn (string * S2Connection) :=
  '((rows, c) : list (list (option string)) * S2Connection)
    ← stored_query "SELECT @@memsql_version" mysql_failure c;
  let no_data :=
    s2_throw S2C_ERROR_UNKNOWN_FAILURE
      "Failed to get SELECT @@memsql_version result: database returned no data" in
  match rows with
  | [] => no_data
  | row :: _ =>
      v ← cell row 0;
      match v with None => no_data | Some v => Done (v, c) end
  end.

(** [atoi]: 0 without digits; overflow is undefined. *)
Definition atoi (s : string) : outcome exn Z :=
  match read_int s with
  | None => Done 0
  | Some (n, _) =>
      if (- 2 ^ 31 <=? n) && (n <? 2 ^ 31) then Done n else Undef "atoi overflows"
  end.

Definition number_cell (v : option string) : outcome exn Z :=
  match v with Some s => atoi s | None => Done 0 end.

Fixpoint AggregatorRows (rows : list (list (option string)))
    : outcome exn (list AggregatorNode) :=
  match rows with
  | [] => Done []
  | row :: rows =>
      h ← cell row 1; p ← cell row 2; eh ← cell row 3; ep ← cell row 4;
      p ← number_cell p; ep ← number_cell ep;
      rest ← AggregatorRows rows;
      Done (mkAggregatorNode (default ""%string h) p (default ""%string eh) ep :: rest)
  end.

Definition GetAggregators (c : S2Connection)
    : outcome exn (list AggregatorNode * S2Connection) :=
  '((rows, c) : list (list (option string)) * S2Connection)
    ← stored_query MakeGetAggregatorsQuery
        (fun _ => mkS2ClientError S2C_ERROR_UNKNOWN_FAILURE
           "Failed to get the list of aggregators from information_schema.mv_nodes") c;
  l ← AggregatorRows rows; Done (l, c).

Definition ExecuteDDL (query : string) (c : S2Connection) : outcome exn (Z * S2Connection) :=
  let '(failed, m) := mysql_query query (mysql c) in
  if failed : bool then throw_mysql m
  else Done (s64 (mysql_affected_rows m), set_mysql m c).

(** ** The next row, binary protocol *)
(** The length of the buffer bound for a column, and whether its value is
    fetched again with its own length; 14 and 18 are [MYSQL_TYPE_NEWDATE] and
    [MYSQL_TYPE_DATETIME2]. *)
Definition bound_length (t : enum_field_types) : Z * bool :=
  match t with
  | MYSQL_TYPE_LONG => (4, false)
  | MYSQL_TYPE_LONGLONG | MYSQL_TYPE_DOUBLE => (8, false)
  | MYSQL_TYPE_STRING | MYSQL_TYPE_VAR_STRING | MYSQL_TYPE_LONG_BLOB
  | MYSQL_TYPE_MEDIUM_BLOB | MYSQL_TYPE_BLOB | MYSQL_TYPE_TINY_BLOB => (8, true)
  | MYSQL_TYPE_DATETIME | MYSQL_TYPE_DATE | MYSQL_TYPE_TIME => (sizeof_MYSQL_TIME, false)
  | MYSQL_TYPE_OTHER code =>
      if (code =? 14) || (code =? 18) then (sizeof_MYSQL_TIME, false) else (8, true)
  end.

(** The loop that fetches the actual fields, from column [i] on. *)
Fixpoint FetchColumns (i : nat) (fields : list MYSQL_FIELD) (bound : list bound_column)
    (m : M) : outcome exn (list (option bytes) * list Z * M) :=
  match fields, bound with
  | [], _ => Done ([], [], m)
  | f :: fields, b :: bound =>
      '((value, length, m) : option bytes * Z * M) ←
        (if is_null b then Done (None, 0, m)
         else if negb (snd (bound_length (fld_type f)))
         then Done (Some (buffer b), value_length b, m)
         else
           let '(failed, value, m) := mysql_stmt_fetch_column i (value_length b) m in
           if failed : bool then throw_stmt m
           else Done (Some value, value_length b, m));
      '((values, lengths, m) : list (option bytes) * list Z * M) ←
        FetchColumns (S i) fields bound m;
      Done (value :: values, length :: lengths, m)
  | _ :: _, [] => Undef "column without a bound buffer"
  end.

(** The error paths before there is a row: [FreeLastFetched] goes over the
    columns that are counted already. *)
Definition no_row (columns : nat) (what : string) : outcome exn (bool * S2Connection) :=
  if (0 <? columns)%nat then Undef "m_last_fetched_row[i] of a null array"
  else s2_throw S2C_ERROR_UNKNOWN_FAILURE what.

Definition AdvanceBinary (c : S2Connection) : outcome exn (bool * S2Connection) :=
  let c := FreeLastFetched c in
  if negb (m_stmt c) then Undef "statement functions on a null statement"
  else
    let columns := mysql_stmt_field_count (mysql c) in
    match (metadata ← mysql_stmt_fields (mysql c);
           Some (mysql_fetch_fields metadata (mysql c))) with
    | None => no_row columns "Failed to get binary result set metadata"
    | Some None => no_row columns "Failed to get binary result set fields"
    | Some (Some fields) =>
        let '(failed, m) := mysql_stmt_bind_result (mysql c) in
        if failed : bool then throw_stmt m
        else
          let '(status, bound, m) :=
            mysql_stmt_fetch (map (fun f => fst (bound_length (fld_type f))) fields) m in
          if status =? MYSQL_NO_DATA then
            Done (false, CleanupStatement true (set_mysql m c))
          else if negb (status =? MYSQL_DATA_TRUNCATED) && negb (status =? 0) then
            if negb (mysql_stmt_errno m =? 0) then throw_stmt m else throw_mysql m
          else
            '((values, lengths, m) : list (option bytes) * list Z * M)
              ← FetchColumns 0 fields bound m;
            Done (true, set_fetched (Some (values, lengths)) (set_mysql m c))
    end.

(** ** The next row, text protocol

    [scan_double]: the conversion [%lf] of [sscanf], to the bits of a double;
    [uninit]: the content of an array element that is not set. *)
Context (scan_double : string -> option Z) (uninit : Z).

(** A text converted in place: [None] leaves the buffer as it was made. *)
Definition scan_int (w : Z) (text : string) : outcome exn bytes :=
  match read_int text with
  | Some (n, _) =>
      if (- 2 ^ (8 * w - 1) <=? n) && (n <? 2 ^ (8 * w - 1))
      then Done (le_encode (Z.to_nat w) n)
      else Undef "the number overflows"
  | None => Undef "the buffer is not initialised"
  end.

Definition TextValue (f : MYSQL_FIELD) (value : bytes) : outcome exn (option bytes * Z) :=
  let text := String.string_of_list_ascii value in
  match fld_type f with
  | MYSQL_TYPE_STRING | MYSQL_TYPE_VAR_STRING | MYSQL_TYPE_LONG_BLOB
  | MYSQL_TYPE_MEDIUM_BLOB | MYSQL_TYPE_BLOB | MYSQL_TYPE_TINY_BLOB =>
      Done (Some value, Z.of_nat (length value))
  | MYSQL_TYPE_LONG => b ← scan_int 4 text; Done (Some b, 4)
  | MYSQL_TYPE_LONGLONG => b ← scan_int 8 text; Done (Some b, 8)
  | MYSQL_TYPE_DOUBLE =>
      match scan_double text with
      | Some d => Done (Some (le_encode 8 d), 8)
      | None => Undef "the buffer is not initialised"
      end
  | MYSQL_TYPE_DATETIME | MYSQL_TYPE_DATE | MYSQL_TYPE_TIME => Done (None, uninit)
  | MYSQL_TYPE_OTHER code =>
      if (code =? 14) || (code =? 18) then Done (None, uninit)
      else _ ← c_assert false "false"; Done (None, uninit)
  end.

Fixpoint TextColumns (fields : list MYSQL_FIELD) (row : list (option bytes))
    : outcome exn (list (option bytes) * list Z) :=
  match fields, row with
  | [], _ => Done ([], [])
  | f :: fields, v :: row =>
      '((value, length) : option bytes * Z) ←
        match v with None => Done (None, 0) | Some v => TextValue f v end;
      '((values, lengths) : list (option bytes) * list Z) ← TextColumns fields row;
      Done (value :: values, length :: lengths)
  | _ :: _, [] => Undef "row[i] out of bounds"
  end.

Definition AdvanceText (c : S2Connection) : outcome exn (bool * S2Connection) :=
  let c := FreeLastFetched c in
  match m_res c with
  | None => Undef "result functions on a null result"
  | Some res =>
      match mysql_fetch_fields res (mysql c) with
      | None => no_row (length res) "Failed to get text result set fields"
      | Some fields =>
          let '(row, m) := mysql_fetch_row (mysql c) in
          match row with
          | None =>
              if negb (mysql_errno m =? 0) then throw_mysql m
              else Done (false, FreeLastFetched (set_mysql m c))
          | Some row =>
              '((values, lengths) : list (option bytes) * list Z) ← TextColumns fields row;
              Done (true, set_fetched (Some (values, lengths)) (set_mysql m c))
          end
      end
  end.

Definition Advance (c : S2Connection) : outcome exn (bool * S2Connection) :=
  if m_use_binary_protocol c then AdvanceBinary c else AdvanceText c.

(** ** Queries *)

(** The result says whether there is a result set.  [prefetch] is ignored. *)
Definition Execute (query : string) (prefetch : bool) (c : S2Connection)
    : outcome exn (bool * S2Connection) :=
  let c := set_protocol false c in
  let '(failed, m) := mysql_query query (mysql c) in
  if failed : bool then throw_mysql m
  else
    match mysql_use_result m with
    | None => throw_mysql m
    | Some fields =>
        let c := set_res (Some fields) m c in
        match fields with
        | [] => Done (false, c)
        | _ => '((_, c) : bool * S2Connection) ← Advance c; Done (true, c)
        end
    end.

Definition stmt_has_fields (m : M) : bool := negb (mysql_stmt_field_count m =? 0)%nat.

Definition Prepare (query : string) (execute prefetch : bool) (c : S2Connection)
    : outcome exn (bool * S2Connection) :=
  let c := set_protocol true (CleanupStatement true c) in
  let '(ok, m) := mysql_stmt_init (mysql c) in
  if negb ok then throw_mysql m
  else
    let '(failed, m) := mysql_stmt_prepare query m in
    if failed : bool then throw_stmt m
    else
      let c := set_stmt true m c in
      if execute then
        let '(failed, m) := mysql_stmt_execute m in
        if failed : bool then throw_stmt m
        else
          let c := set_mysql m c in
          if stmt_has_fields m then
            if prefetch then '((_, c) : bool * S2Connection) ← Advance c; Done (true, c)
            else Done (true, c)
          else Done (false, c)
      else Done (false, c).

(** A column as [memset] leaves it. *)
Definition zero_column : Column := mkColumn Int64 0 "".

Definition GetRowSchema (useOriginalName : bool) (c : S2Connection) : outcome exn RowSchema :=
  res ← (if m_use_binary_protocol c then
           if negb (m_stmt c) then Undef "statement functions on a null statement"
           else match mysql_stmt_fields (mysql c) with
                | None => throw_stmt (mysql c)
                | Some res => Done res
                end
         else match m_res c with
              | None => Undef "result functions on a null result"
              | Some res => Done res
              end);
  fields ← match mysql_fetch_fields res (mysql c), res with
           | Some fields, _ => Done fields
           | None, [] => Done []
           | None, _ => Undef "fields[i] of a null array"
           end;
  cols ← FieldsToRowSchema useOriginalName fields (replicate (length fields) zero_column);
  Done (mkRowSchema cols).

(** The interface of [TableReader.v]. *)
#[local] Instance connection_rows : RowSource S2Connection := {
  TableReader.m_last_fetched := m_last_fetched_row;
  TableReader.Advance c := '((_, c) : bool * S2Connection) ← Advance c; Done c;
  TableReader.Prepare q execute prefetch c :=
    '((_, c) : bool * S2Connection) ← Prepare q execute prefetch c; Done c;
  TableReader.Execute q prefetch c :=
    '((_, c) : bool * S2Connection) ← Execute q prefetch c; Done c
}.
#[local] Existing Instance connection_rows.

(** ** Rows by key *)

(** What a read from the original table adds to the query. *)
Definition query_param (readType : ParallelReadType) (selectQuery : string) : string :=
  if decide (readType = ReadTypeOriginalTable) then selectQuery else "".

(** The chunk is the caller's; the writer is set on it before the query. *)
Definition GetMultipleRows (fuel : nat) (chunk : Chunk) (schema : RowSchema)
    (resultTable selectQuery keyColumnName : string) (partitionId : Z) (rowIds : list Z)
    (rowIdsNum : Z) (readType : ParallelReadType) (c : S2Connection) : outcome exn (Chunk * S2Connection) :=
  let query := MakeRowIdFilterQuery resultTable (query_param readType selectQuery)
    keyColumnName (s32 partitionId) rowIds rowIdsNum in
  '((result, c) : bool * S2Connection) ← Prepare query true true c;
  if negb (result : bool) || negb (HasNextRow c) then
    s2_throw S2C_ERROR_INV_ARG
      ("Failed to get the row with " +:+ to_string rowIdsNum
       +:+ " rows from table " +:+ resultTable)
  else NextChunk fuel chunk schema c.

(** [malloc]: the buffer of the given size, NULL as [None]. *)
Definition GetSingleRow (malloc : Z -> option bytes) (schema : RowSchema)
    (resultTable selectQuery keyColumnName : string) (partitionId partitionRowId : Z)
    (readType : ParallelReadType) (serverVersion : string) (c : S2Connection)
    : outcome exn (Chunk * S2Connection) :=
  query ← MakePointInTimeQuery resultTable (query_param readType selectQuery) keyColumnName
    (s32 partitionId) partitionRowId
    (bool_decide (readType = ReadTypeResultTable)) serverVersion;
  '((result, c) : bool * S2Connection) ← Prepare query true true c;
  match (if result : bool then m_last_fetched_row c else None) with
  | None =>
      s2_throw S2C_ERROR_INV_ARG
        ("Failed to get the row with id " +:+ to_string partitionRowId
         +:+ " from table " +:+ resultTable)
  | Some (row, lengths) =>
      chunkSize ← rowSize schema lengths;
      match malloc chunkSize with
      | None =>
          s2_throw S2C_ERROR_MEMORY_ALLOCATION
            ("GetSingleRow cannot allocate chunk size: " +:+ to_string chunkSize)
      | Some ptr =>
          let chunk := NewChunk ptr chunkSize 0 partitionId in
          '((_, writer) : bool * SuperChunkWriter)
            ← WriteRow row lengths (Reset chunk schema);
          Done (m_chunk (m_current_chunk writer), CleanupStatement true c)
      end
  end.

(** ** How a query can be read in parallel *)

(** [strncmp (s, p, strlen (p)) == 0]. *)
Definition starts_with (p s : string) : bool := String.prefix p s.

(** [strncmp (s, t, n) == 0] for a [s] of [n] characters. *)
Definition same_prefix (s t : string) : bool := String.prefix s t.

(** The names go to a set and to a vector; the set is kept as a list here. *)
Fixpoint KeyRows (rows : list (list (option string))) (keys : TableKeys)
    : outcome exn TableKeys :=
  match rows with
  | [] => Done keys
  | row :: rows =>
      name ← cell row 1; index_type ← cell row 2;
      match name, index_type with
      | Some name, Some index_type =>
          KeyRows rows
            (if same_prefix index_type "CLUSTERED COLUMNSTORE"
             then mkTableKeys (shard_key keys) (sort_key keys ++ [name])
             else mkTableKeys (shard_key keys ++ [name]) (sort_key keys))
      | _, _ => Undef "a key without a name or a type"
      end
  end.

Definition GetTableKeys (sourceTable : string) (c : S2Connection)
    : outcome exn (TableKeys * S2Connection) :=
  let query := MakeGetTableKeysQuery (m_db (m_args c)) sourceTable in
  '((rows, c) : list (list (option string)) * S2Connection)
    ← stored_query query
        (fun _ => mkS2ClientError S2C_ERROR_UNKNOWN_FAILURE
           ("GetTableKeys failed to get the result of the query: " +:+ query)) c;
  keys ← KeyRows rows (mkTableKeys [] []); Done (keys, c).

(** [substr (0, find (c))]: all of [s] without a blank. *)
Fixpoint first_word (s : string) : string :=
  match s with
  | EmptyString => EmptyString
  | String c s => if decide (c = " "%char) then EmptyString else String c (first_word s)
  end.

Definition scan_operation (op : string) : bool :=
  bool_decide (op = "ColumnStoreScan"%string)
  || bool_decide (op = "OrderedColumnStoreScan"%string)
  || bool_decide (op = "ColumnStoreFilter"%string).

(** The rows of the plan; the result is false at the first other operation
    below the ResultTable row. *)
Fixpoint PlanRows (checkOperation : bool) (rows : list (list (option string)))
    : outcome exn bool :=
  match rows with
  | [] => Done true
  | row :: rows =>
      v ← cell row 0;
      match v with
      | None => Undef "a row of the plan is NULL"
      | Some explainRow =>
          if checkOperation && negb (scan_operation (first_word explainRow))
          then Done false
          else PlanRows (checkOperation || starts_with "ResultTable" explainRow) rows
      end
  end.

Definition CheckExplainOperations (selectQuery : string) (c : S2Connection)
    : outcome exn (bool * S2Connection) :=
  let query := MakeExplainCreateResultTableQuery selectQuery "" in
  '((rows, c) : list (list (option string)) * S2Connection)
    ← stored_query query
        (fun _ => mkS2ClientError S2C_ERROR_UNKNOWN_FAILURE
           ("CheckExplainOperations failed to get the result of query: " +:+ query)) c;
  ok ← PlanRows false rows; Done (ok, c).

(** The first row of the plan about the result table, or, when there is none,
    the text of all the rows. *)
Fixpoint ResultTableRow (explainResultFull : string) (rows : list (list (option string)))
    : outcome exn (string + string) :=
  match rows with
  | [] => Done (inr explainResultFull)
  | row :: rows =>
      v ← cell row 0;
      match v with
      | None => Undef "a row of the plan is NULL"
      | Some explainRow =>
          if starts_with "ResultTable" explainRow then Done (inl explainRow)
          else ResultTableRow
                 (explainResultFull +:+ explainRow +:+ String "010" (String "009" "")) rows
      end
  end.

(** [junk]: the sizes in the new array of columns. *)
Definition ExplainRowSchema (selectQuery : string) (junk : Z) (c : S2Connection)
    : outcome exn (RowSchema * S2Connection) :=
  let query := MakeExplainCreateResultTableQuery selectQuery "EXTENDED" in
  '((rows, c) : list (list (option string)) * S2Connection)
    ← stored_query query
        (fun _ => mkS2ClientError S2C_ERROR_UNKNOWN_FAILURE
           ("ExplainRowSchema failed to get the result of query: " +:+ query)) c;
  found ← ResultTableRow "" rows;
  match found with
  | inr explainResultFull =>
      s2_throw S2C_ERROR_UNKNOWN_FAILURE
        ("Invalid EXPLAIN result from query: " +:+ query +:+ String "010"
         ("Result is:" +:+ String "010" (String "009" explainResultFull)))
  | inl explainResult =>
      schema ← ExplainToRowSchema explainResult junk;
      if (numColumns schema =? 0)%nat then
        s2_throw S2C_ERROR_UNKNOWN_FAILURE
          ("Unable to parse EXPLAIN result to get row schema: " +:+ explainResult)
      else Done (schema, c)
  end.

(** Whether the keys of the table let every partition be read in place. *)
Definition isColumnstoreScanOk (tableKeys : TableKeys)
    (partitionByCols partitionOrderByCols : list string) : bool :=
  (bool_decide (partitionByCols = [])
   || negb (bool_decide (shard_key tableKeys = []))
      && forallb (fun col => bool_decide (col ∈ partitionByCols)) (shard_key tableKeys))
  && (length partitionOrderByCols <=? length (sort_key tableKeys))%nat
  && forallb (fun '(key, col) => bool_decide (key = col))
       (zip (sort_key tableKeys) partitionOrderByCols).

Definition GetParallelReadType (selectQuery : string) (sourceTable : option string)
    (materialized : bool) (partitionByCols partitionOrderByCols : list string)
    (readType : ParallelReadType) (c : S2Connection)
    : outcome exn (ParallelReadType * S2Connection) :=
  let created := if materialized then ReadTypeColumnStoreTable else ReadTypeResultTable in
  if decide (readType <> ReadTypeUnknown) then Done (readType, c)
  else
    match sourceTable with
    | None => Done (created, c)
    | Some sourceTable =>
        '((tableKeys, c) : TableKeys * S2Connection) ← GetTableKeys sourceTable c;
        '((isSelectSimple, c) : bool * S2Connection) ← CheckExplainOperations selectQuery c;
        if isColumnstoreScanOk tableKeys partitionByCols partitionOrderByCols
           && isSelectSimple
        then Done (ReadTypeOriginalTable, c)
        else Done (created, c)
    end.

(** ** Writing *)
Definition infile_disabled : S2ClientError :=
  mkS2ClientError S2C_ERROR_BAD_CONNECTION
    "LOAD DATA INFILE LOCAL is disabled on the server side".

Context (json_dumps : json -> string).

Definition infile_enabled (c : S2Connection) : outcome exn unit :=
  match mysql_get_local_infile (mysql c) with
  | None => throw_mysql (mysql c)
  | Some false => Throw (S2Exn infile_disabled)
  | Some true => Done tt
  end.

(** [reader_error]: the error text the reader had; the result has the chunk as
    the reader leaves it. *)
Definition WriteChunk (reader_error : string) (chunk : Chunk) (schema : RowSchema)
    (table : string) (c : S2Connection) : outcome exn (Chunk * S2Connection) :=
  _ ← infile_enabled c;
  '((ok, reader, tsv) : bool * SuperChunkReader * string)
    ← ChunkToTSV (Reset_reader chunk schema reader_error) (row_count chunk) "";
  if negb (ok : bool) then s2_throw S2C_ERROR_BAD_CHUNK (r_error reader)
  else
    query ← MakeLoadDataQuery json_dumps table schema TSV true;
    let '(failed, m) := mysql_load_text query tsv (mysql c) in
    if failed : bool then throw_mysql m
    else Done (m_chunk (r_current_chunk reader), set_mysql m c).

Definition WriteAvro (sourceData : AvroBuffer) (schema : RowSchema) (table : string)
    (treatZeroLenAsNull : bool) (c : S2Connection) : outcome exn S2Connection :=
  _ ← infile_enabled c;
  query ← MakeLoadDataQuery json_dumps table schema AVRO treatZeroLenAsNull;
  let '(failed, m) := mysql_load_avro query sourceData (mysql c) in
  if failed : bool then throw_mysql m else Done (set_mysql m c).
End connection.
Arguments S2Connection M : clear implicits.

(** ** What the statement functions of the library promise

    [serves fields rows m]: the statement has been executed and its result
    still has [rows], whose values are in the representation of the bound
    buffers; [current fields row rows m]: [row] has just been fetched. *)
Definition fetched_length (v : option bytes) : Z :=
  match v with Some v => Z.of_nat (length v) | None => 0 end.

(** How a value is described by its bound column: a value that is not fetched
    again fills its buffer. *)
Definition bound_for (f : MYSQL_FIELD) (v : option bytes) (b : bound_column) : Prop :=
  match v with
  | None => is_null b = true
  | Some v =>
      is_null b = false /\ value_length b = Z.of_nat (length v)
      /\ (snd (bound_length (fld_type f)) = false -> buffer b = v)
  end.

Class StatementLaws (M : Type) `{!MysqlClient M} := {
  serves : list MYSQL_FIELD -> list (list (option bytes)) -> M -> Prop;
  current : list MYSQL_FIELD -> list (option bytes) -> list (list (option bytes)) -> M -> Prop;
  serves_fields fields rows m :
    serves fields rows m ->
    mysql_stmt_fields m = Some fields /\ mysql_stmt_field_count m = length fields
    /\ mysql_fetch_fields fields m = Some fields;
  serves_bind fields rows m :
    serves fields rows m ->
    exists m', mysql_stmt_bind_result m = (false, m') /\ serves fields rows m';
  serves_none fields lens m :
    serves fields [] m ->
    exists bound m', mysql_stmt_fetch lens m = (MYSQL_NO_DATA, bound, m');
  serves_row fields row rows m :
    serves fields (row :: rows) m ->
    exists status bound m',
      mysql_stmt_fetch (map (fun f => fst (bound_length (fld_type f))) fields) m =
        (status, bound, m')
      /\ (status = 0 \/ status = MYSQL_DATA_TRUNCATED)
      /\ Forall3 bound_for fields row bound /\ current fields row rows m';
  fetch_column fields row rows m i v :
    current fields row rows m -> row !! i = Some (Some v) ->
    exists m', mysql_stmt_fetch_column i (Z.of_nat (length v)) m = (false, v, m')
      /\ current fields row rows m';
  current_serves fields row rows m : current fields row rows m -> serves fields rows m
}.

Section binary_rows.
Context `{Build} {M : Type} `{!MysqlClient M, !StatementLaws M}.
Context (scan_double : string -> option Z) (uninit : Z).

#[local] Existing Instance connection_rows.

Lemma FetchColumns_spec all_fields row rows i fields vs bound m :
  Forall3 bound_for fields vs bound -> drop i row = vs ->
  current all_fields row rows m ->
  exists m', FetchColumns i fields bound m = Done (vs, map fetched_length vs, m')
    /\ current all_fields row rows m'.
Proof using Type.
  intros Hb. revert i m. induction Hb as [|f v b fields vs bound Hf Hb IH]; intros i m Hd Hc.
  { exists m. split; [done|done]. }
  assert (row !! i = Some v) as Hi.
  { rewrite <- (Nat.add_0_r i), <- lookup_drop, Hd. done. }
  assert (drop (S i) row = vs) as Hd'.
  { rewrite <- Nat.add_1_r, <- drop_drop, Hd. done. }
  assert (exists m1,
    (if is_null b then Done (None, 0, m)
     else if negb (snd (bound_length (fld_type f))) then Done (Some (buffer b), value_length b, m)
     else let '(failed, value, m) := mysql_stmt_fetch_column i (value_length b) m in
          if failed : bool then throw_stmt m else Done (Some value, value_length b, m)) =
    Done (v, fetched_length v, m1) /\ current all_fields row rows m1) as (m1 & E & Hc1).
  { destruct v as [v|]; cbn [bound_for] in Hf; [|rewrite Hf; by exists m].
    destruct Hf as (-> & El & Ebuf). rewrite El. destruct (snd _); cbn [negb].
    - destruct (fetch_column _ _ _ _ _ _ Hc Hi) as (m1 & -> & Hc1). by exists m1.
    - rewrite Ebuf by done. by exists m. }
  cbn [FetchColumns]. rewrite E, Done_bind. cbv beta iota zeta.
  destruct (IH (S i) m1 Hd' Hc1) as (m2 & -> & Hc2). exists m2. by rewrite Done_bind.
Qed.

(** A connection whose statement still has [rows]. *)
Definition statement_ready (fields : list MYSQL_FIELD) (rows : list (list (option bytes)))
    (c : S2Connection M) : Prop :=
  m_stmt c = true /\ m_use_binary_protocol c = true /\ serves fields rows (mysql c).

Definition with_lengths (row : list (option bytes)) : list (option bytes) * list Z :=
  (row, map fetched_length row).

Lemma AdvanceBinary_row fields row rows c :
  statement_ready fields (row :: rows) c ->
  exists c', AdvanceBinary c = Done (true, c')
    /\ m_last_fetched_row c' = Some (with_lengths row) /\ statement_ready fields rows c'.
Proof using Type.
  intros (Hs & Hp & Hm). unfold AdvanceBinary. cbn [m_stmt FreeLastFetched set_fetched mysql].
  rewrite Hs. cbn [negb]. destruct (serves_fields _ _ _ Hm) as (-> & _ & Hf). cbn [mbind option_bind]. rewrite Hf.
  destruct (serves_bind _ _ _ Hm) as (m1 & -> & Hm1). cbv iota.
  destruct (serves_row _ _ _ _ Hm1) as (st & bound & m2 & -> & Hst & Hb & Hc).
  assert ((st =? MYSQL_NO_DATA) = false) as -> by (unfold MYSQL_NO_DATA, MYSQL_DATA_TRUNCATED in *; lia).
  assert (negb (st =? MYSQL_DATA_TRUNCATED) && negb (st =? 0) = false) as ->
    by (unfold MYSQL_DATA_TRUNCATED in *; lia).
  destruct (FetchColumns_spec fields row rows 0 fields row bound m2 Hb) as (m3 & -> & Hc3);
    [by rewrite drop_0|done|].
  rewrite Done_bind. eexists. split; [done|]. split; [done|].
  split_and!; [done..|]. by apply current_serves in Hc3.
Qed.

(** The fetch has found no more rows and the statement is closed. *)
Definition statement_closed (fields : list MYSQL_FIELD) (c : S2Connection M) : Prop :=
  m_stmt c = false /\ m_last_fetched_row c = None
  /\ exists lens bound m m', serves fields [] m
       /\ mysql_stmt_fetch lens m = (MYSQL_NO_DATA, bound, m')
       /\ mysql c = mysql_stmt_close m'.

Lemma AdvanceBinary_end fields c :
  statement_ready fields [] c ->
  exists c', AdvanceBinary c = Done (false, c') /\ statement_closed fields c'.
Proof using Type.
  intros (Hs & Hp & Hm). unfold AdvanceBinary. cbn [m_stmt FreeLastFetched set_fetched mysql].
  rewrite Hs. cbn [negb].
  destruct (serves_fields _ _ _ Hm) as (-> & _ & Hf). cbn [mbind option_bind]. rewrite Hf.
  destruct (serves_bind _ _ _ Hm) as (m1 & -> & Hm1). cbv iota.
  set (lens := map (fun f => fst (bound_length (fld_type f))) fields).
  destruct (serves_none _ lens _ Hm1) as (bound & m2 & E). rewrite E.
  rewrite Z.eqb_refl. eexists. split; [done|]. split; [done|]. split; [done|].
  by exists lens, bound, m1, m2.
Qed.

(** The rows that are fetched one after the other, and the connection that is
    left when there are no more. *)
Inductive fetches : S2Connection M -> list (list (option bytes) * list Z) -> S2Connection M -> Prop :=
  | fetches_none c : m_last_fetched_row c = None -> fetches c [] c
  | fetches_row c row b c' rows c_end :
      m_last_fetched_row c = Some row -> Advance scan_double uninit c = Done (b, c') ->
      fetches c' rows c_end -> fetches c (row :: rows) c_end.

Lemma fetches_gives c rows c_end :
  fetches c rows c_end ->
  gives (RowSource0 := connection_rows scan_double uninit) c rows None.
Proof using Type.
  induction 1 as [c Hn|c row b c' rows c_end Hr Ha _ IH]; [by apply gives_end|].
  eapply gives_row; [exact Hr| |exact IH]. cbn. by rewrite Ha.
Qed.

Lemma ready_fetches fields rows c :
  statement_ready fields rows c ->
  exists b c' c_end, Advance scan_double uninit c = Done (b, c')
    /\ fetches c' (map with_lengths rows) c_end /\ statement_closed fields c_end.
Proof using Type.
  assert (forall rows c, statement_ready fields rows c ->
    Advance scan_double uninit c = AdvanceBinary c) as Hbin.
  { intros rows' c' (_ & Hp & _). unfold Advance. by rewrite Hp. }
  revert c. induction rows as [|row rows IH]; intros c Hc; rewrite (Hbin _ c Hc).
  - destruct (AdvanceBinary_end _ _ Hc) as (c' & -> & He).
    exists false, c', c'. split; [done|]. split; [|done]. by apply fetches_none, He.
  - destruct (AdvanceBinary_row _ _ _ _ Hc) as (c' & -> & Hr & Hc').
    destruct (IH c' Hc') as (b & c2 & c_end & E & Hf & He).
    exists true, c', c_end. split; [done|]. split; [|done]. by eapply fetches_row.
Qed.

(** What happens to a query that is prepared and executed on a connection: its
    result has these rows. *)
Definition answers (query : string) (fields : list MYSQL_FIELD)
    (rows : list (list (option bytes))) (m : M) : Prop :=
  exists m1 m2 m3, mysql_stmt_init (mysql_stmt_close m) = (true, m1)
    /\ mysql_stmt_prepare query m1 = (false, m2) /\ mysql_stmt_execute m2 = (false, m3)
    /\ serves fields rows m3 /\ fields <> [].

Lemma Prepare_fetches query c fields rows :
  answers query fields rows (mysql c) ->
  exists c' c_end, Prepare scan_double uninit query true true c = Done (true, c')
    /\ fetches c' (map with_lengths rows) c_end /\ statement_closed fields c_end.
Proof using Type.
  intros (m1 & m2 & m3 & Hi & Hp & He & Hs & Hne).
  unfold Prepare. cbn [mysql set_protocol CleanupStatement FreeLastFetched set_fetched set_stmt].
  rewrite Hi. cbn [negb]. rewrite Hp, He. unfold stmt_has_fields.
  rewrite (proj1 (proj2 (serves_fields _ _ _ Hs))). destruct fields as [|f fields]; [done|].
  edestruct (ready_fetches (f :: fields) rows) as (b & c' & c_end & -> & Hf); [|by exists c', c_end].
  by split_and!.
Qed.

Lemma Prepare_gives query c fields rows :
  answers query fields rows (mysql c) ->
  exists c', Prepare scan_double uninit query true true c = Done (true, c')
    /\ gives (RowSource0 := connection_rows scan_double uninit) c' (map with_lengths rows) None.
Proof using Type.
  intros Ha. destruct (Prepare_fetches query c fields rows Ha) as (c' & c_end & E & Hf & _).
  exists c'. split; [done|]. by eapply fetches_gives.
Qed.

(** C21. The binary protocol fetches the result as it is: once a statement has
    been executed, the connection gives the rows of its result one after the
    other, NULL as NULL, every value with its full length whatever the length
    of the buffer it was first bound to; the call that fetches after the last
    row finds no more, frees the row and closes the statement of the
    connection. *)
Theorem Prepare_gives_rows query c m1 m2 m3 fields rows :
  mysql_stmt_init (mysql_stmt_close (mysql c)) = (true, m1) ->
  mysql_stmt_prepare query m1 = (false, m2) -> mysql_stmt_execute m2 = (false, m3) ->
  serves fields rows m3 -> fields <> [] ->
  exists c' c_end, Prepare scan_double uninit query true true c = Done (true, c')
    /\ gives (RowSource0 := connection_rows scan_double uninit) c' (map with_lengths rows) None
    /\ fetches c' (map with_lengths rows) c_end /\ statement_closed fields c_end.
Proof using Type.
  intros Hi Hp He Hs Hne.
  destruct (Prepare_fetches query c fields rows) as (c' & c_end & E & Hf & Hc);
    [by exists m1, m2, m3|].
  exists c', c_end. split_and!; [done| |done|done]. by eapply fetches_gives.
Qed.
End binary_rows.

(** ** The text protocol *)
Definition is_date_type (t : enum_field_types) : bool :=
  match t with
  | MYSQL_TYPE_DATETIME | MYSQL_TYPE_DATE | MYSQL_TYPE_TIME => true
  | MYSQL_TYPE_OTHER code => (code =? 14) || (code =? 18)
  | _ => false
  end.

(** What the text protocol makes of a value: an integer in its binary form,
    a text as it is, every date or time NULL. *)
Definition text_value_ok (f : MYSQL_FIELD) (v : option bytes) (value : option bytes) : Prop :=
  match v with
  | None => value = None
  | Some v =>
      match fld_type f with
      | MYSQL_TYPE_LONG =>
          forall n, v = String.list_ascii_of_string (to_string n) -> value = Some (le_encode 4 n)
      | MYSQL_TYPE_LONGLONG =>
          forall n, v = String.list_ascii_of_string (to_string n) -> value = Some (le_encode 8 n)
      | MYSQL_TYPE_DOUBLE | MYSQL_TYPE_OTHER _ => True
      | MYSQL_TYPE_DATETIME | MYSQL_TYPE_DATE | MYSQL_TYPE_TIME => value = None
      | _ => value = Some v
      end
  end.

Section text_rows.
Context `{Build} {M : Type} `{!MysqlClient M}.
Context (scan_double : string -> option Z) (uninit : Z).

Lemma scan_int_to_string w n b :
  scan_int w (to_string n) = Done b -> b = le_encode (Z.to_nat w) n.
Proof using Type.
  unfold scan_int. rewrite <- (app_nil_r_s (to_string n)), read_int_to_string by done.
  case_match; [|done]. by intros [= <-].
Qed.

Lemma TextValue_ok f v value len :
  TextValue scan_double uninit f v = Done (value, len) -> text_value_ok f (Some v) value.
Proof using Type.
  unfold TextValue, text_value_ok. intros E.
  destruct (fld_type f); inv_done; try done;
    intros n ->; rewrite String.string_of_list_ascii_of_string in *;
    by match goal with E : scan_int _ _ = Done _ |- _ => apply scan_int_to_string in E as -> end.
Qed.

(** A row fetched by the text protocol has the server's integers and texts,
    but NULL for every DATE, TIME and DATETIME value, whatever its value. *)
Theorem AdvanceText_values c c' :
  AdvanceText scan_double uninit c = Done (true, c') ->
  exists res fields row m values lengths,
    m_res c = Some res /\ mysql_fetch_fields res (mysql c) = Some fields
    /\ mysql_fetch_row (mysql c) = (Some row, m)
    /\ m_last_fetched_row c' = Some (values, lengths)
    /\ length values = length fields
    /\ forall i f v value, fields !! i = Some f -> row !! i = Some v ->
         values !! i = Some value -> text_value_ok f v value.
Proof using Type.
  unfold AdvanceText. cbn [m_res FreeLastFetched set_fetched mysql]. intros E.
  destruct (m_res c) as [res|]; [|done].
  destruct (mysql_fetch_fields res (mysql c)) as [fields|] eqn:Ef; [|unfold no_row in E; by case_match].
  destruct (mysql_fetch_row (mysql c)) as [[row|] m]; [|by repeat case_match].
  apply bind_Done in E as ([values lengths] & E1 & E). injection E as <-.
  exists res, fields, row, m, values, lengths. do 4 (split; [done|]).
  clear -E1. revert row values lengths E1.
  induction fields as [|f fields IH]; intros row values lengths E.
  { injection E as <- <-. split; [done|]. by intros []. }
  destruct row as [|v row]; [done|]. cbn [TextColumns] in E.
  apply bind_Done in E as ([value len] & Ev & E).
  apply bind_Done in E as ([values1 lengths1] & Er & E). injection E as <- <-.
  destruct (IH _ _ _ Er) as [Hl Hi]. split; [cbn; lia|].
  intros [|i] f' v' value' Hf Hv Hval; cbn in Hf, Hv, Hval; [|by eapply Hi].
  simplify_eq. destruct v' as [v'|]; [by eapply TextValue_ok|]. by injection Ev as <-.
Qed.
End text_rows.

(** ** Reads by key *)
Section keyed_reads.
Context `{Build} {M : Type} `{!MysqlClient M}.
Context (scan_double : string -> option Z) (uninit : Z).

#[local] Existing Instance connection_rows.

(** A read of several rows puts as many of them into the caller's chunk as
    it takes, in the order of the answer, and the chunk holds exactly these, all
    of them when there is space for all; when the chunk is full the remaining
    rows are dropped and no error is reported. *)
Lemma GetMultipleRows_spec fuel ptr size cid p schema table select key partition ids num
    readType c c1 rows fss :
  Z.of_nat (length ptr) = size -> size < 2 ^ 62 ->
  Forall col_ok (ColumnInfo schema) -> ColumnInfo schema <> [] ->
  Prepare scan_double uninit
    (MakeRowIdFilterQuery table (query_param readType select) key (s32 partition) ids num)
    true true c = Done (true, c1) ->
  gives (RowSource0 := connection_rows scan_double uninit) c1 rows None -> rows <> [] ->
  Forall2 (row_fine schema size) rows fss ->
  (length rows < fuel)%nat -> Z.of_nat (length rows) < 2 ^ 62 ->
  exists chunk c' k,
    GetMultipleRows scan_double uninit fuel (NewChunk ptr size cid p) schema table select key
      partition ids num readType c = Done (chunk, c')
    /\ holds schema chunk (take k fss) /\ chunk_of p cid chunk /\ (0 < k <= length rows)%nat
    /\ (rows_need (ColumnInfo schema) rows <= size -> k = length rows).
Proof using Type.
  intros Hptr Hsz Hcols Hne Hp Hg Hrows Hfine Hfuel Hlen. unfold GetMultipleRows.
  rewrite Hp, Done_bind. cbn [negb orb].
  assert (HasNextRow (RowSource0 := connection_rows scan_double uninit) c1 = true) as ->.
  { apply bool_decide_eq_true. inversion Hg; subst; [done|by eexists..]. }
  cbn [negb].
  pose proof (NextChunk_spec (RowSource0 := connection_rows scan_double uninit)
    size schema rows None fuel ptr cid p c1 fss Hptr Hsz Hcols Hne Hfine Hg Hfuel Hlen) as HN.
  destruct (NextChunk fuel _ schema c1) as [[chunk c']| | |]; [|done..].
  destruct HN as (k & Hk & Hh & Hof & _ & Hpos & Hall). exists chunk, c', k.
  split; [done|]. split; [done|]. split; [done|]. split; [|done]. split; [by apply Hpos|done].
Qed.

(** A read of one row makes a chunk that is exactly as large as the row
    needs and holds that row alone. *)
Lemma GetSingleRow_spec malloc schema table select key partition rowId readType version
    query c c1 row lengths fs :
  MakePointInTimeQuery table (query_param readType select) key (s32 partition) rowId
    (bool_decide (readType = ReadTypeResultTable)) version = Done query ->
  Prepare scan_double uninit query true true c = Done (true, c1) ->
  m_last_fetched_row c1 = Some (row, lengths) ->
  Forall col_ok (ColumnInfo schema) -> ColumnInfo schema <> [] ->
  row_fine schema (row_need (ColumnInfo schema) lengths) (row, lengths) fs ->
  row_need (ColumnInfo schema) lengths < 2 ^ 62 ->
  (exists ptr, malloc (row_need (ColumnInfo schema) lengths) = Some ptr
     /\ Z.of_nat (length ptr) = row_need (ColumnInfo schema) lengths) ->
  exists chunk c',
    GetSingleRow scan_double uninit malloc schema table select key partition rowId readType
      version c = Done (chunk, c')
    /\ m_size chunk = row_need (ColumnInfo schema) lengths
    /\ holds schema chunk [fs] /\ chunk_of partition 0 chunk.
Proof using Type.
  intros Hq Hp Hrow Hcols Hne Hfine Hb (ptr & Hm & Hptr). unfold GetSingleRow.
  rewrite Hq, Done_bind, Hp, Done_bind. cbv beta iota zeta. rewrite Hrow.
  pose proof Hfine as (Hcells & _ & _ & Hread). cbn [fst snd] in Hcells, Hread.
  pose proof (row_need_bounds _ _ _ Hcells) as Hnb.
  unfold rowSize. rewrite (rowSize_spec _ row), Done_bind, Z.add_0_l by (done || lia).
  rewrite Hm. set (size := row_need (ColumnInfo schema) lengths) in *.
  set (w := Reset (NewChunk ptr size 0 partition) schema).
  assert (writer_ok w []) as Hw by (apply Reset_ok; try done; split; cbn; pose proof (fixed_row_nonneg _ Hcols); pose proof (var_row_nonneg _ _ _ Hcells); lia).
  assert (free w = size) as Hf by (unfold free; cbn; lia).
  destruct (WriteRow_fine size w [] (row, lengths) fs Hw ltac:(lia) Hb ltac:(done) Hfine)
    as [(w1 & E & Hw1 & Hs1 & Hid & _)|[? _]]; [|done].
  cbn [fst snd] in E. rewrite E, Done_bind. cbv beta iota zeta.
  do 2 eexists. split; [done|].
  unfold identity, chunk_identity in Hid. cbn in Hid. injection Hid as Es Ei Ep _ _.
  split; [done|]. split; [|done].
  split; [apply (wo_count _ _ Hw1)|]. intros err.
  destruct (read_written w1 [fs] err Hw1) as (r & Er & _).
  { rewrite Hs1. by constructor. }
  exists r. by rewrite Hs1 in Er.
Qed.

End keyed_reads.

(** ** The kind of a parallel read *)
Section read_type.
Context `{Build} {M : Type} `{!MysqlClient M}.

(** The table can be read in place: no distribution is asked for or the shard
    key is one of its parts, the order asked for is the beginning of the sort
    key. *)
Definition in_place (keys : TableKeys) (dist order : list string) : Prop :=
  (dist = [] \/ shard_key keys <> [] /\ shard_key keys ⊆ dist)
  /\ order `prefix_of` sort_key keys.

Lemma prefix_check (order l : list string) :
  (length order <=? length l)%nat = true
  /\ forallb (fun '(key, col) => bool_decide (key = col)) (zip l order) = true
  <-> order `prefix_of` l.
Proof using Type.
  rewrite Nat.leb_le. revert l. induction order as [|o order IH]; intros l.
  - split; [intros _; by apply prefix_nil|]. intros _. split; [cbn; lia|]. by destruct l.
  - destruct l as [|x l].
    { split; [cbn; intros [? _]; lia|]. intros Hp. by apply prefix_nil_not in Hp. }
    cbn [length zip zip_with forallb]. rewrite andb_true_iff, bool_decide_eq_true.
    specialize (IH l). split.
    + intros (Hl & -> & Hf). apply prefix_cons, IH. split; [lia|done].
    + intros Hp. pose proof (prefix_cons_inv_1 _ _ _ _ Hp) as ->.
      apply prefix_cons_inv_2, IH in Hp as [? ?]. split; [lia|done].
Qed.

Lemma isColumnstoreScanOk_spec keys dist order :
  isColumnstoreScanOk keys dist order = true <-> in_place keys dist order.
Proof using Type.
  unfold isColumnstoreScanOk, in_place. rewrite <- prefix_check.
  rewrite !andb_true_iff, orb_true_iff, andb_true_iff.
  rewrite bool_decide_eq_true, negb_true_iff, bool_decide_eq_false, forallb_forall.
  assert ((forall x, In x (shard_key keys) -> bool_decide (x ∈ dist) = true) <->
    shard_key keys ⊆ dist) as ->; [|tauto].
  split; intros Hs x Hx.
  - specialize (Hs x). rewrite bool_decide_eq_true in Hs. apply Hs. by apply list_elem_of_In.
  - apply bool_decide_eq_true, Hs. by apply list_elem_of_In.
Qed.

(** The keys of a table in the rows about its indexes: the sort key has the
    columns of those whose type begins "CLUSTERED COLUMNSTORE" (as far as its
    own length), the shard key all others. *)
Definition index_columns (sorted : bool) (rows : list (list (option string))) : list string :=
  omap (fun row =>
    match row !! 1%nat, row !! 2%nat with
    | Some (Some name), Some (Some index_type) =>
        if bool_decide (String.prefix index_type "CLUSTERED COLUMNSTORE" = sorted)
        then Some name else None
    | _, _ => None
    end) rows.

Definition keys_shown (rows : list (list (option string))) : TableKeys :=
  mkTableKeys (index_columns false rows) (index_columns true rows).

(** Below every row about the result table the plan has nothing but scans and
    filters of a columnstore table. *)
Definition only_scans (plan : list (list (option string))) : Prop :=
  forall i j row row' text text',
    plan !! i = Some row -> plan !! j = Some row' -> (i < j)%nat ->
    row !! 0%nat = Some (Some text) -> row' !! 0%nat = Some (Some text') ->
    (exists rest, text = "ResultTable" +:+ rest) ->
    exists op rest, op ∈ ["ColumnStoreScan"; "OrderedColumnStoreScan"; "ColumnStoreFilter"]%string
      /\ text' = op +:+ rest /\ (rest = ""%string \/ exists rest', rest = String " " rest').

Lemma KeyRows_shown rows : forall keys keys',
  KeyRows rows keys = Done keys' ->
  keys' = mkTableKeys (shard_key keys ++ index_columns false rows)
            (sort_key keys ++ index_columns true rows).
Proof using Type.
  induction rows as [|row rows IH]; intros keys keys' E.
  - injection E as <-. cbn. rewrite !app_nil_r. by destruct keys.
  - cbn [KeyRows] in E. unfold cell in E. unfold index_columns. cbn [omap list_omap].
    destruct (row !! 1%nat) as [name|]; [|done]. rewrite Done_bind in E.
    destruct (row !! 2%nat) as [type|]; [|done]. rewrite Done_bind in E.
    destruct name as [name|]; [|done]. destruct type as [type|]; [|done].
    apply IH in E as ->. unfold same_prefix. destruct (String.prefix type _); cbn;
      by rewrite <- app_assoc.
Qed.

Lemma first_word_split s :
  exists rest, s = first_word s +:+ rest /\ (rest = ""%string \/ exists rest', rest = String " " rest').
Proof using Type.
  induction s as [|c s (rest & E & Hr)].
  { exists ""%string. by split; [|left]. }
  cbn [first_word]. destruct (decide (c = " "%char)) as [->|Hc].
  - exists (String " " s). split; [done|]. right. by exists s.
  - exists rest. split; [|done]. change (String c s = String c (first_word s +:+ rest)). by f_equal.
Qed.

Lemma first_word_eq op rest :
  " "%char ∉ String.list_ascii_of_string op ->
  rest = ""%string \/ (exists rest', rest = String " " rest') -> first_word (op +:+ rest) = op.
Proof using Type.
  intros Hop Hr. induction op as [|c op IH].
  - by destruct Hr as [->|[rest' ->]].
  - change (String c op +:+ rest) with (String c (op +:+ rest)). cbn [first_word].
    apply not_elem_of_cons in Hop as [Hc Hop]. rewrite decide_False by done.
    f_equal. by apply IH.
Qed.

Lemma scan_operation_spec text :
  scan_operation (first_word text) = true <->
  exists op rest, op ∈ ["ColumnStoreScan"; "OrderedColumnStoreScan"; "ColumnStoreFilter"]%string
    /\ text = op +:+ rest /\ (rest = ""%string \/ exists rest', rest = String " " rest').
Proof using Type.
  unfold scan_operation. rewrite !orb_true_iff, !bool_decide_eq_true. split.
  - intros Hop. destruct (first_word_split text) as (rest & E & Hr).
    exists (first_word text), rest. split; [|done]. rewrite !elem_of_cons. tauto.
  - intros (op & rest & Hop & -> & Hr).
    assert (" "%char ∉ String.list_ascii_of_string op) as Hblank.
    { clear Hr. repeat (apply elem_of_cons in Hop as [->|Hop];
        [by apply (bool_decide_unpack _); vm_compute|]). by apply elem_of_nil in Hop. }
    rewrite first_word_eq by done. rewrite !elem_of_cons, elem_of_nil in Hop. tauto.
Qed.

#[local] Transparent String.prefix.
Lemma starts_with_spec p s : starts_with p s = true <-> exists rest, s = p +:+ rest.
Proof using Type.
  unfold starts_with. revert s. induction p as [|c p IH]; intros s.
  - split; [|by destruct s]. intros _. by exists s.
  - destruct s as [|x s]; [split; [done|by intros [rest [=]]]|]. cbn.
    destruct (Ascii.ascii_dec c x) as [->|Hne].
    + rewrite IH. split; intros [rest E]; exists rest; [by rewrite E|by injection E].
    + split; [done|]. intros [rest [= -> _]]. done.
Qed.

(** [only_scans] with what is known of the rows above. *)
Definition plan_checked (check : bool) (plan : list (list (option string))) : Prop :=
  forall j row' text', plan !! j = Some row' -> row' !! 0%nat = Some (Some text') ->
    (check = true \/ exists i row text, (i < j)%nat /\ plan !! i = Some row
       /\ row !! 0%nat = Some (Some text) /\ starts_with "ResultTable" text = true) ->
    scan_operation (first_word text') = true.

Lemma plan_checked_cons check row text plan :
  row !! 0%nat = Some (Some text) ->
  plan_checked check (row :: plan) <->
  (check = true -> scan_operation (first_word text) = true)
  /\ plan_checked (check || starts_with "ResultTable" text) plan.
Proof using Type.
  intros Hrow. split.
  - intros Hp. split.
    + intros Hc. apply (Hp 0%nat row text); [done|done|by left].
    + intros j row' text' Hj Ht Hor. apply (Hp (S j) row' text'); [done|done|].
      destruct Hor as [[Hc|Hs]%orb_true_iff|(i & r & t & Hi & Er & Et & Hs)]; [by left|..]; right.
      * exists 0%nat, row, text. split; [lia|done].
      * exists (S i), r, t. split; [lia|done].
  - intros [H0 Hp] [|j] row' text' Hj Ht Hor; cbn in Hj.
    + injection Hj as <-. rewrite Hrow in Ht. injection Ht as <-.
      destruct Hor as [Hc|(i & _ & _ & Hi & _)]; [by apply H0|lia].
    + apply (Hp j row' text'); [done|done|].
      destruct Hor as [->|([|i] & r & t & Hi & Er & Et & Hs)]; [by left|..]; cbn in Er.
      * injection Er as <-. rewrite Hrow in Et. injection Et as <-. left. by rewrite Hs, orb_true_r.
      * right. exists i, r, t. split; [lia|done].
Qed.

Lemma PlanRows_spec plan : forall check b,
  PlanRows check plan = Done b -> b = true <-> plan_checked check plan.
Proof using Type.
  induction plan as [|row plan IH]; intros check b E.
  - injection E as <-. by split.
  - cbn [PlanRows] in E. unfold cell in E. destruct (row !! 0%nat) as [v|] eqn:Hrow; [|done].
    rewrite Done_bind in E. destruct v as [text|]; [|done].
    rewrite (plan_checked_cons _ _ _ _ Hrow).
    destruct check, (scan_operation (first_word text)) eqn:Es; cbn [andb negb orb] in *;
      try (rewrite (IH _ _ E); naive_solver).
    injection E as <-. split; [done|]. intros [Hs _]. by specialize (Hs eq_refl).
Qed.

Lemma PlanRows_only_scans plan b : PlanRows false plan = Done b -> b = true <-> only_scans plan.
Proof using Type.
  intros E. rewrite (PlanRows_spec _ _ _ E). unfold plan_checked, only_scans. split.
  - intros Hp i j row row' text text' Hi Hj Hij Ht Ht' Hs. apply scan_operation_spec.
    apply (Hp j row' text' Hj Ht'). right. exists i, row, text.
    split_and!; [done..|]. by apply starts_with_spec.
  - intros Hp j row' text' Hj Ht' [[=]|(i & row & text & Hij & Hi & Ht & Hs)].
    apply scan_operation_spec. apply (Hp i j row row' text text'); try done.
    by apply starts_with_spec.
Qed.

Lemma stored_query_rows query on_null (c c' : S2Connection M) rows :
  stored_query query on_null c = Done (rows, c') ->
  exists m, mysql_query query (mysql c) = (false, m) /\ mysql_store_result m = Some rows
    /\ c' = set_mysql m c.
Proof using Type.
  unfold stored_query. destruct (mysql_query query (mysql c)) as [[] m]; [done|].
  destruct (mysql_store_result m) as [rows'|] eqn:E; [|done]. intros [= <- <-]. by exists m.
Qed.

(** C33. When the caller leaves the kind of the read open and names no source
    table, a table is created: an ordinary one if a materialised one was asked
    for, else a result table.  When there is a source table, its indexes and
    then the plan of the query are asked for, and the table itself is read
    exactly when the keys let every partition be read in place (no
    distribution is asked for, or the table has a shard key and all its columns
    are asked for; the order asked for begins the sort key) and every row of the
    plan below a row about the result table is a scan or a filter of a
    columnstore; a plan without such a row is accepted whatever it has.
    Otherwise a table is created.  A kind the caller gives is kept. *)
Theorem GetParallelReadType_spec select source materialized dist order readType c t c' :
  GetParallelReadType select source materialized dist order readType c = Done (t, c') ->
  let created := if materialized then ReadTypeColumnStoreTable else ReadTypeResultTable in
  if decide (readType = ReadTypeUnknown) then
    match source with
    | None => t = created
    | Some table =>
        exists index_rows plan m1 m2,
          mysql_query (MakeGetTableKeysQuery (m_db (m_args c)) table) (mysql c) = (false, m1)
          /\ mysql_store_result m1 = Some index_rows
          /\ mysql_query (MakeExplainCreateResultTableQuery select "") m1 = (false, m2)
          /\ mysql_store_result m2 = Some plan
          /\ ((in_place (keys_shown index_rows) dist order /\ only_scans plan ->
               t = ReadTypeOriginalTable)
              /\ (~ (in_place (keys_shown index_rows) dist order /\ only_scans plan) -> t = created))
    end
  else t = readType.
Proof using Type.
  unfold GetParallelReadType. intros E.
  destruct (decide (readType = ReadTypeUnknown)) as [->|Hne].
  2: { rewrite decide_True in E by done. by injection E as -> ->. }
  rewrite decide_False in E by naive_solver.
  destruct source as [table|]; [|by injection E].
  apply bind_Done in E as ([keys c1] & Ek & E). apply bind_Done in E as ([simple c2] & Es & E).
  unfold GetTableKeys in Ek. apply bind_Done in Ek as ([irows ci] & Eq & Ek).
  apply stored_query_rows in Eq as (m1 & Eq & Er & ->).
  apply bind_Done in Ek as (keys' & Ek & [= <- <-]). apply KeyRows_shown in Ek as ->.
  unfold CheckExplainOperations in Es. apply bind_Done in Es as ([plan ci] & Ep & Es).
  apply stored_query_rows in Ep as (m2 & Ep & Epr & ->).
  apply bind_Done in Es as (b & Es & [= <- <-]). apply PlanRows_only_scans in Es.
  exists irows, plan, m1, m2. do 4 (split; [done|]).
  rewrite <- Es, <- (isColumnstoreScanOk_spec _ dist order), <- andb_true_iff.
  change (mkTableKeys _ _) with (keys_shown irows) in E.
  destruct (isColumnstoreScanOk _ _ _ && b); injection E as <- _; by split.
Qed.
End read_type.

(** ** A client over lists: the results of the queries to come, the fields and
    the rows of the result being fetched, the row just fetched *)
Record demo_client := mkDemo {
  d_stored : list (list (list (option string)));
  d_result : list (list (option string));
  d_fields : list MYSQL_FIELD;
  d_rows : list (list (option bytes));
  d_row : list (option bytes)
}.

Definition demo_bound (f : MYSQL_FIELD) (v : option bytes) : bound_column :=
  match v with
  | None => mkBound true 0 []
  | Some v =>
      mkBound false (Z.of_nat (length v))
        (if snd (bound_length (fld_type f)) then take 8 v else v)
  end.

#[export] Instance demo_mysql : MysqlClient demo_client := {
  mysql_init := Some (mkDemo [] [] [] [] []);
  mysql_ssl _ m := m;
  mysql_real_connect host _ _ _ _ m := (bool_decide (host = "down"%string), m);
  mysql_errno _ := 0;
  mysql_error _ := ""%string;
  mysql_stmt_errno _ := 0;
  mysql_stmt_error _ := ""%string;
  mysql_query _ m :=
    (false, mkDemo (tail (d_stored m)) (default [] (head (d_stored m))) (d_fields m)
              (d_rows m) (d_row m));
  mysql_store_result m := Some (d_result m);
  mysql_affected_rows _ := 0;
  mysql_use_result m := Some (d_fields m);
  mysql_fetch_row m :=
    (head (d_rows m),
     mkDemo (d_stored m) (d_result m) (d_fields m) (tail (d_rows m)) (d_row m));
  mysql_stmt_init m := (true, m);
  mysql_stmt_prepare _ m := (false, m);
  mysql_stmt_execute m := (false, m);
  mysql_stmt_field_count m := length (d_fields m);
  mysql_stmt_fields m := Some (d_fields m);
  mysql_fetch_fields res _ := Some res;
  mysql_stmt_bind_result m := (false, m);
  mysql_stmt_fetch _ m :=
    match d_rows m with
    | [] => (MYSQL_NO_DATA, [], m)
    | row :: rows =>
        (0, zip_with demo_bound (d_fields m) row,
         mkDemo (d_stored m) (d_result m) (d_fields m) rows row)
    end;
  mysql_stmt_fetch_column i len m :=
    match d_row m !! i with
    | Some (Some v) => (false, take (Z.to_nat len) v, m)
    | _ => (true, [], m)
    end;
  mysql_stmt_close m := m;
  mysql_close m := m;
  mysql_get_local_infile _ := Some true;
  mysql_load_text _ _ m := (false, m);
  mysql_load_avro _ _ m := (false, m)
}.

Definition demo_serves (fields : list MYSQL_FIELD) (rows : list (list (option bytes)))
    (m : demo_client) : Prop :=
  d_fields m = fields /\ d_rows m = rows
  /\ Forall (fun r => length r = length fields) rows.

Lemma demo_bound_for fields row :
  length row = length fields -> Forall3 bound_for fields row (zip_with demo_bound fields row).
Proof.
  revert row. induction fields as [|f fields IH]; intros [|v row] Hl; try done; constructor.
  - destruct v as [v|]; [|done]. cbn. split_and!; [done..|]. by destruct (snd _).
  - apply IH. by injection Hl.
Qed.

#[local] Program Instance demo_laws : StatementLaws demo_client := {
  serves := demo_serves;
  current fields row rows m := demo_serves fields rows m /\ d_row m = row
}.
Next Obligation. intros ??? (<- & _). done. Qed.
Next Obligation. intros ??? Hm. by exists m. Qed.
Next Obligation. intros ??? (_ & Hr & _). cbn. rewrite Hr. eauto. Qed.
Next Obligation.
  intros fields row rows m (Hf & Hr & Hl). cbn. rewrite Hr, Hf.
  apply Forall_cons_iff in Hl as [Hl Hls]. do 3 eexists. split; [done|]. split; [by left|].
  split; [by apply demo_bound_for|]. split; [|done]. by split_and!.
Qed.
Next Obligation.
  intros fields row rows m i v [Hs Hr] Hi. cbn. rewrite Hr, Hi. exists m.
  rewrite Nat2Z.id, take_ge by done. done.
Qed.
Next Obligation. by intros ???? [? _]. Qed.

Definition demo_field (name : string) (t : enum_field_types) : MYSQL_FIELD :=
  mkField name (String.length name) name (String.length name) t 4.
Definition demo_mysql_fields : list MYSQL_FIELD :=
  [demo_field "a" MYSQL_TYPE_LONGLONG; demo_field "b" MYSQL_TYPE_VAR_STRING;
   demo_field "c" MYSQL_TYPE_STRING].
Definition demo_state (rows : list (list (option bytes))) : demo_client :=
  mkDemo [] [] demo_mysql_fields rows [].
Definition demo_args : connect_args := mkArgs "127.0.0.1" 3306 "db" (Some "root"%string) "" None.
Definition demo_connection (m : demo_client) : S2Connection demo_client :=
  mkConnection m true None true None true demo_args.

(** The rows of [ChunkRoundTrip.demo_rows], as the server has them. *)
Definition demo_server : demo_client := demo_state (fst <$> demo_rows).

Abbreviation no_double := (fun _ : string => @None Z).

Lemma Prepare_gives_rows_witness :
  exists c' c_end,
    Prepare (H := release_build) no_double 0 "SELECT * FROM t" true true (demo_connection demo_server)
      = Done (true, c')
    /\ gives (RowSource0 := connection_rows (H := release_build) no_double 0) c'
         (map with_lengths (fst <$> demo_rows)) None
    /\ fetches (H := release_build) no_double 0 c' (map with_lengths (fst <$> demo_rows)) c_end
    /\ statement_closed demo_mysql_fields c_end.
Proof.
  apply (Prepare_gives_rows (H := release_build) no_double 0 "SELECT * FROM t"
    (demo_connection demo_server) demo_server demo_server demo_server demo_mysql_fields
    (fst <$> demo_rows)); [reflexivity..| |discriminate].
  split_and!; [reflexivity..|]. repeat constructor.
Defined.

Lemma AdvanceText_values_witness :
  let c := mkConnection (mkDemo [] []
      [demo_field "n" MYSQL_TYPE_LONG; demo_field "d" MYSQL_TYPE_DATE]
      [[Some (String.list_ascii_of_string "-7");
        Some (String.list_ascii_of_string "2024-02-29")]] [])
    true (Some [demo_field "n" MYSQL_TYPE_LONG; demo_field "d" MYSQL_TYPE_DATE])
    false None true demo_args in
  exists c', AdvanceText (H := release_build) no_double 0 c = Done (true, c')
    /\ exists res fields row m values lengths,
         m_res c = Some res /\ mysql_fetch_fields res (mysql c) = Some fields
         /\ mysql_fetch_row (mysql c) = (Some row, m)
         /\ m_last_fetched_row c' = Some (values, lengths)
         /\ length values = length fields
         /\ forall i f v value, fields !! i = Some f -> row !! i = Some v ->
              values !! i = Some value -> text_value_ok f v value.
Proof.
  intros c. destruct (AdvanceText (H := release_build) no_double 0 c) as [[[] c']| | |] eqn:E;
    try (vm_compute in E; discriminate E).
  exists c'. split; [reflexivity|].
  exact (AdvanceText_values (H := release_build) no_double 0 c c' E).
Defined.

(** A table sharded by [a] and sorted by [b, c]. *)
Definition demo_keys_server : demo_client :=
  mkDemo
    [ [[Some "1"; Some "b"; Some "CLUSTERED COLUMNSTORE"];
       [Some "2"; Some "c"; Some "CLUSTERED COLUMNSTORE"];
       [Some "1"; Some "a"; Some "SHARD"]];
      [[Some "ResultTable db.tmp"]; [Some "OrderedColumnStoreScan db.t"]] ]%string
    [] [] [] [].

Lemma GetParallelReadType_spec_witness :
  let c := demo_connection demo_keys_server in
  exists t c', GetParallelReadType "SELECT * FROM t" (Some "t"%string) false ["a"; "d"]%string
      ["b"%string] ReadTypeUnknown c = Done (t, c')
    /\ t = ReadTypeOriginalTable
    /\ exists index_rows plan m1 m2,
          mysql_query (MakeGetTableKeysQuery "db" "t") (mysql c) = (false, m1)
          /\ mysql_store_result m1 = Some index_rows
          /\ mysql_query (MakeExplainCreateResultTableQuery "SELECT * FROM t" "") m1 = (false, m2)
          /\ mysql_store_result m2 = Some plan
          /\ ((in_place (keys_shown index_rows) ["a"; "d"]%string ["b"%string] /\ only_scans plan ->
               t = ReadTypeOriginalTable)
              /\ (~ (in_place (keys_shown index_rows) ["a"; "d"]%string ["b"%string]
                     /\ only_scans plan) -> t = ReadTypeResultTable)).
Proof.
  intros c. do 2 eexists. split; [reflexivity|]. split; [reflexivity|].
  refine (GetParallelReadType_spec "SELECT * FROM t" (Some "t"%string) false ["a"; "d"]%string
    ["b"%string] ReadTypeUnknown c ReadTypeOriginalTable _ _). reflexivity.
Defined.
