(* ===== verification/RowMemory.v ===== *)
(** The fetched row as the connection keeps it: the files of the library take
    the row that was fetched last as a value, [Connection.m_last_fetched_row];
    here it is what the code has, an array of pointers to the values, an array
    of their lengths and the number of columns, which are allocated and freed
    by hand ([s2_connection.cpp]).  The operations are defined over the heap of
    [Memory.v], with the same calls of the client library, and refine those of
    [Connection.v]. *)

From Stdlib Require Import Ascii String.
From stdpp Require Import base list strings numbers gmap tactics.
From stdpp Require Import options.
From S2P Require Import Prelude Schema Utils Memory Connection.

(** ** The members and the heap

    What the operations use of the connection; [new_fails h n]: whether, with
    the heap [h], an array of [n] bytes cannot be allocated; [junk]: what a new
    array of characters has. *)
Record row_state (M : Type) := mkRow {
  r_mysql : M;
  r_stmt : bool;                  (* m_stmt is set *)
  m_last_columns_num : nat;
  r_row : option loc;             (* m_last_fetched_row *)
  m_last_fetched_lengths : option loc;
  r_heap : heap
}.
Arguments mkRow {M}. Arguments r_mysql {M}. Arguments r_stmt {M}.
Arguments m_last_columns_num {M}. Arguments r_row {M}.
Arguments m_last_fetched_lengths {M}. Arguments r_heap {M}.

(** Commands that change the state; it is kept when one throws. *)
Definition command (M A : Type) : Type := row_state M -> outcome exn A * row_state M.

Section commands.
Context {M : Type}.

Definition c_ret {A} (a : A) : command M A := fun s => (Done a, s).
Definition c_bind {A B} (m : command M A) (k : A -> command M B) : command M B := fun s =>
  match m s with
  | (Done a, s) => k a s
  | (Throw e, s) => (Throw e, s)
  | (AssertFail what, s) => (AssertFail what, s)
  | (Undef what, s) => (Undef what, s)
  end.
Definition lift {A} (m : outcome exn A) : command M A := fun s => (m, s).
Definition get : command M (row_state M) := fun s => (Done s, s).

Definition set_mysql (m : M) : command M unit := fun s =>
  (Done tt, mkRow m (r_stmt s) (m_last_columns_num s) (r_row s) (m_last_fetched_lengths s) (r_heap s)).
Definition set_stmt (b : bool) : command M unit := fun s =>
  (Done tt, mkRow (r_mysql s) b (m_last_columns_num s) (r_row s) (m_last_fetched_lengths s) (r_heap s)).
Definition set_columns (n : nat) : command M unit := fun s =>
  (Done tt, mkRow (r_mysql s) (r_stmt s) n (r_row s) (m_last_fetched_lengths s) (r_heap s)).
Definition set_row (p : option loc) : command M unit := fun s =>
  (Done tt, mkRow (r_mysql s) (r_stmt s) (m_last_columns_num s) p (m_last_fetched_lengths s) (r_heap s)).
Definition set_lengths (p : option loc) : command M unit := fun s =>
  (Done tt, mkRow (r_mysql s) (r_stmt s) (m_last_columns_num s) (r_row s) p (r_heap s)).

(** An operation on the heap. *)
Definition on_heap {A} (f : heap -> outcome exn (A * heap)) : command M A := fun s =>
  match f (r_heap s) with
  | Done (a, h) =>
      (Done a, mkRow (r_mysql s) (r_stmt s) (m_last_columns_num s) (r_row s)
                 (m_last_fetched_lengths s) h)
  | Throw e => (Throw e, s)
  | AssertFail what => (AssertFail what, s)
  | Undef what => (Undef what, s)
  end.
Definition on_heap_ (f : heap -> outcome exn heap) : command M unit :=
  on_heap (fun h => h ← f h; Done (tt, h)).
End commands.

Declare Scope command_scope.
Delimit Scope command_scope with command.
Notation "x <- m ;; k" := (c_bind m (fun x => k))
  (at level 100, m at next level, right associativity) : command_scope.
Notation "m ;;; k" := (c_bind m (fun _ => k))
  (at level 100, right associativity) : command_scope.
#[local] Open Scope command_scope.

Lemma c_bind_Done {M A B} (m : command M A) (k : A -> command M B) s a s' :
  m s = (Done a, s') -> c_bind m k s = k a s'.
Proof. intros E. unfold c_bind. by rewrite E. Qed.

Lemma c_bind_Throw {M A B} (m : command M A) (k : A -> command M B) s e s' :
  m s = (Throw e, s') -> c_bind m k s = (Throw e, s').
Proof. intros E. unfold c_bind. by rewrite E. Qed.

Lemma c_bind_Undef {M A B} (m : command M A) (k : A -> command M B) s what s' :
  m s = (Undef what, s') -> c_bind m k s = (Undef what, s').
Proof. intros E. unfold c_bind. by rewrite E. Qed.

(** The members are read and set at once. *)
Section members.
Context {M A : Type} (m : M) (st : bool) (n : nat) (row lens : option loc) (h : heap).
Abbreviation s := (mkRow m st n row lens h).

Lemma bind_get (s : row_state M) (k : row_state M -> command M A) : c_bind get k s = k s s.
Proof using Type. done. Qed.
Lemma bind_set_mysql m' (k : unit -> command M A) :
  c_bind (set_mysql m') k s = k tt (mkRow m' st n row lens h).
Proof using Type. done. Qed.
Lemma bind_set_stmt b (k : unit -> command M A) :
  c_bind (set_stmt b) k s = k tt (mkRow m b n row lens h).
Proof using Type. done. Qed.
Lemma bind_set_columns n' (k : unit -> command M A) :
  c_bind (set_columns n') k s = k tt (mkRow m st n' row lens h).
Proof using Type. done. Qed.
Lemma bind_set_row p (k : unit -> command M A) :
  c_bind (set_row p) k s = k tt (mkRow m st n p lens h).
Proof using Type. done. Qed.
Lemma bind_set_lengths p (k : unit -> command M A) :
  c_bind (set_lengths p) k s = k tt (mkRow m st n row p h).
Proof using Type. done. Qed.
End members.

Ltac run_members :=
  rewrite ?bind_get, ?bind_set_mysql, ?bind_set_stmt, ?bind_set_columns, ?bind_set_row,
    ?bind_set_lengths;
  cbn [r_mysql r_stmt m_last_columns_num r_row m_last_fetched_lengths r_heap].

(** ** The operations *)
Section operations.
Context `{Build} {M : Type} `{!MysqlClient M}.
Context (scan_double : string -> option Z) (uninit : Z) (junk : ascii) (new_fails : heap -> Z -> bool).

(** [new] of an array of [n] bytes, and [new char[n]]. *)
Definition new_block (n : Z) (c : contents) : command M loc :=
  s <- get;;
  if new_fails (r_heap s) n then lift (Throw BadAlloc)
  else on_heap (fun h => Done (allocate NewArray c h)).
Definition new_array (n : Z) : command M loc :=
  new_block n (Data (replicate (Z.to_nat n) junk)).

Definition delete_array (p : option loc) : command M unit := on_heap_ (deallocate NewArray p).

(** [m_last_fetched_row[i]], read and written, and the block it points to;
    [m_last_fetched_lengths[i]]. *)
Definition row_at (i : nat) : command M (option loc) :=
  s <- get;; lift (load_pointer (r_row s) i (r_heap s)).
Definition set_row_at (i : nat) (p : option loc) : command M unit :=
  s <- get;; on_heap_ (store_pointer (r_row s) i p).
Definition write_at (p : option loc) (b : bytes) : command M unit :=
  on_heap_ (store_bytes p b).
Definition length_at (i : nat) : command M Z :=
  s <- get;; lift (load_long (m_last_fetched_lengths s) i (r_heap s)).
Definition set_length_at (i : nat) (z : Z) : command M unit :=
  s <- get;; on_heap_ (store_long (m_last_fetched_lengths s) i z).

Fixpoint free_fields (k i : nat) : command M unit :=
  match k with
  | O => c_ret tt
  | S k =>
      p <- row_at i;; delete_array p;;; set_row_at i None;;; free_fields k (S i)
  end.

Definition FreeLastFetched : command M unit :=
  s <- get;;
  free_fields (m_last_columns_num s) 0;;;
  delete_array (r_row s);;; set_row None;;;
  delete_array (m_last_fetched_lengths s);;; set_lengths None;;;
  set_columns 0.

Definition CleanupStatement (needFreeResult : bool) : command M unit :=
  s <- get;;
  set_mysql (mysql_stmt_close (r_mysql s));;; set_stmt false;;;
  if needFreeResult then FreeLastFetched else c_ret tt.

(** The destructor; [need_close] is [m_need_stmt_close]. *)
Definition destroy (need_close : bool) : command M unit :=
  FreeLastFetched;;;
  s <- get;;
  (if r_stmt s && need_close then CleanupStatement false else c_ret tt);;;
  s <- get;;
  set_mysql (mysql_close (r_mysql s));;;
  s <- get;;
  if r_stmt s then CleanupStatement false else c_ret tt.

(** The two arrays of a row of [n] columns, the second one set to zero. *)
Definition new_row (n : nat) : command M unit :=
  ll <- new_block (8 * Z.of_nat n) (Longs (replicate n uninit));; set_lengths (Some ll);;;
  lr <- new_block (8 * Z.of_nat n) (Pointers (replicate n None));; set_row (Some lr).

(** [sizeof (MYSQL_BIND)]; the array of them is freed however the call ends. *)
Definition sizeof_MYSQL_BIND : Z := 112.
Definition new_bind (n : nat) : command M unit :=
  s <- get;;
  if new_fails (r_heap s) (sizeof_MYSQL_BIND * Z.of_nat n) then lift (Throw BadAlloc) else c_ret tt.

(** The ways out before there is a row. *)
Definition no_row (what : string) : command M bool :=
  FreeLastFetched;;; lift (s2_throw S2C_ERROR_UNKNOWN_FAILURE what).

(** The loop of [AdvanceText] over the columns of the fetched row. *)
Fixpoint text_columns (i : nat) (fields : list MYSQL_FIELD) (row : list (option bytes))
    : command M unit :=
  match fields, row with
  | [], _ => c_ret tt
  | f :: fields, v :: row =>
      (match v with
       | None => set_length_at i 0;;; set_row_at i None
       | Some v =>
           r <- lift (TextValue scan_double uninit f v);;
           match r with
           | (Some b, len) =>
               set_length_at i len;;;
               p <- new_array len;; set_row_at i (Some p);;; write_at (Some p) b
           | (None, _) => c_ret tt
           end
       end);;;
      text_columns (S i) fields row
  | _ :: _, [] => lift (Undef "row[i] out of bounds")
  end.

Definition AdvanceText (res : option (list MYSQL_FIELD)) : command M bool :=
  FreeLastFetched;;;
  match res with
  | None => lift (Undef "result functions on a null result")
  | Some res =>
      set_columns (length res);;;
      s <- get;;
      match mysql_fetch_fields res (r_mysql s) with
      | None => no_row "Failed to get text result set fields"
      | Some fields =>
          new_row (length res);;;
          s <- get;;
          let '(row, m) := mysql_fetch_row (r_mysql s) in
          set_mysql m;;;
          match row with
          | None =>
              if negb (mysql_errno m =? 0) then lift (throw_mysql m)
              else FreeLastFetched;;; c_ret false
          | Some row => text_columns 0 fields row;;; c_ret true
          end
      end
  end.

(** The loop of [AdvanceBinary] that makes the buffers of the [k] columns from
    column [i] on. *)
Fixpoint bind_buffers (k i : nat) (fields : list MYSQL_FIELD) : command M unit :=
  match k, fields with
  | O, _ => c_ret tt
  | S k, f :: fields =>
      p <- new_array (fst (bound_length (fld_type f)));;
      set_row_at i (Some p);;; bind_buffers k (S i) fields
  | S _, [] => lift (Undef "fields[i] out of bounds")
  end.

(** What [mysql_stmt_fetch] writes to the bound buffers and lengths. *)
Fixpoint write_bound (i : nat) (fields : list MYSQL_FIELD) (bound : list bound_column)
    : command M unit :=
  match fields, bound with
  | _ :: fields, b :: bound =>
      (if is_null b then c_ret tt
       else p <- row_at i;; write_at p (buffer b);;; set_length_at i (value_length b));;;
      write_bound (S i) fields bound
  | _, _ => c_ret tt
  end.

(** The loop that fetches the actual fields. *)
Fixpoint fetch_columns (i : nat) (fields : list MYSQL_FIELD) (bound : list bound_column)
    : command M unit :=
  match fields, bound with
  | [], _ => c_ret tt
  | f :: fields, b :: bound =>
      (if is_null b then
         p <- row_at i;; delete_array p;;; set_row_at i None;;; set_length_at i 0
       else if negb (snd (bound_length (fld_type f))) then c_ret tt
       else
         p <- row_at i;; delete_array p;;;
         len <- length_at i;;
         tmp <- new_array len;; set_row_at i (Some tmp);;;
         s <- get;;
         let '(failed, value, m) := mysql_stmt_fetch_column i len (r_mysql s) in
         set_mysql m;;;
         if failed : bool then FreeLastFetched;;; lift (throw_stmt m)
         else buffer <- row_at i;; write_at buffer value);;;
      fetch_columns (S i) fields bound
  | _ :: _, [] => lift (Undef "column without a bound buffer")
  end.

Definition AdvanceBinary : command M bool :=
  FreeLastFetched;;;
  s <- get;;
  if negb (r_stmt s) then lift (Undef "statement functions on a null statement")
  else
    let n := mysql_stmt_field_count (r_mysql s) in
    set_columns n;;;
    match (metadata ← mysql_stmt_fields (r_mysql s);
           Some (mysql_fetch_fields metadata (r_mysql s))) with
    | None => no_row "Failed to get binary result set metadata"
    | Some None => no_row "Failed to get binary result set fields"
    | Some (Some fields) =>
        new_row n;;; new_bind n;;; bind_buffers n 0 fields;;;
        s <- get;;
        let '(failed, m) := mysql_stmt_bind_result (r_mysql s) in
        set_mysql m;;;
        if failed : bool then FreeLastFetched;;; lift (throw_stmt m)
        else
          let '(status, bound, m) :=
            mysql_stmt_fetch (map (fun f => fst (bound_length (fld_type f))) fields) m in
          set_mysql m;;;
          if status =? MYSQL_NO_DATA then CleanupStatement true;;; c_ret false
          else if negb (status =? MYSQL_DATA_TRUNCATED) && negb (status =? 0) then
            FreeLastFetched;;;
            (if negb (mysql_stmt_errno m =? 0) then lift (throw_stmt m) else lift (throw_mysql m))
          else
            write_bound 0 fields bound;;; fetch_columns 0 fields bound;;; c_ret true
    end.

(** [binary] is [m_use_binary_protocol], [res] is [m_res]. *)
Definition Advance (binary : bool) (res : option (list MYSQL_FIELD)) : command M bool :=
  if binary then AdvanceBinary else AdvanceText res.
End operations.

(** ** What the members represent

    [array_rep lr ll vs ls frame h]: the heap is [frame] and, besides, the array
    [lr] of pointers to the values [vs], the array [ll] of the lengths [ls], and
    the values. *)
Definition array_rep (lr ll : loc) (vs : list (option bytes)) (ls : list Z) (frame h : heap)
    : Prop :=
  lr <> ll /\ frame !! lr = None /\ frame !! ll = None /\ length ls = length vs
  /\ exists ps, cells_at NewArray ps vs
       (<[lr := (NewArray, Pointers ps)]> (<[ll := (NewArray, Longs ls)]> frame)) h.

(** A value in its block: NULL has none, another one is at its beginning. *)
Definition starts (v b : option bytes) : Prop :=
  match v, b with
  | None, None => True
  | Some v, Some b => v `prefix_of` b
  | _, _ => False
  end.

(** The members and the heap of a connection whose row that was fetched last,
    if there is one, is [fetched]. *)
Definition row_rep {M} (s : row_state M) (frame : heap)
    (fetched : option (list (option bytes) * list Z)) : Prop :=
  match fetched with
  | None =>
      m_last_columns_num s = 0%nat /\ r_row s = None /\ m_last_fetched_lengths s = None
      /\ r_heap s = frame
  | Some (vs, ls) =>
      exists lr ll bs, r_row s = Some lr /\ m_last_fetched_lengths s = Some ll
        /\ m_last_columns_num s = length vs /\ Forall2 starts vs bs
        /\ array_rep lr ll bs ls frame (r_heap s)
  end.

(** [FreeLastFetched] leaves nothing of a row behind. *)
Definition freeable {M} (frame : heap) (s : row_state M) : Prop :=
  FreeLastFetched s = (Done tt, mkRow (r_mysql s) (r_stmt s) 0 None None frame).

(** There are columns, but no array of pointers, or one of its pointers is to
    memory that has been freed. *)
Definition broken {M} (s : row_state M) : Prop :=
  (0 < m_last_columns_num s)%nat
  /\ (r_row s = None
      \/ exists lr ps i p, r_row s = Some lr /\ r_heap s !! lr = Some (NewArray, Pointers ps)
           /\ (i < m_last_columns_num s)%nat /\ ps !! i = Some (Some p) /\ r_heap s !! p = None).

Section primitives.
Context {M : Type} (m : M) (st : bool) (n : nat) (lr ll : loc) (frame : heap).
Abbreviation at_heap h := (mkRow m st n (Some lr) (Some ll) h).

Lemma on_heap_spec (f : heap -> outcome exn heap) h h' :
  f h = Done h' -> on_heap_ f (at_heap h) = (Done tt, at_heap h').
Proof using Type. intros E. unfold on_heap_, on_heap. cbn. by rewrite E. Qed.

Lemma array_row vs ls h :
  array_rep lr ll vs ls frame h ->
  exists ps, cells_at NewArray ps vs
      (<[lr := (NewArray, Pointers ps)]> (<[ll := (NewArray, Longs ls)]> frame)) h
    /\ h !! lr = Some (NewArray, Pointers ps) /\ h !! ll = Some (NewArray, Longs ls)
    /\ length ps = length vs.
Proof using Type.
  intros (Hne & _ & _ & _ & ps & Hc). exists ps. split; [done|].
  split_and!.
  - eapply (frame_not_cell _ _ _ _ _ _ _ Hc), lookup_insert_eq.
  - eapply (frame_not_cell _ _ _ _ _ _ _ Hc). rewrite lookup_insert_ne by done. apply lookup_insert_eq.
  - by apply (Forall2_length (ca_cells _ _ _ _ _ Hc)).
Qed.

Lemma set_length_spec vs ls h i z :
  array_rep lr ll vs ls frame h -> (i < length vs)%nat ->
  exists h', set_length_at i z (at_heap h) = (Done tt, at_heap h')
    /\ array_rep lr ll vs (<[i := z]> ls) frame h'.
Proof using Type.
  intros Hr Hi. destruct (array_row _ _ _ Hr) as (ps & Hc & Er & El & _).
  destruct Hr as (Hne & Hfr & Hfl & Hlen & _).
  exists (<[ll := (NewArray, Longs (<[i := z]> ls))]> h). split.
  - apply on_heap_spec. apply (store_long_spec _ _ _ _ _ _ El). lia.
  - split_and!; try done; [by rewrite length_insert|]. exists ps.
    pose proof (cells_frame _ _ _ _ _ ll _ (NewArray, Longs (<[i := z]> ls)) Hc
      ltac:(rewrite lookup_insert_ne by done; apply lookup_insert_eq)) as Hc'.
    by rewrite insert_insert_ne, insert_insert_eq in Hc' by done.
Qed.

Lemma length_at_spec vs ls h i z :
  array_rep lr ll vs ls frame h -> ls !! i = Some z ->
  length_at i (at_heap h) = (Done z, at_heap h).
Proof using Type.
  intros Hr Hi. destruct (array_row _ _ _ Hr) as (ps & _ & _ & El & _).
  unfold length_at, get, c_bind, lift. cbn [r_heap m_last_fetched_lengths].
  by rewrite (load_long_spec _ _ _ _ _ _ El Hi).
Qed.

(** Storing the pointer to a cell that has changed. *)
Lemma array_store ps ps' vs vs' ls h h' i p :
  cells_at NewArray ps' vs'
    (<[lr := (NewArray, Pointers ps)]> (<[ll := (NewArray, Longs ls)]> frame)) h' ->
  array_rep lr ll vs ls frame h -> (i < length ps)%nat -> length vs' = length vs ->
  <[i := p]> ps = ps' ->
  exists h2, set_row_at i p (at_heap h') = (Done tt, at_heap h2)
    /\ array_rep lr ll vs' ls frame h2 /\ row_at i (at_heap h2) = (Done p, at_heap h2).
Proof using Type.
  intros Hc (Hne & Hfr & Hfl & Hlen & _) Hi Hv <-.
  destruct (frame_not_cell _ _ _ _ _ lr _ Hc ltac:(apply lookup_insert_eq)) as [_ Er].
  eexists. split.
  - apply on_heap_spec. by apply (store_pointer_spec _ _ _ _ _ _ Er).
  - split; [split_and!; try done; [congruence|]; exists (<[i := p]> ps)|].
    + pose proof (cells_frame _ _ _ _ _ lr _ (NewArray, Pointers (<[i := p]> ps)) Hc
        ltac:(apply lookup_insert_eq)) as Hc'.
      by rewrite insert_insert_eq in Hc'.
    + unfold row_at, get, c_bind, lift. cbn [r_heap r_row].
      erewrite load_pointer_spec; [done|apply lookup_insert_eq|by apply list_lookup_insert_eq].
Qed.

(** [delete[] m_last_fetched_row[i]; m_last_fetched_row[i] = nullptr] *)
Lemma free_cell_spec vs ls h i :
  array_rep lr ll vs ls frame h -> (i < length vs)%nat ->
  exists p h1 h2, row_at i (at_heap h) = (Done p, at_heap h)
    /\ delete_array p (at_heap h) = (Done tt, at_heap h1)
    /\ set_row_at i None (at_heap h1) = (Done tt, at_heap h2)
    /\ array_rep lr ll (<[i := None]> vs) ls frame h2.
Proof using Type.
  intros Hr Hi. destruct (array_row _ _ _ Hr) as (ps & Hc & Er & _ & Hl).
  destruct (lookup_lt_is_Some_2 ps i) as [p Hp]; [lia|].
  destruct (cells_free _ _ _ _ _ _ _ Hc Hp) as (h1 & E1 & Hc1).
  destruct (array_store ps _ vs _ ls h h1 i None Hc1 Hr) as (h2 & E2 & Hr2 & _);
    [lia|apply length_insert|done|].
  exists p, h1, h2. split_and!; [..|done|done].
  - unfold row_at, get, c_bind, lift. cbn [r_heap r_row].
    by rewrite (load_pointer_spec _ _ _ _ _ _ Er Hp).
  - by apply on_heap_spec.
Qed.

Lemma new_cell_spec junk new_fails vs ls h i k :
  array_rep lr ll vs ls frame h -> vs !! i = Some None -> new_fails h k = false ->
  exists p h1 h2, new_array junk new_fails k (at_heap h) = (Done p, at_heap h1)
    /\ set_row_at i (Some p) (at_heap h1) = (Done tt, at_heap h2)
    /\ array_rep lr ll (<[i := Some (replicate (Z.to_nat k) junk)]> vs) ls frame h2
    /\ row_at i (at_heap h2) = (Done (Some p), at_heap h2).
Proof using Type.
  intros Hr Hi Hk. destruct (array_row _ _ _ Hr) as (ps & Hc & _ & _ & Hl).
  set (b := replicate (Z.to_nat k) junk).
  destruct (allocate NewArray (Data b) h) as [p h1] eqn:E.
  pose proof (cells_new _ _ _ _ _ _ _ _ _ Hc Hi E) as Hc1.
  pose proof (lookup_lt_Some _ _ _ Hi) as Hlt.
  destruct (array_store ps _ vs _ ls h h1 i (Some p) Hc1 Hr) as (h2 & E2 & Hr2 & Ep);
    [lia|apply length_insert|done|].
  exists p, h1, h2. split; [|done].
  unfold new_array, new_block, on_heap, c_bind, get. cbn [r_heap]. rewrite Hk. cbn [r_heap]. fold b. by rewrite E.
Qed.

(** Bytes are written to a block that has room for them. *)
Lemma write_cell_spec vs ls h i b b' :
  array_rep lr ll vs ls frame h -> vs !! i = Some (Some b) -> (length b' <= length b)%nat ->
  exists p h', row_at i (at_heap h) = (Done p, at_heap h)
    /\ write_at p b' (at_heap h) = (Done tt, at_heap h')
    /\ array_rep lr ll (<[i := Some (b' ++ drop (length b') b)]> vs) ls frame h'.
Proof using Type.
  intros Hr Hi Hle. destruct (array_row _ _ _ Hr) as (ps & Hc & Er & _ & Hl).
  destruct (Forall2_lookup_r _ _ _ _ _ (ca_cells _ _ _ _ _ Hc) Hi) as ([p|] & Hp & Hcell); [|done].
  destruct (cells_write _ _ _ _ _ _ _ (b' ++ drop (length b') b) Hc Hp) as (h' & E & Hc').
  exists (Some p), h'. split_and!.
  - unfold row_at, get, c_bind, lift. cbn [r_heap r_row].
    by rewrite (load_pointer_spec _ _ _ _ _ _ Er Hp).
  - apply on_heap_spec. unfold store_bytes, load. cbn in Hcell. rewrite Hcell, Done_bind. cbn [snd].
    apply Nat.leb_le in Hle. by rewrite Hle.
  - destruct Hr as (Hne & Hfr & Hfl & Hlen & _). split_and!; try done; [by rewrite length_insert|].
    by exists ps.
Qed.

(** [delete[] m_last_fetched_row[i]]: the array has a pointer to freed memory,
    until [m_last_fetched_row[i] = new char[k]] has worked. *)
Lemma replace_cell_spec junk (new_fails : heap -> Z -> bool) vs ls h i z k b :
  array_rep lr ll vs ls frame h -> vs !! i = Some (Some b) -> ls !! i = Some z ->
  exists p h1, row_at i (at_heap h) = (Done (Some p), at_heap h)
    /\ delete_array (Some p) (at_heap h) = (Done tt, at_heap h1)
    /\ length_at i (at_heap h1) = (Done z, at_heap h1)
    /\ if new_fails h1 k
       then new_array junk new_fails k (at_heap h1) = (Throw BadAlloc, at_heap h1)
         /\ exists ps, h1 !! lr = Some (NewArray, Pointers ps) /\ ps !! i = Some (Some p)
              /\ h1 !! p = None
       else exists q h2 h3, new_array junk new_fails k (at_heap h1) = (Done q, at_heap h2)
         /\ set_row_at i (Some q) (at_heap h2) = (Done tt, at_heap h3)
         /\ array_rep lr ll (<[i := Some (replicate (Z.to_nat k) junk)]> vs) ls frame h3.
Proof using Type.
  intros Hr Hi Hz. destruct (array_row _ _ _ Hr) as (ps & Hc & Er & El & Hl).
  destruct (Forall2_lookup_r _ _ _ _ _ (ca_cells _ _ _ _ _ Hc) Hi) as ([p|] & Hp & Hcell); [|done].
  pose proof (lookup_lt_Some _ _ _ Hi) as Hlt.
  destruct (cells_free _ _ _ _ _ _ _ Hc Hp) as (h1 & E1 & Hc1). cbn in Hcell.
  assert (h1 = delete p h) as Eh1.
  { rewrite (deallocate_block NewArray (Data b)) in E1 by done. by injection E1. }
  exists p, h1. split_and!.
  - unfold row_at, get, c_bind, lift. cbn [r_heap r_row].
    by rewrite (load_pointer_spec _ _ _ _ _ _ Er Hp).
  - by apply on_heap_spec.
  - destruct (frame_not_cell _ _ _ _ _ ll (NewArray, Longs ls) Hc1) as [_ El1].
    { rewrite lookup_insert_ne by by destruct Hr. apply lookup_insert_eq. }
    unfold length_at, get, c_bind, lift. cbn [r_heap m_last_fetched_lengths].
    by rewrite (load_long_spec _ _ _ _ _ _ El1 Hz).
  - unfold new_array, new_block, on_heap, c_bind, get. cbn [r_heap]. destruct (new_fails h1 k).
    + split; [done|]. exists ps. subst h1. split_and!; [|done|apply lookup_delete_eq].
      rewrite lookup_delete_ne; [done|]. intros ->. congruence.
    + cbn [r_heap]. set (b' := replicate (Z.to_nat k) junk).
      destruct (allocate NewArray (Data b') h1) as [q h2] eqn:E2.
      assert (<[i := None]> vs !! i = Some None) as Hi1 by (by apply list_lookup_insert_eq).
      pose proof (cells_new _ _ _ _ _ _ _ _ _ Hc1 Hi1 E2) as Hc2.
      rewrite !list_insert_insert_eq in Hc2.
      destruct (array_store ps _ vs _ ls h h2 i (Some q) Hc2 Hr) as (h3 & E3 & Hr3 & _);
        [lia|apply length_insert|done|].
      by exists q, h2, h3.
Qed.
End primitives.

(** ** The operations refine those of [Connection.v] *)

(** The command and the operation on values end in the same way: both return,
    with related results, or both throw the same exception, and then the members
    are in order, or both fail.  Or an allocation has failed; then the members
    are either freed as they should be or broken. *)
Definition agrees {M A B} (new_fails : heap -> Z -> bool) (frame : heap)
    (R : A -> row_state M -> B -> Prop) (r : outcome exn A * row_state M) (r0 : outcome exn B)
    : Prop :=
  match r.1, r0 with
  | Throw BadAlloc, _ =>
      (exists h n, new_fails h n = true) /\ (freeable frame r.2 \/ broken r.2)
  | Done a, Done b => R a r.2 b
  | Throw e, Throw e0 => e = e0 /\ exists fetched, row_rep r.2 frame fetched
  | AssertFail what, AssertFail what0 => what = what0
  | Undef _, Undef _ => True
  | _, _ => False
  end.

Lemma agrees_bind {M A B A' B'} new_fails frame (R : A -> row_state M -> B -> Prop)
    (R' : A' -> row_state M -> B' -> Prop) (m : command M A) k s m0 k0 :
  agrees new_fails frame R (m s) m0 ->
  (forall a s' b, R a s' b -> agrees new_fails frame R' (k a s') (k0 b)) ->
  agrees new_fails frame R' (c_bind m k s) (m0 ≫= k0).
Proof.
  intros Hm Hk. unfold c_bind. destruct (m s) as [[a|[]|w|w] s'], m0 as [b|e0|w0|w0]; try done.
  cbn in Hm |- *. by apply Hk.
Qed.

(** A command that only allocates. *)
Lemma agrees_then {M A A' B'} new_fails frame (R' : A' -> row_state M -> B' -> Prop)
    (m : command M A) k s (P : A -> row_state M -> Prop) r0 :
  agrees new_fails frame (fun a s' (_ : unit) => P a s') (m s) (Done tt) ->
  (forall a s', P a s' -> agrees new_fails frame R' (k a s') r0) ->
  agrees new_fails frame R' (c_bind m k s) r0.
Proof.
  intros Hm Hk. unfold c_bind. destruct (m s) as [[a|[]|w|w] s']; try done. by apply Hk.
Qed.

Lemma agrees_pair {M A X Y B} new_fails frame (R : A -> row_state M -> B -> Prop) (f : X -> Y -> B) r r0 :
  agrees new_fails frame (fun a s b => R a s (f b.1 b.2)) r r0 ->
  agrees new_fails frame R r ('((x, y) : X * Y) ← r0; Done (f x y)).
Proof. by destruct r as [[|[]| |] s], r0 as [[]| | |]. Qed.

Lemma agrees_triple {M A X Y W B} new_fails frame (R : A -> row_state M -> B -> Prop)
    (f : X -> Y -> W -> B) r r0 :
  agrees new_fails frame (fun a s b => R a s (f b.1.1 b.1.2 b.2)) r r0 ->
  agrees new_fails frame R r ('((x, y, z) : X * Y * W) ← r0; Done (f x y z)).
Proof. by destruct r as [[|[]| |] s], r0 as [[[]]| | |]. Qed.

Lemma agrees_mono {M A B} new_fails frame (R R' : A -> row_state M -> B -> Prop) r r0 :
  agrees new_fails frame R r r0 -> (forall a s b, R a s b -> R' a s b) ->
  agrees new_fails frame R' r r0.
Proof. intros Hr HR. destruct r as [[|[]| |] s], r0; try done. by apply HR. Qed.

(** The state of a row that is there or being filled; [vs] are its blocks. *)
Definition row_of {M} (m : M) (st : bool) (frame : heap) (vs : list (option bytes)) (ls : list Z)
    (s : row_state M) : Prop :=
  exists lr ll h, s = mkRow m st (length vs) (Some lr) (Some ll) h
    /\ array_rep lr ll vs ls frame h.

Lemma row_of_starts {M} (m : M) st frame vs bs ls s :
  row_of m st frame bs ls s -> Forall2 starts vs bs -> row_rep s frame (Some (vs, ls)).
Proof.
  intros (lr & ll & h & -> & Hr) Hs. exists lr, ll, bs. split_and!; try done.
  symmetry. by eapply Forall2_length.
Qed.

Lemma starts_refl v : starts v v.
Proof. destruct v; cbn; [reflexivity|done]. Qed.

Lemma row_of_rep {M} (m : M) st frame vs ls s :
  row_of m st frame vs ls s -> row_rep s frame (Some (vs, ls)).
Proof.
  intros Hr. eapply row_of_starts; [done|]. apply Forall2_same_length_lookup_2; [done|].
  intros i v b Hv Hb. rewrite Hv in Hb. injection Hb as ->. apply starts_refl.
Qed.

(** What the client library documents of its results: the count of the columns,
    and that it writes no more to a buffer than the length it is given. *)
Class BufferLaws (M : Type) `{!MysqlClient M} := {
  column_count m res :
    mysql_stmt_fields m = Some res -> mysql_stmt_field_count m = length res;
  array_length res m fields : mysql_fetch_fields res m = Some fields -> length fields = length res;
  fetch_in_bounds lens m status bound m' i len b :
    mysql_stmt_fetch lens m = (status, bound, m') -> lens !! i = Some len ->
    bound !! i = Some b -> is_null b = false -> (length (buffer b) <= Z.to_nat len)%nat;
  column_in_bounds i len m failed value m' :
    mysql_stmt_fetch_column i len m = (failed, value, m') -> (length value <= Z.to_nat len)%nat
}.

Section refinement.
Context `{Build} {M : Type} `{!MysqlClient M}.
Context (scan_double : string -> option Z) (uninit : Z) (junk : ascii) (new_fails : heap -> Z -> bool).
Context (frame : heap).
Abbreviation agrees := (agrees new_fails frame).
Abbreviation new_array := (new_array junk new_fails).

(** *** Freeing *)
Lemma free_fields_spec (m : M) st n lr ll k : forall i vs ls h,
  array_rep lr ll vs ls frame h -> (i + k)%nat = length vs ->
  (forall j, (j < i)%nat -> vs !! j = Some None) ->
  exists h', free_fields k i (mkRow m st n (Some lr) (Some ll) h)
      = (Done tt, mkRow m st n (Some lr) (Some ll) h')
    /\ array_rep lr ll (replicate (length vs) None) ls frame h'.
Proof using Type.
  induction k as [|k IH]; intros i vs ls h Hr Hk Hnone.
  - exists h. split; [done|]. assert (replicate (length vs) None = vs) as ->; [|done].
    apply replicate_as_elem_of. split; [done|]. intros v (j & Hj)%list_elem_of_lookup.
    pose proof (lookup_lt_Some _ _ _ Hj). rewrite Hnone in Hj by lia. by injection Hj.
  - destruct (free_cell_spec m st n lr ll frame vs ls h i Hr ltac:(lia))
      as (p & h1 & h2 & E1 & E2 & E3 & Hr2).
    cbn [free_fields]. rewrite (c_bind_Done _ _ _ _ _ E1), (c_bind_Done _ _ _ _ _ E2).
    rewrite (c_bind_Done _ _ _ _ _ E3).
    destruct (IH (S i) (<[i := None]> vs) ls h2 Hr2) as (h' & E & Hr').
    + rewrite length_insert. lia.
    + intros j Hj. destruct (decide (j = i)) as [->|Hne]; [apply list_lookup_insert_eq; lia|].
      rewrite list_lookup_insert_ne by done. apply Hnone. lia.
    + exists h'. by rewrite length_insert in Hr'.
Qed.

(** Whatever row there is, it is freed completely. *)
Lemma FreeLastFetched_spec (s : row_state M) fetched :
  row_rep s frame fetched -> freeable frame s.
Proof using Type.
  destruct s as [m st n row lens h]. unfold freeable. destruct fetched as [[vs0 ls]|]; cbn.
  2: { by intros (-> & -> & -> & ->). }
  intros (lr & ll & vs & -> & -> & -> & Hs & Hr). apply Forall2_length in Hs as ->.
  unfold FreeLastFetched. run_members.
  destruct (free_fields_spec m st (length vs) lr ll (length vs) 0 vs ls h Hr) as (h1 & E & Hr1);
    [done|lia|].
  rewrite (c_bind_Done _ _ _ _ _ E). destruct Hr1 as (Hne & Hfr & Hfl & _ & ps & Hc).
  apply cells_all_none in Hc as ->.
  assert (delete_array (Some lr) (mkRow m st (length vs) (Some lr) (Some ll)
    (<[lr:=(NewArray, Pointers ps)]> (<[ll:=(NewArray, Longs ls)]> frame)))
    = (Done tt, mkRow m st (length vs) (Some lr) (Some ll) (<[ll:=(NewArray, Longs ls)]> frame))) as E1.
  { apply on_heap_spec.
    rewrite (deallocate_block NewArray (Pointers ps)) by apply lookup_insert_eq.
    rewrite delete_insert_eq, delete_id; [done|]. by rewrite lookup_insert_ne. }
  rewrite (c_bind_Done _ _ _ _ _ E1). run_members.
  rewrite (c_bind_Done (delete_array (Some ll)) _ _ tt
    (mkRow m st (length vs) None (Some ll) frame)); [by run_members|].
  unfold delete_array, on_heap_, on_heap. cbn [r_heap].
  rewrite (deallocate_block NewArray (Longs ls)) by apply lookup_insert_eq.
  by rewrite delete_insert_eq, delete_id.
Qed.

(** *** Making a row *)

(** An allocation that fails where the members are in order. *)
Lemma bad_alloc_in_order {A B} (R : A -> row_state M -> B -> Prop) s fetched h k r0 :
  new_fails h k = true -> row_rep s frame fetched -> agrees R (Throw BadAlloc, s) r0.
Proof using Type.
  intros Hk Hr. split; [by exists h, k|]. left. by eapply FreeLastFetched_spec.
Qed.

Lemma new_array_fails (s : row_state M) k :
  new_fails (r_heap s) k = true -> new_array k s = (Throw BadAlloc, s).
Proof using Type. intros E. unfold RowMemory.new_array, new_block, c_bind, get. by rewrite E. Qed.

(** Without the array of pointers the members are broken, unless there are no
    columns. *)
Lemma no_pointers (m : M) st n lens h :
  (n = 0%nat -> freeable frame (mkRow m st n None lens h)) ->
  freeable frame (mkRow m st n None lens h) \/ broken (mkRow m st n None lens h).
Proof using Type. destruct n; [by left; auto|]. intros _. right. split; [cbn; lia|by left]. Qed.

Lemma new_row_agrees (m : M) st n :
  agrees (fun _ s (_ : unit) => row_of m st frame (replicate n None) (replicate n uninit) s)
    (new_row uninit new_fails n (mkRow m st n None None frame)) (Done tt).
Proof using Type.
  unfold new_row, new_block, on_heap, c_bind, get. cbn [r_heap].
  destruct (new_fails frame (8 * Z.of_nat n)) eqn:Ef.
  { cbn. split; [by do 2 eexists|]. apply no_pointers. by intros ->. }
  cbn [r_mysql r_stmt m_last_columns_num r_row m_last_fetched_lengths r_heap].
  destruct (allocate NewArray (Longs (replicate n uninit)) frame) as [ll h1] eqn:E1.
  apply allocate_spec in E1 as [Hl ->].
  cbn [set_lengths r_mysql r_stmt m_last_columns_num r_row m_last_fetched_lengths r_heap].
  destruct (new_fails (<[ll := _]> frame) _) eqn:Ef2.
  { cbn. split; [by do 2 eexists|]. apply no_pointers. intros ->.
    unfold freeable, FreeLastFetched, delete_array, on_heap_, on_heap, c_bind. cbn.
    rewrite lookup_insert_eq. cbn. by rewrite delete_insert_id. }
  cbn [r_mysql r_stmt m_last_columns_num r_row m_last_fetched_lengths r_heap].
  destruct (allocate NewArray (Pointers (replicate n None)) _) as [lr h2] eqn:E2.
  apply allocate_spec in E2 as [Hr ->].
  cbn. exists lr, ll. eexists. rewrite length_replicate. split; [reflexivity|].
  assert (lr <> ll) as Hne by (intros ->; by rewrite lookup_insert_eq in Hr).
  rewrite lookup_insert_ne in Hr by done.
  split_and!; try done; [by rewrite !length_replicate|].
  exists (replicate n None). apply cells_none.
Qed.

Lemma insert_middle {A} (pre suf : list A) x y i :
  i = length pre -> <[i := y]> (pre ++ x :: suf) = pre ++ y :: suf.
Proof using Type. intros ->. by rewrite insert_app_r_alt, Nat.sub_diag by done. Qed.

Lemma set_null_spec (m : M) st n lr ll vs ls h i :
  array_rep lr ll vs ls frame h -> vs !! i = Some None ->
  exists h', set_row_at i None (mkRow m st n (Some lr) (Some ll) h)
      = (Done tt, mkRow m st n (Some lr) (Some ll) h')
    /\ array_rep lr ll vs ls frame h'.
Proof using Type.
  intros Hr Hi. destruct (array_row _ _ _ _ _ _ Hr) as (ps & Hc & _ & _ & Hl).
  destruct (Forall2_lookup_r _ _ _ _ _ (ca_cells _ _ _ _ _ Hc) Hi) as ([p|] & Hp & Hcell); [done|].
  destruct (array_store m st n lr ll frame ps ps vs vs ls h h i None Hc Hr) as (h2 & E & Hr2 & _);
    [by eapply lookup_lt_Some|done|by apply list_insert_id|].
  by exists h2.
Qed.

(** The bytes that an array has before anything is written to it. *)
Definition fresh_bytes (n : Z) : bytes := replicate (Z.to_nat n) junk.

(** *** The text protocol *)
Lemma TextValue_length f v b len :
  TextValue scan_double uninit f v = Done (b, len) ->
  match b with Some b => len = Z.of_nat (length b) | None => len = uninit end.
Proof using Type.
  assert (forall w t r, scan_int w t = Done r -> length r = Z.to_nat w) as Hscan.
  { intros w t r E. unfold scan_int in E. repeat case_match; simplify_eq/=. apply length_le_encode. }
  unfold TextValue. intros E.
  repeat case_match; simplify_eq/=; try done; unfold c_assert in *;
    try (apply bind_Done in E as (r & Er & E); simplify_eq/=; try done;
         apply Hscan in Er; lia).
Qed.

Lemma TextValue_no_throw f v e : TextValue scan_double uninit f v <> Throw e.
Proof using Type.
  unfold TextValue, scan_int, c_assert. intros E. by repeat case_match; simplify_eq/=.
Qed.

Lemma text_cell_agrees (m : M) st f v pre lpre suf lsuf s :
  row_of m st frame (pre ++ None :: suf) (lpre ++ uninit :: lsuf) s -> length lpre = length pre ->
  agrees (fun _ s' (b : option bytes * Z) =>
      row_of m st frame (pre ++ b.1 :: suf) (lpre ++ b.2 :: lsuf) s')
    ((match v with
      | None => set_length_at (length pre) 0;;; set_row_at (length pre) None
      | Some v =>
          r <- lift (TextValue scan_double uninit f v);;
          match r with
          | (Some b, len) =>
              set_length_at (length pre) len;;;
              p <- new_array len;; set_row_at (length pre) (Some p);;; write_at (Some p) b
          | (None, _) => c_ret tt
          end
      end) s)
    (match v with None => Done (None, 0) | Some v => TextValue scan_double uninit f v end).
Proof using Type.
  intros Hrow Hl. assert (Hrow' := Hrow). destruct Hrow' as (lr & ll & h & -> & Hr).
  set (n := length (pre ++ None :: suf)) in *.
  assert (forall z, exists h', set_length_at (length pre) z
      (mkRow m st n (Some lr) (Some ll) h) = (Done tt, mkRow m st n (Some lr) (Some ll) h')
    /\ array_rep lr ll (pre ++ None :: suf) (lpre ++ z :: lsuf) frame h') as Hlen.
  { intros z. destruct (set_length_spec m st n lr ll frame _ _ h
      (length pre) z Hr) as (h' & E & Hr'); [rewrite length_app; cbn; lia|].
    exists h'. split; [done|]. by rewrite insert_middle in Hr'. }
  assert ((pre ++ None :: suf) !! length pre = Some None) as Hi by by apply list_lookup_middle.
  destruct v as [v|].
  2: { destruct (Hlen 0) as (h1 & E1 & Hr1). rewrite (c_bind_Done _ _ _ _ _ E1).
       destruct (set_null_spec m st n lr ll _ _ h1 _ Hr1 Hi) as (h2 & E2 & Hr2).
       rewrite E2. by exists lr, ll, h2. }
  unfold c_bind at 1, lift. destruct (TextValue scan_double uninit f v) as [[[b|] len]|e|w|w] eqn:Ev;
    [| |by apply TextValue_no_throw in Ev|done..].
  2: { apply TextValue_length in Ev as ->. by exists lr, ll, h. }
  apply TextValue_length in Ev as ->.
  destruct (Hlen (Z.of_nat (length b))) as (h1 & E1 & Hr1). rewrite (c_bind_Done _ _ _ _ _ E1).
  destruct (new_fails h1 (Z.of_nat (length b))) eqn:Ef.
  { rewrite (c_bind_Throw _ _ _ _ _ (new_array_fails (mkRow m st n (Some lr) (Some ll) _) _ Ef)).
    eapply bad_alloc_in_order; [done|]. apply (row_of_rep m st). by exists lr, ll, h1. }
  destruct (new_cell_spec m st n lr ll frame junk new_fails _ _ h1 (length pre) _ Hr1 Hi Ef)
    as (p & h2 & h3 & E2 & E3 & Hr3 & Ep).
  rewrite (c_bind_Done _ _ _ _ _ E2), (c_bind_Done _ _ _ _ _ E3).
  rewrite insert_middle, Nat2Z.id in Hr3 by done.
  destruct (write_cell_spec m st n lr ll frame _ _ h3 (length pre)
    (replicate (length b) junk) b Hr3)
    as (p' & h4 & Ep' & Ew & Hr4); [by apply list_lookup_middle|by rewrite length_replicate|].
  rewrite Ep in Ep'. injection Ep' as <-. rewrite Ew.
  rewrite insert_middle, drop_ge, app_nil_r in Hr4 by (by rewrite ?length_replicate).
  exists lr, ll, h4. split; [|done]. f_equal. unfold n. by rewrite !length_app.
Qed.

Lemma text_columns_agrees (m : M) st fields : forall row pre lpre s,
  row_of m st frame (pre ++ replicate (length fields) None)
    (lpre ++ replicate (length fields) uninit) s ->
  length lpre = length pre ->
  agrees (fun _ s' (b : list (option bytes) * list Z) =>
      row_of m st frame (pre ++ b.1) (lpre ++ b.2) s')
    (text_columns scan_double uninit junk new_fails (length pre) fields row s)
    (TextColumns scan_double uninit fields row).
Proof using Type.
  induction fields as [|f fields IH]; intros row pre lpre s Hrow Hl; [by cbn|].
  destruct row as [|v row]; [done|]. cbn [text_columns TextColumns length replicate] in *.
  eapply agrees_bind; [by apply (text_cell_agrees m st f v)|].
  intros _ s' [value len] Hs'. cbn [fst snd] in Hs'.
  apply (agrees_pair _ _ _ (fun values lengths => (value :: values, len :: lengths))).
  rewrite (cons_middle value), (cons_middle len), !app_assoc in Hs'.
  specialize (IH row (pre ++ [value]) (lpre ++ [len]) s' Hs').
  assert (length (pre ++ [value]) = S (length pre)) as El by (rewrite length_app; cbn; lia).
  rewrite El in IH.
  eapply agrees_mono; [apply IH; rewrite length_app; cbn; lia|]. intros _ s2 [values lens].
  cbn [fst snd]. by rewrite <- !app_assoc.
Qed.

(** The members stand for a connection. *)
Definition stands_for (c : S2Connection M) (s : row_state M) : Prop :=
  r_mysql s = mysql c /\ r_stmt s = m_stmt c /\ row_rep s frame (Connection.m_last_fetched_row c).

Lemma stands_freed c s :
  stands_for c s -> FreeLastFetched s = (Done tt, mkRow (mysql c) (m_stmt c) 0 None None frame).
Proof using Type. intros (<- & <- & Hr). by eapply FreeLastFetched_spec. Qed.

(** Without a row there is nothing to free, or the array is not there. *)
Lemma no_row_agrees R (m : M) st n what :
  agrees R (no_row what (mkRow m st n None None frame)) (Connection.no_row (M := M) n what).
Proof using Type. destruct n; [|done]. split; [done|]. by exists None. Qed.

Context `{!BufferLaws M}.

Lemma AdvanceText_agrees c s :
  stands_for c s ->
  agrees (fun a s' (r : bool * S2Connection M) => a = r.1 /\ stands_for r.2 s')
    (AdvanceText scan_double uninit junk new_fails (m_res c) s)
    (Connection.AdvanceText scan_double uninit c).
Proof using Type*.
  intros Hc. unfold AdvanceText, Connection.AdvanceText.
  rewrite (c_bind_Done _ _ _ _ _ (stands_freed c s Hc)).
  change (m_res (Connection.FreeLastFetched c)) with (m_res c).
  change (mysql (Connection.FreeLastFetched c)) with (mysql c).
  destruct (m_res c) as [res|] eqn:Eres; [|done]. do 2 run_members.
  destruct (mysql_fetch_fields res (mysql c)) as [fields|] eqn:Ef; [|apply no_row_agrees].
  rewrite <- (array_length _ _ _ Ef).
  eapply agrees_then; [apply new_row_agrees|]. intros [] s1 (lr & ll & h & -> & Hr).
  run_members.
  assert (forall m : M, row_of m (m_stmt c) frame (replicate (length fields) None)
    (replicate (length fields) uninit)
    (mkRow m (m_stmt c) (length (replicate (length fields) (@None bytes))) (Some lr) (Some ll) h))
    as Hrow by (intros m; by exists lr, ll, h).
  destruct (mysql_fetch_row (mysql c)) as [[row|] m]; run_members; specialize (Hrow m).
  - eapply agrees_bind; [by apply (text_columns_agrees m (m_stmt c) fields row [] [])|].
    intros [] s2 [values lens] Hs2. cbn [app fst snd] in Hs2. split; [done|]. cbn [snd].
    assert (r_mysql s2 = m /\ r_stmt s2 = m_stmt c) as [? ?] by by destruct Hs2 as (? & ? & ? & -> & _).
    split_and!; [done..|]. by apply row_of_rep in Hs2.
  - apply row_of_rep in Hrow. destruct (negb (mysql_errno m =? 0)); [split; [done|by eexists]|].
    by rewrite (c_bind_Done _ _ _ _ _ (FreeLastFetched_spec _ _ Hrow)).
Qed.

(** *** The binary protocol *)

(** The buffer of a column. *)
Definition buffer_of (f : MYSQL_FIELD) : option bytes :=
  Some (fresh_bytes (fst (bound_length (fld_type f)))).

Lemma bind_buffers_agrees (m : M) st fields : forall pre ls s,
  row_of m st frame (pre ++ replicate (length fields) None) ls s ->
  agrees (fun _ s' (_ : unit) => row_of m st frame (pre ++ (buffer_of <$> fields)) ls s')
    (bind_buffers junk new_fails (length fields) (length pre) fields s) (Done tt).
Proof using Type.
  induction fields as [|f fields IH]; intros pre ls s Hrow; [done|].
  cbn [length replicate bind_buffers fmap list_fmap] in *. assert (Hrow' := Hrow).
  destruct Hrow' as (lr & ll & h & -> & Hr).
  set (n := length (pre ++ None :: replicate (length fields) None)) in *.
  destruct (new_fails h (fst (bound_length (fld_type f)))) eqn:Ef.
  { rewrite (c_bind_Throw _ _ _ _ _ (new_array_fails (mkRow m st n (Some lr) (Some ll) _) _ Ef)).
    eapply bad_alloc_in_order; [done|]. by apply (row_of_rep m st). }
  destruct (new_cell_spec m st n lr ll frame junk new_fails _ _ h (length pre)
    (fst (bound_length (fld_type f))) Hr) as (p & h1 & h2 & E1 & E2 & Hr2 & _);
    [by apply list_lookup_middle|done|].
  rewrite (c_bind_Done _ _ _ _ _ E1), (c_bind_Done _ _ _ _ _ E2).
  rewrite insert_middle in Hr2 by done.
  specialize (IH (pre ++ [buffer_of f]) ls (mkRow m st n (Some lr) (Some ll) h2)).
  rewrite <- !app_assoc in IH. cbn [app] in IH.
  assert (length (pre ++ [buffer_of f]) = S (length pre)) as El by (rewrite length_app; cbn; lia).
  rewrite El in IH. apply IH.
  exists lr, ll, h2. split; [|done]. f_equal. unfold n. by rewrite !length_app.
Qed.

(** What the block of a bound column has after the row was fetched, and the
    length of its value. *)
Definition bound_block (f : MYSQL_FIELD) (b : bound_column) : option bytes :=
  if is_null b then buffer_of f
  else Some (buffer b ++ drop (length (buffer b)) (fresh_bytes (fst (bound_length (fld_type f))))).
Definition bound_len (b : bound_column) : Z := if is_null b then uninit else value_length b.

(** Every value that is not NULL fits its buffer. *)
Definition buffer_fits (f : MYSQL_FIELD) (b : bound_column) : Prop :=
  is_null b = false -> (length (buffer b) <= Z.to_nat (fst (bound_length (fld_type f))))%nat.

Lemma write_bound_spec (m : M) st fields : forall bound pre lpre s,
  row_of m st frame (pre ++ (buffer_of <$> fields)) (lpre ++ replicate (length fields) uninit) s ->
  length lpre = length pre ->
  (forall i f b, fields !! i = Some f -> bound !! i = Some b -> buffer_fits f b) ->
  exists s' rest lrest, write_bound (length pre) fields bound s = (Done tt, s')
    /\ row_of m st frame (pre ++ zip_with bound_block fields bound ++ rest)
         (lpre ++ (bound_len <$> take (length fields) bound) ++ lrest) s'
    /\ length lrest = length rest
    /\ (length (take (length fields) bound) + length rest)%nat = length fields.
Proof using Type.
  induction fields as [|f fields IH]; intros bound pre lpre s Hrow Hl Hfit.
  { exists s, [], []. cbn in *. by rewrite take_0. }
  destruct bound as [|b bound].
  { exists s, (buffer_of <$> f :: fields), (replicate (length (f :: fields)) uninit).
    split; [done|]. split; [done|]. by rewrite length_replicate, length_fmap. }
  cbn [length replicate write_bound take fmap list_fmap zip_with] in *.
  set (cell := if is_null b then _ else _).
  assert (exists s1, cell s = (Done tt, s1)
    /\ row_of m st frame (pre ++ bound_block f b :: (buffer_of <$> fields))
         (lpre ++ bound_len b :: replicate (length fields) uninit) s1) as (s1 & E1 & Hs1).
  { pose proof (Hfit 0%nat f b eq_refl eq_refl) as Hb. unfold buffer_fits in Hb.
    unfold cell, bound_block, bound_len. destruct (is_null b); [by exists s|].
    destruct Hrow as (lr & ll & h & -> & Hr).
    set (n := length (pre ++ buffer_of f :: (buffer_of <$> fields))).
    destruct (write_cell_spec m st n lr ll frame _ _ h (length pre)
      (fresh_bytes (fst (bound_length (fld_type f)))) (buffer b) Hr)
      as (p & h1 & Ep & Ew & Hr1);
      [by apply list_lookup_middle|unfold fresh_bytes; rewrite length_replicate; by apply Hb|].
    rewrite (c_bind_Done _ _ _ _ _ Ep), (c_bind_Done _ _ _ _ _ Ew).
    destruct (set_length_spec m st n lr ll frame _ _ h1 (length pre) (value_length b) Hr1)
      as (h2 & E & Hr2); [rewrite length_insert, length_app; cbn; lia|].
    rewrite E. eexists. split; [done|]. rewrite !insert_middle in Hr2 by done.
    exists lr, ll, h2. split; [|done]. f_equal. unfold n. by rewrite !length_app. }
  rewrite (c_bind_Done _ _ _ _ _ E1).
  rewrite (cons_middle (bound_block f b)), (cons_middle (bound_len b)), !app_assoc in Hs1.
  assert (length (pre ++ [bound_block f b]) = S (length pre)) as El by (rewrite length_app; cbn; lia).
  destruct (IH bound _ _ _ Hs1) as (s' & rest & lrest & E & Hs' & Hlr & Hlb);
    [rewrite !length_app; cbn; lia|intros i f' b' Hf Hb; by apply (Hfit (S i))|].
  rewrite El in E. exists s', rest, lrest. split; [done|]. cbn [length].
  split; [by rewrite <- !app_assoc in Hs'|lia].
Qed.

(** One column of the fetched row: a NULL value is freed, a value that fits its
    buffer stays, any other is fetched again into a buffer of its length. *)
Definition FetchColumn (i : nat) (f : MYSQL_FIELD) (b : bound_column) (m : M)
    : outcome exn (option bytes * Z * M) :=
  if is_null b then Done (None, 0, m)
  else if negb (snd (bound_length (fld_type f))) then Done (Some (buffer b), value_length b, m)
  else
    let '(failed, value, m) := mysql_stmt_fetch_column i (value_length b) m in
    if failed : bool then throw_stmt m else Done (Some value, value_length b, m).

Lemma fetch_cell_agrees (m : M) st f b pre lpre suf lsuf s :
  row_of m st frame (pre ++ bound_block f b :: suf) (lpre ++ bound_len b :: lsuf) s ->
  length lpre = length pre ->
  agrees (fun _ s' (r : option bytes * Z * M) =>
      exists block, starts r.1.1 block
        /\ row_of r.2 st frame (pre ++ block :: suf) (lpre ++ r.1.2 :: lsuf) s')
    ((let i := length pre in
      if is_null b then
         p <- row_at i;; delete_array p;;; set_row_at i None;;; set_length_at i 0
       else if negb (snd (bound_length (fld_type f))) then c_ret tt
       else
         p <- row_at i;; delete_array p;;;
         len <- length_at i;;
         tmp <- new_array len;; set_row_at i (Some tmp);;;
         s <- get;;
         let '(failed, value, m) := mysql_stmt_fetch_column i len (r_mysql s) in
         set_mysql m;;;
         if failed : bool then FreeLastFetched;;; lift (throw_stmt m)
         else buffer <- row_at i;; write_at buffer value) s)
    (FetchColumn (length pre) f b m).
Proof using Type*.
  intros (lr & ll & h & -> & Hr) Hl. cbv zeta. unfold FetchColumn.
  set (n := length (pre ++ bound_block f b :: suf)).
  assert (length pre < length (pre ++ bound_block f b :: suf))%nat as Hi
    by (rewrite length_app; cbn; lia).
  assert (forall v, length (pre ++ v :: suf) = n) as En
    by (intros v; unfold n; by rewrite !length_app).
  unfold bound_block, bound_len in *. destruct (is_null b).
  - destruct (free_cell_spec m st n lr ll frame _ _ h (length pre) Hr Hi)
      as (p & h1 & h2 & E1 & E2 & E3 & Hr2).
    rewrite (c_bind_Done _ _ _ _ _ E1), (c_bind_Done _ _ _ _ _ E2), (c_bind_Done _ _ _ _ _ E3).
    destruct (set_length_spec m st n lr ll frame _ _ h2 (length pre) 0 Hr2) as (h3 & E & Hr3);
      [by rewrite length_insert|].
    rewrite E. exists None. split; [done|]. rewrite !insert_middle in Hr3 by done.
    exists lr, ll, h3. by rewrite En.
  - destruct (negb (snd (bound_length (fld_type f)))).
    { cbn [c_ret]. eexists. split; [|by exists lr, ll, h]. cbn. by apply prefix_app_r. }
    destruct (replace_cell_spec m st n lr ll frame junk new_fails _ _ h (length pre) (value_length b)
      (value_length b)
      (buffer b ++ drop (length (buffer b)) (fresh_bytes (fst (bound_length (fld_type f))))) Hr) as (p & h1 & E1 & E2 & E3 & Hnew);
      [by apply list_lookup_middle|by apply list_lookup_middle|].
    rewrite (c_bind_Done _ _ _ _ _ E1), (c_bind_Done _ _ _ _ _ E2), (c_bind_Done _ _ _ _ _ E3).
    destruct (new_fails h1 (value_length b)) eqn:Ef.
    { destruct Hnew as (E4 & ps & Elr & Hp & Ep). unfold c_bind at 1. rewrite E4.
      split; [by do 2 eexists|]. right. split; [cbn; lia|]. right.
      exists lr, ps, (length pre), p. by split_and!. }
    destruct Hnew as (q & h2 & h3 & E4 & E5 & Hr3).
    rewrite (c_bind_Done _ _ _ _ _ E4), (c_bind_Done _ _ _ _ _ E5).
    rewrite insert_middle in Hr3 by done. run_members.
    destruct (mysql_stmt_fetch_column (length pre) (value_length b) m) as [[failed value] m1] eqn:Ev.
    apply column_in_bounds in Ev. run_members. destruct failed.
    + assert (row_of m1 st frame (pre ++ Some (fresh_bytes (value_length b)) :: suf)
        (lpre ++ value_length b :: lsuf) (mkRow m1 st n (Some lr) (Some ll) h3)) as Hrow%row_of_rep
        by (exists lr, ll, h3; by rewrite En).
      rewrite (c_bind_Done _ _ _ _ _ (FreeLastFetched_spec _ _ Hrow)).
      split; [done|]. by exists None.
    + destruct (write_cell_spec m1 st n lr ll frame _ _ h3 (length pre)
          (fresh_bytes (value_length b)) value Hr3)
        as (p' & h4 & Ep & Ew & Hr4);
        [by apply list_lookup_middle|unfold fresh_bytes; by rewrite length_replicate|].
      rewrite (c_bind_Done _ _ _ _ _ Ep), Ew. eexists.
      rewrite insert_middle in Hr4 by done. split; [|exists lr, ll, h4; by rewrite En].
      cbn. by apply prefix_app_r.
Qed.

Lemma fetch_columns_agrees st fields : forall bound (m : M) pre lpre rest lrest s,
  let bs := take (length fields) bound in
  row_of m st frame (pre ++ zip_with bound_block fields bound ++ rest)
    (lpre ++ (bound_len <$> bs) ++ lrest) s ->
  length lpre = length pre -> length lrest = length rest ->
  (length bs + length rest)%nat = length fields ->
  agrees (fun _ s' (r : list (option bytes) * list Z * M) =>
      exists blocks, Forall2 starts r.1.1 blocks
        /\ row_of r.2 st frame (pre ++ blocks) (lpre ++ r.1.2) s')
    (fetch_columns junk new_fails (length pre) fields bound s)
    (FetchColumns (length pre) fields bound m).
Proof using Type*.
  induction fields as [|f fields IH]; intros bound m pre lpre rest lrest s bs Hrow Hl Hlr Hlen.
  { unfold bs in *. cbn [length] in Hlen. rewrite take_0 in *. destruct rest; [|done].
    destruct lrest; [|done]. by exists []. }
  destruct bound as [|b bound]; [done|]. unfold bs in *.
  cbn [length take fmap list_fmap zip_with fetch_columns FetchColumns app] in *.
  eapply agrees_bind; [by apply (fetch_cell_agrees m st f b)|].
  intros _ s' [[value len] m'] (block & Hv & Hs'). cbn [fst snd] in Hv, Hs'.
  apply (agrees_triple _ _ _ (fun values lengths m => (value :: values, len :: lengths, m))).
  rewrite (cons_middle block), (app_assoc pre), (cons_middle len), (app_assoc lpre) in Hs'.
  assert (length (pre ++ [block]) = S (length pre)) as El by (rewrite length_app; cbn; lia).
  specialize (IH bound m' (pre ++ [block]) (lpre ++ [len]) rest lrest s' Hs'). rewrite El in IH.
  eapply agrees_mono; [apply IH; [rewrite length_app; cbn; lia|done|lia]|].
  intros _ s2 [[values lens] m2] (blocks & Hvs & Hs2). cbn [fst snd] in *.
  exists (block :: blocks). split; [by constructor|]. by rewrite <- !app_assoc in Hs2.
Qed.

Lemma CleanupStatement_freed m st fetched s :
  row_rep s frame fetched -> r_mysql s = m -> r_stmt s = st ->
  CleanupStatement true s = (Done tt, mkRow (mysql_stmt_close m) false 0 None None frame).
Proof using Type.
  intros Hr <- <-. unfold CleanupStatement. destruct s as [m st n row lens h]. run_members.
  erewrite FreeLastFetched_spec; [|exact Hr]. done.
Qed.

(** From the bound buffers on. *)
Lemma fetch_row_agrees c fields (s : row_state M) m :
  row_of m true frame (buffer_of <$> fields) (replicate (length fields) uninit) s ->
  m_stmt c = true ->
  agrees (fun a s' (r : bool * S2Connection M) => a = r.1 /\ stands_for r.2 s')
    ((let '(status, bound, m) :=
        mysql_stmt_fetch (map (fun f => fst (bound_length (fld_type f))) fields) m in
      set_mysql m;;;
      if status =? MYSQL_NO_DATA then CleanupStatement true;;; c_ret false
      else if negb (status =? MYSQL_DATA_TRUNCATED) && negb (status =? 0) then
        FreeLastFetched;;;
        (if negb (mysql_stmt_errno m =? 0) then lift (throw_stmt m) else lift (throw_mysql m))
      else write_bound 0 fields bound;;; fetch_columns junk new_fails 0 fields bound;;; c_ret true) s)
    (let '(status, bound, m) :=
       mysql_stmt_fetch (map (fun f => fst (bound_length (fld_type f))) fields) m in
     if status =? MYSQL_NO_DATA then
       Done (false, Connection.CleanupStatement true (Connection.set_mysql m c))
     else if negb (status =? MYSQL_DATA_TRUNCATED) && negb (status =? 0) then
       if negb (mysql_stmt_errno m =? 0) then throw_stmt m else throw_mysql m
     else
       '((values, lengths, m) : list (option bytes) * list Z * M)
         ← FetchColumns 0 fields bound m;
       Done (true, set_fetched (Some (values, lengths)) (Connection.set_mysql m c))).
Proof using Type*.
  intros (lr & ll & h & -> & Hr) Est.
  assert (forall m : M, row_of m true frame (buffer_of <$> fields) (replicate (length fields) uninit)
    (mkRow m true (length (buffer_of <$> fields)) (Some lr) (Some ll) h))
    as Hrow by (intros m'; by exists lr, ll, h).
  destruct (mysql_stmt_fetch _ m) as [[status bound] m2] eqn:Ev. run_members. specialize (Hrow m2).
  destruct (status =? MYSQL_NO_DATA).
  { erewrite c_bind_Done; [|eapply CleanupStatement_freed; [by eapply row_of_rep|done..]].
    done. }
  destruct (negb (status =? MYSQL_DATA_TRUNCATED) && negb (status =? 0)).
  { rewrite (c_bind_Done _ _ _ _ _ (FreeLastFetched_spec _ _ (row_of_rep _ _ _ _ _ _ Hrow))).
    destruct (negb (mysql_stmt_errno m2 =? 0)); (split; [done|by exists None]). }
  destruct (write_bound_spec m2 true fields bound [] [] _ Hrow)
    as (s3 & rest & lrest & E3 & Hs3 & Hlr & Hlb); [done| |].
  { intros i f b Hf Hb Hnull. eapply fetch_in_bounds; [exact Ev| |exact Hb|exact Hnull].
    rewrite list_lookup_fmap. by rewrite Hf. }
  rewrite (c_bind_Done _ _ _ _ _ E3).
  eapply agrees_bind; [by apply (fetch_columns_agrees true fields bound m2 [] [] rest lrest)|].
  intros [] s4 [[values lens] m3] (blocks & Hvs & Hs4). cbn [app fst snd] in *.
  split; [done|]. cbn [snd].
  assert (r_mysql s4 = m3 /\ r_stmt s4 = true) as [? ?] by by destruct Hs4 as (? & ? & ? & -> & _).
  split; [done|]. split; [cbn; congruence|]. by eapply row_of_starts.
Qed.

Lemma AdvanceBinary_agrees c s :
  stands_for c s ->
  agrees (fun a s' (r : bool * S2Connection M) => a = r.1 /\ stands_for r.2 s')
    (AdvanceBinary uninit junk new_fails s) (Connection.AdvanceBinary c).
Proof using Type*.
  intros Hc. unfold AdvanceBinary, Connection.AdvanceBinary.
  rewrite (c_bind_Done _ _ _ _ _ (stands_freed c s Hc)). run_members.
  cbn [m_stmt mysql Connection.FreeLastFetched set_fetched].
  destruct (m_stmt c) eqn:Est; cbn [negb]; [|done]. run_members.
  destruct (mysql_stmt_fields (mysql c)) as [res|] eqn:Ef; cbn [mbind option_bind];
    [|apply no_row_agrees].
  rewrite (column_count _ _ Ef).
  destruct (mysql_fetch_fields res (mysql c)) as [fields|] eqn:Efs; [|apply no_row_agrees].
  rewrite <- (array_length _ _ _ Efs).
  eapply agrees_then; [apply new_row_agrees|]. intros [] s1 Hs1.
  destruct (new_fails (r_heap s1) (sizeof_MYSQL_BIND * Z.of_nat (length fields))) eqn:Eb.
  { unfold new_bind, c_bind, get. rewrite Eb.
    eapply bad_alloc_in_order; [done|]. by apply row_of_rep in Hs1. }
  rewrite (c_bind_Done (new_bind new_fails (length fields)) _ s1 tt s1)
    by (unfold new_bind, c_bind, get; by rewrite Eb).
  eapply agrees_then; [by apply (bind_buffers_agrees (mysql c) true fields [])|].
  intros [] s2 (lr & ll & h & -> & Hr). cbn [app] in *. run_members.
  destruct (mysql_stmt_bind_result (mysql c)) as [failed m1]. run_members.
  assert (row_of m1 true frame (buffer_of <$> fields) (replicate (length fields) uninit)
    (mkRow m1 true (length (buffer_of <$> fields)) (Some lr) (Some ll) h)) as Hrow by by exists lr, ll, h.
  destruct failed.
  - rewrite (c_bind_Done _ _ _ _ _ (FreeLastFetched_spec _ _ (row_of_rep _ _ _ _ _ _ Hrow))).
    split; [done|]. by exists None.
  - by apply fetch_row_agrees.
Qed.

(** *** The destructor *)
Lemma destroy_spec b (s : row_state M) :
  freeable frame s ->
  exists m st, destroy b s = (Done tt, mkRow m st 0 None None frame)
    /\ forall c, mysql c = r_mysql s -> m_stmt c = r_stmt s -> m_need_stmt_close c = b ->
         mysql (Connection.destroy c) = m /\ m_stmt (Connection.destroy c) = st.
Proof using Type.
  intros Hr. unfold destroy. rewrite (c_bind_Done _ _ _ _ _ Hr).
  run_members. unfold Connection.destroy, Connection.CleanupStatement.
  destruct (r_stmt s) eqn:Est, b; cbn [andb]; unfold CleanupStatement;
    (eexists _, _; split; [reflexivity|]);
    intros c <- Ec Eb; cbn; rewrite Ec, Eb; cbn; by rewrite ?Ec.
Qed.

(** The loop over the fields comes to the pointer to freed memory. *)
Lemma free_fields_dangling k : forall i (m : M) st n lr lens h ps j p,
  h !! lr = Some (NewArray, Pointers ps) -> (i <= j < i + k)%nat ->
  ps !! j = Some (Some p) -> h !! p = None ->
  exists what s', free_fields k i (mkRow m st n (Some lr) lens h) = (Undef what, s').
Proof using Type.
  induction k as [|k IH]; intros i m st n lr lens h ps j p Hlr Hj Hp Hfree; [lia|].
  destruct (lookup_lt_is_Some_2 ps i) as [q Hq]; [apply lookup_lt_Some in Hp; lia|].
  cbn [free_fields]. unfold c_bind at 1, row_at, get, c_bind at 1, lift. cbn [r_heap r_row].
  rewrite (load_pointer_spec _ _ _ _ _ _ Hlr Hq).
  unfold delete_array, on_heap_, on_heap at 1, c_bind at 1. cbn [r_heap].
  destruct (decide (i = j)) as [<-|Hne].
  { rewrite Hp in Hq. injection Hq as <-. unfold deallocate. rewrite Hfree. by do 2 eexists. }
  assert (forall h', h' !! lr = Some (NewArray, Pointers ps) \/ h' !! lr = None -> h' !! p = None ->
    exists what s', c_bind (set_row_at i None) (fun _ => free_fields k (S i))
      (mkRow m st n (Some lr) lens h') = (Undef what, s')) as Hnext.
  { intros h' Hlr' Hp'. unfold c_bind, set_row_at, get, on_heap_, on_heap. cbn [r_heap r_row c_bind].
    destruct Hlr' as [Hlr'|Hlr'].
    - erewrite store_pointer_spec; [|exact Hlr'|by apply lookup_lt_Some in Hq].
      eapply (IH (S i) m st n lr lens _ _ j p); [apply lookup_insert_eq|lia|by rewrite list_lookup_insert_ne|].
      rewrite lookup_insert_ne; [done|]. by intros ->; congruence.
    - unfold store_pointer, load. rewrite Hlr'. by do 2 eexists. }
  destruct q as [q|]; cbn [deallocate]; [|apply Hnext; [by left|done]].
  destruct (h !! q) as [[kind cont]|] eqn:Eq; [|by do 2 eexists].
  destruct (decide (NewArray = kind)); [|by do 2 eexists].
  apply Hnext; [|by apply lookup_delete_None; right].
  destruct (decide (q = lr)) as [->|Hqr]; [right; apply lookup_delete_eq|left].
  by rewrite lookup_delete_ne.
Qed.

Lemma broken_spec b (s : row_state M) :
  broken s -> exists what, (destroy b s).1 = Undef what.
Proof using Type.
  destruct s as [m st n row lens h]. intros (Hn & Hrow). cbn in Hn, Hrow.
  assert (exists what s', free_fields n 0 (mkRow m st n row lens h) = (Undef what, s')) as (what & s' & E).
  { destruct Hrow as [->|(lr & ps & i & p & -> & Hlr & Hi & Hp & Hf)].
    - destruct n as [|n]; [lia|]. by do 2 eexists.
    - apply (free_fields_dangling n 0 m st n lr lens h ps i p); [done|lia|done..]. }
  exists what. unfold destroy. erewrite c_bind_Undef; [done|].
  unfold FreeLastFetched. run_members. by erewrite c_bind_Undef.
Qed.

(** C22. The hand-made memory of a fetched row implements the row as a value,
    as long as memory can be allocated.  From members that stand for a
    connection, [Advance] does, in both protocols, what it does on values: it
    returns the same, with members that stand for the connection it leaves
    (every value at the beginning of a block that has room for it), throws the
    same exception, with members that are still in order, or is undefined where
    that is; so it never frees anything twice, uses freed memory, writes out of
    an array or lets the client library write past the end of a buffer, given
    that the library keeps to the lengths it is told.  If there are allocations
    that fail, it can throw bad_alloc instead, and then the members are either
    freed completely by the destructor or broken: there are columns and no array
    for them, or a pointer to a buffer that has been deleted.  The destructor of a connection with a row in order frees all of it, and the heap
    is what it was; over broken members it is undefined. *)
Theorem fetched_row_refines c (s : row_state M) :
  stands_for c s ->
  let destroy := destroy (m_need_stmt_close c) in
  agrees (fun a s' (r : bool * S2Connection M) => a = r.1 /\ stands_for r.2 s')
    (Advance scan_double uninit junk new_fails (m_use_binary_protocol c) (m_res c) s)
    (Connection.Advance scan_double uninit c)
  /\ (forall s1 fetched, row_rep s1 frame fetched \/ freeable frame s1 ->
       exists s2, destroy s1 = (Done tt, s2) /\ r_heap s2 = frame)
  /\ (forall s1, broken s1 -> exists what, (destroy s1).1 = Undef what)
  /\ exists s2, destroy s = (Done tt, s2) /\ stands_for (Connection.destroy c) s2.
Proof using Type*.
  intros Hc destroy. split_and!.
  - unfold Advance, Connection.Advance. destruct (m_use_binary_protocol c);
      [by apply AdvanceBinary_agrees|by apply AdvanceText_agrees].
  - intros s1 fetched Hr. destruct (destroy_spec (m_need_stmt_close c) s1) as (m & st & E & _);
      [destruct Hr as [Hr|Hr]; [by eapply FreeLastFetched_spec|done]|]. by eexists.
  - intros s1. apply broken_spec.
  - destruct Hc as (Em & Es & Hr).
    destruct (destroy_spec (m_need_stmt_close c) s) as (m & st & E & Hd); [by eapply FreeLastFetched_spec|].
    destruct (Hd c ltac:(done) ltac:(done) eq_refl) as [E1 E2].
    eexists. split; [done|]. split_and!; [done|done|]. unfold Connection.destroy.
    by repeat case_match.
Qed.
End refinement.

(** ** The row over the client of lists

    The client writes no more than the buffer it is given. *)
#[local] Existing Instance release_build.

Definition cut (len : Z) (b : bound_column) : bound_column :=
  mkBound (is_null b) (value_length b) (take (Z.to_nat len) (buffer b)).

#[local] Instance row_mysql : MysqlClient demo_client := {
  mysql_stmt_fetch lens m :=
    let '(status, bound, m) := mysql_stmt_fetch (MysqlClient := demo_mysql) lens m in
    (status, zip_with cut lens bound, m);
  mysql_init := mysql_init; mysql_ssl := mysql_ssl; mysql_real_connect := mysql_real_connect;
  mysql_errno := mysql_errno; mysql_error := mysql_error;
  mysql_stmt_errno := mysql_stmt_errno; mysql_stmt_error := mysql_stmt_error;
  mysql_query := mysql_query; mysql_store_result := mysql_store_result;
  mysql_affected_rows := mysql_affected_rows;
  mysql_use_result := mysql_use_result; mysql_fetch_row := mysql_fetch_row;
  mysql_stmt_init := mysql_stmt_init; mysql_stmt_prepare := mysql_stmt_prepare;
  mysql_stmt_execute := mysql_stmt_execute; mysql_stmt_field_count := mysql_stmt_field_count;
  mysql_stmt_fields := mysql_stmt_fields; mysql_fetch_fields := mysql_fetch_fields;
  mysql_stmt_bind_result := mysql_stmt_bind_result;
  mysql_stmt_fetch_column := mysql_stmt_fetch_column;
  mysql_stmt_close := mysql_stmt_close; mysql_close := mysql_close;
  mysql_get_local_infile := mysql_get_local_infile;
  mysql_load_text := mysql_load_text; mysql_load_avro := mysql_load_avro
}.

#[local] Instance row_buffers : BufferLaws (MysqlClient0 := row_mysql) demo_client.
Proof.
  refine (Build_BufferLaws _ row_mysql _ _ _ _).
  - by intros m res [= <-].
  - by intros res m fields [= <-].
  - intros lens m status bound m' i len b. cbn.
    destruct (match d_rows m with [] => _ | _ => _ end) as [[st bound'] m1].
    intros [= <- <- <-] Hlen Hb _.
    apply lookup_zip_with_Some in Hb as (len' & b' & -> & Hl & _).
    rewrite Hlen in Hl. injection Hl as <-. cbn. rewrite length_take. lia.
  - intros i len m failed value m'. cbn.
    destruct (d_row m !! i) as [[v|]|]; intros [= <- <- <-]; [rewrite length_take; lia|cbn; lia..].
Defined.

(** A column of text of 20 bytes. *)
Definition demo_text : bytes := replicate 20 "x"%char.
Definition demo_text_connection : S2Connection demo_client :=
  demo_connection (mkDemo [] [] [demo_field "t" MYSQL_TYPE_VAR_STRING] [[Some demo_text]; [None]] []).
Definition demo_members : row_state demo_client :=
  mkRow (mysql demo_text_connection) true 0 None None ∅.

Lemma demo_text_advance :
  exists c', Connection.Advance no_double 0 demo_text_connection = Done (true, c')
    /\ Connection.m_last_fetched_row c' = Some ([Some demo_text], [20]).
Proof. eexists. split; vm_compute; reflexivity. Qed.

(** The first row is fetched, the destructor leaves an empty heap. *)
Lemma fetched_row_refines_witness :
  exists r, Advance no_double 0 "?"%char (fun _ _ => false)
      (m_use_binary_protocol demo_text_connection) (m_res demo_text_connection) demo_members = r
    /\ r.1 = Done true /\ row_rep r.2 ∅ (Some ([Some demo_text], [20]))
    /\ exists s2, destroy (m_need_stmt_close demo_text_connection) r.2 = (Done tt, s2)
         /\ r_heap s2 = ∅.
Proof.
  destruct demo_text_advance as (c' & E & Ec).
  destruct (fetched_row_refines (H := release_build) no_double 0 "?"%char (fun _ _ => false) ∅
    demo_text_connection demo_members) as (Ha & Hd & _);
    [split; [reflexivity|split; [reflexivity|split_and!; reflexivity]]|].
  rewrite E in Ha. eexists. split; [reflexivity|].
  destruct (Advance _ _ _ _ _ _ demo_members) as [[b|[]|w|w] s'];
    try (by destruct Ha as [(? & ? & [=]) _]); try (by destruct Ha).
  destruct Ha as (Hb & _ & _ & Hr). cbn [fst snd] in *. subst b. rewrite Ec in Hr.
  split; [reflexivity|]. split; [exact Hr|]. exact (Hd s' _ (or_introl Hr)).
Defined.

(** A buffer that cannot be allocated: the pointer to the old buffer, which has
    been deleted, stays in the row, and the destructor deletes it again. *)
Lemma refetch_bad_alloc :
  let r := Advance no_double 0 "?"%char (fun _ n => n =? 20) true None demo_members in
  r.1 = Throw BadAlloc /\ broken r.2
  /\ (destroy true r.2).1 = Undef "memory freed that is not allocated".
Proof.
  split; [by vm_compute|]. split; [|by vm_compute]. split; [vm_compute; lia|]. right.
  do 2 eexists. exists 0%nat. eexists. split_and!; vm_compute; [reflexivity..|lia|reflexivity|reflexivity].
Qed.

(** No metadata of a result that has columns: the fields of a row that is not
    there are freed. *)
Lemma no_metadata_null_row (m : demo_client) :
  (free_fields (M := demo_client) 1 0 (mkRow m true 1 None None ∅)).1
  = Undef "access through a null pointer".
Proof. done. Qed.
