(* ===== verification/Client.v ===== *)
(** The class [S2Client] and the functions of the C interface in
    [s2_client.cpp]: the client with its one connection, the error it
    remembers, and the error callbacks of the caller.

    [Connection.v] does not keep the connection that a throwing call leaves.
    Where the code here catches the exception and goes on with the client, its
    connection is [after_throw c], about which nothing is assumed. *)

From Stdlib Require Import Ascii String.
From stdpp Require Import base list strings numbers tactics.
From stdpp Require Import options.
From S2P Require Import Prelude Schema Text AvroWriter Utils Sql TableReader Connection.

(** ** Errors that are reported *)

(** A call of the caller's [setError]. *)
Record report := mkReport { rep_code : Z; rep_message : string; rep_severity : Z }.

Definition error_report (e : S2ClientError) : report :=
  mkReport (m_errorCode e) (m_errorMessage e) S2C_SEVERITY_ERROR.

(** [cb->setError (...)]; [cb]: whether the caller gave a callback. *)
Definition call_cb (cb : bool) (r : report) : outcome exn (list report) :=
  if cb then Done [r] else Undef "call through a null callback".

(** [catch (S2ClientError &)]. *)
Definition catch_s2 {A} (m : outcome exn A) : outcome exn (S2ClientError + A) :=
  match m with
  | Done a => Done (inr a)
  | Throw (S2Exn e) => Done (inl e)
  | Throw e => Throw e
  | AssertFail what => AssertFail what
  | Undef what => Undef what
  end.

(** The same with [catch (std::bad_alloc &)] after it. *)
Definition alloc_failure : S2ClientError :=
  mkS2ClientError S2C_ERROR_MEMORY_ALLOCATION "Failed to allocate memory".
Definition catch_s2_alloc {A} (m : outcome exn A) : outcome exn (S2ClientError + A) :=
  match m with
  | Throw BadAlloc => Done (inl alloc_failure)
  | m => catch_s2 m
  end.

Section client.
Context `{Build} {M : Type} `{!MysqlClient M}.
Context (after_throw : S2Connection M -> S2Connection M).

(** ** class S2Client ([m_chunk_reader] is set anew for each chunk) *)
Record S2Client := mkClient {
  m_numPartitions : Z;       (* uint32_t *)
  m_serverVersion : string;
  m_workerId : Z;            (* uint32_t *)
  m_numWorkers : Z;          (* uint32_t *)
  client_conn : S2Connection M;
  client_error : S2ClientError
}.

Definition set_client_conn (c : S2Connection M) (cl : S2Client) : S2Client :=
  mkClient (m_numPartitions cl) (m_serverVersion cl) (m_workerId cl) (m_numWorkers cl)
    c (client_error cl).
Definition set_client_error (e : S2ClientError) (cl : S2Client) : S2Client :=
  mkClient (m_numPartitions cl) (m_serverVersion cl) (m_workerId cl) (m_numWorkers cl)
    (client_conn cl) e.

(** The client whose connection a caught exception went through. *)
Definition conn_thrown (cl : S2Client) : S2Client :=
  set_client_conn (after_throw (client_conn cl)) cl.

Definition ClientConnect (workerId numWorkers : Z) (host : string) (port : Z) (db : string)
    (user : option string) (password : string) (ssl_ca : option string)
    : outcome exn S2Client :=
  c ← ConnectTo host port db user password ssl_ca;
  '((n, c) : Z * S2Connection M) ←
    (if decide (smap tolower db <> "information_schema"%string) then GetPartitionsNumber c
     else Done (1, c));
  '((version, c) : string * S2Connection M) ← GetServerVersion c;
  Done (mkClient (u32 n) version workerId numWorkers c no_error).

(** [SetError]: the callback may be NULL here. *)
Definition ClientSetError (e : S2ClientError) (cb : bool) (cl : S2Client)
    : S2Client * list report :=
  (set_client_error e cl, if cb then [error_report e] else []).

(** ** The C interface *)
Definition S2ClientInit (host : string) (port : Z) (db : string) (user : option string)
    (password : string) (ssl_ca : option string) (numWorkers workerId : Z) (cb : bool)
    : outcome exn (option S2Client * list report) :=
  r ← catch_s2 (ClientConnect (u32 workerId) (u32 numWorkers) host port db user password ssl_ca);
  match r with
  | inr cl => Done (Some cl, [])
  | inl e => reports ← call_cb cb (error_report e); Done (None, reports)
  end.

Definition ExecuteDDLQuery (query : string) (cb : bool) (cl : S2Client)
    : outcome exn (Z * S2Client * list report) :=
  let '(cl, _) := ClientSetError no_error false cl in
  r ← catch_s2 (ExecuteDDL query (client_conn cl));
  match r with
  | inr (affected_rows, c) => Done (affected_rows, set_client_conn c cl, [])
  | inl e =>
      let '(cl, reports) := ClientSetError e cb (conn_thrown cl) in
      Done (-1, cl, reports)
  end.

(** The conversion of the result to [int]. *)
Definition ClientGetPartitionsNumber (cl : S2Client) : Z := s32 (m_numPartitions cl).

(** An exception of the connection goes to the callback, which is not checked;
    the error of the client stays what it was. *)
Definition reported {A} (m : outcome exn A) (cb : bool) (cl : S2Client)
    : outcome exn (A * list report + S2Client * list report) :=
  r ← catch_s2 m;
  match r with
  | inr a => Done (inl (a, []))
  | inl e => reports ← call_cb cb (error_report e); Done (inr (conn_thrown cl, reports))
  end.

Context (json_dumps : json -> string).

(** [S2Client::LoadDataWrite] and [S2Client::LoadDataAvro].  [reader_error]: the
    error text that the client's chunk reader had. *)
Definition ClientLoadDataWrite (reader_error : string) (chunk : Chunk) (schema : RowSchema)
    (table : string) (cl : S2Client) : outcome exn S2Client :=
  '((_, c) : Chunk * S2Connection M)
    ← WriteChunk json_dumps reader_error chunk schema table (client_conn cl);
  Done (set_client_conn c cl).

Definition ClientLoadDataAvro (sourceData : bytes) (sourceDataLen : Z) (schema : RowSchema)
    (table : string) (treatZeroLenAsNull : bool) (cl : S2Client) : outcome exn S2Client :=
  let source := mkAvroBuffer sourceData sourceDataLen 0 in
  c ← WriteAvro json_dumps source schema table treatZeroLenAsNull (client_conn cl);
  Done (set_client_conn c cl).

(** The exported functions of the same names. *)
Definition LoadDataWrite (reader_error : string) (chunk : Chunk) (schema : RowSchema)
    (table : string) (cb : bool) (cl : S2Client) : outcome exn (S2Client * list report) :=
  r ← reported (ClientLoadDataWrite reader_error chunk schema table cl) cb cl;
  match r with
  | inl (cl, reports) => Done (cl, reports)
  | inr (cl, reports) => Done (cl, reports)
  end.

Definition LoadDataAvro (sourceData : bytes) (sourceDataLen : Z) (schema : RowSchema)
    (table : string) (treatZeroLenAsNull cb : bool) (cl : S2Client)
    : outcome exn (S2Client * list report) :=
  r ← reported (ClientLoadDataAvro sourceData sourceDataLen schema table treatZeroLenAsNull cl)
        cb cl;
  match r with
  | inl (cl, reports) => Done (cl, reports)
  | inr (cl, reports) => Done (cl, reports)
  end.

(** [delete s2Client] destroys the connection it owns; NULL is ignored. *)
Definition S2ClientFree (s2Client : option S2Client) : option (S2Connection M) :=
  option_map (fun cl => destroy (client_conn cl)) s2Client.

Context (scan_double : string -> option Z) (uninit : Z).

Definition GetTableRowSchema (table : string) (cb : bool) (cl : S2Client)
    : outcome exn (option RowSchema * S2Client * list report) :=
  r ← reported
        ('((_, c) : bool * S2Connection M)
           ← Prepare scan_double uninit (MakeSelectQueryMeta table) false false (client_conn cl);
         schema ← GetRowSchema true c;
         Done (schema, c)) cb cl;
  match r with
  | inl ((schema, c), reports) => Done (Some schema, set_client_conn c cl, reports)
  | inr (cl, reports) => Done (None, cl, reports)
  end.

Definition S2Error (cl : S2Client) : string := m_errorMessage (client_error cl).
(** The conversion of the code to [int]. *)
Definition S2Errno (cl : S2Client) : Z := s32 (m_errorCode (client_error cl)).

(** ** Sequences of calls on one client *)

(** The functions of the interface that use the client's connection, with the
    arguments after the client; the callback is the last one. *)
Inductive client_call :=
  | execute_ddl (query : string) (cb : bool)
  | load_write (reader_error : string) (chunk : Chunk) (schema : RowSchema) (table : string)
      (cb : bool)
  | load_avro (data : bytes) (len : Z) (schema : RowSchema) (table : string) (zero_as_null : bool)
      (cb : bool)
  | table_schema (table : string) (cb : bool).

(** What a call returns. *)
Inductive call_value := number (n : Z) | nothing | schema_pointer (s : option RowSchema).

Definition client_call_run (c : client_call) (cl : S2Client)
    : outcome exn (call_value * S2Client * list report) :=
  match c with
  | execute_ddl query cb =>
      '((n, cl, w) : Z * S2Client * list report) ← ExecuteDDLQuery query cb cl;
      Done (number n, cl, w)
  | load_write err chunk schema table cb =>
      '((cl, w) : S2Client * list report) ← LoadDataWrite err chunk schema table cb cl;
      Done (nothing, cl, w)
  | load_avro data len schema table zero cb =>
      '((cl, w) : S2Client * list report) ← LoadDataAvro data len schema table zero cb cl;
      Done (nothing, cl, w)
  | table_schema table cb =>
      '((s, cl, w) : option RowSchema * S2Client * list report) ← GetTableRowSchema table cb cl;
      Done (schema_pointer s, cl, w)
  end.

(** The calls that return, with the client before and after, and how the
    sequence ends. *)
Record call_entry := mkEntry {
  ce_call : client_call;
  ce_before : S2Client;
  ce_value : call_value;
  ce_after : S2Client;
  ce_reports : list report
}.

Fixpoint client_calls_run (calls : list client_call) (cl : S2Client)
    : list call_entry * outcome exn S2Client :=
  match calls with
  | [] => ([], Done cl)
  | c :: calls =>
      match client_call_run c cl with
      | Done (v, cl', w) =>
          let '(log, ending) := client_calls_run calls cl' in
          (mkEntry c cl v cl' w :: log, ending)
      | Throw e => ([], Throw e)
      | AssertFail what => ([], AssertFail what)
      | Undef what => ([], Undef what)
      end
  end.

(** What a call asks of the connection: the value and the connection it leaves,
    or how it fails.  A DDL statement fails with the error of the MySQL
    client. *)
Definition call_action (c : client_call) (conn : S2Connection M)
    : outcome exn (call_value * S2Connection M) :=
  match c with
  | execute_ddl query _ =>
      let '(failed, m) := mysql_query query (mysql conn) in
      if failed : bool then Throw (S2Exn (mkS2ClientError (mysql_errno m) (mysql_error m)))
      else Done (number (s64 (mysql_affected_rows m)), set_mysql m conn)
  | load_write err chunk schema table _ =>
      r ← WriteChunk json_dumps err chunk schema table conn; Done (nothing, r.2)
  | load_avro data len schema table zero _ =>
      c ← WriteAvro json_dumps (mkAvroBuffer data len 0) schema table zero conn;
      Done (nothing, c)
  | table_schema table _ =>
      r ← Prepare scan_double uninit (MakeSelectQueryMeta table) false false conn;
      schema ← GetRowSchema true r.2;
      Done (schema_pointer (Some schema), r.2)
  end.

Definition call_failure (c : client_call) (conn : S2Connection M) : option S2ClientError :=
  match call_action c conn with Throw (S2Exn e) => Some e | _ => None end.

Definition has_callback (c : client_call) : bool :=
  match c with
  | execute_ddl _ cb | load_write _ _ _ _ cb | load_avro _ _ _ _ _ cb | table_schema _ cb => cb
  end.
Definition is_ddl (c : client_call) : bool :=
  match c with execute_ddl _ _ => true | _ => false end.
Definition failed_value (c : client_call) : call_value :=
  match c with
  | execute_ddl _ _ => number (-1)
  | table_schema _ _ => schema_pointer None
  | _ => nothing
  end.

(** What a call that returns has done. *)
Definition entry_ok (e : call_entry) : Prop :=
  let conn := client_conn (ce_before e) in
  match call_failure (ce_call e) conn with
  | Some err =>
      ce_value e = failed_value (ce_call e)
      /\ ce_reports e = if has_callback (ce_call e) then [error_report err] else []
  | None =>
      call_action (ce_call e) conn = Done (ce_value e, client_conn (ce_after e))
      /\ ce_reports e = []
  end.

(** The error of the last DDL statement, or [old] if there was none. *)
Definition last_ddl_error (log : list call_entry) (old : S2ClientError) : S2ClientError :=
  foldl (fun err e =>
    if is_ddl (ce_call e)
    then default no_error (call_failure (ce_call e) (client_conn (ce_before e))) else err) old log.

(** The client after a log, with which the next call is made. *)
Definition last_client (log : list call_entry) (cl : S2Client) : S2Client :=
  foldl (fun _ e => ce_after e) cl log.

(** Why a call [c] on the connection does not return but ends like [ending]. *)
Definition escapes (c : client_call) (conn : S2Connection M) (ending : outcome exn S2Client)
    : Prop :=
  match call_action c conn with
  | Done _ => False
  | Throw (S2Exn _) =>
      has_callback c = false /\ is_ddl c = false
      /\ ending = Undef "call through a null callback"
  | Throw e => ending = Throw e
  | AssertFail what => ending = AssertFail what
  | Undef what => ending = Undef what
  end.

(** *** One call *)
Lemma reported_spec {A} (m : outcome exn A) cb cl :
  match m with
  | Done a => reported m cb cl = Done (inl (a, []))
  | Throw (S2Exn e) =>
      reported m cb cl = if cb then Done (inr (conn_thrown cl, [error_report e]))
                         else Undef "call through a null callback"
  | Throw e => reported m cb cl = Throw e
  | AssertFail what => reported m cb cl = AssertFail what
  | Undef what => reported m cb cl = Undef what
  end.
Proof using Type. by destruct m as [|[]| |], cb. Qed.

(** A call either returns an entry that is right, or escapes. *)
Lemma call_run_spec c cl :
  match client_call_run c cl with
  | Done (v, cl', w) =>
      entry_ok (mkEntry c cl v cl' w)
      /\ client_error cl' =
         if is_ddl c then default no_error (call_failure c (client_conn cl)) else client_error cl
  | Throw e => escapes c (client_conn cl) (Throw e) /\ (forall err, e <> S2Exn err)
  | AssertFail what => escapes c (client_conn cl) (AssertFail what)
  | Undef what => escapes c (client_conn cl) (Undef what)
  end.
Proof using Type.
  unfold entry_ok, escapes, call_failure. cbn [ce_call ce_before ce_value ce_after ce_reports].
  destruct c as [q cb|err chunk schema table cb|data len schema table zero cb|table cb];
    cbn [client_call_run call_action has_callback is_ddl failed_value].
  - unfold ExecuteDDLQuery, ExecuteDDL. cbn.
    by destruct (mysql_query q (mysql (client_conn cl))) as [[] m]; cbn; destruct cb.
  - unfold LoadDataWrite, ClientLoadDataWrite. cbn.
    destruct (WriteChunk _ _ _ _ _ _) as [[a c]|[]| |]; by destruct cb.
  - unfold LoadDataAvro, ClientLoadDataAvro. cbn.
    destruct (WriteAvro _ _ _ _ _ _) as [c|[]| |]; by destruct cb.
  - unfold GetTableRowSchema.
    destruct (Prepare _ _ _ _ _ _) as [[a c]|[]| |]; cbn; [|by destruct cb..].
    destruct (GetRowSchema true c) as [s|[]| |]; by destruct cb.
Qed.

(** C40. The errors of a client, for any sequence of calls that execute
    statements, load data or ask for the schema of a table: every call that
    returns either has done on the connection what it is to do, returns its
    value and reports nothing, or the connection failed, and then the call
    returns -1 or NULL and the callback gets exactly one report, with the code,
    the message and the severity of that failure; a DDL statement fails with
    the code and the message of the MySQL client.  The error that the client
    remembers is that of the last DDL statement, none if that succeeded, and
    the other calls leave it in place.  No error of the library leaves a call
    as an exception: a call does not return only if the connection ends in
    another exception or in undefined behaviour, or if a call other than a DDL
    statement fails and was given no callback. *)
Theorem client_errors (calls : list client_call) (cl : S2Client) :
  let '(log, ending) := client_calls_run calls cl in
  Forall entry_ok log
  /\ ce_call <$> log = take (length log) calls
  /\ client_error (last_client log cl) = last_ddl_error log (client_error cl)
  /\ match ending with
     | Done cl' => length log = length calls /\ cl' = last_client log cl
     | _ =>
         (forall err, ending <> Throw (S2Exn err))
         /\ exists c, calls !! length log = Some c
            /\ escapes c (client_conn (last_client log cl)) ending
     end.
Proof using Type.
  revert cl. induction calls as [|c calls IH]; intros cl; [by repeat split; constructor|].
  cbn [client_calls_run]. pose proof (call_run_spec c cl) as Hc.
  destruct (client_call_run c cl) as [[[v cl'] w]|e|what|what].
  - specialize (IH cl'). destruct (client_calls_run calls cl') as [log ending].
    destruct Hc as [Hok Herr], IH as (Hlog & Hcalls & Hlast & Hend). split_and!.
    + by constructor.
    + cbn. by rewrite Hcalls.
    + cbn [last_client last_ddl_error foldl ce_after ce_call ce_before]. rewrite <- Herr.
      exact Hlast.
    + destruct ending; cbn; try done. destruct Hend as [-> ->]. done.
  - destruct Hc as [Hesc Hno]. do 3 (split; [done|]).
    split; [intros err [= ->]; by eapply Hno|by exists c].
  - do 4 (split; [done|]). by exists c.
  - do 4 (split; [done|]). by exists c.
Qed.
End client.

Definition S2_CLIENT_VERSION : string := "1.6.2".
Definition S2GetClientVersion : string := S2_CLIENT_VERSION.
Arguments S2Client M : clear implicits.

(** A load of a column type that the library does not know is reported and
    leaves the error of the client in place, a DDL statement that succeeds
    clears it; the load without a callback does not return. *)
Lemma client_errors_witness :
  let server := mkDemo [] [] [demo_field "n" MYSQL_TYPE_LONG] [] [] in
  let cl := mkClient 4 "8.1.4" 0 1 (demo_connection server) (mkS2ClientError 1064 "syntax") in
  let load := load_avro [] 0 (mkRowSchema [mkColumn Unsupported 0 "g"]) "t" false in
  let run := client_calls_run (H := release_build) (fun c => c) (fun _ => ""%string) no_double 0
               [load true; execute_ddl "DELETE FROM t" true; table_schema "t" true; load false] cl in
  map (fun e => (ce_value e, ce_reports e, S2Errno (ce_after e))) run.1
    = [(nothing, [mkReport S2C_ERROR_INV_ARG "Unsupported data type: 8" S2C_SEVERITY_ERROR], 1064);
       (number 0, [], 0);
       (schema_pointer (Some (mkRowSchema [mkColumn Int32 4 "n"])), [], 0)]
  /\ Forall (entry_ok (H := release_build) (fun _ => ""%string) no_double 0) run.1
  /\ (forall err, run.2 <> Throw (S2Exn err)).
Proof.
  intros server cl load run. split; [vm_compute; reflexivity|].
  pose proof (client_errors (H := release_build) (fun c => c) (fun _ => ""%string) no_double 0
    [load true; execute_ddl "DELETE FROM t" true; table_schema "t" true; load false] cl) as Hall.
  fold run in Hall. clearbody run. destruct run as [log ending].
  destruct Hall as (Hlog & _ & _ & Hend). split; [exact Hlog|].
  destruct ending; [discriminate|exact (proj1 Hend)..].
Defined.
