(* ===== verification/LoadData.v ===== *)
(** The other direction of the library, end to end: the caller writes a chunk
    through the exported functions of [hdat_write_extern.h] and gives it to
    [LoadDataWrite], which prints it as text, names the table and the columns in
    a LOAD DATA LOCAL statement, and hands the text to the client library piece
    by piece.  [LoadServer] is what the server promises about such statements. *)

From Stdlib Require Import Ascii String.
From stdpp Require Import base list strings numbers gmap tactics.
From stdpp Require Import options.
From S2P Require Import Prelude Schema Text Calendar SuperChunk ChunkWriter ChunkReader ChunkFormat.
From S2P Require Import ChunkRoundTrip ApiRoundTrip TsvWriter Utils Sql AvroWriter TableReader.
From S2P Require Import AvroEncoder Connection Client.

(** ** The server *)

(** The rows of a text; a text of no characters has none. *)
Definition tsv_rows_read (s : string) : option (list (list (option string))) :=
  match s with EmptyString => Some [] | _ => read_tsv s end.

(** [loaded t m]: the rows that have been loaded into the table [t], each with
    the columns that the statement named.  A statement that succeeds has fetched
    the text through [ss_local_infile_read], with buffers of lengths of its own
    choice, up to the first empty piece, and has added the rows of what it
    fetched to the table it names; one that fails adds nothing.
    [avro_loads m]: the AVRO statements that have succeeded, each with the bytes
    it fetched in the same way. *)
Class LoadServer (M : Type) `{!MysqlClient M} := {
  loaded : string -> M -> list (list (string * option string));
  load_text q s m m' t cols :
    mysql_load_text q s m = (false, m') -> read_tsv_load q = Some (t, cols) ->
    exists lens pieces ss, Forall (fun n => 0 < n) lens
      /\ infile_reads (mkStream s false false) lens = (ss, Some (pieces ++ [""%string]))
      /\ forall rows, tsv_rows_read (sconcat pieces) = Some rows ->
         forall t', loaded t' m'
           = loaded t' m ++ if decide (t' = t) then zip cols <$> rows else [];
  load_fails q s m m' t :
    mysql_load_text q s m = (true, m') -> loaded t m' = loaded t m;
  avro_loads : M -> list (string * bytes);
  load_avro q b m m' :
    mysql_load_avro q b m = (false, m') ->
    exists lens pieces b', Forall (fun n => 0 < n < 2 ^ 31) lens
      /\ avro_reads b lens = Done (b', pieces ++ [[]])
      /\ avro_loads m' = avro_loads m ++ [(q, concat pieces)];
  avro_fails q b m m' :
    mysql_load_avro q b m = (true, m') -> avro_loads m' = avro_loads m
}.

(** ** The text that the server fetches *)
Lemma sconcat_snoc pieces p : sconcat (pieces ++ [p]) = sconcat pieces +:+ p.
Proof.
  induction pieces as [|q pieces IH]; cbn.
  - by rewrite app_nil_r_s.
  - change (q +:+ sconcat (pieces ++ [p]) = (q +:+ sconcat pieces) +:+ p).
    by rewrite IH, app_assoc_s.
Qed.

Lemma split_at_nothing n s b :
  (0 < n)%nat -> split_at n s = (EmptyString, b) -> s = EmptyString /\ b = EmptyString.
Proof.
  destruct n as [|n], s as [|c s]; cbn; [lia|lia|by intros _ [= <-]|].
  by destruct (split_at n s).
Qed.

(** An empty piece is the end of the text. *)
Lemma infile_reads_end lens : forall s eof ss pieces,
  (eof = true -> s = EmptyString) -> Forall (fun n => 0 < n) lens ->
  infile_reads (mkStream s eof false) lens = (ss, Some (pieces ++ [EmptyString])) ->
  sconcat pieces = s.
Proof.
  induction lens as [|n lens IH]; intros s eof ss pieces Heof Hl E.
  { cbn in E. injection E as _ E. by destruct pieces. }
  apply Forall_cons_iff in Hl as [Hn Hl]. cbn [infile_reads] in E.
  unfold ss_local_infile_read, ss_read in E. cbn [ss_bad ss_eof ss_rest orb] in E.
  destruct eof; cbn [ss_bad] in E.
  - rewrite Heof in * by done.
    destruct (infile_reads _ lens) as [ss' [ps|]] eqn:Ep; [|done]. injection E as <- E.
    destruct pieces as [|p pieces]; [done|]. injection E as <- ->.
    change (sconcat pieces = EmptyString). by apply (IH _ true ss').
  - destruct (split_at (Z.to_nat n) s) as [a b] eqn:Es. cbn [ss_bad] in E.
    pose proof (split_at_app (Z.to_nat n) s) as Ea. rewrite Es in Ea.
    pose proof (split_at_length (Z.to_nat n) s) as El. rewrite Es in El.
    destruct (infile_reads _ lens) as [ss' [ps|]] eqn:Ep; [|done]. injection E as <- E.
    destruct pieces as [|p pieces].
    + injection E as -> _. cbn. by apply split_at_nothing in Es as [-> _]; [|lia].
    + injection E as <- ->. rewrite <- Ea. change (a +:+ sconcat pieces = a +:+ b). f_equal.
      eapply IH; [|exact Hl|exact Ep].
      destruct (Nat.ltb_spec (String.length s) (Z.to_nat n)); [|done]. intros _.
      destruct b; [done|]. cbn in El. lia.
Qed.

(** The same for an AVRO buffer. *)
Lemma avro_reads_end lens : forall b b' pieces,
  avro_ok b -> Forall (fun n => 0 < n < 2 ^ 31) lens ->
  avro_reads b lens = Done (b', pieces ++ [[]]) ->
  concat pieces = slice (avro_ptr b) (m_current_pos b) (avro_size b - m_current_pos b).
Proof.
  induction lens as [|n lens IH]; intros b b' pieces Hb Hl E.
  { injection E as _ E. by destruct pieces. }
  apply Forall_cons_iff in Hl as [Hn Hl]. cbn [avro_reads] in E.
  rewrite avro_read_spec, Done_bind in E by (done || lia). cbv beta iota zeta in E.
  pose proof Hb as [Hpos Hsz Hmax].
  set (k := Z.min n (avro_size b - m_current_pos b)) in *.
  inv_done. rename H into Ep.
  pose proof (length_slice (avro_ptr b) (m_current_pos b) k ltac:(lia) ltac:(lia) ltac:(lia)) as Hlen.
  destruct pieces as [|p pieces].
  - injection Ep as Ep _. rewrite Ep in Hlen. cbn [length] in Hlen.
    assert (avro_size b - m_current_pos b = 0) as -> by lia. done.
  - injection Ep as <- ->. cbn [concat].
    apply IH in Hm as ->; [|split; cbn; subst k; lia|done]. cbn [avro_ptr avro_size m_current_pos].
    rewrite <- slice_app by (subst k; lia). f_equal. lia.
Qed.

(** ** A text of rows is not empty *)
Lemma app_not_nil a b : b <> EmptyString -> a +:+ b <> EmptyString.
Proof. by destruct a. Qed.

Lemma to_string_not_nil z : to_string z <> EmptyString.
Proof.
  intros E. pose proof (read_int_to_string z EmptyString eq_refl) as R. by rewrite E in R.
Qed.

Ltac not_nil := repeat first [discriminate | apply app_not_nil].

Lemma strftime_not_nil n t s : strftime n t = Done s -> t <> EmptyString -> s <> EmptyString.
Proof. unfold strftime. case_match; [|done]. by intros [= ->]. Qed.

Lemma date_not_nil t : dateFormat t <> EmptyString.
Proof. unfold dateFormat. not_nil. Qed.

Lemma datetime_not_nil t : dateTimeFormat t <> EmptyString.
Proof. unfold dateTimeFormat. not_nil. Qed.

Lemma e17_not_nil d x : e17_text d x <> EmptyString.
Proof. unfold e17_text. not_nil. Qed.

Lemma printf_not_nil b : printf_e17 b <> EmptyString.
Proof.
  unfold printf_e17. cbv zeta. apply app_not_nil.
  destruct (dbl_exp b =? 2047); [by destruct (dbl_frac b =? 0)|].
  destruct (dbl_num b =? 0); [apply e17_not_nil|].
  generalize (exponent_search 632 (dbl_num b) (dbl_den b) 308) as x. intros x.
  destruct (digits18 _ _ x =? 10 ^ 18); apply e17_not_nil.
Qed.

Lemma tsv_field_not_nil col f t : tsv_field col f = Done t -> t <> EmptyString.
Proof.
  destruct f as [|n|l]; unfold tsv_field; [by intros [= <-]| |].
  2: { intros [= <-]. unfold quoted. done. }
  destruct (col_type col); try (intros [= <-]; apply to_string_not_nil).
  - case_match; [|done]. intros [= <-]. apply printf_not_nil.
  - unfold fromTimeCAS. case_match; [done|]. cbv zeta. intros [= <-]. not_nil.
  - intros E. eapply strftime_not_nil; [exact E|apply date_not_nil].
  - unfold fromDateTimeCAS. destruct (if _ <? 0 then _ else _) as [m u].
    intros E. inv_done. apply strftime_not_nil in Hm; [|apply datetime_not_nil].
    repeat case_match; inv_done; [done|]. by destruct a.
Qed.

Lemma tsv_text_not_nil cols fs rows tss :
  rows_texts cols (fs :: rows) = Done tss -> cols <> [] -> length cols = length fs ->
  tsv_text tss <> EmptyString.
Proof.
  cbn [rows_texts]. intros E Hne Hl. inv_done. unfold tsv_text. cbn [map separated].
  destruct cols as [|col cols], fs as [|f fs]; try done. cbn [texts_of] in Hm. inv_done.
  apply tsv_field_not_nil in Hm1. unfold tsv_line. cbn [separated]. by destruct a1.
Qed.

(** The text of rows is read back as their values. *)
Lemma tsv_rows_read_text cols rows tss :
  rows_texts cols rows = Done tss -> Forall (fun fs => length cols = length fs) rows ->
  cols <> [] -> tsv_rows_read (tsv_text tss) = Some (zip_with row_values rows tss).
Proof.
  intros Ht Hl Hne. destruct rows as [|fs rows]; [by injection Ht as <-|].
  assert (tsv_text tss <> EmptyString) as Hn.
  { eapply tsv_text_not_nil; [exact Ht|done|]. by apply Forall_cons_iff in Hl as [? _]. }
  assert (read_tsv (tsv_text tss) = Some (zip_with row_values (fs :: rows) tss)) as E
    by (apply (parse_tsv_rows cols); try done; unfold lt; lia).
  unfold tsv_rows_read. by destruct (tsv_text tss).
Qed.

(** ** Loading a chunk *)
Section load.
Context `{Build} {M : Type} `{!MysqlClient M, !LoadServer M}.
Context (after_throw : S2Connection M -> S2Connection M) (json_dumps : json -> string).

(** What loading [rows] into [table] adds to the table [t]. *)
Definition adds (table : string) (names : list string) (rows : list (list (option string)))
    (t : string) : list (list (string * option string)) :=
  if decide (t = table) then zip names <$> rows else [].

(** The outcome of loading with the connection [c]: the rows are in the table and
    nothing else has changed, or the statement has failed, nothing has been
    loaded and the caller's callback has got the error of the server. *)
Definition load_outcome (table : string) (names : list string)
    (rows : list (list (option string))) (c c' : S2Connection M) (reports : list report) : Prop :=
  (reports = [] /\ forall t, loaded t (mysql c') = loaded t (mysql c) ++ adds table names rows t)
  \/ exists q s m', mysql_load_text q s (mysql c) = (true, m')
       /\ (forall t, loaded t m' = loaded t (mysql c))
       /\ reports = [error_report (mkS2ClientError (mysql_errno m') (mysql_error m'))].

Lemma avro_statement table schema zero types :
  mapM (fun c => avro_type (col_type c)) (ColumnInfo schema) = Some types ->
  exists q, MakeLoadDataQuery json_dumps table schema AVRO zero = Done q.
Proof using Type.
  intros Ht. unfold MakeLoadDataQuery, MakeAvroJsonSchema. rewrite AvroFields_eq.
  assert (exists fields, avro_fields 0 (ColumnInfo schema) = Some fields) as [fields ->].
  { revert types Ht. generalize 0 as i. induction (ColumnInfo schema) as [|c cols IH];
      intros i types Ht; [by exists []|].
    cbn in Ht |- *. destruct (avro_type (col_type c)) as [t|]; [|done]. cbn in Ht |- *.
    destruct (mapM _ cols) as [ts|] eqn:Em; [|done].
    destruct (IH (i + 1) ts eq_refl) as [l ->]. by eexists. }
  destruct (MakeColumnsAvro schema zero). rewrite !Done_bind. by eexists.
Qed.

(** The text of a chunk gets to the table. *)
Lemma load_text_adds q m m' table names tss rows :
  mysql_load_text q (tsv_text tss) m = (false, m') -> read_tsv_load q = Some (table, names) ->
  tsv_rows_read (tsv_text tss) = Some rows ->
  forall t, loaded t m' = loaded t m ++ adds table names rows t.
Proof using Type.
  intros E Eq Er t. destruct (load_text _ _ _ _ _ _ E Eq) as (lens & ps & ss & Hl & Ep & Hr).
  apply Hr. rewrite (infile_reads_end lens (tsv_text tss) false ss ps) by done. done.
Qed.

Lemma LoadDataWrite_loads sc schema rows tss err table (cl : S2Client M) :
  let cols := ColumnInfo schema in
  chunk_of_rows cols rows sc -> Forall col_ok cols -> cols <> [] ->
  Forall (Forall2 readable cols) rows -> rows_texts cols rows = Done tss ->
  mysql_get_local_infile (mysql (client_conn cl)) = Some true ->
  exists cl' reports,
    LoadDataWrite after_throw json_dumps err (m_chunk sc) schema table true cl = Done (cl', reports)
    /\ load_outcome table (col_name <$> cols) (zip_with row_values rows tss)
         (client_conn cl) (client_conn cl') reports.
Proof using Type.
  intros cols (Hw & Hcnt & Hsz & Hat) Hcols Hne Hread Ht Hinf.
  destruct (read_chunk sc schema rows err Hw Hcols Hread Hcnt Hsz Hat) as (r & Er & _).
  pose proof (ChunkToTSV_rows _ _ _ _ _ Er Ht) as Etsv.
  destruct (tsv_load_statement json_dumps table schema true Hne) as (q & Eq & Erd).
  assert (tsv_rows_read (tsv_text tss) = Some (zip_with row_values rows tss)) as Etxt.
  { apply (tsv_rows_read_text cols); [done| |done].
    refine (List.Forall_impl _ _ Hread). intros fs Hfs. by eapply Forall2_length. }
  unfold LoadDataWrite, ClientLoadDataWrite, reported, WriteChunk, infile_enabled.
  rewrite Hinf, !Done_bind, Etsv, Done_bind. cbv beta iota zeta. cbn [negb].
  rewrite Eq, Done_bind.
  destruct (mysql_load_text q (tsv_text tss) (mysql (client_conn cl))) as [[] m'] eqn:El.
  - exists (conn_thrown after_throw cl),
      [error_report (mkS2ClientError (mysql_errno m') (mysql_error m'))].
    split; [done|]. right. exists q, (tsv_text tss), m'. split; [done|]. split; [|done].
    intros t. by eapply load_fails.
  - eexists _, []. split; [done|]. left. split; [done|]. intros t. cbn.
    by eapply load_text_adds.
Qed.

(** C4. Loading chunks, end to end: the caller fills a fresh chunk value by value
    through the exported functions and gives it to [LoadDataWrite].  The rows
    it completed, which are those that fit the chunk, are printed, and when the
    statement succeeds they have been added, in order, to exactly the table
    asked for, every value in the column of its name: whatever lengths the
    client library fetches the text in, nothing of a row that did not fit is
    loaded, and no content of a text can break a field or a line.  When the
    statement fails nothing is loaded and the caller's callback gets the error. *)
Theorem chunk_loaded chunk schema rows tss err table (cl : S2Client M) :
  let cols := ColumnInfo schema in
  let k := rows_fit cols (m_size chunk) rows in
  let fields := api_fields cols <$> take k rows in
  chunk_wf chunk -> consumed_size chunk = 0 -> variable_offset chunk = 0 -> row_count chunk = 0 ->
  Forall col_ok cols -> cols <> [] -> Forall (Forall2 api_matches cols) rows ->
  Forall (Forall2 readable cols) (api_fields cols <$> rows) ->
  rows_texts cols fields = Done tss ->
  mysql_get_local_infile (mysql (client_conn cl)) = Some true ->
  exists w, write_api_rows cols rows (ChunkWriter.Extern.ResetWriter chunk schema) = Done (k, w)
    /\ exists cl' reports,
         LoadDataWrite after_throw json_dumps err (m_chunk (m_current_chunk w)) schema table true cl
           = Done (cl', reports)
         /\ load_outcome table (col_name <$> cols) (zip_with row_values fields tss)
              (client_conn cl) (client_conn cl') reports.
Proof using Type.
  intros cols k fields Hwf Hc Hv Hr Hcols Hne Hrows Hread Ht Hinf.
  destruct (write_api_fresh chunk schema rows) as (w & E & Hsc); [done..|].
  exists w. split; [done|].
  apply LoadDataWrite_loads; try done. subst fields. rewrite fmap_take. by apply Forall_take.
Qed.

(** C5. Loading AVRO data, end to end.  The values have the types of the schema;
    the caller writes the rows as the header prescribes, until they end or a
    value does not fit, and passes the memory with [total_bytes_written] to
    [LoadDataAvro].  When the statement succeeds, it was the load statement of
    the table and the schema, and whatever lengths the client library fetched
    the data in, a reader of records of the types of [MakeAvroJsonSchema] gets
    from them exactly the complete rows, in order: all of them, or those before
    the first row that could not be written; nothing of a row that was written
    in part, nor of the memory behind it ([tail]).  When that statement fails
    nothing is loaded and the caller's callback gets the error of the MySQL
    client. *)
Theorem avro_loaded `{!AvroEncoding W, !AvroLaws} schema types rows w0 total w tail table zero
    (cl : S2Client M) :
  mapM (fun c => avro_type (col_type c)) (ColumnInfo schema) = Some types ->
  ColumnInfo schema <> [] -> Forall (row_of_types types) rows ->
  AvroEncoder.buffer w0 = [] -> write_avro_rows rows w0 0 = (total, w) ->
  Z.of_nat (length (AvroEncoder.buffer w)) < 2 ^ 31 ->
  mysql_get_local_infile (mysql (client_conn cl)) = Some true ->
  exists k q cl' reports, (k <= length rows)%nat
    /\ (k < length rows ->
        exists row w1, rows !! k = Some row /\ fst (write_row row w1) = false)%nat
    /\ MakeLoadDataQuery json_dumps table schema AVRO zero = Done q
    /\ LoadDataAvro after_throw json_dumps (AvroEncoder.buffer w ++ tail) total schema table zero true cl
        = Done (cl', reports)
    /\ ((reports = [] /\ exists data,
           avro_loads (mysql (client_conn cl')) = avro_loads (mysql (client_conn cl)) ++ [(q, data)]
           /\ parse_records (length rows) types data = Some (take k rows))
        \/ exists m', mysql_load_avro q (mkAvroBuffer (AvroEncoder.buffer w ++ tail) total 0)
             (mysql (client_conn cl)) = (true, m')
           /\ avro_loads m' = avro_loads (mysql (client_conn cl))
           /\ reports = [error_report (mkS2ClientError (mysql_errno m') (mysql_error m'))]).
Proof using Type.
  intros Htypes Hne Hrows Hw0 E Hlen Hinf.
  destruct (written_rows_parse schema types rows w0 total w tail) as (k & Hk & Ht & Ep & Hbad);
    [done..|].
  destruct (avro_statement table schema zero types Htypes) as (q & Eq).
  exists k, q. unfold LoadDataAvro, ClientLoadDataAvro, reported, WriteAvro, infile_enabled.
  rewrite Hinf, !Done_bind, Eq, Done_bind.
  set (src := mkAvroBuffer (AvroEncoder.buffer w ++ tail) total 0).
  destruct (mysql_load_avro q src (mysql (client_conn cl))) as [[] m'] eqn:El;
    eexists _, _; (split; [done|]); (split; [done|]); (split; [done|]); (split; [done|]).
  - right. exists m'. split; [done|]. split; [by eapply avro_fails|done].
  - left. split; [done|]. destruct (load_avro _ _ _ _ El) as (lens & ps & b' & Hl & Er & Ea).
    exists (concat ps). split; [done|].
    rewrite (avro_reads_end lens src b' ps); [|split; cbn; rewrite ?length_app; lia|done|done].
    cbn [avro_ptr avro_size m_current_pos src]. by rewrite Z.sub_0_r.
Qed.
End load.

(** ** A server that is a map of tables *)
Record load_server := mkServer {
  s_tables : gmap string (list (list (string * option string)));
  s_avro : list (string * bytes)
}.

Definition server_rows (t : string) (m : load_server) : list (list (string * option string)) :=
  default [] (s_tables m !! t).

(** Both loads fetch the data in one piece, and see its end with a second one. *)
Definition server_load_text (q s : string) (m : load_server) : bool * load_server :=
  match infile_reads (mkStream s false false) [Z.of_nat (String.length s) + 1; 1] with
  | (_, Some [piece; EmptyString]) =>
      match read_tsv_load q, tsv_rows_read piece with
      | Some (t, cols), Some rows =>
          (false, mkServer (<[t := server_rows t m ++ (zip cols <$> rows)]> (s_tables m)) (s_avro m))
      | _, _ => (true, m)
      end
  | _ => (true, m)
  end.

Definition server_load_avro (q : string) (b : AvroBuffer) (m : load_server) : bool * load_server :=
  match avro_reads b [2 ^ 30; 1] with
  | Done (_, [piece; []]) => (false, mkServer (s_tables m) (s_avro m ++ [(q, piece)]))
  | _ => (true, m)
  end.

#[local] Instance load_mysql : MysqlClient load_server := {
  mysql_init := None;
  mysql_ssl _ m := m;
  mysql_real_connect _ _ _ _ _ m := (true, m);
  mysql_errno _ := 1064;
  mysql_error _ := "error"%string;
  mysql_stmt_errno _ := 0;
  mysql_stmt_error _ := ""%string;
  mysql_query _ m := (true, m);
  mysql_store_result _ := None;
  mysql_affected_rows _ := 0;
  mysql_use_result _ := None;
  mysql_fetch_row m := (None, m);
  mysql_stmt_init m := (false, m);
  mysql_stmt_prepare _ m := (true, m);
  mysql_stmt_execute m := (true, m);
  mysql_stmt_field_count _ := 0%nat;
  mysql_stmt_fields _ := None; mysql_fetch_fields res _ := Some res;
  mysql_stmt_bind_result m := (true, m);
  mysql_stmt_fetch _ m := (MYSQL_NO_DATA, [], m);
  mysql_stmt_fetch_column _ _ m := (true, [], m);
  mysql_stmt_close m := m;
  mysql_close m := m;
  mysql_get_local_infile _ := Some true;
  mysql_load_text := server_load_text;
  mysql_load_avro := server_load_avro
}.

#[local] Program Instance load_laws : LoadServer load_server := {
  loaded := server_rows;
  avro_loads := s_avro
}.
Next Obligation.
  intros q s m m' t cols E Eq. cbn in E. unfold server_load_text in E.
  destruct (infile_reads _ _) as [ss [[|p [|[|] [|]]]|]] eqn:Ei; try done.
  rewrite Eq in E. destruct (tsv_rows_read p) as [rows|] eqn:Er; [|done]. injection E as <-.
  exists [Z.of_nat (String.length s) + 1; 1], [p], ss. split; [repeat constructor; lia|].
  split; [done|]. cbn [sconcat foldr]. rewrite app_nil_r_s, Er. intros rows' [= <-] t'.
  unfold server_rows. cbn. case_decide as Et.
  - subst. by rewrite lookup_insert_eq.
  - by rewrite lookup_insert_ne, app_nil_r.
Qed.
Next Obligation.
  intros q s m m' t E. cbn in E. unfold server_load_text in E.
  repeat case_match; by inversion E.
Qed.
Next Obligation.
  intros q b m m' E. cbn in E. unfold server_load_avro in E.
  destruct (avro_reads _ _) as [[b' [|p [|[|] [|]]]]| | |] eqn:Ea; try done. injection E as <-.
  exists [2 ^ 30; 1], [p], b'. split; [repeat constructor|]. split; [done|]. cbn. by rewrite app_nil_r.
Qed.
Next Obligation.
  intros q b m m' E. cbn in E. unfold server_load_avro in E.
  repeat case_match; by inversion E.
Qed.

Definition load_connection : S2Connection load_server :=
  mkConnection (mkServer ∅ []) false None true None true
    demo_args.

Definition load_client : S2Client load_server := mkClient 4 "8.1.4" 0 1 load_connection no_error.

(** What the rows of [ApiRoundTrip.api_rows] that fit are printed as. *)
Definition api_texts : list (list string) :=
  [["1"; quoted "034"%char "092"%char "hi"; quoted "034"%char "092"%char "ab  "];
   ["\N"; "\N"; quoted "034"%char "092"%char "abcd"]]%string.

Lemma api_texts_eq :
  rows_texts (ColumnInfo demo_schema) (api_fields (ColumnInfo demo_schema) <$> take 2 api_rows)
    = Done api_texts.
Proof. rewrite api_rows_read_eq. vm_compute. reflexivity. Qed.

Lemma api_values_eq :
  zip_with row_values (api_fields (ColumnInfo demo_schema) <$> take 2 api_rows) api_texts
    = [[Some "1"; Some "hi"; Some "ab  "]; [None; None; Some "abcd"]]%string.
Proof. vm_compute. reflexivity. Qed.

Lemma demo_cols_ok : Forall col_ok (ColumnInfo demo_schema).
Proof.
  repeat first [apply List.Forall_nil | apply List.Forall_cons]; unfold col_ok; cbn;
    first [done | lia].
Qed.

(** Two of three rows fit the chunk and are loaded. *)
Lemma chunk_loaded_witness :
  exists w, write_api_rows (H := release_build) (ColumnInfo demo_schema) api_rows
      (ChunkWriter.Extern.ResetWriter (fresh_chunk 80) demo_schema) = Done (2%nat, w)
  /\ exists cl' reports,
       LoadDataWrite (H := release_build) (fun c => c) (fun _ => ""%string) ""
         (m_chunk (m_current_chunk w)) demo_schema "t" true load_client = Done (cl', reports)
       /\ load_outcome "t" ["a"; "b"; "c"]%string
            [[Some "1"; Some "hi"; Some "ab  "]; [None; None; Some "abcd"]]%string
            load_connection (client_conn cl') reports.
Proof.
  rewrite <- api_values_eq, <- api_rows_fit.
  assert (chunk_wf (fresh_chunk 80)) as Hwf by (constructor; cbn; lia).
  apply (chunk_loaded (H := release_build) (fun c => c) (fun _ => ""%string) (fresh_chunk 80)
    demo_schema api_rows api_texts "" "t" load_client Hwf eq_refl eq_refl eq_refl demo_cols_ok).
  - discriminate.
  - exact api_rows_match.
  - repeat first [apply List.Forall_nil | apply List.Forall_cons | constructor; [by left|]
                 | constructor].
  - change (m_size (fresh_chunk 80)) with 80. rewrite api_rows_fit. exact api_texts_eq.
  - reflexivity.
Defined.

(** Two rows of (long, bytes) into 30 bytes: the second one does not fit. *)
Definition avro_row (n : Z) (s : string) : list avro_value :=
  [AvroLong n; AvroBytes (String.list_ascii_of_string s)].
Definition avro_rows : list (list avro_value) := [avro_row 7 "hi"; avro_row (-1) "there"].
Definition avro_written : Z * fixed_writer := write_avro_rows avro_rows (mkWriter [] 30) 0.

Lemma avro_written_eq : fst avro_written = 18 /\ length (AvroEncoder.buffer (snd avro_written)) = 30%nat.
Proof. vm_compute. by split. Qed.

Lemma avro_loaded_witness :
  let schema := mkRowSchema [mkColumn Int64 8 "a"; mkColumn Variable_ 0 "b"] in
  exists k q cl' reports, (k <= 2)%nat
    /\ MakeLoadDataQuery (fun _ => ""%string) "t" schema AVRO true = Done q
    /\ LoadDataAvro (fun c => c) (fun _ => ""%string)
         (AvroEncoder.buffer (snd avro_written) ++ []) (fst avro_written) schema "t" true true
         load_client = Done (cl', reports)
    /\ ((reports = [] /\ exists data,
           avro_loads (mysql (client_conn cl')) = [(q, data)]
           /\ parse_records 2 ["long"; "bytes"]%string data = Some (take k avro_rows))
        \/ exists m', mysql_load_avro q
             (mkAvroBuffer (AvroEncoder.buffer (snd avro_written) ++ []) (fst avro_written) 0)
             (mysql (client_conn load_client)) = (true, m')
           /\ avro_loads m' = []
           /\ reports = [error_report (mkS2ClientError (mysql_errno m') (mysql_error m'))]).
Proof.
  intros schema.
  destruct (avro_loaded (fun c => c) (fun _ => ""%string) schema ["long"; "bytes"]%string avro_rows
    (mkWriter [] 30) (fst avro_written) (snd avro_written) [] "t" true load_client)
    as (k & q & cl' & reports & Hk & _ & Eq & El & Hout).
  - reflexivity.
  - discriminate.
  - constructor; [|constructor; [|constructor]];
      (split; [repeat constructor; cbn; lia|reflexivity]).
  - reflexivity.
  - unfold avro_written. by destruct (write_avro_rows _ _ _).
  - rewrite (proj2 avro_written_eq). lia.
  - reflexivity.
  - exists k, q, cl', reports. split; [exact Hk|]. split; [exact Eq|]. split; [exact El|exact Hout].
Defined.
