(* ===== verification/ChunkQueue.v ===== *)
(** The chunk queues of a worker: the interface [ThreadSafeQueue] with its two
    implementations, the class [ChunkQueue] of [queue/chunk_queue.hpp], and its
    two subclasses, [StreamingQueue] (one pass) and [MultiPassQueue].  A worker
    has a reader for each of its partitions and a thread-safe queue for each of
    its consumer threads; a reader pushes to the queue of the consumer that its
    partition belongs to. *)

From Stdlib Require Import Ascii String.
From stdpp Require Import base list strings numbers tactics.
From stdpp Require Import options.
From S2P Require Import Prelude Schema Text SuperChunk SimpleQueue BatchQueue Utils Explain Sql.
From S2P Require Import TableReader Connection Client.

(** ** The interface of the queues

    One round of each call under the queue's mutex; [None]: the call waits. *)
Class ThreadSafeQueue (Q : Type) := {
  queue_Push : Chunk -> Q -> outcome exn (option Q);
  queue_Pop : Q -> outcome exn (option (Chunk * Q));
  queue_Get : Z -> Z -> Q -> outcome exn (option (option Chunk * Q));
  queue_DeleteProducer : Z -> Q -> outcome exn Q
}.

(** The values of both queues are chunks. *)
Abbreviation chunks := (@simple_queue Chunk).

Section instances.
Context `{Build}.

Definition simple_Pop (q : chunks) : outcome exn (option (Chunk * chunks)) :=
  match SimpleQueue.Pop q with
  | PopWaits => Done None
  | PopThrows => Throw (OutOfRange "Queue is empty")
  | PopReturns c q => Done (Some (c, q))
  end.

Definition simple_Get (producerId valueId : Z) (q : chunks)
    : outcome exn (option (option Chunk * chunks)) :=
  _ ← c_assert false "Get by id is not supported by ThreadSafeSimpleQueue";
  Done (Some (None, q)).

#[export] Instance simple_thread_safe : ThreadSafeQueue chunks := {
  queue_Push c q := Done (SimpleQueue.Push c q);
  queue_Pop := simple_Pop;
  queue_Get := simple_Get;
  queue_DeleteProducer _ q := Done (fst (SimpleQueue.DeleteProducer q))
}.

#[export] Instance batch_thread_safe : ThreadSafeQueue batch_queue := {
  queue_Push := BatchQueue.Push;
  queue_Pop := BatchQueue.Pop;
  queue_Get producerId valueId q :=
    _ ← BatchQueue.Get_enter q; BatchQueue.Get producerId valueId q;
  queue_DeleteProducer p q :=
    '((q, _, _) : batch_queue * bool * bool) ← BatchQueue.DeleteProducer p q; Done q
}.
End instances.

Section queues.
Context `{Build} {M : Type} `{!MysqlClient M}.
Context (scan_double : string -> option Z) (uninit : Z).
Context (after_throw : S2Connection M -> S2Connection M).
#[local] Instance rows : RowSource (S2Connection M) := connection_rows scan_double uninit.
Abbreviation reader := (@ResultTableReader (S2Connection M)).

(** ** class ChunkQueue *)

(** A reader, the index of the queue it pushes to, and its [m_stop_reading]. *)
Record reader_entry := mkEntry { e_reader : reader; e_queue : Z; e_stop : bool }.

Section chunk_queue.
Context {Q : Type} `{!ThreadSafeQueue Q}.

Record ChunkQueue := mkChunkQueue {
  m_row_schema : option RowSchema;
  m_error_before_read : bool;
  queue_error : S2ClientError;
  m_result_table : string;
  m_select_query : string;               (* m_query *)
  m_key_column : string;
  m_read_type : ParallelReadType;
  m_readers : list reader_entry;
  m_credentials : Credentials;
  m_aggregators : list AggregatorNode;
  m_consumer_queues : list Q;
  m_partition_consumer : list Z
}.

Definition QueueSetError (e : S2ClientError) (q : ChunkQueue) : ChunkQueue :=
  mkChunkQueue (m_row_schema q) (m_error_before_read q) e (m_result_table q)
    (m_select_query q) (m_key_column q) (m_read_type q) (m_readers q) (m_credentials q)
    (m_aggregators q) (m_consumer_queues q) (m_partition_consumer q).
Definition set_readers (l : list reader_entry) (q : ChunkQueue) : ChunkQueue :=
  mkChunkQueue (m_row_schema q) (m_error_before_read q) (queue_error q) (m_result_table q)
    (m_select_query q) (m_key_column q) (m_read_type q) l (m_credentials q)
    (m_aggregators q) (m_consumer_queues q) (m_partition_consumer q).
Definition set_consumer_queue (i : nat) (c : Q) (q : ChunkQueue) : ChunkQueue :=
  mkChunkQueue (m_row_schema q) (m_error_before_read q) (queue_error q) (m_result_table q)
    (m_select_query q) (m_key_column q) (m_read_type q) (m_readers q) (m_credentials q)
    (m_aggregators q) (<[i := c]> (m_consumer_queues q)) (m_partition_consumer q).

(** [v[i]] of a vector; an index outside of it is undefined. *)
Definition at_index {A} (l : list A) (i : Z) : outcome exn A :=
  match (if 0 <=? i then l !! Z.to_nat i else None) with
  | Some a => Done a
  | None => Undef "index out of the vector"
  end.

(** The two operations of a reader that its queue calls when it is destroyed. *)
Definition StopReading (e : reader_entry) : reader_entry :=
  mkEntry (e_reader e) (e_queue e) true.
Definition NotifyConnUnfinishedStmt (e : reader_entry) : reader_entry :=
  let rd := e_reader e in
  mkEntry (set_conn (DiscardStmtClose (m_conn rd)) rd) (e_queue e) (e_stop e).

(** The readers are told to stop; if one of them is still active, none closes
    its statement when its connection is closed. *)
Definition stop_reader (finished : bool) (e : reader_entry) : reader_entry :=
  let e := StopReading e in
  if finished then e else NotifyConnUnfinishedStmt e.

Definition StopReaders (q : ChunkQueue) : ChunkQueue :=
  let is_read_finished := forallb (fun e => negb (m_active (e_reader e))) (m_readers q) in
  set_readers (stop_reader is_read_finished <$> m_readers q) q.

Definition newline : string := String "010" EmptyString.

(** The errors of the readers, one after the other. *)
Definition add_error (err : S2ClientError) (e : reader_entry) : S2ClientError :=
  let curError := TableReader.GetError (e_reader e) in
  if negb (m_errorCode curError =? 0)
  then mkS2ClientError S2C_ERROR_READER_FAILED
         (m_errorMessage err +:+ " - " +:+ m_errorMessage curError +:+ newline)
  else err.

(** What [Get] and [GetById] do when the queue has thrown. *)
Definition readers_failed (q : ChunkQueue) : S2ClientError * ChunkQueue :=
  let err := foldl add_error no_error (m_readers q) in
  if negb (m_errorCode err =? 0) then
    let err := mkS2ClientError (m_errorCode err)
                 ("Some readers failed:" +:+ newline +:+ m_errorMessage err) in
    (err, QueueSetError err q)
  else (err, q).

(** The chunk, NULL as [None], and [err]. *)
Definition Get (consumerId : Z) (q : ChunkQueue)
    : outcome exn (option (option Chunk * S2ClientError * ChunkQueue)) :=
  c ← at_index (m_consumer_queues q) consumerId;
  match queue_Pop c with
  | Done None => Done None
  | Done (Some (chunk, c)) =>
      Done (Some (Some chunk, no_error, set_consumer_queue (Z.to_nat consumerId) c q))
  | Throw (OutOfRange _) =>
      let '(err, q) := readers_failed q in Done (Some (None, err, q))
  | Throw e => Throw e
  | AssertFail what => AssertFail what
  | Undef what => Undef what
  end.

(** ** Making the consumers *)

(** [m_partition_consumer[p] = consumer_id] for the partitions of a consumer. *)
Fixpoint store_partitions (consumer_id : Z) (ps : list Z) (pc : list Z)
    : outcome exn (list Z) :=
  match ps with
  | [] => Done pc
  | p :: ps =>
      _ ← at_index pc p; store_partitions consumer_id ps (<[Z.to_nat p := consumer_id]> pc)
  end.

(** The loop over the consumers; [make]: the new queue of a consumer with the
    given partitions. *)
Fixpoint CreateConsumers (make : list Z -> Q) (consumer_ids : list Z) (nConsumers : Z)
    (partitions : list Z) (queues : list Q) (pc : list Z) : outcome exn (list Q * list Z) :=
  match consumer_ids with
  | [] => Done (queues, pc)
  | consumer_id :: ids =>
      consumer_partitions ← ConsumerPartitions nConsumers consumer_id partitions;
      pc ← store_partitions consumer_id consumer_partitions pc;
      CreateConsumers make ids nConsumers partitions (queues ++ [make consumer_partitions]) pc
  end.

(** The [std::string]s that are assigned from the client's connection. *)
Definition conn_credentials (c : S2Connection M) : outcome exn Credentials :=
  let a := m_args c in
  match m_user a with
  | None => Undef "std::string from a null pointer"
  | Some user =>
      Done (mkCredentials (m_host a) (m_port a) (m_db a) user (m_password a) (m_ssl_ca a))
  end.

(** ** Making the readers *)

(** [ResultTableReader::CreateReader]; a NULL reader is [None]. *)
Definition CreateReader (creds masterCreds : Credentials) (queue : Z) (readQuery : string)
    (schema : option RowSchema) (partition chunkSize : Z) (cb : bool)
    : outcome exn (list report * option reader_entry) :=
  let made c :=
    Some (mkEntry (TableReader.CreateReader c readQuery schema partition chunkSize) queue false) in
  r ← catch_s2 (Connection.Connect creds);
  match r with
  | inr c => Done ([], made c)
  | inl e =>
      w1 ← call_cb cb (mkReport S2C_ERROR_BAD_CONNECTION
             ("Cannot connect using data from information_schema.mv_nodes: "
              +:+ m_errorMessage e +:+ " partition: " +:+ to_string partition +:+ newline)
             S2C_SEVERITY_WARNING);
      r ← catch_s2 (Connection.Connect masterCreds);
      match r with
      | inr c => Done (w1, made c)
      | inl e =>
          w2 ← call_cb cb (mkReport S2C_ERROR_BAD_CONNECTION
                 ("Cannot connect to server using data from CAS worker's S2Client: "
                  +:+ m_errorMessage e +:+ newline) S2C_SEVERITY_ERROR);
          Done ((w1 ++ w2)%list, None)
      end
  end.

(** What the [switch] over the read type gives for a partition: a query, or a
    NULL queue with or without an error of the client. *)
Inductive query_choice :=
  | UseQuery (readQuery : string)
  | Refuse (e : option S2ClientError).

(** The loop over the partitions; the host and port in [creds] stay from one
    iteration to the next when there are no aggregators. *)
Fixpoint CreateReaders (choose : Z -> outcome exn query_choice) (partitions : list Z)
    (aggregators : list AggregatorNode) (creds masterCreds : Credentials) (nqueues : nat)
    (pc : list Z) (schema : option RowSchema) (chunkSize : Z) (cb : bool)
    : outcome exn (list report * (option S2ClientError + list reader_entry)) :=
  match partitions with
  | [] => Done ([], inr [])
  | p :: partitions =>
      choice ← choose p;
      match choice with
      | Refuse e => Done ([], inl e)
      | UseQuery readQuery =>
          let creds := FillCredentials aggregators p creds in
          consumer ← at_index pc p;
          _ ← at_index (seq 0 nqueues) consumer;
          '((w, rd) : list report * option reader_entry) ←
            CreateReader creds masterCreds consumer readQuery schema (u32 p) chunkSize cb;
          match rd with
          | None => Done (w, inl None)
          | Some rd =>
              '((ws, rest) : list report * (option S2ClientError + list reader_entry)) ←
                CreateReaders choose partitions aggregators creds masterCreds nqueues pc
                  schema chunkSize cb;
              Done ((w ++ ws)%list,
                    match rest with inl e => inl e | inr rds => inr (rd :: rds) end)
          end
      end
  end.

(** The NULL queue, with an error that the client reports or without one. *)
Definition no_queue {A} (e : option S2ClientError) (cb : bool) (cl : S2Client M)
    (reports : list report) : outcome exn (option A * S2Client M * list report) :=
  match e with
  | None => Done (None, cl, reports)
  | Some e =>
      let '(cl, w) := ClientSetError e cb cl in Done (None, cl, (reports ++ w)%list)
  end.

(** The schema of the query and the aggregators, from the client's connection;
    an exception is an error of the client, and the queue is NULL. *)
Definition schema_and_aggregators (selectQuery : string) (junk : Z) (cl : S2Client M)
    : outcome exn (S2ClientError + RowSchema * list AggregatorNode * S2Client M) :=
  r ← catch_s2 (ExplainRowSchema selectQuery junk (client_conn cl));
  match r with
  | inl e => Done (inl e)
  | inr (schema, c) =>
      r ← catch_s2 (GetAggregators c);
      match r with
      | inl e => Done (inl e)
      | inr (aggregators, c) => Done (inr (schema, aggregators, set_client_conn c cl))
      end
  end.
End chunk_queue.
Arguments ChunkQueue Q : clear implicits.

(** ** class StreamingQueue *)
Section create.
Context (selectQuery : string) (readType : ParallelReadType).
Context (partitionOrderByCols : list string).
Context (queueCapacity chunkSize nConsumers : Z).  (* the capacity as the caller's int *)
Context (junk : Z).

(** The partitions of this worker. *)
Definition worker_partitions (cl : S2Client M) : outcome exn (list Z) :=
  WorkerPartitions (s32 (m_numWorkers cl)) (s32 (m_workerId cl)) (s32 (m_numPartitions cl)).

(** [std::vector<int> (client->m_numPartitions, -1)] *)
Definition no_consumers (cl : S2Client M) : list Z :=
  replicate (Z.to_nat (m_numPartitions cl)) (-1).

Definition streaming_choice (resultTableName : string) (serverVersion : string) (partition : Z)
    : outcome exn query_choice :=
  match readType with
  | ReadTypeResultTable =>
      q ← MakeReadResultTableQuery resultTableName partition serverVersion; Done (UseQuery q)
  | ReadTypeColumnStoreTable =>
      Done (Refuse (Some (mkS2ClientError S2C_ERROR_INV_ARG
        "Cannot use ReadTypeColumnStoreTable in Single Pass")))
  | ReadTypeOriginalTable =>
      q ← MakeReadOriginalTableQuery selectQuery None partitionOrderByCols partition;
      Done (UseQuery q)
  | ReadTypeUnknown => Done (Refuse None)
  end.

(** [ResultTableReader::UpdateRowSchema]: the reader's schema becomes that of
    the active query (the old one is freed). *)
Definition UpdateRowSchema (rd : reader) : outcome exn (RowSchema * reader) :=
  schema ← GetRowSchema false (m_conn rd);
  Done (schema, mkReader (m_conn rd) (m_is_parallel rd) (m_partition rd) (m_active rd)
                  (m_query rd) (r_chunk_size rd) (Some schema) (m_use_prepared_protocol rd)
                  (m_error rd)).

(** The reader of a query that is not read in parallel: it is prepared here,
    and its schema is the one of the result. *)
Definition NonParallelReader (cl : S2Client M) (usePreparedProtocol : bool)
    : outcome exn (S2ClientError + RowSchema * reader) :=
  let a := m_args (client_conn cl) in
  c ← ConnectTo (m_host a) (m_port a) (m_db a) (m_user a) (m_password a) (m_ssl_ca a);
  rd ← PrepareRead false
         (CreateReaderNonParallel c selectQuery None chunkSize usePreparedProtocol);
  if negb (m_errorCode (TableReader.GetError rd) =? 0)
  then Done (inl (TableReader.GetError rd))
  else
    '((schema, rd) : RowSchema * reader) ← UpdateRowSchema rd;
    rd ← Prefetch rd;
    Done (inr (schema, rd)).

Definition CreateStreamingQueue (resultTableName : option string)
    (doesParallelRead usePreparedProtocol cb : bool) (cl : S2Client M)
    : outcome exn (option (ChunkQueue chunks) * S2Client M * list report) :=
  creds ← conn_credentials (client_conn cl);
  partitions ← (if doesParallelRead then worker_partitions cl else Done [0]);
  '((queues, pc) : list chunks * list Z) ←
    CreateConsumers (fun ps => simple_queue_new (u32 queueCapacity) (Z.of_nat (length ps)))
      (seqZ 0 nConsumers) nConsumers partitions [] (no_consumers cl);
  let made schema readers :=
    mkChunkQueue (Some schema) false no_error (default ""%string resultTableName) selectQuery ""
      readType readers creds [] queues pc in
  if doesParallelRead then
    r ← schema_and_aggregators selectQuery junk cl;
    match r with
    | inl e => no_queue (Some e) cb (conn_thrown after_throw cl) []
    | inr (schema, aggregators, cl) =>
        '((w, rds) : list report * (option S2ClientError + list reader_entry)) ←
          CreateReaders
            (fun p =>
               match resultTableName with
               | Some t => streaming_choice t (m_serverVersion cl) p
               | None => Undef "std::string from a null pointer"
               end)
            partitions aggregators creds creds (length queues) pc (Some schema) chunkSize cb;
        match rds with
        | inl e => no_queue e cb cl w
        | inr readers => Done (Some (made schema readers), cl, w)
        end
    end
  else
    _ ← at_index queues 0;
    r ← catch_s2 (NonParallelReader cl usePreparedProtocol);
    match r with
    | inl e | inr (inl e) => no_queue (Some e) cb cl []
    | inr (inr (schema, rd)) => Done (Some (made schema [mkEntry rd 0 false]), cl, [])
    end.

(** ** class MultiPassQueue *)

(** [m_consumer_threads_num] is [None] while it is not initialised; a consumer
    is its connection, once it has one (the writer is made new for each use). *)
Record MultiPassQueue := mkMulti {
  chunk_queue : ChunkQueue batch_queue;
  m_consumer_threads_num : option Z;
  m_consumers : list (option (S2Connection M));
  queue_serverVersion : string
}.

Definition multi_pass_choice (resultTableName keyColumnName serverVersion : string)
    (sort_key : list string) (partition : Z) : outcome exn query_choice :=
  match readType with
  | ReadTypeResultTable =>
      q ← MakeReadResultTableQuery resultTableName partition serverVersion; Done (UseQuery q)
  | ReadTypeColumnStoreTable =>
      Done (UseQuery (MakeReadColumnStoreTableQuery resultTableName keyColumnName
                        partitionOrderByCols partition))
  | ReadTypeOriginalTable =>
      q ← MakeReadOriginalTableQuery selectQuery (Some sort_key) partitionOrderByCols partition;
      Done (UseQuery q)
  | ReadTypeUnknown => Done (Refuse None)
  end.

Definition CreateMultiPassQueue (resultTableName sourceTable keyColumnName : string) (cb : bool)
    (cl : S2Client M) : outcome exn (option MultiPassQueue * S2Client M * list report) :=
  creds ← conn_credentials (client_conn cl);
  partitions ← worker_partitions cl;
  '((queues, pc) : list batch_queue * list Z) ←
    CreateConsumers (ThreadSafeBatchQueue (s32 queueCapacity))
      (seqZ 0 nConsumers) nConsumers partitions [] (no_consumers cl);
  r ← schema_and_aggregators selectQuery junk cl;
  match r with
  | inl e => no_queue (Some e) cb (conn_thrown after_throw cl) []
  | inr (schema, aggregators, cl) =>
      '((keys, cl) : TableKeys * S2Client M) ←
        (if decide (readType = ReadTypeOriginalTable) then
           '((keys, c) : TableKeys * S2Connection M) ← GetTableKeys sourceTable (client_conn cl);
           Done (keys, set_client_conn c cl)
         else Done (mkTableKeys [] [], cl));
      '((w, rds) : list report * (option S2ClientError + list reader_entry)) ←
        CreateReaders
          (multi_pass_choice resultTableName keyColumnName (m_serverVersion cl) (sort_key keys))
          partitions aggregators creds creds (length queues) pc (Some schema) chunkSize cb;
      match rds with
      | inl e => no_queue e cb cl w
      | inr readers =>
          let q := mkChunkQueue (Some schema) false no_error resultTableName selectQuery
                     keyColumnName readType readers creds aggregators queues pc in
          Done (Some (if (length readers =? 0)%nat then mkMulti q None [] (m_serverVersion cl)
                      else mkMulti q (Some nConsumers) (replicate (Z.to_nat nConsumers) None)
                             (m_serverVersion cl)), cl, w)
      end
  end.
End create.

(** ** Reading by number and by key *)
Definition set_chunk_queue (q : ChunkQueue batch_queue) (mp : MultiPassQueue) : MultiPassQueue :=
  mkMulti q (m_consumer_threads_num mp) (m_consumers mp) (queue_serverVersion mp).
Definition set_consumer (i : nat) (c : option (S2Connection M)) (mp : MultiPassQueue)
    : MultiPassQueue :=
  mkMulti (chunk_queue mp) (m_consumer_threads_num mp) (<[i := c]> (m_consumers mp))
    (queue_serverVersion mp).

Definition GetById (partitionId chunkId : Z) (mp : MultiPassQueue)
    : outcome exn (option (option Chunk * S2ClientError * MultiPassQueue)) :=
  let q := chunk_queue mp in
  consumer ← at_index (m_partition_consumer q) partitionId;
  c ← at_index (m_consumer_queues q) consumer;
  match queue_Get partitionId chunkId c with
  | Done None => Done None
  | Done (Some (chunk, c)) =>
      Done (Some (chunk, no_error,
                  set_chunk_queue (set_consumer_queue (Z.to_nat consumer) c q) mp))
  | Throw (OutOfRange _) =>
      let '(err, q) := readers_failed q in Done (Some (None, err, set_chunk_queue q mp))
  | Throw e => Throw e
  | AssertFail what => AssertFail what
  | Undef what => Undef what
  end.

(** What [GetSingleRow] and [GetMultipleRows] have in common: the check of the
    thread, its connection, which is made at the first call, and the handler
    of the exceptions of [read]. *)
Definition with_consumer (partitionId threadId : Z)
    (read : S2Connection M -> outcome exn (S2ClientError + Chunk * S2Connection M))
    (mp : MultiPassQueue) : outcome exn (option Chunk * S2ClientError * MultiPassQueue) :=
  match m_consumer_threads_num mp with
  | None => Undef "m_consumer_threads_num is not initialised"
  | Some n =>
      if n <=? threadId then
        Done (None, mkS2ClientError S2C_ERROR_INV_ARG
                      ("threadId " +:+ to_string threadId +:+ " is too large"), mp)
      else
        conn ← at_index (m_consumers mp) threadId;
        let i := Z.to_nat threadId in
        let q := chunk_queue mp in
        '((conn, err) : option (S2Connection M) * S2ClientError) ←
          match conn with
          | Some c => Done (Some c, no_error)
          | None =>
              ConnectWithRetryMA (FillCredentials (m_aggregators q) (s32 partitionId) (m_credentials q))
                (m_credentials q) no_error
          end;
        let mp := set_consumer i conn mp in
        if negb (m_errorCode err =? 0) then Done (None, err, mp)
        else
          match conn with
          | None => Undef "call on a null connection"
          | Some c =>
              r ← catch_s2 (read c);
              match r with
              | inr (inr (chunk, c)) => Done (Some chunk, no_error, set_consumer i (Some c) mp)
              | inr (inl e) => Done (None, e, mp)
              | inl e => Done (None, e, set_consumer i (Some (after_throw c)) mp)
              end
          end
  end.

(** The schema is not NULL in a queue that has readers. *)
Definition with_schema {A} (q : ChunkQueue batch_queue) (f : RowSchema -> outcome exn A)
    : outcome exn A :=
  match m_row_schema q with Some schema => f schema | None => Undef "null row schema" end.

(** [malloc]: the buffer of the given size, NULL as [None]. *)
Definition MultiGetSingleRow (malloc : Z -> option bytes) (partitionId rowId threadId : Z)
    (mp : MultiPassQueue) : outcome exn (option Chunk * S2ClientError * MultiPassQueue) :=
  let q := chunk_queue mp in
  with_consumer partitionId threadId
    (fun c =>
       with_schema q (fun schema =>
         r ← GetSingleRow scan_double uninit malloc schema (m_result_table q) (m_select_query q)
               (m_key_column q) partitionId rowId (m_read_type q) (queue_serverVersion mp) c;
         Done (inr r))) mp.

(** The number of rows is an [int64_t] here and an [int] for the connection. *)
Definition MultiGetMultipleRows (malloc : Z -> option bytes) (fuel : nat) (chunkSize : Z)
    (partitionId : Z) (rowIds : list Z) (threadId : Z) (mp : MultiPassQueue)
    : outcome exn (option Chunk * S2ClientError * MultiPassQueue) :=
  let q := chunk_queue mp in
  with_consumer partitionId threadId
    (fun c =>
       match malloc chunkSize with
       | None =>
           Done (inl (mkS2ClientError S2C_ERROR_MEMORY_ALLOCATION
             ("GetMultipleRows cannot allocate chunk size: " +:+ to_string chunkSize)))
       | Some ptr =>
           with_schema q (fun schema =>
             r ← GetMultipleRows scan_double uninit fuel (NewChunk ptr chunkSize 0 partitionId)
                   schema (m_result_table q) (m_select_query q) (m_key_column q) partitionId
                   rowIds (s32 (Z.of_nat (length rowIds))) (m_read_type q) c;
             Done (inr r))
       end) mp.

(** A streaming queue refuses to read by number or by key: its error is set,
    the caller's is not. *)
Definition StreamingRefuses (what : string) (error : S2ClientError) (q : ChunkQueue chunks)
    : option Chunk * S2ClientError * ChunkQueue chunks :=
  (None, error, QueueSetError (mkS2ClientError S2C_ERROR_INV_ARG what) q).
Definition StreamingGetById :=
  StreamingRefuses "Cannot use streaming queue in multi-pass mode".
Definition StreamingGetSingleRow :=
  StreamingRefuses "Cannot use streaming queue in random read mode".
Definition StreamingGetMultipleRows :=
  StreamingRefuses "Cannot use streaming queue in random read mode".
End queues.
Arguments ChunkQueue M Q : clear implicits.
Arguments MultiPassQueue M : clear implicits.
Arguments reader_entry M : clear implicits.

(** ** Which queue a partition goes to *)
Lemma at_index_lookup {A} (l : list A) i a :
  at_index l i = Done a <-> 0 <= i /\ l !! Z.to_nat i = Some a.
Proof.
  unfold at_index. destruct (Z.leb_spec 0 i); [|split; [done|lia]].
  destruct (l !! Z.to_nat i); naive_solver.
Qed.

Lemma store_partitions_spec c ps pc :
  Forall (fun p => 0 <= p < Z.of_nat (length pc)) ps ->
  exists pc', store_partitions c ps pc = Done pc' /\ length pc' = length pc
    /\ forall p, 0 <= p -> pc' !! Z.to_nat p =
         if bool_decide (p ∈ ps) then Some c else pc !! Z.to_nat p.
Proof.
  revert pc. induction ps as [|p ps IH]; intros pc Hps.
  { exists pc. split_and!; [done..|]. intros p _. by rewrite bool_decide_false by apply not_elem_of_nil. }
  apply Forall_cons_iff in Hps as [Hp Hps]. cbn [store_partitions].
  destruct (lookup_lt_is_Some_2 pc (Z.to_nat p)) as [x Hx]; [lia|].
  rewrite (proj2 (at_index_lookup pc p x)) by (split; [lia|done]). rewrite Done_bind.
  destruct (IH (<[Z.to_nat p := c]> pc)) as (pc' & E & Hlen & Hl); [by rewrite length_insert|].
  rewrite length_insert in Hlen. exists pc'. split_and!; [done..|].
  intros q Hq. rewrite Hl by done.
  destruct (decide (q = p)) as [->|Hne].
  - rewrite (bool_decide_true (p ∈ p :: ps)) by left. case_bool_decide; [done|].
    apply list_lookup_insert_eq. lia.
  - rewrite (bool_decide_ext (q ∈ p :: ps) (q ∈ ps)) by (rewrite elem_of_cons; naive_solver).
    case_bool_decide; [done|]. apply list_lookup_insert_ne. lia.
Qed.

(** A partition of a worker belongs to the consumer that its position, modulo
    the number of consumers, says. *)
Lemma elem_of_every (n c i : nat) (l : list Z) p :
  (c < n)%nat -> NoDup l -> l !! i = Some p ->
  p ∈ every n c l <-> (i mod n)%nat = c.
Proof.
  intros Hc Hnd Hi. rewrite list_elem_of_lookup. setoid_rewrite lookup_every; [|lia]. split.
  - intros (j & Hj). assert (i = (c + j * n)%nat) as -> by (eapply NoDup_lookup; eauto).
    rewrite Nat.Div0.mod_add. by apply Nat.mod_small.
  - intros <-. exists (i / n)%nat. rewrite <- Hi. f_equal.
    pose proof (Nat.div_mod i n ltac:(lia)). lia.
Qed.

Lemma CreateConsumers_spec {Q} (make : list Z -> Q) (n : nat) parts : forall ids queues pc,
  (0 < n)%nat -> Z.of_nat n + Z.of_nat (length parts) < 2 ^ 64 ->
  NoDup parts -> Forall (fun p => 0 <= p < Z.of_nat (length pc)) parts ->
  Forall (fun c => c < n)%nat ids ->
  exists pc',
    CreateConsumers make (Z.of_nat <$> ids) (Z.of_nat n) parts queues pc =
      Done ((queues ++ ((fun c => make (every n c parts)) <$> ids))%list, pc')
    /\ length pc' = length pc
    /\ (forall i p, parts !! i = Some p ->
         pc' !! Z.to_nat p =
         if bool_decide ((i mod n)%nat ∈ ids) then Some (Z.of_nat (i mod n))
         else pc !! Z.to_nat p)
    /\ (forall p, 0 <= p -> p ∉ parts -> pc' !! Z.to_nat p = pc !! Z.to_nat p).
Proof.
  intros ids. induction ids as [|c ids IH]; intros queues pc Hn Hb Hnd Hparts Hids.
  { exists pc. cbn. rewrite app_nil_r. split_and!; [done..| |done].
    intros i p _. by rewrite bool_decide_false by apply not_elem_of_nil. }
  apply Forall_cons_iff in Hids as [Hc Hids]. cbn [fmap list_fmap CreateConsumers].
  rewrite ConsumerPartitions_every, Done_bind by lia.
  destruct (store_partitions_spec (Z.of_nat c) (every n c parts) pc) as (pc1 & E1 & L1 & S1).
  { rewrite Forall_forall in Hparts |- *. intros x Hx. apply Hparts.
    apply list_elem_of_In. eapply elem_of_sublist; [|apply every_sublist].
    by apply list_elem_of_In. }
  rewrite E1, Done_bind.
  destruct (IH (queues ++ [make (every n c parts)])%list pc1) as (pc2 & E2 & L2 & S2 & S2');
    [done|done|done|by rewrite L1|done|].
  exists pc2. rewrite E2, L2, L1, <- app_assoc. split_and!; [done|done| |].
  - intros i p Hi. rewrite (S2 i p Hi).
    pose proof (Forall_lookup_1 _ _ _ _ Hparts Hi) as Hp. cbv beta in Hp.
    rewrite S1 by lia.
    rewrite (bool_decide_ext _ _ (elem_of_every n c i parts p Hc Hnd Hi)).
    rewrite (bool_decide_ext ((i mod n)%nat ∈ c :: ids) ((i mod n)%nat = c \/ (i mod n)%nat ∈ ids))
      by apply elem_of_cons.
    repeat case_bool_decide; naive_solver.
  - intros p Hp Hnot. rewrite S2' by done. rewrite S1 by done.
    rewrite bool_decide_false; [done|]. intros Hin. apply Hnot.
    eapply elem_of_sublist; [done|apply every_sublist].
Qed.

(** The elements that [every] takes are the ones marked with its number. *)
Lemma every_filter {E} (mark value : E -> Z) (n c : nat) (l : list E) : forall off,
  (c < n)%nat ->
  (forall i e, l !! i = Some e -> mark e = (Z.of_nat (off + i)) mod Z.of_nat n) ->
  every n (Z.to_nat ((Z.of_nat c - Z.of_nat off) mod Z.of_nat n)) (value <$> l) =
  value <$> filter (fun e => mark e = Z.of_nat c) l.
Proof.
  induction l as [|e l IH]; intros off Hc Hl; [done|].
  pose proof (Hl 0%nat e eq_refl) as He. rewrite Nat.add_0_r in He.
  assert (forall i e, l !! i = Some e -> mark e = Z.of_nat (Datatypes.S off + i) mod Z.of_nat n) as Hl'.
  { intros i e' Hi. rewrite (Hl (Datatypes.S i) e' Hi). do 2 f_equal. lia. }
  specialize (IH (Datatypes.S off) Hc Hl').
  set (k := (Z.of_nat c - Z.of_nat off) mod Z.of_nat n) in *.
  pose proof (Z.mod_pos_bound (Z.of_nat c - Z.of_nat off) (Z.of_nat n) ltac:(lia)) as Hk. fold k in Hk.
  assert ((Z.of_nat c - Z.of_nat (Datatypes.S off)) mod Z.of_nat n = (k - 1) mod Z.of_nat n) as Ek.
  { unfold k. rewrite Zminus_mod_idemp_l. f_equal. lia. }
  rewrite Ek in IH.
  assert (k = 0 <-> Z.of_nat off mod Z.of_nat n = Z.of_nat c) as Hz.
  { unfold k. rewrite <- (Z.mod_small (Z.of_nat c) (Z.of_nat n)) at 2 by lia.
    rewrite <- Z.cong_iff_0. split; congruence. }
  cbn [fmap list_fmap every]. destruct (Z.to_nat k) as [|k'] eqn:Ek0.
  - assert (k = 0) as -> by lia. rewrite filter_cons_True by (rewrite He; by apply Hz).
    cbn [fmap list_fmap]. f_equal. rewrite <- IH. f_equal.
    replace (0 - 1) with ((Z.of_nat n - 1) + (-1) * Z.of_nat n) by lia.
    rewrite Z_mod_plus_full, Z.mod_small by lia. lia.
  - rewrite filter_cons_False by (rewrite He, <- Hz; lia).
    rewrite <- IH. f_equal. rewrite Z.mod_small by lia. lia.
Qed.

(** The credentials that are threaded through the loop do not matter: a
    partition's aggregator overwrites what the one before left. *)
Lemma FillCredentials_again aggregators p p' creds :
  0 <= p < 2 ^ 31 -> Z.of_nat (length aggregators) < 2 ^ 31 ->
  FillCredentials aggregators p (FillCredentials aggregators p' creds) =
  FillCredentials aggregators p creds.
Proof.
  intros Hp Hlen. unfold FillCredentials at 1 3.
  destruct aggregators as [|a0 rest] eqn:Ea; [done|]. rewrite <- Ea in *.
  assert (0 < Z.of_nat (length aggregators)) by (rewrite Ea; cbn; lia).
  pose proof (Z.mod_pos_bound p (Z.of_nat (length aggregators)) ltac:(lia)).
  rewrite (wrap_u_small 64), (wrap_s_small 32 eq_refl) by lia.
  destruct (lookup_lt_is_Some_2 aggregators (Z.to_nat (p mod Z.of_nat (length aggregators))))
    as [agg ->]; [lia|].
  assert (forall h pt, set_address h pt (FillCredentials aggregators p' creds)
            = set_address h pt creds) as Hset.
  { intros h pt. unfold FillCredentials. rewrite Ea.
    repeat (case_match; cbn); done. }
  by rewrite !Hset.
Qed.

Lemma catch_s2_inr {A} (m : outcome exn A) a : catch_s2 m = Done (inr a) -> m = Done a.
Proof. destruct m as [a'|[]| |]; cbn; congruence. Qed.

Section creation.
Context `{Build} {M : Type} `{!MysqlClient M}.
Context (scan_double : string -> option Z) (uninit : Z).
Context (after_throw : S2Connection M -> S2Connection M).

(** The reader of partition [p], ready to be started: it reads the partition
    with the query chosen for it, over a connection to the aggregator of the
    partition or to the client's own server, and pushes to the queue of the
    consumer that the partition belongs to. *)
Record reader_for (choose : Z -> outcome exn query_choice) (aggregators : list AggregatorNode)
    (creds : Credentials) (pc : list Z) (schema : option RowSchema) (chunkSize : Z)
    (p : Z) (e : reader_entry M) : Prop := {
  rf_partition : m_partition (e_reader e) = u32 p;
  rf_queue : 0 <= p /\ pc !! Z.to_nat p = Some (e_queue e);
  rf_query : choose p = Done (UseQuery (m_query (e_reader e)));
  rf_conn : Connect (FillCredentials aggregators p creds) = Done (m_conn (e_reader e))
            \/ Connect creds = Done (m_conn (e_reader e));
  rf_ready : m_active (e_reader e) = true /\ e_stop e = false
             /\ m_error (e_reader e) = no_error /\ r_schema (e_reader e) = schema
             /\ r_chunk_size (e_reader e) = chunkSize /\ m_is_parallel (e_reader e) = true
             /\ m_use_prepared_protocol (e_reader e) = true
}.

Lemma CreateReader_made creds master queue query schema p size cb w e :
  CreateReader creds master queue query schema p size cb = Done (w, Some e) ->
  exists c, (Connect creds = Done c \/ Connect master = Done c)
    /\ e = mkEntry (TableReader.CreateReader c query schema p size) queue false.
Proof using Type.
  unfold CreateReader. intros E.
  apply bind_Done in E as ([err|c] & Ec & E).
  - apply bind_Done in E as (w1 & _ & E). apply bind_Done in E as ([err'|c] & Em & E).
    + by apply bind_Done in E as (w2 & _ & E).
    + injection E as <- <-. exists c. split; [right; by apply catch_s2_inr|done].
  - injection E as <- <-. exists c. split; [left; by apply catch_s2_inr|done].
Qed.

Lemma CreateReaders_made choose parts aggs master nq pc schema size cb :
  Forall (fun p => 0 <= p < 2 ^ 31) parts -> Z.of_nat (length aggs) < 2 ^ 31 ->
  forall creds w rds,
  (creds = master \/ exists p', creds = FillCredentials aggs p' master) ->
  CreateReaders choose parts aggs creds master nq pc schema size cb = Done (w, inr rds) ->
  Forall2 (reader_for choose aggs master pc schema size) parts rds.
Proof using Type.
  intros Hparts Haggs. induction parts as [|p parts IH]; intros creds w rds Hcreds E.
  { cbn in E. injection E as <- <-. constructor. }
  apply Forall_cons_iff in Hparts as [Hp Hparts]. cbn [CreateReaders] in E.
  apply bind_Done in E as ([query|err] & Eq & E); [|done].
  apply bind_Done in E as (consumer & Ec & E). apply bind_Done in E as (k & _ & E).
  apply bind_Done in E as ([w1 [rd|]] & Er & E); [|done].
  apply bind_Done in E as ([ws [err|rest]] & Es & E); [done|].
  injection E as <- <-. apply CreateReader_made in Er as (c & Hc & ->).
  apply at_index_lookup in Ec as [Hp0 Ec].
  assert (FillCredentials aggs p creds = FillCredentials aggs p master) as Ef
    by (destruct Hcreds as [->|[p' ->]]; [done|by apply FillCredentials_again]).
  rewrite Ef in Hc, Es. constructor; [|apply (IH Hparts (FillCredentials aggs p master) ws rest ltac:(right; by exists p) Es)].
  by constructor.
Qed.

(** What the readers and the queues of a worker have to do with each other:
    [expects ps q]: queue [q] waits for the producers [ps]. *)
Definition matched {Q} (expects : list Z -> Q -> Prop) (readers : list (reader_entry M))
    (queues : list Q) (nConsumers : Z) : Prop :=
  Z.of_nat (length queues) = nConsumers
  /\ Forall (fun e => 0 <= e_queue e < nConsumers) readers
  /\ forall c q, queues !! c = Some q ->
       expects ((fun e => m_partition (e_reader e)) <$>
                  filter (fun e => e_queue e = Z.of_nat c) readers) q.

Lemma CreateConsumers_matched {Q} (make : list Z -> Q) choose aggs creds pc0 pc schema size
    parts rds queues n :
  0 < n -> n + Z.of_nat (length parts) < 2 ^ 64 -> NoDup parts ->
  Forall (fun p => 0 <= p < Z.of_nat (length pc0)) parts -> Z.of_nat (length pc0) < 2 ^ 31 ->
  CreateConsumers make (seqZ 0 n) n parts [] pc0 = Done (queues, pc) ->
  Forall2 (reader_for choose aggs creds pc schema size) parts rds ->
  (fun e => m_partition (e_reader e)) <$> rds = parts
  /\ matched (fun ps q => q = make ps) rds queues n
  /\ forall i e, rds !! i = Some e -> e_queue e = Z.of_nat i mod n.
Proof using Type.
  intros Hn Hb Hnd Hparts Hpc E Hrds.
  destruct (Z_of_nat_complete n) as [k ->]; [lia|].
  assert (seqZ 0 (Z.of_nat k) = Z.of_nat <$> seq 0 k) as Eseq.
  { unfold seqZ. rewrite Nat2Z.id. apply list_fmap_ext. intros. lia. }
  rewrite Eseq in E.
  destruct (CreateConsumers_spec make k parts (seq 0 k) [] pc0) as (pc' & E' & _ & Hown & _);
    [lia|done|done|done|apply Forall_seq; lia|].
  rewrite E in E'. injection E' as -> <-. cbn [app] in *.
  assert ((fun e => m_partition (e_reader e)) <$> rds = parts) as Eparts.
  { apply list_eq. intros i. rewrite list_lookup_fmap.
    pose proof (proj1 (Forall2_lookup _ _ _) Hrds i) as Hi.
    destruct (parts !! i) as [p|] eqn:Ep, (rds !! i) as [e|]; inversion Hi as [? ? Hrf|]; [|done].
    subst. cbn. f_equal. rewrite (rf_partition _ _ _ _ _ _ _ _ Hrf).
    pose proof (Forall_lookup_1 _ _ _ _ Hparts Ep) as Hp. cbv beta in Hp.
    apply (wrap_u_small 32). lia. }
  assert (forall i e, rds !! i = Some e -> e_queue e = Z.of_nat (0 + i) mod Z.of_nat k) as Hq.
  { intros i e Hi. destruct (Forall2_lookup_r _ _ _ _ _ Hrds Hi) as (p & Hp & Hrf).
    destruct (rf_queue _ _ _ _ _ _ _ _ Hrf) as [_ Hqe].
    rewrite (Hown i p Hp) in Hqe. rewrite bool_decide_true in Hqe.
    - injection Hqe as <-. cbn. rewrite Nat2Z.inj_mod. done.
    - apply elem_of_seq. pose proof (Nat.mod_upper_bound i k). lia. }
  split; [done|]. split; [|exact Hq]. split_and!.
  - by rewrite length_fmap, length_seq.
  - apply Forall_lookup. intros i e Hi. rewrite (Hq i e Hi). apply Z.mod_pos_bound. lia.
  - intros c q Hc. apply list_lookup_fmap_Some in Hc as (c' & -> & Hc).
    apply lookup_seq in Hc as [-> Hc]. cbn [Nat.add] in *. f_equal.
    pose proof (every_filter e_queue (fun e => m_partition (e_reader e)) k c rds 0 Hc Hq) as Hf.
    rewrite Eparts, Z.sub_0_r, Z.mod_small, Nat2Z.id in Hf by lia. exact Hf.
Qed.

Lemma worker_partitions_facts (cl : S2Client M) parts :
  worker_partitions cl = Done parts ->
  0 < m_numWorkers cl -> m_workerId cl < m_numWorkers cl -> 0 <= m_workerId cl ->
  0 <= m_numPartitions cl -> m_numPartitions cl + m_numWorkers cl < 2 ^ 31 ->
  NoDup parts /\ Forall (fun p => 0 <= p < m_numPartitions cl) parts
  /\ (length parts <= Z.to_nat (m_numPartitions cl))%nat
  /\ forall i p, parts !! i = Some p <->
       p = m_workerId cl + Z.of_nat i * m_numWorkers cl /\ p < m_numPartitions cl.
Proof using Type.
  unfold worker_partitions. intros E HW Hw Hw0 Hn Hb.
  rewrite !(wrap_s_small 32 eq_refl) in E by lia.
  rewrite <- (Z2Nat.id (m_numWorkers cl)), <- (Z2Nat.id (m_workerId cl)) in E by lia.
  rewrite WorkerPartitions_every in E by lia. injection E as <-.
  pose proof (every_sublist (Z.to_nat (m_numWorkers cl)) (Z.to_nat (m_workerId cl))
    (seqZ 0 (m_numPartitions cl))) as Hsub.
  split_and!.
  - eapply sublist_NoDup; [|exact Hsub]. apply NoDup_seqZ.
  - apply Forall_forall. intros p Hp%list_elem_of_In.
    eapply elem_of_sublist in Hp; [|exact Hsub]. apply elem_of_seqZ in Hp. lia.
  - apply sublist_length in Hsub. by rewrite length_seqZ in Hsub.
  - intros i p. rewrite lookup_every, lookup_seqZ by lia. nia.
Qed.

(** A worker's place among the workers, as the caller configured the client. *)
Definition worker_ok (cl : S2Client M) : Prop :=
  0 < m_numWorkers cl /\ 0 <= m_workerId cl < m_numWorkers cl
  /\ 0 <= m_numPartitions cl /\ m_numPartitions cl + m_numWorkers cl < 2 ^ 31.

(** The readers of a worker are those of its partitions, and each pushes to the
    queue of the consumer that its partition is assigned to. *)
Definition assigned_readers (cl : S2Client M) (n : Z) (rds : list (reader_entry M)) : Prop :=
  let parts := (fun e => m_partition (e_reader e)) <$> rds in
  (NoDup parts /\ forall p, p ∈ parts <->
     0 <= p < m_numPartitions cl /\ p mod m_numWorkers cl = m_workerId cl)
  /\ Forall (fun e => e_queue e = (m_partition (e_reader e) / m_numWorkers cl) mod n) rds.

Lemma conn_credentials_of (c : S2Connection M) creds :
  conn_credentials c = Done creds ->
  creds = mkCredentials (m_host (m_args c)) (m_port (m_args c)) (m_db (m_args c))
            (default ""%string (m_user (m_args c))) (m_password (m_args c)) (m_ssl_ca (m_args c)).
Proof using Type. unfold conn_credentials. destruct (m_user _); [|done]. by intros [= <-]. Qed.

Lemma wired_up {Q} (make : list Z -> Q) choose cl parts queues pc aggs creds schema size nq cb
    w rds n :
  worker_ok cl -> 0 < n < 2 ^ 31 -> Z.of_nat (length aggs) < 2 ^ 31 ->
  worker_partitions cl = Done parts ->
  CreateConsumers make (seqZ 0 n) n parts [] (no_consumers cl) = Done (queues, pc) ->
  CreateReaders choose parts aggs creds creds nq pc schema size cb = Done (w, inr rds) ->
  (fun e => m_partition (e_reader e)) <$> rds = parts
  /\ Forall2 (reader_for choose aggs creds pc schema size) parts rds
  /\ matched (fun ps q => q = make ps) rds queues n
  /\ assigned_readers cl n rds.
Proof using Type.
  intros (HW & Hw & Hp & Hb) Hn Ha Ep Eq Er.
  destruct (worker_partitions_facts cl parts Ep) as (Hnd & Hparts & Hlen & Hnth); [lia..|].
  apply CreateReaders_made in Er; [| |done|by left].
  2: { eapply Forall_impl; [|exact Hparts]. cbv beta. intros. lia. }
  destruct (CreateConsumers_matched make choose aggs creds (no_consumers cl) pc schema size
    parts rds queues n) as (Eparts & Hm & Hq); [lia|lia|done| | |done|done|].
  1,2: unfold no_consumers; rewrite length_replicate, ?Z2Nat.id by lia; first [done|lia].
  do 3 (split; [done|]). unfold assigned_readers. rewrite Eparts. split; [split; [done|]|].
  - intros p. rewrite list_elem_of_lookup. setoid_rewrite Hnth.
    split.
    + intros (i & -> & Hlt). rewrite Z_mod_plus_full, Z.mod_small by lia. nia.
    + intros [Hlt Hmod]. exists (Z.to_nat (p / m_numWorkers cl)).
      pose proof (Z.div_mod p (m_numWorkers cl) ltac:(lia)).
      pose proof (Z.div_pos p (m_numWorkers cl) ltac:(lia) ltac:(lia)). nia.
  - apply Forall_lookup. intros i e Hi. rewrite (Hq i e Hi).
    assert (parts !! i = Some (m_partition (e_reader e))) as Hp'
      by (rewrite <- Eparts, list_lookup_fmap, Hi; done).
    apply Hnth in Hp' as [-> _]. f_equal.
    rewrite Z.div_add by lia. rewrite Z.div_small by lia. lia.
Qed.

(** What the client gets when it asks for the schema and the aggregators. *)
Lemma schema_and_aggregators_client select junk cl schema aggs cl1 :
  schema_and_aggregators select junk cl = Done (inr (schema, aggs, cl1)) ->
  m_serverVersion cl1 = m_serverVersion cl
  /\ exists c c', ExplainRowSchema select junk (client_conn cl) = Done (schema, c)
       /\ GetAggregators c = Done (aggs, c').
Proof using Type.
  unfold schema_and_aggregators. intros Es.
  apply bind_Done in Es as ([e|[s c]] & Ee & Es); [done|].
  apply bind_Done in Es as ([e|[a c']] & Ea & Es); [done|]. injection Es as <- <- <-.
  split; [done|]. apply catch_s2_inr in Ea. apply catch_s2_inr in Ee. eauto.
Qed.

Lemma no_queue_none {A} e cb cl w (a : A) cl' w' :
  no_queue e cb cl w <> Done (Some a, cl', w') :> outcome exn (option A * S2Client M * list report).
Proof using Type. unfold no_queue. destruct e; [by destruct (ClientSetError _ _ _)|done]. Qed.

(** The server does not have more aggregators than an [int] can count. *)
Definition few_aggregators (select : string) (junk : Z) (cl : S2Client M) : Prop :=
  forall schema c aggs c', ExplainRowSchema select junk (client_conn cl) = Done (schema, c) ->
    GetAggregators c = Done (aggs, c') -> Z.of_nat (length aggs) < 2 ^ 31.

(** What the creation of a streaming queue of a parallel read makes. *)
Lemma CreateStreamingQueue_made select readType order cap size n junk table prepared cb
    cl q cl' reports :
  CreateStreamingQueue scan_double uninit after_throw select readType order cap size n junk
    (Some table) true prepared cb cl = Done (Some q, cl', reports) ->
  worker_ok cl -> 0 < n < 2 ^ 31 -> few_aggregators select junk cl ->
  exists parts aggs creds schema,
    worker_partitions cl = Done parts
    /\ m_row_schema q = Some schema
    /\ (fun e => m_partition (e_reader e)) <$> m_readers q = parts
    /\ Forall2 (reader_for (streaming_choice select readType order table (m_serverVersion cl))
         aggs creds (m_partition_consumer q) (Some schema) size) parts (m_readers q)
    /\ matched (fun ps c => c = simple_queue_new (u32 cap) (Z.of_nat (length ps)))
         (m_readers q) (m_consumer_queues q) n
    /\ assigned_readers cl n (m_readers q).
Proof using Type.
  intros E Hcl Hn Haggs. unfold CreateStreamingQueue in E.
  apply bind_Done in E as (creds & Ecr & E). apply bind_Done in E as (parts & Ep & E).
  apply bind_Done in E as ([queues pc] & Eq & E).
  apply bind_Done in E as ([err|[[schema aggs] cl1]] & Es & E); [by apply no_queue_none in E|].
  apply schema_and_aggregators_client in Es as (Ev & c & c' & Ee & Ea).
  pose proof (Haggs _ _ _ _ Ee Ea) as Hlen.
  apply bind_Done in E as ([w [err|rds]] & Er & E); [by apply no_queue_none in E|].
  injection E as <- <- <-. cbn [m_readers m_row_schema m_partition_consumer m_consumer_queues].
  rewrite Ev in Er. exists parts, aggs, creds, schema.
  by destruct (wired_up _ _ _ _ _ _ _ _ _ _ _ _ _ _ _ Hcl Hn Hlen Ep Eq Er) as (E1 & E2 & E3 & E4).
Qed.

(** C14. A streaming queue of a parallel read is wired up correctly: its readers
    are one for each partition of the worker, in order, each with its query
    and a connection and ready to start; every reader pushes to a consumer's
    queue that exists; and the queue of each consumer is empty and expects
    exactly as many producers as there are readers that push to it, so that
    it ends when they have ended. *)
Theorem CreateStreamingQueue_matched select readType order cap size n junk table prepared cb
    cl q cl' reports :
  CreateStreamingQueue scan_double uninit after_throw select readType order cap size n junk
    (Some table) true prepared cb cl = Done (Some q, cl', reports) ->
  worker_ok cl -> 0 < n < 2 ^ 31 -> few_aggregators select junk cl ->
  exists parts aggs creds schema,
    worker_partitions cl = Done parts
    /\ m_row_schema q = Some schema
    /\ (fun e => m_partition (e_reader e)) <$> m_readers q = parts
    /\ Forall2 (reader_for (streaming_choice select readType order table (m_serverVersion cl))
         aggs creds (m_partition_consumer q) (Some schema) size) parts (m_readers q)
    /\ matched (fun ps c => c = simple_queue_new (u32 cap) (Z.of_nat (length ps)))
         (m_readers q) (m_consumer_queues q) n.
Proof using Type.
  intros E Hcl Hn Haggs.
  destruct (CreateStreamingQueue_made _ _ _ _ _ _ _ _ _ _ _ _ _ _ E Hcl Hn Haggs)
    as (parts & aggs & creds & schema & ? & ? & ? & ? & ? & _).
  by exists parts, aggs, creds, schema.
Qed.

(** What the creation of a multi-pass queue makes. *)
(** The keys that the creation of a multi-pass queue gets: those of the source
    table when it is read itself, otherwise none. *)
Definition keys_for (readType : ParallelReadType) (source : string) (keys : TableKeys) : Prop :=
  if decide (readType = ReadTypeOriginalTable)
  then exists c c', GetTableKeys source c = Done (keys, c') else keys = mkTableKeys [] [].

Lemma CreateMultiPassQueue_made select readType order cap size n junk table source key cb
    cl mp cl' reports :
  CreateMultiPassQueue after_throw select readType order cap size n junk table source key cb cl
    = Done (Some mp, cl', reports) ->
  worker_ok cl -> 0 < n < 2 ^ 31 -> few_aggregators select junk cl ->
  let q := chunk_queue mp in
  exists parts creds schema keys,
    keys_for readType source keys
    /\ worker_partitions cl = Done parts
    /\ m_row_schema q = Some schema
    /\ (fun e => m_partition (e_reader e)) <$> m_readers q = parts
    /\ Forall2 (reader_for (multi_pass_choice select readType order table key
                              (m_serverVersion cl) (sort_key keys))
         (m_aggregators q) creds (m_partition_consumer q) (Some schema) size) parts (m_readers q)
    /\ matched (fun ps c => c = ThreadSafeBatchQueue (s32 cap) ps)
         (m_readers q) (m_consumer_queues q) n
    /\ assigned_readers cl n (m_readers q)
    /\ (m_readers q <> [] -> m_consumer_threads_num mp = Some n
                             /\ m_consumers mp = replicate (Z.to_nat n) None).
Proof using Type.
  intros E Hcl Hn Haggs q. unfold CreateMultiPassQueue in E.
  apply bind_Done in E as (creds & Ecr & E). apply bind_Done in E as (parts & Ep & E).
  apply bind_Done in E as ([queues pc] & Eq & E).
  apply bind_Done in E as ([err|[[schema aggs] cl1]] & Es & E); [by apply no_queue_none in E|].
  apply schema_and_aggregators_client in Es as (Ev & c & c' & Ee & Ea).
  pose proof (Haggs _ _ _ _ Ee Ea) as Hlen.
  apply bind_Done in E as ([keys cl2] & Ek & E).
  assert (m_serverVersion cl2 = m_serverVersion cl1) as Ev2.
  { destruct (decide _); [|by injection Ek as _ <-].
    apply bind_Done in Ek as ([k c2] & _ & Ek). by injection Ek as _ <-. }
  apply bind_Done in E as ([w [err|rds]] & Er & E); [by apply no_queue_none in E|].
  rewrite Ev2, Ev in Er. injection E as Emp <- <-.
  destruct (wired_up _ _ _ _ _ _ _ _ _ _ _ _ _ _ _ Hcl Hn Hlen Ep Eq Er) as (E1 & E2 & E3 & E4).
  exists parts, creds, schema, keys. subst q.
  assert (keys_for readType source keys) as Hkeys.
  { unfold keys_for. destruct (decide _); [|by injection Ek as <- _].
    apply bind_Done in Ek as ([k c2] & Ek & E). injection E as -> _. by do 2 eexists. }
  destruct rds as [|rd rds]; cbn [length Nat.eqb] in Emp; subst mp;
    split_and!; try done; exact E4.
Qed.

(** C15. The same for a multi-pass queue, whose queues know their producers by
    name: the queue of each consumer has exactly the partitions of the readers
    that push to it as its producers.  A worker that has readers gets one
    connection to be made for each consumer thread. *)
Theorem CreateMultiPassQueue_matched select readType order cap size n junk table source key cb
    cl mp cl' reports :
  CreateMultiPassQueue after_throw select readType order cap size n junk table source key cb cl
    = Done (Some mp, cl', reports) ->
  worker_ok cl -> 0 < n < 2 ^ 31 -> few_aggregators select junk cl ->
  let q := chunk_queue mp in
  exists parts creds schema keys,
    worker_partitions cl = Done parts
    /\ m_row_schema q = Some schema
    /\ (fun e => m_partition (e_reader e)) <$> m_readers q = parts
    /\ Forall2 (reader_for (multi_pass_choice select readType order table key
                              (m_serverVersion cl) keys)
         (m_aggregators q) creds (m_partition_consumer q) (Some schema) size) parts (m_readers q)
    /\ matched (fun ps c => c = ThreadSafeBatchQueue (s32 cap) ps)
         (m_readers q) (m_consumer_queues q) n
    /\ (m_readers q <> [] -> m_consumer_threads_num mp = Some n
                             /\ m_consumers mp = replicate (Z.to_nat n) None).
Proof using Type.
  intros E Hcl Hn Haggs q.
  destruct (CreateMultiPassQueue_made _ _ _ _ _ _ _ _ _ _ _ _ _ _ _ E Hcl Hn Haggs)
    as (parts & creds & schema & keys & _ & ? & ? & ? & ? & ? & _ & ?).
  by exists parts, creds, schema, (sort_key keys).
Qed.

(** ** Errors of the readers *)

(** A line of the message for each reader that has failed. *)
Definition reader_lines (readers : list (reader_entry M)) : string :=
  foldr (fun e acc => " - " +:+ m_errorMessage (TableReader.GetError (e_reader e))
                      +:+ newline +:+ acc) ""%string readers.

Definition has_failed (e : reader_entry M) : Prop :=
  m_errorCode (TableReader.GetError (e_reader e)) <> 0.
#[export] Instance has_failed_dec e : Decision (has_failed e).
Proof using Type. unfold has_failed. apply _. Defined.

Lemma no_failures readers :
  filter has_failed readers = [] <->
  Forall (fun e => m_errorCode (TableReader.GetError (e_reader e)) = 0) readers.
Proof using Type.
  induction readers as [|e readers IH]; [by split|]. rewrite Forall_cons_iff, <- IH.
  destruct (decide (has_failed e)) as [Hf|Hf].
  - rewrite filter_cons_True by done. split; [done|]. by intros [E _].
  - rewrite filter_cons_False by done. split; [|by intros [_ ?]]. intros E. split; [|done].
    destruct (decide (m_errorCode (TableReader.GetError (e_reader e)) = 0)); [done|].
    by destruct Hf.
Qed.

Lemma add_errors readers err :
  foldl add_error err readers =
  if decide (filter has_failed readers = []) then err
  else mkS2ClientError S2C_ERROR_READER_FAILED
         (m_errorMessage err +:+ reader_lines (filter has_failed readers)).
Proof using Type.
  revert err. induction readers as [|e readers IH]; intros err; [done|]. cbn [foldl].
  rewrite IH. unfold add_error. destruct (decide (has_failed e)) as [Hf|Hf].
  - rewrite filter_cons_True by done. destruct (decide (e :: filter has_failed readers = [])) as [|_]; [done|].
    assert ((m_errorCode (TableReader.GetError (e_reader e)) =? 0) = false) as -> by
      (by apply Z.eqb_neq).
    cbn [negb reader_lines foldr m_errorMessage]. fold (reader_lines (filter has_failed readers)).
    rewrite !app_assoc_s. case_decide as Hr; [|done].
    rewrite Hr. cbn [reader_lines foldr]. by rewrite app_nil_r_s.
  - rewrite filter_cons_False by done.
    assert ((m_errorCode (TableReader.GetError (e_reader e)) =? 0) = true) as ->.
    { apply Z.eqb_eq. destruct (decide (m_errorCode (TableReader.GetError (e_reader e)) = 0)); [done|].
      by destruct Hf. }
    done.
Qed.

(** C27. What a consumer gets from its queue: the next chunk without an error
    while there is one; when all readers have ended and the queue is empty,
    no chunk, and an error exactly if a reader failed, which then names every
    failed reader's message in a line of its own and is kept in the queue. *)
Theorem Get_reader_errors {Q} `{!ThreadSafeQueue Q} i c (q : ChunkQueue M Q) :
  0 <= i -> m_consumer_queues q !! Z.to_nat i = Some c ->
  match queue_Pop c with
  | Done None => Get i q = Done None
  | Done (Some (chunk, c')) =>
      Get i q = Done (Some (Some chunk, no_error, set_consumer_queue (Z.to_nat i) c' q))
  | Throw (OutOfRange _) =>
      let failed := filter has_failed (m_readers q) in
      exists err q', Get i q = Done (Some (None, err, q'))
        /\ (failed = [] -> err = no_error /\ q' = q)
        /\ (failed <> [] ->
             err = mkS2ClientError S2C_ERROR_READER_FAILED
                     ("Some readers failed:" +:+ newline +:+ reader_lines failed)
             /\ q' = QueueSetError err q)
  | _ => True
  end.
Proof using Type.
  intros Hi Hc. unfold Get.
  rewrite (proj2 (at_index_lookup _ _ _) (conj Hi Hc)), Done_bind.
  destruct (queue_Pop c) as [[[chunk c']|]|[| |what|]| |]; try done.
  unfold readers_failed. rewrite add_errors.
  destruct (decide (filter has_failed (m_readers q) = [])) as [Hf|Hf].
  - do 2 eexists. split; [done|]. by split; [|intros []].
  - do 2 eexists. split; [done|]. split; [by intros E; rewrite E in Hf|done].
Qed.

(** ** Reading by key *)

(** The connection that thread [t] reads partition [p] with: the one it has, or
    a new one to the aggregator of the partition or to the client's server. *)
Definition connection_of (mp : MultiPassQueue M) (t p : Z) (c : S2Connection M) : Prop :=
  m_consumers mp !! Z.to_nat t = Some (Some c)
  \/ m_consumers mp !! Z.to_nat t = Some None
     /\ let q := chunk_queue mp in
        Connect (FillCredentials (m_aggregators q) (s32 p) (m_credentials q)) = Done c
        \/ Connect (m_credentials q) = Done c.

Lemma retry_connects creds master err c err' :
  ConnectWithRetryMA creds master err = Done (Some c, err') ->
  err' = err /\ (Connect creds = Done c \/ Connect master = Done c).
Proof using Type.
  unfold ConnectWithRetryMA. intros E. repeat (case_match; simplify_eq/=); auto.
Qed.

Lemma retry_no_connection creds master err err' :
  ConnectWithRetryMA creds master err = Done (None, err') ->
  exists e, Connect creds = Throw (S2Exn e) /\ Connect master = Throw (S2Exn err').
Proof using Type.
  unfold ConnectWithRetryMA. intros E. repeat (case_match; simplify_eq/=); eauto.
Qed.

(** C28. Reading by key is safe for the threads it was made for: a thread number
    that is too large is refused and changes nothing; the call of another
    thread touches that thread's connection only, connects at most once (a
    thread keeps its connection), gives the chunk of the read on it without an
    error, and no chunk when neither the aggregator nor the client's server
    takes a connection, with the error of the latter, or when the read fails,
    with its error. *)
Theorem with_consumer_spec p t read (mp mp' : MultiPassQueue M) n res err :
  m_consumer_threads_num mp = Some n -> Z.of_nat (length (m_consumers mp)) = n ->
  with_consumer after_throw p t read mp = Done (res, err, mp') ->
  if n <=? t then res = None /\ m_errorCode err = S2C_ERROR_INV_ARG /\ mp' = mp
  else
    chunk_queue mp' = chunk_queue mp
    /\ (forall i, i <> Z.to_nat t -> m_consumers mp' !! i = m_consumers mp !! i)
    /\ match res with
       | Some chunk =>
           err = no_error /\ exists c c', connection_of mp t p c
             /\ read c = Done (inr (chunk, c'))
             /\ m_consumers mp' !! Z.to_nat t = Some (Some c')
       | None =>
           (exists c, connection_of mp t p c
              /\ (read c = Throw (S2Exn err) \/ read c = Done (inl err)))
           \/ m_consumers mp !! Z.to_nat t = Some None /\ mp' = mp
              /\ Connect (m_credentials (chunk_queue mp)) = Throw (S2Exn err)
       end.
Proof using Type.
  intros Hn Hlen E. unfold with_consumer in E. rewrite Hn in E.
  destruct (n <=? t); [by injection E as <- <- <-|].
  apply bind_Done in E as (conn & Ec & E). apply at_index_lookup in Ec as [Ht Ec].
  pose proof (lookup_lt_Some _ _ _ Ec) as Hlt.
  apply bind_Done in E as ([conn1 err1] & E1 & E). cbv beta iota zeta in E.
  assert (match conn1 with
          | Some c => err1 = no_error /\ connection_of mp t p c
          | None => conn = None
              /\ Connect (m_credentials (chunk_queue mp)) = Throw (S2Exn err1)
          end) as Hc.
  { destruct conn as [c|].
    - injection E1 as <- <-. split; [done|by left].
    - destruct conn1 as [c|].
      + apply retry_connects in E1 as [-> Hc]. split; [done|]. by right.
      + by apply retry_no_connection in E1 as (_ & _ & Hm). }
  assert (forall x y i, i <> Z.to_nat t ->
    m_consumers (set_consumer (Z.to_nat t) y (set_consumer (Z.to_nat t) x mp)) !! i
    = m_consumers mp !! i) as Hother.
  { intros x y i Hi. cbn. by rewrite !list_lookup_insert_ne by done. }
  assert (forall x i, i <> Z.to_nat t ->
    m_consumers (set_consumer (Z.to_nat t) x mp) !! i = m_consumers mp !! i) as Hother1.
  { intros x i Hi. cbn. by rewrite list_lookup_insert_ne by done. }
  destruct conn1 as [c|].
  - destruct Hc as [-> Hc]. cbn [m_errorCode no_error Z.eqb negb] in E.
    apply bind_Done in E as ([e|[e|[chunk c']]] & Er & E); injection E as <- <- <-;
      (split; [done|]; split; [auto|]).
    + left. exists c. split; [done|left]. by destruct (read c) as [|[]| |]; simplify_eq/=.
    + left. exists c. split; [done|right]. by apply catch_s2_inr in Er.
    + split; [done|]. exists c, c'. apply catch_s2_inr in Er. split_and!; [done..|].
      cbn. apply list_lookup_insert_eq. by rewrite length_insert.
  - destruct Hc as [-> Hc]. destruct (negb (m_errorCode err1 =? 0)); [|done].
    injection E as <- <- <-. split; [done|]. split; [auto|]. right.
    split; [done|]. split; [|done]. unfold set_consumer. rewrite list_insert_id by done.
    by destruct mp.
Qed.
End creation.

(** ** A worker's queues over the client of lists *)
#[local] Existing Instance release_build.

Definition demo_explain : list (list (option string)) :=
  [[Some "Project [r.i]"%string];
   [Some "ResultTable r show_columns:[`i` int(11) NULL, `t` text CHARACTER SET utf8mb4 NULL] x"%string]].
Definition demo_aggregators : list (list (option string)) :=
  [[Some "CA"; Some "10.0.0.1"; Some "3306"; None; None];
   [Some "CA"; Some "down"; Some "3306"; Some ""; None]]%string.

(** Worker 1 of 2, on a database of 7 partitions. *)
Definition demo_worker : S2Client demo_client :=
  mkClient 7 "8.1.4" 1 2
    (demo_connection (mkDemo [demo_explain; demo_aggregators] [] demo_mysql_fields [] []))
    no_error.

Lemma demo_worker_ok : worker_ok demo_worker.
Proof. by vm_compute. Qed.

Lemma demo_few select : few_aggregators select 0 demo_worker.
Proof.
  intros schema c aggs c' Ee Ea. vm_compute in Ee. injection Ee as <- <-.
  vm_compute in Ea. by injection Ea as <- <-.
Qed.

Lemma CreateStreamingQueue_matched_witness :
  exists q cl' w,
    CreateStreamingQueue no_double 0 (fun c => c) "SELECT * FROM t"
      ReadTypeResultTable [] 4 1000 2 0 (Some "r"%string) true true true demo_worker
    = Done (Some q, cl', w)
    /\ rep_severity <$> w = [S2C_SEVERITY_WARNING; S2C_SEVERITY_WARNING; S2C_SEVERITY_WARNING]
    /\ matched (fun ps c => c = simple_queue_new (u32 4) (Z.of_nat (length ps)))
         (m_readers q) (m_consumer_queues q) 2.
Proof.
  eexists _, _, _. split; [vm_compute; reflexivity|]. split; [vm_compute; reflexivity|].
  edestruct (CreateStreamingQueue_matched no_double 0 (fun c => c) "SELECT * FROM t"
    ReadTypeResultTable [] 4 1000 2 0 "r" true true demo_worker) as (? & ? & ? & ? & _ & _ & _ & _ & Hm);
    [vm_compute; reflexivity|exact demo_worker_ok|lia|apply demo_few|exact Hm].
Defined.


Lemma CreateMultiPassQueue_matched_witness :
  exists mp cl' w,
    CreateMultiPassQueue (fun c => c) "SELECT * FROM t"
      ReadTypeColumnStoreTable [] 4 1000 2 0 "r" "t" "key" true demo_worker
    = Done (Some mp, cl', w)
    /\ m_producerIds <$> m_consumer_queues (chunk_queue mp) = [[1; 5]; [3]]
    /\ m_consumers mp = replicate 2 None.
Proof.
  eexists _, _, _. split; [vm_compute; reflexivity|]. split; [vm_compute; reflexivity|].
  edestruct (CreateMultiPassQueue_matched (fun c => c) "SELECT * FROM t"
    ReadTypeColumnStoreTable [] 4 1000 2 0 "r" "t" "key" true demo_worker)
    as (? & ? & ? & ? & _ & _ & _ & _ & _ & Hm);
    [vm_compute; reflexivity|exact demo_worker_ok|lia|apply demo_few|].
  by apply Hm.
Defined.

(** A reader that has ended, with the given error. *)
Definition demo_reader (e : S2ClientError) : reader_entry demo_client :=
  mkEntry (set_error e (SetActive false
    (TableReader.CreateReader (demo_connection demo_server) "SELECT 1" None 0 1000))) 0 false.

Definition demo_queue : ChunkQueue demo_client chunks :=
  mkChunkQueue None false no_error "" "SELECT 1" "" ReadTypeResultTable
    [demo_reader (mkS2ClientError 1064 "syntax"); demo_reader no_error;
     demo_reader (mkS2ClientError 2013 "lost")]
    (mkCredentials "10.0.0.9" 3306 "db" "root" "" None) []
    [simple_queue_new 4 0] [0].

Lemma Get_reader_errors_witness :
  exists q', Get 0 demo_queue = Done (Some (None, mkS2ClientError S2C_ERROR_READER_FAILED
    ("Some readers failed:" +:+ newline +:+ " - syntax" +:+ newline +:+ " - lost" +:+ newline), q')).
Proof.
  destruct (Get_reader_errors 0 (simple_queue_new 4 0) demo_queue ltac:(lia) eq_refl)
    as (err & q' & E & _ & Hf).
  exists q'. destruct (Hf ltac:(discriminate)) as [-> _]. exact E.
Defined.

Definition demo_multi : MultiPassQueue demo_client :=
  mkMulti (mkChunkQueue (Some (mkRowSchema [mkColumn Int32 4 "i"])) false no_error "r"
             "SELECT * FROM t" "key" ReadTypeColumnStoreTable []
             (mkCredentials "10.0.0.9" 3306 "db" "root" "" None)
             [mkAggregatorNode "down" 3306 "" 0] [] [])
    (Some 2) [None; None] "8.1.4".

(** The aggregator is down, the server takes the connection and has no row. *)
Lemma with_consumer_spec_witness :
  exists err mp', MultiGetSingleRow no_double 0 (fun c => c)
      (fun _ => None) 3 7 1 demo_multi = Done (None, err, mp')
    /\ m_errorCode err = S2C_ERROR_INV_ARG /\ m_consumers mp' !! 0%nat = Some None.
Proof.
  destruct (MultiGetSingleRow no_double 0 (fun c => c) (fun _ => None) 3 7 1 demo_multi)
    as [[[res err] mp']| | |] eqn:E; [|by vm_compute in E..].
  assert (res = None /\ m_errorCode err = S2C_ERROR_INV_ARG) as [-> Herr].
  { vm_compute in E. by injection E as <- <- _. }
  exists err, mp'. split; [done|]. split; [done|].
  destruct (with_consumer_spec (fun c => c) 3 1 _ demo_multi mp' 2 None err eq_refl eq_refl E)
    as (_ & Hother & _).
  by rewrite Hother.
Defined.
