(* ===== verification/Delivery.v ===== *)
(** What the parts of a parallel read do together: the reading threads of a
    consumer's queue ([TableReader.v]) push their chunks to it
    ([SimpleQueue.v]) while the consumer takes them out, in every interleaving
    of the critical sections of their calls.  The waiting itself, and that no
    wake-up is lost, is in [SimpleQueue.v]; a call that has to wait is a step
    that is not possible yet here. *)

From Stdlib Require Import Ascii String.
From stdpp Require Import base list strings numbers relations tactics.
From stdpp Require Import options.
From S2P Require Import Prelude Schema ChunkFormat ChunkRoundTrip SimpleQueue TableReader.
From S2P Require Import Connection ChunkQueue.

(** ** Interleavings *)
Section interleaves.
Context {A : Type}.

(** [interleaves ls l]: [l] has the elements of all the lists [ls], those of
    each list in its order. *)
Inductive interleaves : list (list A) -> list A -> Prop :=
  | interleaves_nil ls : Forall (fun l => l = []) ls -> interleaves ls []
  | interleaves_cons ls i x l r :
      ls !! i = Some (x :: l) -> interleaves (<[i := l]> ls) r -> interleaves ls (x :: r).

Lemma concat_nils (ls : list (list A)) : Forall (fun l => l = []) ls -> concat ls = [].
Proof using Type. induction 1 as [|l ls -> _ IH]; [done|exact IH]. Qed.

Lemma concat_insert (ls : list (list A)) i x l :
  ls !! i = Some (x :: l) -> concat ls ≡ₚ x :: concat (<[i := l]> ls).
Proof using Type.
  revert i. induction ls as [|l0 ls IH]; intros [|i] Hi; try done.
  - by injection Hi as ->.
  - change (<[Datatypes.S i := l]> (l0 :: ls)) with (l0 :: <[i := l]> ls). cbn.
    rewrite (IH i Hi). by rewrite Permutation_middle.
Qed.

(** Nothing is lost, nothing comes twice. *)
Lemma interleaves_perm ls l : interleaves ls l -> concat ls ≡ₚ l.
Proof using Type.
  induction 1 as [ls Hn|ls i x l r Hi _ IH]; [by rewrite concat_nils|].
  by rewrite (concat_insert _ _ _ _ Hi), IH.
Qed.

(** Each list comes in its order. *)
Lemma interleaves_sublist ls l i li : interleaves ls l -> ls !! i = Some li -> sublist li l.
Proof using Type.
  intros H. revert i li. induction H as [ls Hn|ls j x l r Hj _ IH]; intros i li Hi.
  - pose proof (Forall_lookup_1 _ _ _ _ Hn Hi) as ->. constructor.
  - destruct (decide (i = j)) as [->|Hne].
    + rewrite Hj in Hi. injection Hi as <-. apply sublist_skip, (IH j).
      apply list_lookup_insert_eq. by apply lookup_lt_Some in Hj.
    + apply sublist_cons, (IH i). by rewrite list_lookup_insert_ne.
Qed.
End interleaves.

(** ** The readers of a queue and its consumer *)

(** [progs]: the calls that each reader has still to make; [received]: the
    chunks that the consumer got, [ended]: its last call threw. *)
Record delivery := mkDelivery {
  d_queue : chunks;
  progs : list (list queue_call);
  received : list Chunk;
  ended : bool
}.

(** The critical section of a call; [None]: the call waits. *)
Definition do_call (q : chunks) (call : queue_call) : option chunks :=
  match call with
  | call_Push c => SimpleQueue.Push c q
  | call_DeleteProducer _ => Some (fst (SimpleQueue.DeleteProducer q))
  end.

Inductive dstep (d : delivery) : delivery -> Prop :=
  | reader_call i call rest q :
      progs d !! i = Some (call :: rest) -> do_call (d_queue d) call = Some q ->
      dstep d (mkDelivery q (<[i := rest]> (progs d)) (received d) (ended d))
  | consumer_pop c q :
      ended d = false -> SimpleQueue.Pop (d_queue d) = PopReturns c q ->
      dstep d (mkDelivery q (progs d) (received d ++ [c]) false)
  | consumer_end :
      ended d = false -> SimpleQueue.Pop (d_queue d) = PopThrows ->
      dstep d (mkDelivery (d_queue d) (progs d) (received d) true).

Definition delivery_start (q : chunks) (progs : list (list queue_call)) : delivery :=
  mkDelivery q progs [] false.

(** The calls of a reader that has the chunks [l] still to push; one that has
    deleted its producer has no calls left. *)
Definition reader_prog (prog : list queue_call) (l : list Chunk) : Prop :=
  (exists p, prog = (call_Push <$> l) ++ [call_DeleteProducer p]) \/ prog = [] /\ l = [].

Definition live (prog : list queue_call) : bool := match prog with [] => false | _ => true end.

(** The invariant: what is received and queued, with the rest of each reader,
    interleaves to what the readers had in the beginning. *)
Record dinv (cap : Z) (all : list (list Chunk)) (d : delivery) : Prop := {
  di_capacity : m_capacity (d_queue d) = cap;
  di_producers : m_producers (d_queue d) = Z.of_nat (count live (progs d));
  di_rest : exists rest, Forall2 reader_prog (progs d) rest
    /\ forall l, interleaves rest l ->
         interleaves all (received d ++ m_queue (d_queue d) ++ l);
  di_end : ended d = true -> m_queue (d_queue d) = [] /\ m_producers (d_queue d) = 0
}.

Lemma reader_prog_push c prog l :
  reader_prog (call_Push c :: prog) l -> exists l', l = c :: l' /\ reader_prog prog l' /\ live prog = true.
Proof.
  intros [(p & E)|[E _]]; [|done]. destruct l as [|c' l]; [done|].
  cbn in E. injection E as <- ->. exists l. split; [done|]. split; [left; by exists p|].
  by destruct l.
Qed.

Lemma reader_prog_delete p prog l :
  reader_prog (call_DeleteProducer p :: prog) l -> prog = [] /\ l = [].
Proof.
  intros [(p' & E)|[E _]]; [|done]. destruct l as [|c' l]; [|done].
  cbn in E. by injection E as _ ->.
Qed.

Lemma live_insert ps i call rest :
  ps !! i = Some (call :: rest) ->
  (count live (<[i := rest]> ps) + (if live rest then 0 else 1) = count live ps)%nat.
Proof.
  intros Hi. pose proof (count_insert live ps i _ rest Hi) as E. cbn [live] in E.
  destruct (live rest); lia.
Qed.

Lemma dinv_step cap all d d' :
  Z.of_nat (length (progs d)) < 2 ^ 32 ->
  dinv cap all d -> dstep d d' -> dinv cap all d' /\ length (progs d') = length (progs d).
Proof.
  intros Hlen [Hcap Hprod (rest & Hrest & Hint) Hend] Hstep.
  destruct Hstep as [i call prog q Hi Hcall|c q Hne Hpop|Hne Hpop]; cbn [progs].
  - split; [|apply length_insert].
    destruct (Forall2_lookup_l _ _ _ _ _ Hrest Hi) as (l & Hl & Hp).
    pose proof (live_insert _ _ _ _ Hi) as Hlive.
    destruct call as [c|p]; cbn in Hcall.
    + unfold SimpleQueue.Push in Hcall. destruct (_ <=? _); [done|]. injection Hcall as <-.
      apply reader_prog_push in Hp as (l' & -> & Hp & Hlv). rewrite Hlv in Hlive.
      constructor; cbn; [done|rewrite Hprod; f_equal; lia| |].
      * exists (<[i := l']> rest). split; [by apply Forall2_insert|].
        intros r Hr. rewrite <- app_assoc. apply Hint.
        by eapply interleaves_cons.
      * intros He. destruct (Hend He) as [_ Hz]. rewrite Hprod in Hz.
        assert (count live (progs d) <> 0)%nat; [|lia].
        intros Hc. apply count_zero in Hc. by pose proof (Forall_lookup_1 _ _ _ _ Hc Hi).
    + injection Hcall as <-. apply reader_prog_delete in Hp as [-> ->]. cbn [live] in Hlive.
      assert (u32 (m_producers (d_queue d) - 1) = Z.of_nat (count live (<[i := []]> (progs d)))) as Eu.
      { rewrite Hprod. rewrite (wrap_u_small 32); [lia|].
        assert (count live (progs d) <= length (progs d))%nat.
        { clear. induction (progs d) as [|x l IH]; cbn; [lia|]. destruct (live x); lia. }
        lia. }
      constructor; cbn; [done|done| |].
      * exists rest. split; [|done].
        rewrite <- (list_insert_id rest i [] Hl). apply Forall2_insert; [done|by right].
      * intros He. destruct (Hend He) as [Hq Hz]. split; [done|].
        rewrite Eu. rewrite Hprod in Hz. lia.
  - unfold SimpleQueue.Pop in Hpop. destruct (m_queue (d_queue d)) as [|c' qs] eqn:Hq.
    { by destruct (_ =? 0). }
    injection Hpop as <- <-. split; [|done].
    constructor; cbn; [done..| |done]. exists rest. split; [done|].
    intros l Hl. rewrite <- app_assoc. by apply Hint.
  - split; [|done]. unfold SimpleQueue.Pop in Hpop.
    destruct (m_queue (d_queue d)) as [|c' qs] eqn:Hq; [|done].
    destruct (Z.eqb_spec (m_producers (d_queue d)) 0); [|done].
    constructor; cbn; [done..| |done].
    exists rest. split; [done|]. intros l Hl. rewrite Hq. by apply Hint.
Qed.

(** What is left to do: twice the calls of the readers, the chunks in the
    queue, and the consumer's last call. *)
Definition work (d : delivery) : nat :=
  2 * sum_list (length <$> progs d) + length (m_queue (d_queue d)) + (if ended d then 0 else 1).

Lemma sum_insert (ps : list (list queue_call)) i call rest :
  ps !! i = Some (call :: rest) ->
  sum_list (length <$> ps) = Datatypes.S (sum_list (length <$> <[i := rest]> ps)).
Proof.
  revert i. induction ps as [|p ps IH]; intros [|i] Hi; try done.
  - injection Hi as ->. cbn. lia.
  - change (<[Datatypes.S i := rest]> (p :: ps)) with (p :: <[i := rest]> ps). cbn.
    rewrite (IH i Hi). lia.
Qed.

Lemma work_decreases d d' : dstep d d' -> (work d' < work d)%nat.
Proof.
  intros [i call rest q Hi Hcall|c q Hne Hpop|Hne Hpop]; unfold work; cbn -[Nat.mul].
  - rewrite (sum_insert _ _ _ _ Hi).
    assert (length (m_queue q) <= Datatypes.S (length (m_queue (d_queue d))))%nat; [|lia].
    destruct call as [c|p]; cbn in Hcall.
    + unfold SimpleQueue.Push in Hcall. destruct (_ <=? _); [done|]. injection Hcall as <-.
      cbn. rewrite length_app. cbn. lia.
    + injection Hcall as <-. cbn. lia.
  - unfold SimpleQueue.Pop in Hpop. rewrite Hne.
    destruct (m_queue (d_queue d)); [by destruct (_ =? 0)|]. injection Hpop as _ <-. cbn. lia.
  - rewrite Hne. lia.
Qed.

(** While the consumer has not come to the end some call is possible. *)
Lemma delivery_progress cap all d :
  1 <= cap -> dinv cap all d -> ended d = false -> exists d', dstep d d'.
Proof.
  intros Hcap [Hc Hprod (rest & Hrest & _) _] Hne.
  destruct (m_queue (d_queue d)) as [|c q] eqn:Hq.
  - destruct (decide (count live (progs d) = 0%nat)) as [Hz|Hz].
    + eexists. apply consumer_end; [done|]. unfold SimpleQueue.Pop. rewrite Hq, Hprod, Hz. done.
    + destruct (proj1 (count_exists live (progs d))) as (i & prog & Hi & Hl); [lia|].
      destruct prog as [|call prog]; [done|].
      destruct (do_call (d_queue d) call) as [q|] eqn:E.
      * eexists. by eapply reader_call.
      * exfalso. destruct call; cbn in E; [|done]. unfold SimpleQueue.Push in E.
        rewrite Hc in E. unfold queue_size in E. rewrite Hq in E. cbn in E.
        destruct (Z.leb_spec cap (Z.of_nat 0)); [lia|done].
  - eexists. eapply consumer_pop; [done|]. unfold SimpleQueue.Pop. by rewrite Hq.
Qed.

(** A queue and its readers deliver: however the calls of the readers and
    of the consumer interleave, the chunks that the consumer has got at the end
    are the chunks of all its readers, none lost and none twice, those of each
    reader in its order; as long as the consumer has not come to the end some
    call can go on; and every run ends, after at most [work] steps. *)
Theorem queue_delivers cap ps chunkss :
  1 <= cap -> Z.of_nat (length ps) < 2 ^ 32 ->
  Forall2 (fun prog l => exists p, prog = (call_Push <$> l) ++ [call_DeleteProducer p]) ps chunkss ->
  let start := delivery_start (simple_queue_new cap (Z.of_nat (length ps))) ps in
  (forall d, rtc dstep start d ->
     (ended d = true -> interleaves chunkss (received d))
     /\ (ended d = false -> exists d', dstep d d'))
  /\ (forall d k, nsteps dstep k start d -> (k <= work start)%nat).
Proof.
  intros Hcap Hlen Hps start. split.
  - intros d Hd.
    assert (dinv cap chunkss d) as Hinv.
    { assert (dinv cap chunkss start) as H0.
      { constructor; cbn.
        - done.
        - f_equal. clear Hlen start Hd. induction Hps as [|prog l ps ls (p & ->) _ IH]; [done|].
          cbn. rewrite <- IH. by destruct l.
        - exists chunkss. split; [|done]. eapply Forall2_impl; [|exact Hps].
          intros prog l Hp. by left.
        - done. }
      assert (length (progs start) = length ps) as Hl by done.
      clearbody start. clear -Hlen Hd H0 Hl. revert H0 Hl.
      induction Hd as [|x y z Hxy _ IH]; intros H0 Hl; [done|].
      destruct (dinv_step cap chunkss x y) as [Hy Hly]; [by rewrite Hl|done|done|].
      apply IH; [done|congruence]. }
    split; [|by apply (delivery_progress cap chunkss)].
    intros He. destruct Hinv as [_ Hprod (rest & Hrest & Hint) Hend].
    destruct (Hend He) as [Hq Hz]. specialize (Hint []). rewrite Hq, app_nil_r in Hint.
    apply Hint. constructor. rewrite Hprod in Hz.
    assert (count live (progs d) = 0%nat) as Hc by lia. apply count_zero in Hc.
    clear -Hrest Hc. induction Hrest as [|prog l ps ls Hp _ IH]; [done|].
    apply Forall_cons_iff in Hc as [Hc1 Hc]. constructor; [|auto].
    destruct Hp as [(p & ->)|[_ ->]]; [by destruct l|done].
  - intros d k Hk. assert (k + work d <= work start)%nat; [|lia].
    clearbody start. induction Hk as [|k x y z Hxy _ IH]; [lia|].
    apply work_decreases in Hxy. lia.
Qed.

(** So every run of the readers and the consumer can be completed. *)
Lemma delivery_completes cap ps chunkss d :
  1 <= cap -> Z.of_nat (length ps) < 2 ^ 32 ->
  Forall2 (fun prog l => exists p, prog = (call_Push <$> l) ++ [call_DeleteProducer p]) ps chunkss ->
  rtc dstep (delivery_start (simple_queue_new cap (Z.of_nat (length ps))) ps) d ->
  exists d', rtc dstep d d' /\ ended d' = true.
Proof.
  intros Hcap Hlen Hps. destruct (queue_delivers cap ps chunkss Hcap Hlen Hps) as [Hsafe _].
  set (start := delivery_start _ _) in *. clearbody start.
  remember (work d) as w eqn:Ew. revert d Ew.
  induction (lt_wf w) as [w _ IH]. intros d -> Hd.
  destruct (ended d) eqn:He; [by exists d|].
  destruct (proj2 (Hsafe d Hd) He) as [d2 Hstep]. pose proof (work_decreases _ _ Hstep) as Hw.
  destruct (IH _ Hw d2 eq_refl) as (d' & Hd' & He'); [by eapply rtc_r|].
  exists d'. split; [by eapply rtc_l|done].
Qed.

Lemma queue_delivers_witness :
  let c i p := mkChunk [] 0 1 0 0 i p in
  let ps := [[call_Push (c 0 3); call_Push (c 1 3); call_DeleteProducer 3];
             [call_Push (c 0 5); call_DeleteProducer 5]] in
  forall d, rtc dstep (delivery_start (simple_queue_new 1 2) ps) d -> ended d = true ->
    received d ≡ₚ [c 0 3; c 1 3; c 0 5].
Proof.
  intros c ps d Hd He.
  destruct (queue_delivers 1 ps [[c 0 3; c 1 3]; [c 0 5]]) as [Hrun _]; [lia|reflexivity| |].
  - constructor; [by exists 3|]. constructor; [by exists 5|constructor].
  - symmetry. apply (interleaves_perm [[c 0 3; c 1 3]; [c 0 5]]). by apply Hrun.
Defined.

(** ** The composition *)
Section composition.
Context `{Build} {M : Type} `{!MysqlClient M}.
Context (scan_double : string -> option Z) (uninit : Z).
#[local] Instance rows : RowSource (S2Connection M) := connection_rows scan_double uninit.

(** [prog]: the calls of the thread of reader [e], as it runs with its own
    memory, its stop flag and enough fuel. *)
Definition reader_runs (e : reader_entry M) (prog : list queue_call) : Prop :=
  exists fuel malloc stop rd', Read malloc stop fuel (e_reader e) = (prog, Done rd').

Lemma reader_runs_intro e fuel malloc stop r :
  Read malloc stop fuel (e_reader e) = r -> is_done r.2 = true -> reader_runs e r.1.
Proof using Type.
  destruct r as [prog [rd'| | |]]; [|done..]. intros E _.
  exists fuel, malloc, stop, rd'. exact E.
Qed.

(** What a reader pushes: chunks of its partition, numbered from 0. *)
Definition pushes (e : reader_entry M) (prog : list queue_call) (l : list Chunk) : Prop :=
  prog = (call_Push <$> l) ++ [call_DeleteProducer (m_partition (e_reader e))]
  /\ numbered (m_partition (e_reader e)) 0 l.

(** C8. A consumer of a streaming queue gets the data of its readers: when the
    queue is wired up as its creation does it ([CreateStreamingQueue_matched])
    and the reading threads of consumer [c] run, whatever the database does to
    them, every run of consumer [c] and its readers comes to the end of data,
    and the chunks received until then are exactly those that the readers
    pushed, each once, those of a partition in the order 0, 1, 2, ... *)
Theorem streaming_delivers readers queues n cap c q ps :
  matched (M := M) (fun ps q => q = simple_queue_new cap (Z.of_nat (length ps))) readers queues n ->
  1 <= cap -> queues !! c = Some q -> Z.of_nat (length readers) < 2 ^ 32 ->
  let mine := filter (fun e => e_queue e = Z.of_nat c) readers in
  Forall2 reader_runs mine ps ->
  exists chunkss, Forall3 pushes mine ps chunkss
    /\ forall d, rtc dstep (delivery_start q ps) d ->
         (ended d = true -> interleaves chunkss (received d))
         /\ exists d', rtc dstep d d' /\ ended d' = true.
Proof using Type.
  intros (_ & _ & Hq) Hcap Hc Hlen mine Hruns.
  pose proof (Hq c q Hc) as ->. fold mine. rewrite length_fmap.
  assert (exists chunkss, Forall3 pushes mine ps chunkss) as [chunkss H3].
  { clear -Hruns. clearbody mine. induction Hruns as [|e prog es progs0 (fuel & malloc & stop & rd' & E) _ [ls IH]].
    - exists []. constructor.
    - apply Read_calls in E as (l & E & Hnum & _). exists (l :: ls). by constructor. }
  exists chunkss. split; [done|].
  assert (length mine = length ps) as Elen by (by eapply Forall2_length).
  assert (Forall2 (fun prog l => exists p, prog = (call_Push <$> l) ++ [call_DeleteProducer p])
            ps chunkss) as H2.
  { clear -H3. induction H3 as [|e prog l es ps ls [E _] _ IH]; constructor; [|done]. eauto. }
  assert (length mine <= length readers)%nat as Hle by apply length_filter.
  rewrite Elen in *.
  destruct (queue_delivers cap ps chunkss Hcap ltac:(lia) H2) as [Hsafe _].
  intros d Hd. split; [by apply Hsafe|].
  eapply (delivery_completes cap ps chunkss); [done|lia|done|exact Hd].
Qed.
End composition.

(** Two readers of one queue, over the client of lists. *)
Definition delivery_reader (p : Z) : reader_entry demo_client :=
  mkEntry (TableReader.CreateReader (demo_connection demo_server) "SELECT * FROM t"
             (Some demo_schema) p 40) 0 false.

Definition delivery_malloc (n : Z) : option bytes := Some (replicate 40 "000"%char).

Abbreviation delivery_run p :=
  (Read (H := release_build) (RowSource0 := rows (H := release_build) no_double 0)
    delivery_malloc (fun _ => false) 10 (e_reader (delivery_reader p))).

Lemma delivery_runs p :
  is_done (delivery_run p).2 = true ->
  reader_runs (H := release_build) no_double 0 (delivery_reader p) (delivery_run p).1.
Proof.
  exact (reader_runs_intro (H := release_build) no_double 0 (delivery_reader p) 10
           delivery_malloc (fun _ => false) _ eq_refl).
Qed.

Lemma streaming_delivers_witness :
  let es := [delivery_reader 3; delivery_reader 5] in
  let ps := [(delivery_run 3).1; (delivery_run 5).1] in
  length <$> ps = [3%nat; 3%nat]
  /\ exists chunkss,
    Forall3 pushes es ps chunkss
    /\ forall d, rtc dstep (delivery_start (simple_queue_new 1 2) ps) d ->
         exists d', rtc dstep d d' /\ ended d' = true.
Proof.
  intros es ps. split; [vm_compute; reflexivity|].
  assert (filter (fun e => e_queue e = Z.of_nat 0) es = es) as Ef by reflexivity.
  pose proof (streaming_delivers (H := release_build) no_double 0 es [simple_queue_new 1 2] 1 1 0
    (simple_queue_new 1 2) ps) as Hs. cbv zeta in Hs. rewrite Ef in Hs.
  destruct Hs as (chunkss & H3 & Hrun).
  - split; [reflexivity|]. split; [by repeat constructor|]. intros [|c] q E; [|done].
    injection E as <-. by rewrite Ef.
  - lia.
  - reflexivity.
  - reflexivity.
  - apply Forall2_cons_2; [apply delivery_runs; vm_compute; reflexivity|].
    apply Forall2_cons_2; [apply delivery_runs; vm_compute; reflexivity|constructor].
  - exists chunkss. split; [exact H3|]. intros d Hd. by apply Hrun.
Defined.
