(* ===== verification/BatchDelivery.v ===== *)
(** The multi-pass queue with its readers, as [Delivery.v] has it for the
    streaming queue: the reading threads push to a [ThreadSafeBatchQueue] in
    every interleaving with the calls that take chunks out, which are the
    consumer's ([Pop] in the first pass, [Get] in the later ones) or, once the
    queue is being destroyed, the rounds of [FreeBatchData]. *)

From Stdlib Require Import Ascii String.
From stdpp Require Import base list strings numbers relations tactics.
From stdpp Require Import options.
From S2P Require Import Prelude Schema BatchQueue TableReader Connection ChunkQueue Delivery.

Section batch_delivery.
Context `{Build}.

(** ** The readers of a queue and what empties it *)
Inductive mode := Popping | Getting | Freeing.

(** [b_taken]: the chunks that were returned or freed, [b_ended]: the last
    call of the consumer, or of the destructor, has come to the end. *)
Record batch_delivery := mkBatchDelivery {
  b_queue : batch_queue;
  b_progs : list (list queue_call);
  b_taken : list Chunk;
  b_ended : bool
}.

(** The critical section of a reader's call; [None]: the call waits. *)
Definition batch_call (call : queue_call) (q : batch_queue) : outcome exn (option batch_queue) :=
  match call with
  | call_Push c => queue_Push c q
  | call_DeleteProducer p => q ← queue_DeleteProducer p q; Done (Some q)
  end.

(** A call that takes a chunk out, in each mode. *)
Inductive takes (q : batch_queue) : mode -> Chunk -> batch_queue -> Prop :=
  | takes_pop c q' : BatchQueue.Pop q = Done (Some (c, q')) -> takes q Popping c q'
  | takes_get p v c q' :
      p ∈ m_producerIds q -> 0 <= v -> BatchQueue.Get p v q = Done (Some (Some c, q')) ->
      takes q Getting c q'
  | takes_free c q' : FreeBatchData q = Done (FreeOne (Some c) q') -> takes q Freeing c q'.

(** A call that finds the end; a consumer that asks by number stops by itself. *)
Inductive comes_to_end (q : batch_queue) : mode -> Prop :=
  | end_pop e : BatchQueue.Pop q = Throw e -> comes_to_end q Popping
  | end_free : FreeBatchData q = Done FreeEnds -> comes_to_end q Freeing.

Inductive bstep (m : mode) (d : batch_delivery) : batch_delivery -> Prop :=
  | reader_calls i call rest q :
      b_progs d !! i = Some (call :: rest) -> batch_call call (b_queue d) = Done (Some q) ->
      bstep m d (mkBatchDelivery q (<[i := rest]> (b_progs d)) (b_taken d) (b_ended d))
  | taken_out c q :
      b_ended d = false -> takes (b_queue d) m c q ->
      bstep m d (mkBatchDelivery q (b_progs d) (b_taken d ++ [c]) false)
  | at_end :
      b_ended d = false -> comes_to_end (b_queue d) m ->
      bstep m d (mkBatchDelivery (b_queue d) (b_progs d) (b_taken d) true).

Definition batch_start (batch_size : Z) (producers : list Z) (progs : list (list queue_call))
    : batch_delivery :=
  mkBatchDelivery (ThreadSafeBatchQueue batch_size producers) progs [] false.

Lemma takes_took q m c q' : takes q m c q' -> took q q'.
Proof using All.
  intros [c0 q0 E|p v c0 q0 _ _ E|c0 q0 E];
    eauto using Pop_took, Get_took, FreeBatchData_took.
Qed.

(** ** The invariant of a run *)

(** The part of reader [i] that is still to come: its chunks [l], numbered from
    the next one, and the deletion of its producer. *)
Definition reader_left (d : batch_delivery) (next : list Z) (i : nat) (l : list Chunk) : Prop :=
  exists prog p n (active : bool),
    b_progs d !! i = Some prog /\ m_producerIds (b_queue d) !! i = Some p
    /\ next !! i = Some n /\ m_producerActiveArray (b_queue d) !! i = Some active
    /\ if active
       then prog = (call_Push <$> l) ++ [call_DeleteProducer p] /\ numbered p n l
            /\ Forall (fun c => id c + 1 < 2 ^ 31) l
       else prog = [] /\ l = [].

Record run_inv (m : mode) (all : list (list Chunk)) (d : batch_delivery)
    (next : list Z) (pushed : list Chunk) (rest : list (list Chunk)) : Prop := {
  ri_inv : binv (b_queue d) next;
  ri_busy : busy (b_queue d);
  ri_taken : pushed ≡ₚ b_taken d ++ pending (b_queue d);
  ri_pop : m = Popping ->
    m_queue (b_queue d) ≡ₚ pending (b_queue d) /\ pushed = b_taken d ++ m_queue (b_queue d);
  ri_left i l : rest !! i = Some l -> reader_left d next i l;
  ri_progs : length (b_progs d) = length rest;
  ri_producers : length (m_producerIds (b_queue d)) = length rest;
  ri_order l : interleaves rest l -> interleaves all (pushed ++ l);
  ri_end : b_ended d = true ->
    pending (b_queue d) = [] /\ m_activeProducers (b_queue d) = 0
}.

Lemma takes_spec q next m c q' :
  binv q next -> (m = Popping -> m_queue q ≡ₚ pending q) -> takes q m c q' ->
  binv q' next /\ busy q' /\ pending q ≡ₚ c :: pending q'
  /\ (m = Popping -> m_queue q = c :: m_queue q' /\ m_queue q' ≡ₚ pending q').
Proof using Type.
  intros Hi Hpop Ht. revert Hpop.
  destruct Ht as [c0 q0 E|p v c0 q0 Hp Hv E|c0 q0 E]; intros Hpop.
  - pose proof (Pop_spec q next (Build_pop_inv _ _ Hi (Hpop eq_refl))) as Hs. rewrite E in Hs.
    specialize (Hpop eq_refl).
    destruct (m_queue q) as [|x rest]; [by destruct (_ =? 0)|].
    destruct Hs as (q1 & [= -> ->] & [Hi1 Hq1] & Eq & Hb). rewrite <- Hpop, <- Hq1, Eq.
    split_and!; try done.
  - apply list_elem_of_lookup in Hp as [i Hp].
    assert (is_Some (m_producerActiveArray q !! i)) as [active Ha].
    { apply lookup_lt_is_Some. rewrite (bi_len_active _ _ Hi). by apply lookup_lt_Some in Hp. }
    pose proof (Get_spec q next i p v active Hi Hp Hv Ha) as Hs. rewrite E in Hs.
    destruct Hs as (c1 & [= <-] & Hi1 & Hb & Hpend & _). by split_and!.
  - pose proof (FreeBatchData_spec q next Hi) as Hs. rewrite E in Hs.
    destruct (pending q) as [|x l]; [by destruct (_ =? 0)|].
    destruct Hs as (c1 & q1 & [= <- <-] & Hi1 & Hb & Hpend & _). by split_and!.
Qed.

(** A reader that keeps its place in a queue with the same producers. *)
Lemma reader_left_same d d' next next' i l :
  reader_left d next i l -> b_progs d' !! i = b_progs d !! i ->
  m_producerIds (b_queue d') = m_producerIds (b_queue d) ->
  m_producerActiveArray (b_queue d') !! i = m_producerActiveArray (b_queue d) !! i ->
  next' !! i = next !! i -> reader_left d' next' i l.
Proof using Type.
  intros (prog & p & n & active & H1 & H2 & H3 & H4 & H5) E1 E2 E3 E4.
  exists prog, p, n, active. by rewrite E1, E2, E3, E4.
Qed.

(** What a reader that has a call to make is about to do. *)
Lemma reader_left_call d next i l call rest :
  reader_left d next i l -> b_progs d !! i = Some (call :: rest) ->
  exists p n, m_producerIds (b_queue d) !! i = Some p /\ next !! i = Some n
    /\ m_producerActiveArray (b_queue d) !! i = Some true
    /\ match l with
       | c :: l' => call = call_Push c /\ rest = (call_Push <$> l') ++ [call_DeleteProducer p]
                    /\ chunk_of p n c /\ n + 1 < 2 ^ 31 /\ numbered p (n + 1) l'
                    /\ Forall (fun c => id c + 1 < 2 ^ 31) l'
       | [] => call = call_DeleteProducer p /\ rest = []
       end.
Proof using Type.
  intros (prog & p & n & [] & Hprog & Hp & Hn & Ha & Hl) E; rewrite E in Hprog;
    injection Hprog as <-; [|by destruct Hl].
  exists p, n. split; [done|]. split; [done|]. split; [done|].
  destruct Hl as (Hc & Hnum & Hids). destruct l as [|c l'].
  - by injection Hc as -> ->.
  - injection Hc as -> ->. apply Forall_cons_1 in Hids as [Hid Hids].
    pose proof (Hnum 0%nat c eq_refl) as Hc0. rewrite Z.add_0_r in Hc0.
    split; [done|]. split; [done|]. split; [done|]. destruct Hc0 as [_ <-].
    split; [done|]. split; [|done]. intros j c' Hj. specialize (Hnum (S j) c' Hj).
    by replace (id c + 1 + Z.of_nat j) with (id c + Z.of_nat (S j)) by lia.
Qed.

Lemma reader_of m all d next pushed rest i prog :
  run_inv m all d next pushed rest -> b_progs d !! i = Some prog ->
  exists l, rest !! i = Some l /\ reader_left d next i l.
Proof using Type.
  intros Hr Hi. assert (is_Some (rest !! i)) as [l Hl].
  { apply lookup_lt_is_Some. rewrite <- (ri_progs _ _ _ _ _ _ Hr). by eapply lookup_lt_Some. }
  exists l. split; [done|]. by eapply ri_left.
Qed.

Lemma interleaves_next (rest : list (list Chunk)) all pushed i c l' :
  rest !! i = Some (c :: l') ->
  (forall l, interleaves rest l -> interleaves all (pushed ++ l)) ->
  forall l, interleaves (<[i := l']> rest) l -> interleaves all ((pushed ++ [c]) ++ l).
Proof using Type.
  intros Hl Hord l Hint. rewrite <- app_assoc. apply Hord. by eapply interleaves_cons.
Qed.

Lemma active_counted q next i :
  binv q next -> m_producerActiveArray q !! i = Some true -> m_activeProducers q <> 0.
Proof using Type.
  intros Hi Ha Hz. rewrite (bi_active _ _ Hi) in Hz.
  assert (count (fun b => b) (m_producerActiveArray q) = 0%nat) as Hz' by lia.
  apply count_zero in Hz'. by pose proof (Forall_lookup_1 _ _ _ _ Hz' Ha).
Qed.

Lemma run_push m all d next pushed rest i c prog q :
  run_inv m all d next pushed rest -> b_progs d !! i = Some (call_Push c :: prog) ->
  batch_call (call_Push c) (b_queue d) = Done (Some q) ->
  exists next' rest', run_inv m all
    (mkBatchDelivery q (<[i := prog]> (b_progs d)) (b_taken d) (b_ended d))
    next' (pushed ++ [c]) rest'.
Proof using Type.
  intros Hr Hi E. destruct (reader_of _ _ _ _ _ _ _ _ Hr Hi) as (l & Hl & Hleft).
  destruct (reader_left_call _ _ _ _ _ _ Hleft Hi) as (p & n & Hp & Hn & Ha & Hcall).
  destruct l as [|c' l']; [by destruct Hcall|].
  destruct Hcall as ([= <-] & -> & Hc & Hlt & Hnum & Hids).
  pose proof Hr as [Hi0 _ Htaken Hpop Hrest Hlp Hlids Hord Hend].
  cbn in E. rewrite (push_round _ _ _ _ _ _ Hi0 Hp Hn ltac:(lia) Ha Hc) in E.
  destruct (Z.leb_spec ((m_currentBatch (b_queue d) + 1) * m_batchSize (b_queue d)) n)
    as [|Hin]; [done|].
  destruct (push_inv _ _ _ _ _ _ _ Hi0 Hp Hn ltac:(lia) Ha Hc Hin eq_refl) as [Hi' Hpend].
  set (q' := mkBatchQueue _ _ _ _ _ _ _ _ _ _) in *. injection E as <-.
  exists (<[i := n + 1]> next), (<[i := l']> rest).
  split; cbn [b_queue b_progs b_taken b_ended]; [done|..].
  - intros Hf. rewrite (push_not_finished _ _ c Hi') in Hf; [done|]. rewrite Hpend. by left.
  - rewrite Hpend, Htaken, <- Permutation_cons_append. by rewrite Permutation_middle.
  - intros Hm. destruct (Hpop Hm) as [Hq ->]. rewrite Hpend, <- Hq. cbn [q' m_queue].
    split; [by rewrite <- Permutation_cons_append|by rewrite app_assoc].
  - intros j l Hj. destruct (decide (i = j)) as [<-|Hne].
    + rewrite list_lookup_insert_eq in Hj by (by eapply lookup_lt_Some). injection Hj as <-.
      exists ((call_Push <$> l') ++ [call_DeleteProducer p]), p, (n + 1), true.
      cbn [b_progs b_queue]. rewrite !list_lookup_insert_eq by (by eapply lookup_lt_Some).
      by split_and!.
    + rewrite list_lookup_insert_ne in Hj by done. apply Hrest in Hj.
      eapply reader_left_same; [exact Hj|..]; cbn; by rewrite ?list_lookup_insert_ne.
  - by rewrite !length_insert.
  - cbn. by rewrite length_insert.
  - by apply interleaves_next.
  - intros He. destruct (Hend He) as [_ Hz]. by destruct (active_counted _ _ _ Hi0 Ha).
Qed.

Lemma run_delete m all d next pushed rest i p0 prog q :
  run_inv m all d next pushed rest -> b_progs d !! i = Some (call_DeleteProducer p0 :: prog) ->
  batch_call (call_DeleteProducer p0) (b_queue d) = Done (Some q) ->
  run_inv m all (mkBatchDelivery q (<[i := prog]> (b_progs d)) (b_taken d) (b_ended d))
    next pushed rest.
Proof using Type.
  intros Hr Hi E. destruct (reader_of _ _ _ _ _ _ _ _ Hr Hi) as (l & Hl & Hleft).
  destruct (reader_left_call _ _ _ _ _ _ Hleft Hi) as (p & n & Hp & Hn & Ha & Hcall).
  destruct l as [|c' l']; [|by destruct Hcall]. destruct Hcall as ([= ->] & ->).
  pose proof Hr as [Hi0 _ Htaken Hpop Hrest Hlp Hlids Hord Hend].
  destruct (DeleteProducer_spec _ _ _ _ Hi0 Hp Ha)
    as (q' & r & E' & Hi' & Hb & Ep & Eq & Eact).
  destruct (DeleteProducer_data _ _ _ _ _ E') as (_ & _ & Eids & _ & _ & Earr).
  unfold partition_number in Earr. rewrite (bi_map _ _ Hi0 _ _ Hp) in Earr. cbn in Earr.
  cbn in E. rewrite E' in E. cbn in E. injection E as <-.
  split; cbn [b_queue b_progs b_taken b_ended]; rewrite ?Ep, ?Eq, ?Eids; try done.
  - intros j l Hj. destruct (decide (i = j)) as [<-|Hne].
    + rewrite Hl in Hj. injection Hj as <-. exists [], p, n, false. cbn [b_progs b_queue].
      rewrite Eids, Earr, !list_lookup_insert_eq by (by eapply lookup_lt_Some). done.
    + apply Hrest in Hj.
      eapply reader_left_same; [exact Hj|..]; cbn; rewrite ?Earr, ?list_lookup_insert_ne; done.
  - by rewrite length_insert.
  - intros He. destruct (Hend He) as [Hnil Hz]. split; [done|]. by destruct (active_counted _ _ _ Hi0 Ha).
Qed.

(** What is left to do: twice the calls of the readers, the chunks in the
    queue, and the last call. *)
Definition left_to_do (d : batch_delivery) : nat :=
  2 * sum_list (length <$> b_progs d) + length (pending (b_queue d))
  + (if b_ended d then 0 else 1).

Lemma pending_length m all d next pushed rest :
  run_inv m all d next pushed rest ->
  length (pending (b_queue d)) = (length pushed - length (b_taken d))%nat
  /\ (length (b_taken d) <= length pushed)%nat.
Proof using Type.
  intros Hr. pose proof (Permutation_length (ri_taken _ _ _ _ _ _ Hr)) as E.
  rewrite length_app in E. lia.
Qed.

Lemma run_step m all d d' next pushed rest :
  run_inv m all d next pushed rest -> bstep m d d' ->
  (exists next' pushed' rest', run_inv m all d' next' pushed' rest')
  /\ (left_to_do d' < left_to_do d)%nat.
Proof using Type.
  intros Hr [i [c|p] prog q Hi E|c q Hne Ht|Hne He];
    pose proof (pending_length _ _ _ _ _ _ Hr) as [El Hle].
  - destruct (run_push _ _ _ _ _ _ _ _ _ _ Hr Hi E) as (next' & rest' & Hr').
    split; [by eauto|]. pose proof (pending_length _ _ _ _ _ _ Hr') as [El' _].
    unfold left_to_do. cbn [b_progs b_queue b_taken b_ended] in *.
    rewrite (sum_insert _ _ _ _ Hi), El', El, length_app. cbn [length]. lia.
  - pose proof (run_delete _ _ _ _ _ _ _ _ _ _ Hr Hi E) as Hr'.
    split; [by eauto|]. pose proof (pending_length _ _ _ _ _ _ Hr') as [El' _].
    unfold left_to_do. cbn [b_progs b_queue b_taken b_ended] in *.
    rewrite (sum_insert _ _ _ _ Hi), El', El. lia.
  - pose proof Hr as [Hi0 _ Htaken Hpop Hrest Hlp Hlids Hord _].
    destruct (takes_took _ _ _ _ Ht) as [Eids _ _ Earr _ _ _ _].
    destruct (takes_spec _ _ _ _ _ Hi0 (fun E => proj1 (Hpop E)) Ht) as (Hi' & Hb & Hpend & Hp).
    split; [|unfold left_to_do; cbn; rewrite Hne, (Permutation_length Hpend); cbn; lia].
    exists next, pushed, rest.
    split; cbn [b_queue b_progs b_taken b_ended]; rewrite ?Eids; try done.
    + by rewrite Htaken, Hpend, <- app_assoc.
    + intros Hm. destruct (Hpop Hm) as [_ ->], (Hp Hm) as [-> Hq].
      split; [done|by rewrite <- app_assoc].
    + intros i l Hl. apply Hrest in Hl.
      eapply reader_left_same; [exact Hl|..]; cbn; by rewrite ?Earr.
  - pose proof Hr as [Hi0 Hb Htaken Hpop Hrest Hlp Hlids Hord _].
    split; [|unfold left_to_do; cbn; rewrite Hne; lia].
    exists next, pushed, rest. split; cbn [b_queue b_progs b_taken b_ended]; try done.
    intros _. revert Hpop. destruct He as [e E|E]; intros Hpop.
    + destruct (Hpop eq_refl) as [Hq _].
      pose proof (Pop_spec _ _ (Build_pop_inv _ _ Hi0 Hq)) as Hs. rewrite E in Hs.
      destruct (m_queue (b_queue d)) as [|x l]; [|by destruct Hs as (? & ? & _)].
      rewrite <- (proj1 (Permutation_nil_l _) Hq).
      by destruct (Z.eqb_spec (m_activeProducers (b_queue d)) 0).
    + pose proof (FreeBatchData_spec _ _ Hi0) as Hs. rewrite E in Hs.
      destruct (pending (b_queue d)); [|by destruct Hs as (? & ? & ? & _)].
      by destruct (Z.eqb_spec (m_activeProducers (b_queue d)) 0).
Qed.

Lemma run_steps m all d d' next pushed rest :
  run_inv m all d next pushed rest -> rtc (bstep m) d d' ->
  exists next' pushed' rest', run_inv m all d' next' pushed' rest'.
Proof using Type.
  intros Hr Hs. revert next pushed rest Hr.
  induction Hs as [|d d1 d' Hstep _ IH]; intros next pushed rest Hr; [by eauto|].
  destruct (run_step _ _ _ _ _ _ _ Hr Hstep) as [(? & ? & ? & Hr1) _]. eauto.
Qed.

(** All readers are done when no producer is active. *)
Lemma readers_done m all d next pushed rest :
  run_inv m all d next pushed rest -> m_activeProducers (b_queue d) = 0 ->
  interleaves all pushed.
Proof using Type.
  intros Hr Hz. rewrite <- (app_nil_r pushed). apply (ri_order _ _ _ _ _ _ Hr).
  constructor. apply Forall_lookup. intros i l Hl.
  destruct (ri_left _ _ _ _ _ _ Hr i l Hl) as (prog & p & n & [] & _ & _ & _ & Ha & Hp);
    [|by destruct Hp].
  by destruct (active_counted _ _ _ (ri_inv _ _ _ _ _ _ Hr) Ha).
Qed.

(** A pending chunk can be asked for. *)
Lemma Get_pending q next c :
  binv q next -> c ∈ pending q ->
  exists p x q', p ∈ m_producerIds q /\ 0 <= id c
    /\ BatchQueue.Get p (id c) q = Done (Some (Some x, q')).
Proof using Type.
  intros Hi Hc.
  destruct (pending_place _ _ _ Hi Hc)
    as (i & k & dc & n & Hd & Hk & Hs & Hv & Hp & Hid & Hn & Hlt & Hib & _).
  pose proof (bi_bs _ _ Hi). pose proof (bi_batch _ _ Hi).
  assert (0 <= id c) as Hid0 by nia.
  assert (is_Some (m_producerActiveArray q !! i)) as [active Ha].
  { apply lookup_lt_is_Some. by rewrite (bi_len_active _ _ Hi). }
  assert (id c mod m_batchSize q = Z.of_nat k) as Em.
  { rewrite Hid, Z.add_comm, Z.mod_add by lia. apply Z.mod_small. lia. }
  destruct (targetIndex_place q next i (partition_id c) (id c) Hi Hp Hid0) as (Et & _ & _ & _).
  rewrite Em, Nat2Z.id in Et.
  assert (Z.quot (id c) (m_batchSize q) = m_currentBatch q) as Eb.
  { rewrite Z.quot_div_nonneg by lia. rewrite Hid, Z.div_add_l by lia.
    rewrite Z.div_small by lia. lia. }
  pose proof (Get_spec q next i (partition_id c) (id c) active Hi Hp Hid0 Ha) as Hg.
  exists (partition_id c).
  destruct (BatchQueue.Get (partition_id c) (id c) q) as [[[res q']|]|e| |] eqn:E; try done.
  - destruct Hg as (x & -> & _). exists x, q'. split; [by eapply list_elem_of_lookup_2|done].
  - exfalso. unfold BatchQueue.Get in E.
    rewrite (data_at_place q next i (partition_id c) (id c) Hi Hp Hid0) in E.
    rewrite Em, Nat2Z.id, Hd in E.
    unfold partition_number in E. rewrite (bi_map _ _ Hi _ _ Hp) in E.
    change (default 0%nat (Some i)) with i in E.
    rewrite Ha, Hs, Eb, Z.eqb_refl in E. cbn [negb orb andb] in E.
    apply bind_Done in E as ([] & _ & E). by apply bind_Done in E as (? & _ & ?).
  - destruct Hg as (_ & _ & Hall). rewrite Forall_forall in Hall.
    exfalso. apply (Hall c); [by apply list_elem_of_In|done|done].
Qed.

(** Some call can go on, unless a consumer that asks by number has got all. *)
Lemma run_progress m all d next pushed rest :
  run_inv m all d next pushed rest -> b_ended d = false ->
  (exists d', bstep m d d')
  \/ m = Getting /\ pending (b_queue d) = [] /\ m_activeProducers (b_queue d) = 0.
Proof using Type.
  intros Hr Hne. pose proof Hr as [Hi Hb Htaken Hpop Hrest Hlp Hlids _ _].
  destruct (pending (b_queue d)) as [|c l] eqn:Ep.
  - destruct (decide (m_activeProducers (b_queue d) = 0)) as [Hz|Hz].
    + destruct m; [left|right; done|left]; eexists; apply at_end; try done.
      * destruct (Hpop eq_refl) as [Hq _]. apply Permutation_nil_r in Hq.
        pose proof (Pop_spec _ _ (Build_pop_inv _ _ Hi ltac:(rewrite Ep; apply Hpop; done))) as Hs.
        rewrite Hq, Hz in Hs. cbn in Hs. by eapply end_pop.
      * pose proof (FreeBatchData_spec _ _ Hi) as Hs. rewrite Ep, Hz in Hs. by apply end_free.
    + left. destruct (active_producer_ready _ _ Hi Hb Ep Hz) as (i & n & Ha & Hn & Hlt).
      assert (is_Some (rest !! i)) as [l Hl].
      { apply lookup_lt_is_Some. rewrite <- Hlids. change (length (m_producerIds (b_queue d))) with (m_totalProducers (b_queue d)).
        rewrite <- (bi_len_active _ _ Hi). by eapply lookup_lt_Some. }
      destruct (Hrest i l Hl) as (prog & p & n' & active & Hprog & Hp & Hn' & Ha' & Hcall).
      rewrite Hn in Hn'. injection Hn' as <-. rewrite Ha in Ha'. injection Ha' as <-.
      destruct Hcall as (-> & Hnum & Hids). destruct l as [|c l].
      * destruct (DeleteProducer_spec _ _ _ _ Hi Hp Ha) as (q' & r & E & _).
        eexists. eapply reader_calls; [exact Hprog|]. cbn. by rewrite E.
      * pose proof (Hnum 0%nat c eq_refl) as Hc. rewrite Z.add_0_r in Hc.
        apply Forall_cons_1 in Hids as [Hid _]. destruct Hc as [Hc1 Hc2].
        eexists. eapply reader_calls; [exact Hprog|]. cbn.
        rewrite (push_round _ _ _ _ _ _ Hi Hp Hn ltac:(lia) Ha (conj Hc1 Hc2)).
        by rewrite (proj2 (Z.leb_gt _ _)) by lia.
  - left. destruct m.
    + destruct (Hpop eq_refl) as [Hq _].
      pose proof (Pop_spec _ _ (Build_pop_inv _ _ Hi ltac:(rewrite Ep; apply Hpop; done))) as Hs.
      destruct (m_queue (b_queue d)) as [|x qs]; [by apply Permutation_nil_cons in Hq|].
      destruct Hs as (q' & E & _). eexists. apply taken_out; [done|by apply takes_pop].
    + destruct (Get_pending _ _ c Hi) as (p & x & q' & Hp & Hid & E); [rewrite Ep; by left|].
      eexists. apply taken_out; [done|]. by eapply takes_get.
    + pose proof (FreeBatchData_spec _ _ Hi) as Hs. rewrite Ep in Hs.
      destruct Hs as (x & q' & E & _). eexists. apply taken_out; [done|by apply takes_free].
Qed.

(** Every run goes on to its end. *)
Definition at_the_end (m : mode) (d : batch_delivery) : Prop :=
  b_ended d = true
  \/ m = Getting /\ pending (b_queue d) = [] /\ m_activeProducers (b_queue d) = 0.

Lemma run_ends m all d next pushed rest :
  run_inv m all d next pushed rest ->
  exists d', rtc (bstep m) d d' /\ at_the_end m d'.
Proof using Type.
  remember (left_to_do d) as w eqn:Ew. revert d next pushed rest Ew.
  induction w as [w IH] using lt_wf_ind. intros d next pushed rest Ew Hr.
  destruct (b_ended d) eqn:He; [by exists d; split; [|left]|].
  destruct (run_progress _ _ _ _ _ _ Hr He) as [[d1 Hstep]|Hend]; [|by exists d; split; [|right]].
  destruct (run_step _ _ _ _ _ _ _ Hr Hstep) as [(? & ? & ? & Hr1) Hlt].
  destruct (IH (left_to_do d1) ltac:(lia) d1 _ _ _ eq_refl Hr1) as (d' & Hs & Hend).
  exists d'. split; [by eapply rtc_l|done].
Qed.

(** At the end all chunks have been taken, each once. *)
Lemma end_complete m all d next pushed rest :
  run_inv m all d next pushed rest -> at_the_end m d ->
  b_taken d ≡ₚ concat all /\ (m = Popping -> interleaves all (b_taken d)).
Proof using Type.
  intros Hr Hend.
  assert (pending (b_queue d) = [] /\ m_activeProducers (b_queue d) = 0) as [Hnil Hz].
  { destruct Hend as [He|(_ & ? & ?)]; [|done]. by apply (ri_end _ _ _ _ _ _ Hr). }
  pose proof (readers_done _ _ _ _ _ _ Hr Hz) as Hint. pose proof (ri_taken _ _ _ _ _ _ Hr) as Ht.
  rewrite Hnil, app_nil_r in Ht. split; [by rewrite (interleaves_perm _ _ Hint), Ht|].
  intros Hm. destruct (ri_pop _ _ _ _ _ _ Hr Hm) as [Hq Hp]. rewrite Hnil in Hq.
  apply Permutation_nil_r in Hq. rewrite Hq, app_nil_r in Hp. by rewrite <- Hp.
Qed.

(** The destructor starts, at whatever point the consumer has come to. *)
Definition start_freeing (d : batch_delivery) : batch_delivery :=
  mkBatchDelivery (b_queue d) (b_progs d) (b_taken d) false.

Lemma run_freeing m all d next pushed rest :
  run_inv m all d next pushed rest -> run_inv Freeing all (start_freeing d) next pushed rest.
Proof using Type. intros []. by split. Qed.

Lemma initial_run m batch_size producers progs chunkss :
  producers_ok batch_size producers ->
  Forall3 (fun p prog l => prog = (call_Push <$> l) ++ [call_DeleteProducer p]
             /\ numbered p 0 l /\ Forall (fun c => id c + 1 < 2 ^ 31) l)
    producers progs chunkss ->
  run_inv m chunkss (batch_start batch_size producers progs)
    (replicate (length producers) 0) [] chunkss.
Proof using Type.
  intros Hok H3. destruct (initial_inv true _ _ Hok) as [Hi Hall Hpop Hb].
  cbn [initial queue next pushed delivered] in *.
  pose proof (Forall3_length_lm _ _ _ _ H3) as E1. pose proof (Forall3_length_lr _ _ _ _ H3) as E2.
  split; cbn [batch_start b_queue b_progs b_taken b_ended]; try done.
  - intros i l Hl. destruct (Forall3_lookup_r _ _ _ _ _ _ H3 Hl) as (p & prog & Hp & Hprog & HP).
    exists prog, p, 0, true.
    assert (i < length producers)%nat by (by eapply lookup_lt_Some).
    cbn [batch_start b_queue b_progs ThreadSafeBatchQueue m_producerIds m_producerActiveArray].
    split; [done|]. split; [done|]. split; [by apply lookup_replicate|].
    split; [by apply lookup_replicate|done].
  - congruence.
Qed.
End batch_delivery.

(** ** The composition *)
Section composition.
Context `{Build} {M : Type} `{!MysqlClient M}.
Context (scan_double : string -> option Z) (uninit : Z).

(** C9. A consumer of a multi-pass queue gets the data of its readers: when the
    queue is wired up as its creation does it ([CreateMultiPassQueue_matched])
    and the reading threads of consumer [c] run, whatever the database does to
    them, no run deadlocks.  In the first pass every run goes on to the end of
    data, and the chunks received then are those that the readers pushed, each
    once, those of a partition in the order 0, 1, 2, ...; a later pass can be
    continued until it has them all.  The queue may be destroyed at any point
    of either: every run of the destructor and the readers goes on to its end,
    and each chunk has then been handed out or freed, exactly once. *)
Theorem multi_pass_delivers readers queues n cap c q ps m :
  matched (M := M) (fun ps q => q = ThreadSafeBatchQueue cap ps) readers queues n ->
  queues !! c = Some q ->
  let mine := filter (fun e => e_queue e = Z.of_nat c) readers in
  producers_ok cap ((fun e => m_partition (e_reader e)) <$> mine) ->
  Forall2 (reader_runs scan_double uninit) mine ps -> m <> Freeing ->
  exists chunkss, Forall3 pushes mine ps chunkss
    /\ forall d, rtc (bstep m) (mkBatchDelivery q ps [] false) d ->
         (m = Popping -> b_ended d = true -> interleaves chunkss (b_taken d))
         /\ (exists d', rtc (bstep m) d d' /\ b_taken d' ≡ₚ concat chunkss
                        /\ (m = Popping -> b_ended d' = true))
         /\ forall d1, rtc (bstep Freeing) (start_freeing d) d1 ->
              (b_ended d1 = true -> b_taken d1 ≡ₚ concat chunkss)
              /\ exists d', rtc (bstep Freeing) d1 d' /\ b_ended d' = true.
Proof using Type.
  intros (_ & _ & Hq) Hc mine Hok Hruns Hm. rewrite (Hq c q Hc). fold mine.
  assert (exists chunkss, Forall3 pushes mine ps chunkss
    /\ Forall3 (fun p prog l => prog = (call_Push <$> l) ++ [call_DeleteProducer p]
         /\ numbered p 0 l /\ Forall (fun c => id c + 1 < 2 ^ 31) l)
       ((fun e => m_partition (e_reader e)) <$> mine) ps chunkss) as (chunkss & H3 & H3').
  { clear -Hruns. clearbody mine.
    induction Hruns as [|e prog es progs (fuel & malloc & stop & rd' & E) _ (ls & IH1 & IH2)].
    - exists []. split; constructor.
    - apply Read_calls in E as (l & E & Hnum & _ & Hids). exists (l :: ls).
      split; constructor; try done; by split_and!. }
  exists chunkss. split; [done|]. intros d Hd.
  pose proof (initial_run m _ _ _ _ Hok H3') as H0.
  destruct (run_steps _ _ _ _ _ _ _ H0 Hd) as (next & pushed & rest & Hr).
  split; [|split].
  - intros Hp He. by apply (end_complete _ _ _ _ _ _ Hr); [left|].
  - destruct (run_ends _ _ _ _ _ _ Hr) as (d' & Hs & Hend). exists d'.
    destruct (run_steps _ _ _ _ _ _ _ Hr Hs) as (? & ? & ? & Hr').
    split; [done|]. split; [by apply (end_complete _ _ _ _ _ _ Hr')|].
    intros ->. by destruct Hend as [|[? _]].
  - intros d1 Hd1.
    destruct (run_steps _ _ _ _ _ _ _ (run_freeing _ _ _ _ _ _ Hr) Hd1) as (? & ? & ? & Hr1).
    split; [intros He; apply (end_complete _ _ _ _ _ _ Hr1); by left|].
    destruct (run_ends _ _ _ _ _ _ Hr1) as (d' & Hs & [He|[? _]]); [by exists d'|done].
Qed.
End composition.

(** The two readers of [Delivery.v], with one place each in the queue, in a
    later pass that is broken off. *)
#[local] Existing Instance release_build.

Lemma multi_pass_delivers_witness :
  let es := [delivery_reader 3; delivery_reader 5] in
  let ps := [(delivery_run 3).1; (delivery_run 5).1] in
  length <$> ps = [3%nat; 3%nat]
  /\ exists chunkss,
    Forall3 pushes es ps chunkss
    /\ forall d d1, rtc (bstep Getting) (batch_start 1 [3; 5] ps) d ->
         rtc (bstep Freeing) (start_freeing d) d1 ->
         exists d', rtc (bstep Freeing) d1 d' /\ b_ended d' = true.
Proof.
  intros es ps. split; [vm_compute; reflexivity|].
  assert (filter (fun e => e_queue e = Z.of_nat 0) es = es) as Ef by reflexivity.
  pose proof (multi_pass_delivers no_double 0 es [ThreadSafeBatchQueue 1 [3; 5]] 1 1 0
    (ThreadSafeBatchQueue 1 [3; 5]) ps Getting) as Hs. cbv zeta in Hs. rewrite Ef in Hs.
  destruct Hs as (chunkss & H3 & Hrun).
  - split; [reflexivity|]. split; [by repeat constructor|]. intros [|c] q E; [|done].
    injection E as <-. by rewrite Ef.
  - reflexivity.
  - split; [lia|]. split; [by apply (bool_decide_unpack _); vm_compute|].
    repeat (apply Forall_cons_2; [cbn; lia|]). by apply Forall_nil_2.
  - apply Forall2_cons_2; [apply delivery_runs; vm_compute; reflexivity|].
    apply Forall2_cons_2; [apply delivery_runs; vm_compute; reflexivity|constructor].
  - discriminate.
  - exists chunkss. split; [exact H3|]. intros d d1 Hd Hd1.
    destruct (Hrun d Hd) as (_ & _ & Hf). by apply Hf.
Defined.
