(* ===== verification/ReadTable.v ===== *)
(** A parallel read from one end to the other: the partitions of a table are
    given to the workers and their consumers ([Utils.v]), a worker's queue is
    made with a reader for each of its partitions ([ChunkQueue.v]), every reader
    sends its query over its connection ([Connection.v]), writes the rows to
    chunks ([TableReader.v]) and pushes these to its consumer's queue, from
    which the consumer takes them ([Delivery.v], [BatchDelivery.v]).  Here these
    parts are put together: what the consumers of all workers get is the
    table. *)

From Stdlib Require Import Ascii String.
From stdpp Require Import base list strings numbers relations tactics.
From stdpp Require Import options.
From S2P Require Import Prelude Schema Text ChunkFormat ChunkRoundTrip SuperChunk SimpleQueue.
From S2P Require Import BatchQueue Utils Sql TableReader Connection Client ChunkQueue Delivery BatchDelivery.

(** ** Lists *)
Section lists.
Context {A : Type}.

(** A list is, but for the order, the parts of it that have the same key. *)
Lemma partition_by (f : A -> Z) (keys : list Z) (l : list A) :
  NoDup keys -> Forall (fun x => f x ∈ keys) l ->
  concat ((fun k => filter (fun x => f x = k) l) <$> keys) ≡ₚ l.
Proof using Type.
  intros Hnd. revert l. induction Hnd as [|k keys Hk Hnd IH]; intros l Hl.
  { destruct l as [|x l]; [done|]. apply Forall_cons_iff in Hl as [Hx _]. by apply not_elem_of_nil in Hx. }
  cbn [fmap list_fmap concat]. etrans; [|apply (filter_app_complement (fun x => f x = k) l)].
  apply Permutation_app_head.
  rewrite <- (IH (filter (fun x => f x <> k) l)).
  - assert (forall k', k' ∈ keys -> filter (fun x => f x = k') l =
      filter (fun x => f x = k') (filter (fun x => f x <> k) l)) as E.
    { intros k' Hk'. rewrite list_filter_filter_l; [done|]. intros x <- Ex. by rewrite Ex in Hk'. }
    clear -E. induction keys as [|k' keys IH]; [done|]. cbn. rewrite E by by left.
    apply Permutation_app_head, IH. intros. apply E. by right.
  - rewrite Forall_forall in Hl |- *. intros x Hx%list_elem_of_In%list_elem_of_filter.
    destruct Hx as [Hne Hx%list_elem_of_In]. apply Hl in Hx. by apply elem_of_cons in Hx as [|].
Qed.

(** The list that has a mark of its own is found again in an interleaving. *)
Lemma interleaves_filter (P : A -> Prop) `{!forall x, Decision (P x)} ls l i li :
  interleaves ls l -> ls !! i = Some li ->
  (forall j lj, ls !! j = Some lj -> Forall (fun x => P x <-> j = i) lj) ->
  filter P l = li.
Proof using Type.
  intros Hint. revert i li. induction Hint as [ls Hn|ls j x l r Hj _ IH]; intros i li Hi Hm.
  { pose proof (Forall_lookup_1 _ _ _ _ Hn Hi) as E. cbv beta in E. by subst. }
  pose proof (Hm j _ Hj) as Hx. apply Forall_cons_iff in Hx as [Hx Hl].
  assert (forall j' lj, <[j := l]> ls !! j' = Some lj -> Forall (fun x => P x <-> j' = i) lj) as Hm'.
  { intros j' lj Hlj. apply list_lookup_insert_Some in Hlj as [(<- & <- & _)|(_ & Hlj)]; [done|].
    by apply (Hm j'). }
  destruct (decide (j = i)) as [->|Hne].
  - rewrite filter_cons_True by by apply Hx. rewrite Hj in Hi. injection Hi as <-.
    f_equal. apply IH with (i := i); [|done].
    apply list_lookup_insert_eq. by apply lookup_lt_Some in Hj.
  - rewrite filter_cons_False by (rewrite Hx; congruence). apply IH with (i := i); [|done].
    by rewrite list_lookup_insert_ne.
Qed.

Lemma interleaves_front (l r : list A) ls : interleaves ls r -> interleaves (l :: ls) (l ++ r).
Proof using Type.
  intros Hr. induction l as [|x l IH]; [|by eapply (interleaves_cons _ 0 x l)].
  induction Hr as [ls Hn|ls i x l r Hi _ IH]; [by do 2 constructor|].
  by apply (interleaves_cons _ (S i) x l).
Qed.

Lemma interleaves_concat (ls : list (list A)) : interleaves ls (concat ls).
Proof using Type.
  induction ls as [|l ls IH]; [by constructor|]. by apply interleaves_front.
Qed.

Lemma interleaves_filter_none (P : A -> Prop) `{!forall x, Decision (P x)} ls l :
  interleaves ls l -> Forall (Forall (fun x => ~ P x)) ls -> filter P l = [].
Proof using Type.
  intros Hp%interleaves_perm Hn. apply Forall_concat in Hn. rewrite Hp in Hn.
  clear Hp. induction Hn; [done|]. by rewrite filter_cons_False.
Qed.

Lemma filter_concat (P : A -> Prop) `{!forall x, Decision (P x)} (ls : list (list A)) :
  filter P (concat ls) = concat (filter P <$> ls).
Proof using Type. induction ls as [|l ls IH]; [done|]. cbn. by rewrite list.filter_app, IH. Qed.

Lemma concat_single {K} (f : K -> list A) (keys : list K) x :
  NoDup keys -> x ∈ keys -> (forall y, y ∈ keys -> y <> x -> f y = []) ->
  concat (f <$> keys) = f x.
Proof using Type.
  intros Hnd Hx Hf. induction Hnd as [|k keys Hk _ IH]; [by apply not_elem_of_nil in Hx|].
  cbn. apply elem_of_cons in Hx as [<-|Hx].
  - assert (concat (f <$> keys) = []) as ->; [|apply app_nil_r].
    assert (forall y, y ∈ keys -> f y = []) as Hall.
    { intros y Hy. apply Hf; [by right|]. by intros ->. }
    clear -Hall. induction keys as [|k keys IH]; [done|]. cbn. rewrite Hall by left.
    apply IH. intros. apply Hall. by right.
  - rewrite Hf; [|by left|by intros ->]. apply IH; [done|]. intros. apply Hf; [by right|done].
Qed.
End lists.

(** ** The readers of a consumer *)
Section read_table.
Context `{Build} {M : Type} `{!MysqlClient M, !StatementLaws M}.
Context (scan_double : string -> option Z) (uninit : Z).
#[local] Instance rows : RowSource (S2Connection M) := connection_rows scan_double uninit.

(** The table: the rows of each partition as the server sends them, and their
    CAS values; [malloc p n]: the buffer of chunk [n] of partition [p]. *)
Context (fields : list MYSQL_FIELD) (table : Z -> list (list (option bytes))).
Context (values : Z -> list (list field)).
Context (malloc : Z -> Z -> option bytes).
Context (schema : RowSchema) (size : Z).

(** Chunks of the schema and the size take the rows of the table. *)
Record storable : Prop := {
  st_malloc p n : exists ptr, malloc p n = Some ptr /\ Z.of_nat (length ptr) = size;
  st_size : size < 2 ^ 62;
  st_cols : Forall col_ok (ColumnInfo schema) /\ ColumnInfo schema <> [];
  st_rows p : Forall2 (row_fine schema size) (map with_lengths (table p)) (values p);
  st_few p : Z.of_nat (length (table p)) < 2 ^ 31
}.

(** The server answers the query of a partition, whatever connection it comes
    over, with the partition's rows. *)
Definition serves_table (total : Z) (choose : Z -> outcome exn query_choice) : Prop :=
  forall p query creds c, 0 <= p < total -> choose p = Done (UseQuery query) ->
    Connect creds = Done c -> answers query fields (table p) (mysql c).

(** The thread of a reader; a round more than there are rows is enough. *)
Definition thread (e : reader_entry M) : list queue_call * outcome exn ResultTableReader :=
  let p := m_partition (e_reader e) in
  Read (malloc p) (fun _ => false) (S (length (table p))) (e_reader e).

(** The thread of a reader that was made for partition [p] pushes the rows of
    the partition and ends without an error. *)
Lemma thread_delivers total choose aggs creds pc p e :
  storable -> serves_table total choose -> 0 <= p < total -> total < 2 ^ 31 ->
  reader_for choose aggs creds pc (Some schema) size p e ->
  m_partition (e_reader e) = p
  /\ exists chunks rd', thread e = ((call_Push <$> chunks) ++ [call_DeleteProducer p], Done rd')
       /\ numbered p 0 chunks /\ delivered_rows schema chunks (values p)
       /\ m_error rd' = no_error.
Proof using Type.
  intros [Hmalloc Hsize [Hcols Hne] Hrows Hfew] Hserve Hp Htotal Hfor.
  destruct Hfor as [Epart _ Equery Hconn (_ & _ & Hnoerr & Hschema & Esize & Hpar & Hprep)].
  assert (m_partition (e_reader e) = p) as Ep by (rewrite Epart; apply (wrap_u_small 32); lia).
  split; [done|].
  assert (answers (m_query (e_reader e)) fields (table p) (mysql (m_conn (e_reader e)))) as Hans.
  { by destruct Hconn as [Hc|Hc]; eapply Hserve. }
  destruct (Prepare_gives scan_double uninit _ _ _ _ Hans) as (c & Eprep & Hgives).
  unfold thread. rewrite Ep.
  edestruct (Read_delivers (malloc p) (fun _ => false) (S (length (table p))) (e_reader e)
    (set_conn c (e_reader e)) schema (map with_lengths (table p)) None (values p))
    as (chunks & rd' & k & -> & Hnum & Hdel & Hk & Herr); try done.
  - rewrite Hpar. unfold PrepareRead.
    rewrite Hprep. cbn. by rewrite Eprep.
  - intros n. rewrite Esize. apply Hmalloc.
  - by rewrite Esize.
  - by rewrite Esize.
  - rewrite length_map. lia.
  - by rewrite length_map.
  - exists chunks, rd'. rewrite Hk in Hdel. rewrite Ep in *. done.
Qed.

(** Consumer [c] of the worker [cl] with [n] consumers reads partition [p]. *)
Definition consumer_of (cl : S2Client M) (n c p : Z) : Prop :=
  0 <= p < m_numPartitions cl /\ p mod m_numWorkers cl = m_workerId cl
  /\ (p / m_numWorkers cl) mod n = c.
#[export] Instance consumer_of_dec cl n c p : Decision (consumer_of cl n c p).
Proof using Type. unfold consumer_of. apply _. Defined.

(** What the consumer should get: of each of its partitions all the rows, in
    chunks that come in their order, and nothing of other partitions. *)
Definition gets (cl : S2Client M) (n c : Z) (chunks : list Chunk) : Prop :=
  forall p, let of_p := filter (fun ch => partition_id ch = p) chunks in
    if decide (consumer_of cl n c p)
    then numbered p 0 of_p /\ delivered_rows schema of_p (values p)
    else of_p = [].

Definition pushes_partition (e : reader_entry M) (chunks : list Chunk) : Prop :=
  let p := m_partition (e_reader e) in
  (thread e).1 = (call_Push <$> chunks) ++ [call_DeleteProducer p]
  /\ numbered p 0 chunks /\ delivered_rows schema chunks (values p)
  /\ Forall (fun ch => id ch + 1 < 2 ^ 31) chunks.

Lemma numbered_partition p k chunks :
  numbered p k chunks -> Forall (fun ch => partition_id ch = p) chunks.
Proof using Type. intros Hn. apply Forall_lookup. intros i ch Hi. by apply (Hn i ch). Qed.

Lemma readers_push (cl : S2Client M) choose aggs creds pc rds :
  storable -> serves_table (m_numPartitions cl) choose -> worker_ok cl ->
  (forall p, p ∈ (fun e => m_partition (e_reader e)) <$> rds -> 0 <= p < m_numPartitions cl) ->
  Forall2 (reader_for choose aggs creds pc (Some schema) size)
    ((fun e => m_partition (e_reader e)) <$> rds) rds ->
  Forall (fun e => exists chunks rd', pushes_partition e chunks /\ (thread e).2 = Done rd'
            /\ m_error rd' = no_error) rds.
Proof using Type.
  intros Hst Hserve (HW & _ & _ & Hb) Hparts Hfor. apply Forall_lookup. intros i e Hi.
  destruct (Forall2_lookup_r _ _ _ _ _ Hfor Hi) as (p & Hp & Hf).
  rewrite list_lookup_fmap, Hi in Hp. injection Hp as <-.
  destruct (thread_delivers (m_numPartitions cl) choose aggs creds pc (m_partition (e_reader e)) e
    Hst Hserve) as (_ & chunks & rd' & E & Hnum & Hdel & Herr); [|lia|done|].
  { apply Hparts. apply list_elem_of_fmap. exists e. split; [done|]. by eapply list_elem_of_lookup_2. }
  exists chunks, rd'. unfold pushes_partition. rewrite E. split_and!; try done.
  unfold thread in E. apply Read_calls in E as (chunks' & E & _ & _ & Hids).
  apply app_inj_tail in E as [E _]. apply list_fmap_eq_inj in E; [by subst|]. by intros ?? [= ->].
Qed.

Lemma interleaved_gets (cl : S2Client M) n c rds chunkss l :
  0 < n -> worker_ok cl -> assigned_readers cl n rds ->
  let mine := filter (fun e => e_queue e = c) rds in
  Forall2 pushes_partition mine chunkss -> interleaves chunkss l -> gets cl n c l.
Proof using Type.
  intros Hn Hcl [[Hnd Hin] Hq] mine Hps Hl p. cbv zeta.
  rewrite Forall_forall in Hq.
  assert (forall e, e ∈ rds -> e_queue e = c <-> consumer_of cl n c (m_partition (e_reader e))) as Hmine.
  { intros e He. rewrite (Hq e ltac:(by apply list_elem_of_In)).
    pose proof (proj1 (Hin (m_partition (e_reader e))) (list_elem_of_fmap_2 _ _ _ He)).
    unfold consumer_of. naive_solver. }
  assert (forall j e lj, mine !! j = Some e -> chunkss !! j = Some lj ->
    Forall (fun ch => partition_id ch = m_partition (e_reader e)) lj) as Hpart.
  { intros j e lj He Hlj. pose proof (Forall2_lookup_lr _ _ _ _ _ _ Hps He Hlj) as (_ & Hnum & _).
    by eapply numbered_partition. }
  destruct (decide (consumer_of cl n c p)) as [Hc|Hc].
  - pose proof (proj2 (Hin p) ltac:(by destruct Hc as (? & ? & _))) as Hp.
    apply list_elem_of_fmap in Hp as (e & -> & He).
    assert (e ∈ mine) as (i & Hi)%list_elem_of_lookup by (apply list_elem_of_filter; by rewrite Hmine).
    destruct (Forall2_lookup_l _ _ _ _ _ Hps Hi) as (li & Hli & _ & Hnum & Hdel & _).
    rewrite (interleaves_filter _ chunkss l i li Hl Hli); [done|].
    intros j lj Hlj. destruct (Forall2_lookup_r _ _ _ _ _ Hps Hlj) as (e' & He' & _).
    specialize (Hpart j e' lj He' Hlj). rewrite Forall_forall in Hpart |- *.
    intros ch Hch. rewrite (Hpart ch Hch). split; [|intros ->; congruence].
    intros Ep. assert (NoDup ((fun e => m_partition (e_reader e)) <$> mine)) as Hnd'.
    { eapply sublist_NoDup; [exact Hnd|]. apply fmap_sublist, sublist_filter. }
    eapply (NoDup_lookup _ _ _ _ Hnd'); rewrite list_lookup_fmap; [by rewrite He'|by rewrite Hi, Ep].
  - eapply interleaves_filter_none; [exact Hl|]. apply Forall_lookup. intros j lj Hlj.
    destruct (Forall2_lookup_r _ _ _ _ _ Hps Hlj) as (e & He & _).
    specialize (Hpart j e lj He Hlj). rewrite Forall_forall in Hpart |- *.
    intros ch Hch Ep. apply Hc. rewrite <- Ep, (Hpart ch Hch).
    apply list_elem_of_lookup_2, list_elem_of_filter in He as [Hqe He]. by apply Hmine.
Qed.
(** The calls of the reading threads of a consumer. *)
Definition consumer_threads (c : Z) (rds : list (reader_entry M)) : list (list queue_call) :=
  (fun e => (thread e).1) <$> filter (fun e => e_queue e = c) rds.

Lemma consumer_chunks c rds :
  Forall (fun e => exists chunks rd', pushes_partition e chunks /\ (thread e).2 = Done rd'
            /\ m_error rd' = no_error) rds ->
  exists chunkss, Forall2 pushes_partition (filter (fun e => e_queue e = c) rds) chunkss.
Proof using Type.
  intros Hrds. induction Hrds as [|e rds (l & _ & He & _) _ [ls IH]]; [by exists []|].
  rewrite filter_cons. case_decide; [by exists (l :: ls); constructor|by exists ls].
Qed.

(** ** All workers *)

(** The chunks that [nW] workers of [n] consumers have received. *)
Definition all_chunks (nW n : Z) (received : Z -> nat -> list Chunk) : list Chunk :=
  concat ((fun w => concat (received w <$> seq 0 (Z.to_nat n))) <$> seqZ 0 nW).

(** [chunks] hold the rows of the [total] partitions of the table, each once. *)
Definition hold_table (total : Z) (chunks : list Chunk) : Prop :=
  exists parts, Forall2 (holds schema) chunks parts
    /\ concat parts ≡ₚ concat (values <$> seqZ 0 total).

Section workers.
Context (nW n total : Z) (cl : Z -> S2Client M) (received : Z -> nat -> list Chunk).
Hypothesis nW_pos : 0 < nW.
Hypothesis n_pos : 0 < n.
Hypothesis the_workers : forall w, 0 <= w < nW ->
  m_workerId (cl w) = w /\ m_numWorkers (cl w) = nW /\ m_numPartitions (cl w) = total.
Hypothesis received_gets : forall w c, 0 <= w < nW -> (c < Z.to_nat n)%nat ->
  gets (cl w) n (Z.of_nat c) (received w c).

Lemma consumer_of_iff w c p :
  0 <= w < nW ->
  consumer_of (cl w) n c p <-> 0 <= p < total /\ p mod nW = w /\ (p / nW) mod n = c.
Proof using n the_workers.
  intros Hw. unfold consumer_of. by destruct (the_workers w Hw) as (-> & -> & ->).
Qed.

Lemma consumer_no_chunks w c p :
  0 <= w < nW -> (c < Z.to_nat n)%nat -> ~ consumer_of (cl w) n (Z.of_nat c) p ->
  filter (fun ch => partition_id ch = p) (received w c) = [].
Proof using received_gets.
  intros Hw Hc Hn. pose proof (received_gets w c Hw Hc p) as Hg. cbv zeta in Hg.
  by rewrite decide_False in Hg.
Qed.

Lemma all_chunks_partition p :
  0 <= p < total ->
  delivered_rows schema (filter (fun ch => partition_id ch = p) (all_chunks nW n received))
    (values p).
Proof using All.
  intros Hp. set (w := p mod nW). set (c := Z.to_nat ((p / nW) mod n)).
  assert (0 <= w < nW) as Hw by (by apply Z.mod_pos_bound).
  pose proof (Z.mod_pos_bound (p / nW) n n_pos) as Hcn.
  assert (c < Z.to_nat n)%nat as Hc by lia.
  assert (filter (fun ch => partition_id ch = p) (all_chunks nW n received)
          = filter (fun ch => partition_id ch = p) (received w c)) as ->.
  { unfold all_chunks. rewrite filter_concat, <- list_fmap_compose.
    rewrite (concat_single _ _ w); [|apply NoDup_seqZ|by apply elem_of_seqZ|].
    - unfold compose. rewrite filter_concat, <- list_fmap_compose.
      apply (concat_single (filter (fun ch => partition_id ch = p) ∘ received w) _ c); [apply NoDup_seq|apply elem_of_seq; lia|].
      intros c' Hc'%elem_of_seq Hne. apply consumer_no_chunks; [done|lia|].
      rewrite consumer_of_iff by done. unfold c in Hne. lia.
    - intros w' Hw'%elem_of_seqZ Hne. unfold compose. rewrite filter_concat, <- list_fmap_compose.
      rewrite (concat_single (filter (fun ch => partition_id ch = p) ∘ received w') _ c);
        [|apply NoDup_seq|apply elem_of_seq; lia|].
      all: try (intros c' Hc'%elem_of_seq _). all: apply consumer_no_chunks; [lia|lia|].
      all: rewrite consumer_of_iff by lia; naive_solver. }
  pose proof (received_gets w c Hw Hc p) as Hg. cbv zeta in Hg. rewrite decide_True in Hg; [apply Hg|].
  rewrite consumer_of_iff by done. split_and!; [lia|lia|done|unfold c; lia].
Qed.

Lemma all_chunks_hold : hold_table total (all_chunks nW n received).
Proof using All.
  set (l := all_chunks nW n received).
  assert (Forall (fun ch => partition_id ch ∈ seqZ 0 total) l) as Hkeys.
  { apply Forall_concat, Forall_fmap, Forall_forall. intros w Hw%list_elem_of_In%elem_of_seqZ.
    apply Forall_concat, Forall_fmap, Forall_forall. intros c Hc%list_elem_of_In%elem_of_seq.
    apply Forall_forall. intros ch Hch%list_elem_of_In. apply elem_of_seqZ.
    destruct (decide (consumer_of (cl w) n (Z.of_nat c) (partition_id ch))) as [[Hp _]|Hnot].
    { by destruct (the_workers w ltac:(lia)) as (_ & _ & <-). }
    apply consumer_no_chunks in Hnot; [|lia..].
    assert (ch ∈ filter (fun ch' => partition_id ch' = partition_id ch) (received w c)) as Hin
      by by apply list_elem_of_filter.
    rewrite Hnot in Hin. by apply not_elem_of_nil in Hin. }
  pose proof (partition_by partition_id (seqZ 0 total) l (NoDup_seqZ _ _) Hkeys) as Hperm.
  assert (forall keys, Forall (fun p => 0 <= p < total) keys -> exists parts,
    Forall2 (holds schema) (concat ((fun p => filter (fun ch => partition_id ch = p) l) <$> keys)) parts
    /\ concat parts = concat (values <$> keys)) as Hparts.
  { induction 1 as [|p keys Hp _ (parts & Hh & Ec)]; [by exists []|].
    destruct (all_chunks_partition p Hp) as (ps & Hps & _ & Ep).
    exists (ps ++ parts)%list. cbn. rewrite concat_app, Ep, Ec. split; [by apply Forall2_app|done]. }
  destruct (Hparts (seqZ 0 total)) as (parts & Hh & Ec).
  { apply Forall_forall. intros p Hp%list_elem_of_In%elem_of_seqZ. lia. }
  destruct (Permutation_Forall2 Hperm Hh) as (parts' & Hp' & Hh').
  exists parts'. split; [done|]. by rewrite <- Ec, Hp'.
Qed.
End workers.

(** ** One pass over the table *)
Section streaming.
Context (after_throw : S2Connection M -> S2Connection M).
Context (select : string) (readType : ParallelReadType) (order : list string).
Context (cap n junk : Z) (result_table : string) (prepared cb : bool).

(** The worker [cl] has made its streaming queue [q] for the parallel read of
    the table, whose server answers the queries that this queue uses. *)
Record streaming_worker (cl : S2Client M) (q : ChunkQueue M chunks) : Prop := {
  sw_made : exists cl' reports,
    CreateStreamingQueue scan_double uninit after_throw select readType order cap size n junk
      (Some result_table) true prepared cb cl = Done (Some q, cl', reports);
  sw_worker : worker_ok cl;
  sw_aggregators : few_aggregators select junk cl;
  sw_schema : m_row_schema q = Some schema;
  sw_serves : serves_table (m_numPartitions cl)
    (streaming_choice select readType order result_table (m_serverVersion cl))
}.

(** A run of consumer [c] and its readers. *)
Definition streaming_run (q : ChunkQueue M chunks) (c : nat) (d : delivery) : Prop :=
  exists cq, m_consumer_queues q !! c = Some cq
    /\ rtc dstep (delivery_start cq (consumer_threads (Z.of_nat c) (m_readers q))) d.

Lemma streaming_worker_readers cl q :
  storable -> streaming_worker cl q -> 0 < n < 2 ^ 31 ->
  Forall (fun e => exists chunks rd', pushes_partition e chunks /\ (thread e).2 = Done rd'
            /\ m_error rd' = no_error) (m_readers q)
  /\ assigned_readers cl n (m_readers q)
  /\ matched (fun ps cq => cq = simple_queue_new (u32 cap) (Z.of_nat (length ps)))
       (m_readers q) (m_consumer_queues q) n
  /\ Z.of_nat (length (m_readers q)) < 2 ^ 32.
Proof using Type.
  intros Hst [(cl' & w & E) Hcl Haggs Hschema Hserves] Hn.
  destruct (CreateStreamingQueue_made _ _ _ _ _ _ _ _ _ _ _ _ _ _ _ _ _ E Hcl Hn Haggs)
    as (parts & aggs & creds & schema' & Eparts & Es & Ep & Hfor & Hm & Hass).
  rewrite Hschema in Es. injection Es as <-. split_and!.
  - eapply readers_push; [done|exact Hserves|done| |rewrite Ep; exact Hfor].
    intros p Hp. apply (proj2 (proj1 Hass)) in Hp. by destruct Hp.
  - exact Hass.
  - exact Hm.
  - destruct Hcl as (HW & Hw & HP & Hb). apply worker_partitions_facts in Eparts as (_ & _ & Hl & _); [|lia..].
    apply (f_equal length) in Ep. rewrite length_fmap in Ep. lia.
Qed.

Lemma streaming_gets cl q c d :
  storable -> streaming_worker cl q -> 0 < n < 2 ^ 31 -> 1 <= u32 cap ->
  streaming_run q c d ->
  (ended d = true -> gets cl n (Z.of_nat c) (received d))
  /\ exists d', rtc dstep d d' /\ ended d' = true.
Proof using Type.
  intros Hst Hw Hn Hcap (cq & Hc & Hd).
  destruct (streaming_worker_readers cl q Hst Hw Hn) as (Hrds & Hass & (_ & _ & Hq) & Hlen).
  rewrite (Hq c cq Hc) in Hd. rewrite length_fmap in Hd.
  destruct (consumer_chunks (Z.of_nat c) _ Hrds) as (chunkss & Hps).
  set (mine := filter (fun e => e_queue e = Z.of_nat c) (m_readers q)) in *.
  assert (length (consumer_threads (Z.of_nat c) (m_readers q)) = length mine) as El
    by apply length_fmap.
  rewrite <- El in Hd.
  assert (length mine <= length (m_readers q))%nat by apply length_filter.
  assert (Forall2 (fun prog l => exists p, prog = (call_Push <$> l) ++ [call_DeleteProducer p])
            (consumer_threads (Z.of_nat c) (m_readers q)) chunkss) as Hprogs.
  { apply Forall2_fmap_l. eapply Forall2_impl; [|exact Hps]. intros e l (E & _). eauto. }
  split.
  - intros He. eapply interleaved_gets; [|by destruct Hw|exact Hass|exact Hps|]; [lia|].
    destruct (queue_delivers (u32 cap) _ chunkss Hcap ltac:(rewrite El; lia) Hprogs) as [Hsafe _].
    by apply (Hsafe d Hd).
  - eapply (delivery_completes (u32 cap)); [done|rewrite El; lia|exact Hprogs|exact Hd].
Qed.

(** A parallel read in one pass gets the table.  Every worker makes its
    streaming queue for the same query; then, in every run of its consumers and
    reading threads, every thread ends without an error, every consumer can go
    on to the end of data, and it has then got exactly its partitions, the rows
    of each in order.  When the consumers of all workers have come to the end,
    the chunks they have received hold the rows of all partitions of the table,
    each row once. *)
Theorem streaming_reads_table nW total cl q d :
  storable -> 0 < n < 2 ^ 31 -> 1 <= u32 cap -> 0 < nW ->
  (forall w, 0 <= w < nW -> streaming_worker (cl w) (q w)
     /\ m_workerId (cl w) = w /\ m_numWorkers (cl w) = nW /\ m_numPartitions (cl w) = total) ->
  (forall w c, 0 <= w < nW -> (c < Z.to_nat n)%nat -> streaming_run (q w) c (d w c)) ->
  (forall w e, 0 <= w < nW -> e ∈ m_readers (q w) ->
     exists rd', (thread e).2 = Done rd' /\ m_error rd' = no_error)
  /\ (forall w c, 0 <= w < nW -> (c < Z.to_nat n)%nat ->
        (exists d', rtc dstep (d w c) d' /\ ended d' = true)
        /\ (ended (d w c) = true -> gets (cl w) n (Z.of_nat c) (received (d w c))))
  /\ ((forall w c, 0 <= w < nW -> (c < Z.to_nat n)%nat -> ended (d w c) = true) ->
      hold_table total (all_chunks nW n (fun w c => received (d w c)))).
Proof using Type.
  intros Hst Hn Hcap HnW Hws Hruns.
  pose proof (fun w c Hw Hc => streaming_gets (cl w) (q w) c (d w c) Hst (proj1 (Hws w Hw)) Hn Hcap
    (Hruns w c Hw Hc)) as Hgets.
  split_and!.
  - intros w e Hw He. destruct (Hws w Hw) as (Hq & _).
    destruct (streaming_worker_readers _ _ Hst Hq Hn) as [Hrds _]. rewrite Forall_forall in Hrds.
    destruct (Hrds e) as (_ & rd' & _ & ?); [by apply list_elem_of_In|by exists rd'].
  - intros w c Hw Hc. by destruct (Hgets w c Hw Hc).
  - intros Hends. apply (all_chunks_hold nW n total cl); [done|lia|by intros w Hw; apply Hws|].
    intros w c Hw Hc. by apply Hgets, Hends.
Qed.
End streaming.

(** ** Several passes over the table *)
Section multi_pass.
Context (after_throw : S2Connection M -> S2Connection M).
Context (select : string) (readType : ParallelReadType) (order : list string).
Context (cap n junk : Z) (result_table source_table key_column : string) (cb : bool).

(** The worker [cl] has made its multi-pass queue [mp]. *)
Record multi_pass_worker (cl : S2Client M) (mp : MultiPassQueue M) : Prop := {
  mw_made : exists cl' reports,
    CreateMultiPassQueue after_throw select readType order cap size n junk
      result_table source_table key_column cb cl = Done (Some mp, cl', reports);
  mw_worker : worker_ok cl;
  mw_aggregators : few_aggregators select junk cl;
  mw_schema : m_row_schema (chunk_queue mp) = Some schema;
  mw_serves keys : keys_for readType source_table keys -> serves_table (m_numPartitions cl)
    (multi_pass_choice select readType order result_table key_column (m_serverVersion cl)
       (sort_key keys))
}.

(** A run of the readers and of consumer [c], which pops the chunks (the first
    pass), gets them by number, or frees them. *)
Definition multi_pass_run (m : mode) (mp : MultiPassQueue M) (c : nat) (d : batch_delivery) : Prop :=
  let q := chunk_queue mp in
  exists cq, m_consumer_queues q !! c = Some cq
    /\ rtc (bstep m) (mkBatchDelivery cq (consumer_threads (Z.of_nat c) (m_readers q)) [] false) d.

Lemma multi_pass_worker_readers cl mp :
  storable -> multi_pass_worker cl mp -> 0 < n < 2 ^ 31 ->
  let q := chunk_queue mp in
  Forall (fun e => exists chunks rd', pushes_partition e chunks /\ (thread e).2 = Done rd'
            /\ m_error rd' = no_error) (m_readers q)
  /\ assigned_readers cl n (m_readers q)
  /\ matched (fun ps cq => cq = ThreadSafeBatchQueue (s32 cap) ps)
       (m_readers q) (m_consumer_queues q) n.
Proof using Type.
  intros Hst [(cl' & w & E) Hcl Haggs Hschema Hserves] Hn q.
  destruct (CreateMultiPassQueue_made _ _ _ _ _ _ _ _ _ _ _ _ _ _ _ _ E Hcl Hn Haggs)
    as (parts & creds & schema' & keys & Hkeys & Eparts & Es & Ep & Hfor & Hm & Hass & _).
  fold q in Es, Ep, Hfor, Hm, Hass. fold q in Hschema.
  rewrite Hschema in Es. injection Es as <-. split; [|split; [exact Hass|exact Hm]].
  eapply readers_push; [done|exact (Hserves keys Hkeys)|done| |rewrite Ep; exact Hfor].
  intros p Hp. apply (proj2 (proj1 Hass)) in Hp. by destruct Hp.
Qed.

(** The invariant of a run, from which its safety and its end follow. *)
Lemma multi_pass_start m cl mp c d :
  storable -> multi_pass_worker cl mp -> 0 < n < 2 ^ 31 -> 0 < s32 cap ->
  multi_pass_run m mp c d ->
  exists chunkss next pushed rest, run_inv m chunkss d next pushed rest
    /\ forall l, interleaves chunkss l -> gets cl n (Z.of_nat c) l.
Proof using Type.
  intros Hst Hw Hn Hcap (cq & Hc & Hd).
  destruct (multi_pass_worker_readers cl mp Hst Hw Hn) as (Hrds & Hass & (_ & _ & Hq)).
  rewrite (Hq c cq Hc) in Hd.
  destruct (consumer_chunks (Z.of_nat c) _ Hrds) as (chunkss & Hps).
  set (readers := m_readers (chunk_queue mp)) in *.
  set (mine := filter (fun e => e_queue e = Z.of_nat c) readers) in *.
  set (ids := (fun e => m_partition (e_reader e)) <$> mine) in *.
  assert (producers_ok (s32 cap) ids) as Hok.
  { split; [split; [done|]|].
    - pose proof (wrap_s_range 32 eq_refl cap). lia.
    - destruct Hass as [[Hnd Hin] _]. destruct (mw_worker _ _ Hw) as (HW & Hw0 & HP & Hb).
      assert (sublist ids ((fun e => m_partition (e_reader e)) <$> readers)) as Hsub
        by apply fmap_sublist, sublist_filter.
      split; [by eapply sublist_NoDup|]. apply Forall_forall. intros p Hp%list_elem_of_In.
      eapply elem_of_sublist in Hp; [|exact Hsub]. apply Hin in Hp. lia. }
  assert (Forall3 (fun p prog l => prog = (call_Push <$> l) ++ [call_DeleteProducer p]
            /\ numbered p 0 l /\ Forall (fun ch => id ch + 1 < 2 ^ 31) l)
          ids (consumer_threads (Z.of_nat c) readers) chunkss) as H3.
  { unfold ids, consumer_threads. fold mine. clear -Hps.
    induction Hps as [|e l es ls (E & Hnum & _ & Hids) _ IH]; constructor; [|done].
    by split_and!. }
  pose proof (initial_run m _ _ _ _ Hok H3) as H0.
  destruct (run_steps _ _ _ _ _ _ _ H0 Hd) as (next & pushed & rest & Hr).
  exists chunkss, next, pushed, rest. split; [done|]. intros l Hl.
  eapply interleaved_gets; [|by destruct Hw|exact Hass|exact Hps|exact Hl]. lia.
Qed.

Lemma multi_pass_gets cl mp c d :
  storable -> multi_pass_worker cl mp -> 0 < n < 2 ^ 31 -> 0 < s32 cap ->
  multi_pass_run Popping mp c d ->
  (b_ended d = true -> gets cl n (Z.of_nat c) (b_taken d))
  /\ exists d', rtc (bstep Popping) d d' /\ b_ended d' = true.
Proof using Type.
  intros Hst Hw Hn Hcap Hd.
  destruct (multi_pass_start _ _ _ _ _ Hst Hw Hn Hcap Hd) as (chunkss & next & pushed & rest & Hr & Hg).
  split.
  - intros He. apply Hg. by apply (end_complete _ _ _ _ _ _ Hr); [left|].
  - destruct (run_ends _ _ _ _ _ _ Hr) as (d' & Hs & Hend). exists d'. split; [done|].
    by destruct Hend as [|[? _]].
Qed.

Lemma multi_pass_gets_again cl mp c d :
  storable -> multi_pass_worker cl mp -> 0 < n < 2 ^ 31 -> 0 < s32 cap ->
  multi_pass_run Getting mp c d ->
  exists d' l, rtc (bstep Getting) d d' /\ b_taken d' ≡ₚ l /\ gets cl n (Z.of_nat c) l.
Proof using Type.
  intros Hst Hw Hn Hcap Hd.
  destruct (multi_pass_start _ _ _ _ _ Hst Hw Hn Hcap Hd) as (chunkss & next & pushed & rest & Hr & Hg).
  destruct (run_ends _ _ _ _ _ _ Hr) as (d' & Hs & Hend).
  destruct (run_steps _ _ _ _ _ _ _ Hr Hs) as (? & ? & ? & Hr').
  exists d', (concat chunkss). split; [done|]. split; [by apply (end_complete _ _ _ _ _ _ Hr')|].
  apply Hg, interleaves_concat.
Qed.

(** A parallel read in several passes gets the table in its first pass, as
    one in a single pass does; and a consumer that gets its chunks by their
    numbers, in whatever order it asks for them, can go on until it has taken
    all chunks of its partitions. *)
Theorem multi_pass_reads_table nW total cl mp d :
  storable -> 0 < n < 2 ^ 31 -> 0 < s32 cap -> 0 < nW ->
  (forall w, 0 <= w < nW -> multi_pass_worker (cl w) (mp w)
     /\ m_workerId (cl w) = w /\ m_numWorkers (cl w) = nW /\ m_numPartitions (cl w) = total) ->
  (forall w c, 0 <= w < nW -> (c < Z.to_nat n)%nat -> multi_pass_run Popping (mp w) c (d w c)) ->
  (forall w c, 0 <= w < nW -> (c < Z.to_nat n)%nat ->
     (exists d', rtc (bstep Popping) (d w c) d' /\ b_ended d' = true)
     /\ (b_ended (d w c) = true -> gets (cl w) n (Z.of_nat c) (b_taken (d w c))))
  /\ ((forall w c, 0 <= w < nW -> (c < Z.to_nat n)%nat -> b_ended (d w c) = true) ->
      hold_table total (all_chunks nW n (fun w c => b_taken (d w c))))
  /\ (forall w c d1, 0 <= w < nW -> multi_pass_run Getting (mp w) c d1 ->
        exists d' l, rtc (bstep Getting) d1 d' /\ b_taken d' ≡ₚ l /\ gets (cl w) n (Z.of_nat c) l).
Proof using Type.
  intros Hst Hn Hcap HnW Hws Hruns.
  pose proof (fun w c Hw Hc => multi_pass_gets (cl w) (mp w) c (d w c) Hst (proj1 (Hws w Hw)) Hn Hcap
    (Hruns w c Hw Hc)) as Hgets.
  split_and!.
  - intros w c Hw Hc. by destruct (Hgets w c Hw Hc).
  - intros Hends. apply (all_chunks_hold nW n total cl); [done|lia|by intros w Hw; apply Hws|].
    intros w c Hw Hc. by apply Hgets, Hends.
  - intros w c d1 Hw. apply multi_pass_gets_again; [done|by apply Hws|done..].
Qed.
End multi_pass.
End read_table.

(** ** A table of three partitions, two workers with two consumers each

    The client of lists, over a server that knows the queries of the partitions:
    it answers a prepared query with the rows of its partition. *)
#[local] Existing Instance release_build.

Definition demo_table_fields : list MYSQL_FIELD :=
  [demo_field "i" MYSQL_TYPE_LONG; demo_field "t" MYSQL_TYPE_VAR_STRING].
Definition demo_table_schema : RowSchema :=
  mkRowSchema [mkColumn Int32 4 "i"; mkColumn Variable_ 0 "t"].

(** Partition 0 has the rows (7, 'hi') and (8, NULL), partition 2 has (9, 'x'). *)
Definition demo_table (p : Z) : list (list (option bytes)) :=
  let text s := Some (String.list_ascii_of_string s) in
  if p =? 0 then [[Some (le_encode 4 7); text "hi"]; [Some (le_encode 4 8); None]]
  else if p =? 2 then [[Some (le_encode 4 9); text "x"]] else [].
Definition demo_values (p : Z) : list (list field) :=
  let text s := FBytes (String.list_ascii_of_string s) in
  if p =? 0 then [[FNum 7; text "hi"]; [FNum 8; FNull]]
  else if p =? 2 then [[FNum 9; text "x"]] else [].

Definition demo_partition_query (p : Z) (query : string) : bool :=
  match MakeReadResultTableQuery "r" p "8.1.4" with
  | Done q => bool_decide (q = query)
  | _ => false
  end.
Definition demo_answer (query : string) : list (list (option bytes)) :=
  concat ((fun p => if demo_partition_query p query then demo_table p else []) <$> seqZ 0 3).

Definition demo_text_answer (query : string) : list (list (option string)) :=
  if bool_decide (substring 0 7 query = "EXPLAIN"%string) then demo_explain else demo_aggregators.

#[local] Instance table_mysql : MysqlClient demo_client := {
  mysql_init := Some (mkDemo [] [] [] [] []);
  mysql_query query m := (false, mkDemo [] (demo_text_answer query) [] [] []);
  mysql_stmt_prepare query m := (false, mkDemo [] [] demo_table_fields (demo_answer query) []);
  mysql_ssl := mysql_ssl; mysql_real_connect := mysql_real_connect;
  mysql_errno := mysql_errno; mysql_error := mysql_error;
  mysql_stmt_errno := mysql_stmt_errno; mysql_stmt_error := mysql_stmt_error;
  mysql_store_result := mysql_store_result; mysql_affected_rows := mysql_affected_rows;
  mysql_use_result := mysql_use_result; mysql_fetch_row := mysql_fetch_row;
  mysql_stmt_init := mysql_stmt_init; mysql_stmt_execute := mysql_stmt_execute;
  mysql_stmt_field_count := mysql_stmt_field_count;
  mysql_stmt_fields := mysql_stmt_fields; mysql_fetch_fields := mysql_fetch_fields; mysql_stmt_bind_result := mysql_stmt_bind_result;
  mysql_stmt_fetch := mysql_stmt_fetch; mysql_stmt_fetch_column := mysql_stmt_fetch_column;
  mysql_stmt_close := mysql_stmt_close; mysql_close := mysql_close;
  mysql_get_local_infile := mysql_get_local_infile;
  mysql_load_text := mysql_load_text; mysql_load_avro := mysql_load_avro
}.

#[local] Instance table_laws : StatementLaws (MysqlClient0 := table_mysql) demo_client := {
  serves := demo_serves;
  current fields row rows m := demo_serves fields rows m /\ d_row m = row;
  serves_fields := serves_fields (MysqlClient0 := demo_mysql) (StatementLaws := demo_laws);
  serves_bind := serves_bind (MysqlClient0 := demo_mysql) (StatementLaws := demo_laws);
  serves_none := serves_none (MysqlClient0 := demo_mysql) (StatementLaws := demo_laws);
  serves_row := serves_row (MysqlClient0 := demo_mysql) (StatementLaws := demo_laws);
  fetch_column := fetch_column (MysqlClient0 := demo_mysql) (StatementLaws := demo_laws);
  current_serves := current_serves (MysqlClient0 := demo_mysql) (StatementLaws := demo_laws)
}.

Definition demo_buffers (p n : Z) : option bytes := Some (replicate 40 "000"%char).

Lemma demo_storable :
  storable demo_table demo_values demo_buffers demo_table_schema 40.
Proof.
  split.
  - intros p n. by eexists.
  - lia.
  - split; [|done]. repeat constructor; unfold col_ok; cbn; done.
  - intros p. unfold demo_table, demo_values. repeat case_match; repeat constructor; cbn; try done; lia.
  - intros p. unfold demo_table. by repeat case_match.
Qed.

Definition demo_table_worker (w : Z) : S2Client demo_client :=
  mkClient 3 "8.1.4" w 2 (demo_connection (mkDemo [] [] [] [] [])) no_error.

Definition demo_streaming (w : Z) :=
  CreateStreamingQueue (MysqlClient0 := table_mysql) no_double 0 (fun c => c) "SELECT * FROM t"
    ReadTypeResultTable [] 4 40 2 0 (Some "r"%string) true true true (demo_table_worker w).
Definition demo_streaming_queue (w : Z) : ChunkQueue demo_client chunks :=
  match demo_streaming w with
  | Done (Some q, _, _) => q
  | _ => mkChunkQueue None false no_error "" "" "" ReadTypeUnknown []
           (mkCredentials "" 0 "" "" "" None) [] [] []
  end.

Lemma demo_answers p m :
  0 <= p < 3 ->
  exists query, MakeReadResultTableQuery "r" p "8.1.4" = Done query
    /\ answers (MysqlClient0 := table_mysql) query demo_table_fields (demo_table p) m.
Proof.
  intros Hp. assert (p = 0 \/ p = 1 \/ p = 2) as [->|[->| ->]] by lia;
    (eexists; split; [vm_compute; reflexivity|];
     exists m; do 2 eexists; split; [done|]; split; [reflexivity|]; split; [reflexivity|];
     split; [split_and!; vm_compute; [done..|by repeat constructor]|done]).
Qed.

Lemma demo_two w : 0 <= w < 2 -> w = 0 \/ w = 1.
Proof. lia. Qed.

Lemma demo_table_few w : few_aggregators "SELECT * FROM t" 0 (demo_table_worker w).
Proof.
  intros schema c aggs c' Ee Ea. vm_compute in Ee. injection Ee as <- <-.
  vm_compute in Ea. by injection Ea as <- <-.
Qed.

Lemma demo_streaming_worker w :
  0 <= w < 2 ->
  streaming_worker no_double 0 demo_table_fields demo_table demo_table_schema 40 (fun c => c)
    "SELECT * FROM t" ReadTypeResultTable [] 4 2 0 "r" true true
    (demo_table_worker w) (demo_streaming_queue w).
Proof.
  intros Hw. split.
  - destruct (demo_two w Hw) as [->| ->]; do 2 eexists; vm_compute; reflexivity.
  - destruct (demo_two w Hw) as [->| ->]; by vm_compute.
  - apply demo_table_few.
  - destruct (demo_two w Hw) as [->| ->]; by vm_compute.
  - intros p query creds c Hp E _. destruct (demo_answers p (mysql c) Hp) as (query' & E' & Ha).
    cbn in E. unfold streaming_choice in E. cbn in E. rewrite E' in E. by injection E as <-.
Qed.

Lemma streaming_reads_table_witness :
  exists q, forall d,
    (forall w c, 0 <= w < 2 -> (c < 2)%nat ->
       streaming_run no_double 0 demo_table demo_buffers (q w) c (d w c)) ->
    (forall w c, 0 <= w < 2 -> (c < 2)%nat -> exists d', rtc dstep (d w c) d' /\ ended d' = true)
    /\ ((forall w c, 0 <= w < 2 -> (c < 2)%nat -> ended (d w c) = true) ->
        exists parts,
          Forall2 (holds demo_table_schema) (all_chunks 2 2 (fun w c => received (d w c))) parts
          /\ concat parts ≡ₚ concat (demo_values <$> [0; 1; 2])).
Proof.
  exists demo_streaming_queue. intros d Hd.
  edestruct (streaming_reads_table no_double 0 demo_table_fields demo_table demo_values demo_buffers
    demo_table_schema 40 (fun c => c) "SELECT * FROM t" ReadTypeResultTable [] 4 2 0 "r" true true
    2 3 demo_table_worker demo_streaming_queue d demo_storable) as (_ & Hrun & Hall);
    [lia|by vm_compute|lia| |exact Hd|].
  - intros w Hw. split; [by apply demo_streaming_worker|done].
  - split; [|exact Hall]. intros w c Hw Hc. by apply Hrun.
Defined.

Definition demo_multi_pass (w : Z) :=
  CreateMultiPassQueue (MysqlClient0 := table_mysql) (fun c => c) "SELECT * FROM t"
    ReadTypeResultTable [] 4 40 2 0 "r" "t" "key" true (demo_table_worker w).
Definition demo_multi_pass_queue (w : Z) : MultiPassQueue demo_client :=
  match demo_multi_pass w with Done (Some mp, _, _) => mp | _ => demo_multi end.

Lemma demo_multi_pass_worker w :
  0 <= w < 2 ->
  multi_pass_worker demo_table_fields demo_table demo_table_schema 40 (fun c => c)
    "SELECT * FROM t" ReadTypeResultTable [] 4 2 0 "r" "t" "key" true
    (demo_table_worker w) (demo_multi_pass_queue w).
Proof.
  intros Hw. split.
  - destruct (demo_two w Hw) as [->| ->]; do 2 eexists; vm_compute; reflexivity.
  - destruct (demo_two w Hw) as [->| ->]; by vm_compute.
  - apply demo_table_few.
  - destruct (demo_two w Hw) as [->| ->]; by vm_compute.
  - intros keys _ p query creds c Hp E _. destruct (demo_answers p (mysql c) Hp) as (query' & E' & Ha).
    cbn in E. unfold multi_pass_choice in E. cbn in E. rewrite E' in E. by injection E as <-.
Qed.

Lemma multi_pass_reads_table_witness :
  exists mp, forall d,
    (forall w c, 0 <= w < 2 -> (c < 2)%nat ->
       multi_pass_run no_double 0 demo_table demo_buffers Popping (mp w) c (d w c)) ->
    (forall w c, 0 <= w < 2 -> (c < 2)%nat ->
       exists d', rtc (bstep Popping) (d w c) d' /\ b_ended d' = true)
    /\ ((forall w c, 0 <= w < 2 -> (c < 2)%nat -> b_ended (d w c) = true) ->
        exists parts,
          Forall2 (holds demo_table_schema) (all_chunks 2 2 (fun w c => b_taken (d w c))) parts
          /\ concat parts ≡ₚ concat (demo_values <$> [0; 1; 2])).
Proof.
  exists demo_multi_pass_queue. intros d Hd.
  edestruct (multi_pass_reads_table no_double 0 demo_table_fields demo_table demo_values demo_buffers
    demo_table_schema 40 (fun c => c) "SELECT * FROM t" ReadTypeResultTable [] 4 2 0 "r" "t" "key" true
    2 3 demo_table_worker demo_multi_pass_queue d demo_storable) as (Hrun & Hall & _);
    [lia|by vm_compute|lia| |exact Hd|].
  - intros w Hw. split; [by apply demo_multi_pass_worker|done].
  - split; [|exact Hall]. intros w c Hw Hc. by apply Hrun.
Defined.
