(* ===== verification/ParallelRead.v ===== *)
(** The functions of the C interface in [parallel_read.cpp]: starting and
    ending a parallel read, making the queue of a worker, and getting chunks
    from it. *)

From Stdlib Require Import Ascii String.
From stdpp Require Import base list strings numbers gmap tactics.
From stdpp Require Import options.
From S2P Require Import Prelude Schema Text SimpleQueue BatchQueue Utils Sql.
From S2P Require Import TableReader Connection Client ChunkQueue.

Section parallel_read.
Context `{Build} {M : Type} `{!MysqlClient M}.
Context (scan_double : string -> option Z) (uninit : Z).
Context (after_throw : S2Connection M -> S2Connection M).

(** [client->SetError (S2ClientError (0, ""), nullptr)] *)
Definition clear_error (cl : S2Client M) : S2Client M :=
  let '(cl, _) := ClientSetError no_error false cl in cl.

(** A handler that sets the error of the client after a call that threw. *)
Definition failed (e : S2ClientError) (cb : bool) (cl : S2Client M) : S2Client M * list report :=
  ClientSetError e cb (conn_thrown after_throw cl).

(** ** Starting and ending *)

(** The kind of the table that is made; [None]: the table itself is read. *)
Definition created_kind (readType : ParallelReadType) (materialized : bool) : option TableType :=
  match readType with
  | ReadTypeOriginalTable => None
  | ReadTypeColumnStoreTable => Some RegularTable
  | _ => Some (if materialized then AggResultTableMaterialized else AggResultTable)
  end.

Definition not_materialized : S2ClientError :=
  mkS2ClientError S2C_ERROR_INV_ARG "Cannot use Materialized Result Table".

Definition ParallelReadInit (resultTableName selectQuery : string) (sourceTable : option string)
    (keyColumnName : string) (readType : ParallelReadType) (materialized : bool)
    (partitionByCols partitionOrderByCols : list string) (cl : S2Client M)
    : outcome exn (ParallelReadType * S2Client M) :=
  let cl := clear_error cl in
  r ← catch_s2_alloc
        (GetParallelReadType selectQuery sourceTable materialized partitionByCols
           partitionOrderByCols readType (client_conn cl));
  match r with
  | inl e => Done (readType, fst (failed e false cl))
  | inr (readType, c) =>
      let cl := set_client_conn c cl in
      match created_kind readType materialized with
      | None => Done (readType, cl)
      | Some tableType =>
          let cl :=
            if decide (tableType = AggResultTableMaterialized)
            then fst (ClientSetError not_materialized false cl) else cl in
          let newQuery := MakeCreateTableQuery resultTableName selectQuery keyColumnName
                            tableType partitionByCols partitionOrderByCols in
          r ← catch_s2_alloc (ExecuteDDL newQuery (client_conn cl));
          match r with
          | inl e => Done (readType, fst (failed e false cl))
          | inr (_, c) => Done (readType, set_client_conn c cl)
          end
      end
  end.

Definition drop_query (resultTableName : string) (readType : ParallelReadType) : option string :=
  match readType with
  | ReadTypeResultTable => Some (MakeDropResultQuery resultTableName)
  | ReadTypeColumnStoreTable => Some (MakeDropTableQuery resultTableName)
  | _ => None
  end.

Definition ParallelReadFree (resultTableName : string) (readType : ParallelReadType) (cb : bool)
    (cl : S2Client M) : outcome exn (S2Client M * list report) :=
  let cl := clear_error cl in
  match drop_query resultTableName readType with
  | None => Done (cl, [])
  | Some dropQuery =>
      r ← catch_s2_alloc (ExecuteDDL dropQuery (client_conn cl));
      match r with
      | inl e => Done (failed e cb cl)
      | inr (_, c) => Done (set_client_conn c cl, [])
      end
  end.

(** ** The queue of a worker *)

(** What a [ChunkQueue *] points to. *)
Inductive any_queue :=
  | Streaming (q : ChunkQueue M chunks)
  | MultiPass (q : MultiPassQueue M).

(** The handlers of both functions that make a queue. *)
Definition got_queue {A} (wrap : A -> any_queue) (cb : bool) (cl : S2Client M)
    (created : outcome exn (option A * S2Client M * list report))
    : outcome exn (option any_queue * S2Client M * list report) :=
  r ← catch_s2_alloc created;
  match r with
  | inl e => let '(cl, w) := failed e cb cl in Done (None, cl, w)
  | inr (q, cl, w) => Done (option_map wrap q, cl, w)
  end.

Definition ParallelReadGetQueue (resultTableName selectQuery sourceTable keyColumnName : string)
    (readType : ParallelReadType) (partitionOrderByCols : list string)
    (chunkSize queueCapacity nReaderThreads : Z) (junk : Z) (isMultiPass cb : bool)
    (cl : S2Client M) : outcome exn (option any_queue * S2Client M * list report) :=
  let cl := clear_error cl in
  if isMultiPass then
    got_queue MultiPass cb cl
      (CreateMultiPassQueue after_throw selectQuery readType partitionOrderByCols
         queueCapacity chunkSize nReaderThreads junk resultTableName sourceTable keyColumnName
         cb cl)
  else
    got_queue Streaming cb cl
      (CreateStreamingQueue scan_double uninit after_throw selectQuery readType
         partitionOrderByCols queueCapacity chunkSize nReaderThreads junk
         (Some resultTableName) true true cb cl).

Definition bad_capacity : S2ClientError :=
  mkS2ClientError S2C_ERROR_INV_ARG "Queue capacity must be positive".

Definition QueryGetQueue (query : string) (chunkSize queueCapacity : Z) (junk : Z)
    (usePreparedProtocol cb : bool) (cl : S2Client M)
    : outcome exn (option any_queue * S2Client M * list report) :=
  let cl := clear_error cl in
  if queueCapacity <? 1 then
    let '(cl, w) := ClientSetError bad_capacity cb cl in Done (None, cl, w)
  else
    got_queue Streaming cb cl
      (CreateStreamingQueue scan_double uninit after_throw query ReadTypeResultTable []
         queueCapacity chunkSize 1 junk None false usePreparedProtocol cb cl).

(** ** Chunks

    The end of all four functions: the error goes to the callback, which is
    not checked, and the chunk, if there is one, to the caller's object. *)
Definition give_chunk (res : option Chunk) (err : S2ClientError) (cb : bool) (chunk : Chunk)
    : outcome exn (bool * Chunk * list report) :=
  reports ← (if negb (m_errorCode err =? 0) then call_cb cb (error_report err) else Done []);
  match res with
  | None => Done (false, chunk, reports)
  | Some res => Done (true, MoveChunk chunk res, reports)
  end.

(** [partitionId] is the caller's variable; [None]: the call waits. *)
Definition GetNextChunk {Q} `{!ThreadSafeQueue Q} (consumerId partitionId : Z) (chunk : Chunk)
    (cb : bool) (q : ChunkQueue M Q)
    : outcome exn (option (bool * Z * Chunk * list report * ChunkQueue M Q)) :=
  r ← Get consumerId q;
  match r with
  | None => Done None
  | Some (res, err, q) =>
      '((ok, chunk, reports) : bool * Chunk * list report) ← give_chunk res err cb chunk;
      let partitionId := match res with Some c => partition_id c | None => partitionId end in
      Done (Some (ok, partitionId, chunk, reports, q))
  end.

(** What a read by number or by key has given, for the caller. *)
Definition given {A} (wrap : A -> any_queue) (chunk : Chunk) (cb : bool)
    (r : option Chunk * S2ClientError * A)
    : outcome exn (option (bool * Chunk * list report * any_queue)) :=
  let '(res, err, q) := r in
  '((ok, chunk, reports) : bool * Chunk * list report) ← give_chunk res err cb chunk;
  Done (Some (ok, chunk, reports, wrap q)).

Definition GetChunkMulti (partitionId chunkId : Z) (chunk : Chunk) (cb : bool) (q : any_queue)
    : outcome exn (option (bool * Chunk * list report * any_queue)) :=
  match q with
  | Streaming q => given Streaming chunk cb (StreamingGetById no_error q)
  | MultiPass mp =>
      r ← GetById (s32 partitionId) (s32 chunkId) mp;
      match r with
      | None => Done None
      | Some r => given MultiPass chunk cb r
      end
  end.

Definition GetChunkRow (malloc : Z -> option bytes) (partitionId rowId threadId : Z)
    (chunk : Chunk) (cb : bool) (q : any_queue)
    : outcome exn (option (bool * Chunk * list report * any_queue)) :=
  match q with
  | Streaming q => given Streaming chunk cb (StreamingGetSingleRow no_error q)
  | MultiPass mp =>
      r ← MultiGetSingleRow scan_double uninit after_throw malloc partitionId rowId threadId mp;
      given MultiPass chunk cb r
  end.

Definition GetChunkMultipleRows (malloc : Z -> option bytes) (fuel : nat) (partitionId : Z)
    (rowIds : list Z) (threadId : Z) (chunk : Chunk) (chunkSize : Z) (cb : bool) (q : any_queue)
    : outcome exn (option (bool * Chunk * list report * any_queue)) :=
  match q with
  | Streaming q => given Streaming chunk cb (StreamingGetMultipleRows no_error q)
  | MultiPass mp =>
      r ← MultiGetMultipleRows scan_double uninit after_throw malloc fuel chunkSize partitionId
            rowIds threadId mp;
      given MultiPass chunk cb r
  end.

Definition QueueGetRowSchema (q : any_queue) : option RowSchema :=
  match q with
  | Streaming q => m_row_schema q
  | MultiPass mp => m_row_schema (chunk_queue mp)
  end.
End parallel_read.

(** ** What the server promises about its tables

    [tables m]: the tables of the database, each with whether it is a result
    table.  A CREATE or DROP statement that succeeds adds or removes the table
    it names, a SELECT or EXPLAIN changes no table. *)
Definition is_result (kind : TableType) : bool := negb (bool_decide (kind = RegularTable)).

(** The statements of the library that ask the server only. *)
Definition asks (q : string) : bool := String.prefix "SELECT " q || String.prefix "EXPLAIN " q.

Class TableServer (M : Type) `{!MysqlClient M} := {
  tables : M -> gset (bool * string);
  tables_create q m m' kind name dist order select :
    mysql_query q m = (false, m') -> read_create q = Some (kind, name, dist, order, select) ->
    tables m' = {[ (is_result kind, name) ]} ∪ tables m;
  tables_drop q m m' res name :
    mysql_query q m = (false, m') -> read_drop q = Some (res, name) ->
    tables m' = tables m ∖ {[ (res, name) ]};
  tables_asks q m m' : mysql_query q m = (false, m') -> asks q = true -> tables m' = tables m;
  (** A statement that fails has an error number. *)
  query_errno q m m' : mysql_query q m = (true, m') -> mysql_errno m' <> 0
}.

Section tables.
Context {M : Type} `{!MysqlClient M, !TableServer M}.
Context (after_throw : S2Connection M -> S2Connection M).

Definition client_tables (cl : S2Client M) : gset (bool * string) :=
  tables (mysql (client_conn cl)).

Lemma stored_query_tables query on_null (c c' : S2Connection M) rows :
  asks query = true ->
  stored_query query on_null c = Done (rows, c') -> tables (mysql c') = tables (mysql c).
Proof using All.
  intros Ha E. unfold stored_query in E.
  destruct (mysql_query query (mysql c)) as [[] m] eqn:Eq; [done|].
  destruct (mysql_store_result m); [|done]. injection E as _ <-. cbn.
  by eapply tables_asks.
Qed.

Lemma GetParallelReadType_tables select source materialized dist order rt (c c' : S2Connection M) t :
  GetParallelReadType select source materialized dist order rt c = Done (t, c') ->
  tables (mysql c') = tables (mysql c).
Proof using All.
  unfold GetParallelReadType. intros E. case_decide; [by injection E as _ <-|].
  destruct source as [table|]; [|by injection E as _ <-].
  apply bind_Done in E as ([keys c1] & Ek & E).
  apply bind_Done in E as ([simple c2] & Es & E).
  assert (c' = c2) as -> by (by destruct (_ && simple); injection E as _ <-).
  unfold GetTableKeys in Ek. apply bind_Done in Ek as ([rows1 c3] & E1 & Ek).
  apply bind_Done in Ek as (keys' & _ & Ek). injection Ek as _ ->.
  unfold CheckExplainOperations in Es. apply bind_Done in Es as ([rows2 c4] & E2 & Es).
  apply bind_Done in Es as (ok & _ & Es). injection Es as _ ->.
  apply stored_query_tables in E1; [|reflexivity].
  apply stored_query_tables in E2; [|reflexivity]. congruence.
Qed.

Lemma ExecuteDDL_query query (c c' : S2Connection M) n :
  ExecuteDDL query c = Done (n, c') -> mysql_query query (mysql c) = (false, mysql c').
Proof using All.
  unfold ExecuteDDL. destruct (mysql_query query (mysql c)) as [[] m]; [done|].
  by intros [= _ <-].
Qed.

Lemma catch_s2_alloc_inr {A} (m : outcome exn A) a : catch_s2_alloc m = Done (inr a) -> m = Done a.
Proof using All. destruct m as [a'|[]| |]; cbn; congruence. Qed.

Lemma ExecuteDDL_error query (c : S2Connection M) e :
  catch_s2_alloc (ExecuteDDL query c) = Done (inl e) -> m_errorCode e <> 0.
Proof using All.
  unfold ExecuteDDL. destruct (mysql_query query (mysql c)) as [[] m] eqn:Eq; [|done].
  intros [= <-]. by eapply query_errno.
Qed.

(** The exceptions of a query whose result is stored, and of what reads it. *)
Lemma stored_query_error query on_null (c : S2Connection M) e :
  (forall m, m_errorCode (on_null m) <> 0) ->
  stored_query query on_null c = Throw e -> exists err, e = S2Exn err /\ m_errorCode err <> 0.
Proof using All.
  intros Hn E. unfold stored_query in E.
  destruct (mysql_query query (mysql c)) as [[] m] eqn:Eq.
  - injection E as <-. eexists. split; [done|]. by eapply query_errno.
  - destruct (mysql_store_result m); [done|]. injection E as <-. eexists. split; [done|]. apply Hn.
Qed.

Lemma KeyRows_no_throw rows keys e : KeyRows rows keys <> Throw e.
Proof using All.
  revert keys. induction rows as [|row rows IH]; intros keys; cbn; [done|].
  unfold cell. destruct (row !! 1%nat); [|done]. cbn. destruct (row !! 2%nat); [|done]. cbn.
  repeat case_match; done || apply IH.
Qed.

Lemma PlanRows_no_throw b rows e : PlanRows b rows <> Throw e.
Proof using All.
  revert b. induction rows as [|row rows IH]; intros b; cbn; [done|].
  unfold cell. destruct (row !! 0%nat) as [[v|]|]; [cbn|done..].
  case_match; [done|apply IH].
Qed.

Lemma GetParallelReadType_error select source materialized dist order rt (c : S2Connection M) e :
  catch_s2_alloc (GetParallelReadType select source materialized dist order rt c) = Done (inl e) ->
  m_errorCode e <> 0.
Proof using All.
  assert (forall e, GetParallelReadType select source materialized dist order rt c = Throw e ->
    exists err, e = S2Exn err /\ m_errorCode err <> 0) as Ht.
  { intros ex E. unfold GetParallelReadType in E. case_decide; [done|].
    destruct source as [table|]; [|done].
    apply bind_Throw in E as [E|([keys c1] & _ & E)].
    - unfold GetTableKeys in E. apply bind_Throw in E as [E|([rows c2] & _ & E)];
        [by eapply stored_query_error in E|].
      apply bind_Throw in E as [E|(k & _ & E)]; [by apply KeyRows_no_throw in E|done].
    - apply bind_Throw in E as [E|([simple c2] & _ & E)]; [|by destruct (_ && simple)].
      unfold CheckExplainOperations in E. apply bind_Throw in E as [E|([rows c2] & _ & E)];
        [by eapply stored_query_error in E|].
      apply bind_Throw in E as [E|(k & _ & E)]; [by apply PlanRows_no_throw in E|done]. }
  intros E. destruct (GetParallelReadType _ _ _ _ _ _ _) as [a|ex| |]; [done| |done..].
  destruct (Ht ex eq_refl) as (err & -> & Herr). by injection E as <-.
Qed.

Lemma GetParallelReadType_known select source materialized dist order rt (c c' : S2Connection M) t :
  GetParallelReadType select source materialized dist order rt c = Done (t, c') ->
  t <> ReadTypeUnknown.
Proof using All.
  unfold GetParallelReadType. intros E. case_decide; [by injection E as <- _|].
  destruct source as [table|]; [|injection E as <- _; by destruct materialized].
  apply bind_Done in E as ([keys c1] & Ek & E).
  apply bind_Done in E as ([simple c2] & Es & E).
  destruct (_ && simple); injection E as <- _; by destruct materialized.
Qed.

(** C13. A parallel read leaves no table behind: when [ParallelReadInit] leaves
    no error, the kind of read it returns makes [ParallelReadFree] remove
    exactly the table that it created, whatever kind that is; from a state
    that has the same tables as after the one to the state after the other,
    the tables of the database are those that were there at first, if the name
    was free.  A read of the table itself creates and removes nothing. *)
Theorem init_free_tables table select source key rt materialized dist order cb
    (cl cl1 cl2 cl3 : S2Client M) t w :
  ParallelReadInit after_throw table select source key rt materialized dist order cl = Done (t, cl1) ->
  client_error cl1 = no_error ->
  client_tables cl2 = client_tables cl1 ->
  ParallelReadFree after_throw table t cb cl2 = Done (cl3, w) -> client_error cl3 = no_error ->
  (forall res, (res, table) ∉ client_tables cl) ->
  client_tables cl3 = client_tables cl.
Proof using All.
  intros Ei He1 H21 Ef He3 Hfree. unfold ParallelReadInit in Ei.
  apply bind_Done in Ei as ([e|[t' c]] & Eg & Ei).
  { apply GetParallelReadType_error in Eg. injection Ei as _ <-.
    cbn in He1. by rewrite He1 in Eg. }
  apply catch_s2_alloc_inr in Eg. pose proof (GetParallelReadType_known _ _ _ _ _ _ _ _ _ Eg) as Hk.
  apply GetParallelReadType_tables in Eg. change (client_conn (clear_error cl)) with (client_conn cl) in Eg.
  unfold ParallelReadFree in Ef.
  destruct (created_kind t' materialized) as [kind|] eqn:Ek.
  - apply bind_Done in Ei as ([e|[n c1]] & Ec & Ei).
    { apply ExecuteDDL_error in Ec. injection Ei as _ <-. cbn in He1. by rewrite He1 in Ec. }
    injection Ei as -> <-. apply catch_s2_alloc_inr, ExecuteDDL_query in Ec.
    assert (kind <> AggResultTableMaterialized) as Hm
      by (intros ->; by rewrite decide_True in He1).
    rewrite decide_False in Ec by done.
    pose proof (tables_create _ _ _ _ _ _ _ _ Ec (read_create_query table select key kind dist order)) as Ht1.
    assert (exists dropQuery, drop_query table t = Some dropQuery
      /\ read_drop dropQuery = Some (is_result kind, table)) as (dq & Edq & Hdq).
    { destruct t; cbn [created_kind drop_query] in Ek |- *; [|done| |done].
      - eexists. split; [done|]. rewrite read_drop_result. by destruct materialized; simplify_eq.
      - injection Ek as <-. eexists. split; [done|]. apply read_drop_table. }
    rewrite Edq in Ef. apply bind_Done in Ef as ([e|[n2 c2]] & Ed & Ef).
    { apply ExecuteDDL_error in Ed. injection Ef as <- _. cbn in He3. by rewrite He3 in Ed. }
    injection Ef as <- _. apply catch_s2_alloc_inr, ExecuteDDL_query in Ed.
    pose proof (tables_drop _ _ _ _ _ Ed Hdq) as Ht2.
    unfold client_tables in *. cbn in *. rewrite Ht2, H21.
    specialize (Hfree (is_result kind)). rewrite Ht1, Eg.
    set_solver.
  - injection Ei as -> <-. assert (t = ReadTypeOriginalTable) as -> by (by destruct t).
    cbn in Ef. injection Ef as <- _. unfold client_tables in *. cbn in *. congruence.
Qed.
End tables.

(** ** What the caller hears of *)
Section reports.
Context `{Build} {M : Type} `{!MysqlClient M}.
Context (scan_double : string -> option Z) (uninit : Z).
Context (after_throw : S2Connection M -> S2Connection M).

Definition is_warning (r : report) : Prop := rep_severity r = S2C_SEVERITY_WARNING.
Definition is_error (r : report) : Prop := rep_severity r = S2C_SEVERITY_ERROR.

Lemma CreateReader_reports creds master queue query schema p size w (r : option (reader_entry M)) :
  CreateReader creds master queue query schema p size true = Done (w, r) ->
  match r with
  | Some _ => Forall is_warning w
  | None => Exists is_error w
  end.
Proof using Type.
  unfold CreateReader. intros E.
  apply bind_Done in E as ([err|c] & Ec & E).
  - cbn in E. apply bind_Done in E as ([err'|c] & Em & E).
    + injection E as <- <-. right. by left.
    + injection E as <- <-. by repeat constructor.
  - by injection E as <- <-.
Qed.

Lemma CreateReaders_reports choose parts aggs master nq pc schema size creds w
    (r : option S2ClientError + list (reader_entry M)) :
  CreateReaders choose parts aggs creds master nq pc schema size true = Done (w, r) ->
  match r with
  | inr _ => Forall is_warning w
  | inl None => Exists is_error w \/ exists p, choose p = Done (Refuse None)
  | inl (Some _) => True
  end.
Proof using Type.
  revert creds w r. induction parts as [|p parts IH]; intros creds w r E.
  { injection E as <- <-. constructor. }
  cbn [CreateReaders] in E.
  apply bind_Done in E as ([query|err] & Eq & E).
  2: { injection E as <- <-. destruct err; [done|]. right. by exists p. }
  apply bind_Done in E as (consumer & _ & E). apply bind_Done in E as (k & _ & E).
  apply bind_Done in E as ([w1 [rd|]] & Er & E); apply CreateReader_reports in Er.
  2: { injection E as <- <-. by left. }
  apply bind_Done in E as ([ws rest] & Es & E). apply IH in Es.
  injection E as <- <-. destruct rest as [[err|]|rest]; [done| |by apply Forall_app].
  destruct Es as [Hw|Hp]; [|by right]. left. apply Exists_app. by right.
Qed.

Lemma no_queue_reports {A} e (cl : S2Client M) w (q : option A) cl' w' :
  no_queue e true cl w = Done (q, cl', w') ->
  q = None /\ match e with Some _ => Exists is_error w' | None => w' = w end.
Proof using Type.
  unfold no_queue. destruct e as [e|]; cbn; intros [= <- <- <-]; [|done].
  split; [done|]. apply Exists_app. right. by left.
Qed.

(** What the making of a queue tells: with a queue, warnings only, and the
    error of the client is as before. *)
Definition told {A} (cl : S2Client M) (readType : ParallelReadType)
    (r : option A * S2Client M * list report) : Prop :=
  let '(q, cl', w) := r in
  match q with
  | Some _ => client_error cl' = client_error cl /\ Forall is_warning w
  | None => readType = ReadTypeUnknown \/ Exists is_error w
  end.

Lemma schema_and_aggregators_error select junk (cl : S2Client M) schema aggs cl1 :
  schema_and_aggregators select junk cl = Done (inr (schema, aggs, cl1)) ->
  client_error cl1 = client_error cl.
Proof using Type.
  unfold schema_and_aggregators. intros Es.
  apply bind_Done in Es as ([e|[s c]] & _ & Es); [done|].
  by apply bind_Done in Es as ([e|[a c']] & _ & [= _ _ <-]).
Qed.

Lemma CreateStreamingQueue_told select readType order cap size n junk table parallel prepared
    (cl : S2Client M) r :
  CreateStreamingQueue scan_double uninit after_throw select readType order cap size n junk table
    parallel prepared true cl = Done r -> told cl readType r.
Proof using Type.
  intros E. destruct r as [[q cl'] w]. unfold CreateStreamingQueue in E.
  apply bind_Done in E as (creds & _ & E). apply bind_Done in E as (parts & _ & E).
  apply bind_Done in E as ([queues pc] & _ & E). destruct parallel.
  - apply bind_Done in E as ([err|[[schema aggs] cl1]] & Es & E).
    { apply no_queue_reports in E as [-> E]. by right. }
    apply schema_and_aggregators_error in Es.
    apply bind_Done in E as ([w1 [err|rds]] & Er & E); apply CreateReaders_reports in Er.
    + apply no_queue_reports in E as [-> E]. destruct err as [err|]; [by right|]. subst w.
      destruct Er as [Er|[p Er]]; [by right|left].
      destruct table as [table|]; [|done]. destruct readType; cbn in Er; try done;
        by apply bind_Done in Er as (? & _ & ?).
    + by injection E as <- <- <-.
  - apply bind_Done in E as (k & _ & E).
    apply bind_Done in E as ([e|[e|[schema rd]]] & _ & E);
      [apply no_queue_reports in E as [-> E]; by right..|].
    by injection E as <- <- <-.
Qed.

Lemma CreateMultiPassQueue_told select readType order cap size n junk table source key
    (cl : S2Client M) r :
  CreateMultiPassQueue after_throw select readType order cap size n junk table source key true cl
    = Done r -> told cl readType r.
Proof using Type.
  intros E. destruct r as [[q cl'] w]. unfold CreateMultiPassQueue in E.
  apply bind_Done in E as (creds & _ & E). apply bind_Done in E as (parts & _ & E).
  apply bind_Done in E as ([queues pc] & _ & E).
  apply bind_Done in E as ([err|[[schema aggs] cl1]] & Es & E).
  { apply no_queue_reports in E as [-> E]. by right. }
  apply schema_and_aggregators_error in Es.
  apply bind_Done in E as ([keys cl2] & Ek & E).
  assert (client_error cl2 = client_error cl1) as Ek2.
  { destruct (decide _); [|by injection Ek as _ <-].
    by apply bind_Done in Ek as ([ks c] & _ & [= _ <-]). }
  apply bind_Done in E as ([w1 [err|rds]] & Er & E); apply CreateReaders_reports in Er.
  - apply no_queue_reports in E as [-> E]. destruct err as [err|]; [by right|]. subst w.
    destruct Er as [Er|[p Er]]; [by right|left].
    destruct readType; cbn in Er; try done; by apply bind_Done in Er as (? & _ & ?).
  - injection E as <- <- <-. cbn. split; [congruence|done].
Qed.

(** C24. No queue without a reason: [ParallelReadGetQueue] and [QueryGetQueue]
    give a queue and nothing worse than warnings, with the client's error
    cleared, or they give NULL and have told the caller of an error.  The one
    exception is a parallel read whose kind is [ReadTypeUnknown], which gives
    NULL silently. *)
Theorem queue_or_error {table select source key} readType {order size cap n junk} multi prepared
    query (cl cl' : S2Client M) q w :
  ParallelReadGetQueue scan_double uninit after_throw table select source key readType order size
    cap n junk multi true cl = Done (q, cl', w)
  \/ QueryGetQueue scan_double uninit after_throw query size cap junk prepared true cl
       = Done (q, cl', w) /\ readType <> ReadTypeUnknown ->
  match q with
  | Some _ => client_error cl' = no_error /\ Forall is_warning w
  | None => readType = ReadTypeUnknown \/ Exists is_error w
  end.
Proof using Type.
  assert (forall {A} rt (wrap : A -> any_queue) created,
    (forall r, created = Done r -> told (clear_error cl) rt r) ->
    got_queue after_throw wrap true (clear_error cl) created = Done (q, cl', w) ->
    match q with
    | Some _ => client_error cl' = no_error /\ Forall is_warning w
    | None => rt = ReadTypeUnknown \/ Exists is_error w
    end) as Hgot.
  { intros A rt wrap created Hc E. unfold got_queue in E.
    apply bind_Done in E as ([e|[[q1 cl1] w1]] & Ec & E).
    - injection E as <- <- <-. right. by left.
    - assert (created = Done (q1, cl1, w1)) as ->
        by (destruct created as [|[]| |]; cbn in Ec; congruence).
      specialize (Hc _ eq_refl). injection E as <- <- <-. by destruct q1. }
  intros [E|[E Hk]].
  - unfold ParallelReadGetQueue in E. destruct multi; (eapply Hgot; [|exact E]).
    + apply CreateMultiPassQueue_told.
    + apply CreateStreamingQueue_told.
  - unfold QueryGetQueue in E. destruct (cap <? 1).
    { injection E as <- <- <-. right. by left. }
    eapply (Hgot _ ReadTypeResultTable) in E; [|apply CreateStreamingQueue_told].
    destruct q; [done|]. destruct E; [done|by right].
Qed.

(** What the caller of [GetNextChunk] sees: true with the next chunk of its
    queue in its object and no error, or false, and then an error exactly if a
    reader has failed.  False without an error means that all the data of the
    consumer's readers has been handed out. *)
Theorem GetNextChunk_spec {Q} `{!ThreadSafeQueue Q} i p chunk (q : ChunkQueue M Q) c :
  0 <= i -> m_consumer_queues q !! Z.to_nat i = Some c ->
  match queue_Pop c with
  | Done (Some (got, c')) =>
      GetNextChunk i p chunk true q =
      Done (Some (true, partition_id got, set_variable_offset (variable_offset chunk) got, [],
                  set_consumer_queue (Z.to_nat i) c' q))
  | Throw (OutOfRange _) =>
      exists reports q', GetNextChunk i p chunk true q = Done (Some (false, p, chunk, reports, q'))
        /\ (reports = [] <-> Forall (fun e => m_errorCode (TableReader.GetError (e_reader e)) = 0)
                               (m_readers q))
        /\ Forall is_error reports
  | _ => True
  end.
Proof using Type.
  intros Hi Hc. unfold GetNextChunk, Get.
  rewrite (proj2 (at_index_lookup _ _ _) (conj Hi Hc)), Done_bind.
  destruct (queue_Pop c) as [[[got c']|]|[| |what|]| |]; try done.
  unfold readers_failed. rewrite add_errors.
  destruct (decide (filter has_failed (m_readers q) = [])) as [Hf|Hf]; cbn -[newline].
  - do 2 eexists. split; [done|]. by rewrite <- no_failures.
  - do 2 eexists. split; [done|]. rewrite <- no_failures. split; [done|]. by repeat constructor.
Qed.
End reports.

(** ** A server that is its tables *)
#[local] Existing Instance release_build.

Abbreviation table_set := (gset (bool * string)).

#[local] Instance table_client : MysqlClient table_set := {
  mysql_init := Some ∅;
  mysql_ssl _ m := m;
  mysql_real_connect _ _ _ _ _ m := (false, m);
  mysql_errno _ := 1;
  mysql_error _ := ""%string;
  mysql_stmt_errno _ := 1;
  mysql_stmt_error _ := ""%string;
  mysql_query q m :=
    (false,
     match read_create q with
     | Some (kind, name, _, _, _) => {[ (is_result kind, name) ]} ∪ m
     | None =>
         match read_drop q with
         | Some (res, name) => m ∖ {[ (res, name) ]}
         | None => m
         end
     end);
  mysql_store_result _ := Some [];
  mysql_affected_rows _ := 0;
  mysql_use_result _ := Some [];
  mysql_fetch_row m := (None, m);
  mysql_stmt_init m := (true, m);
  mysql_stmt_prepare _ m := (false, m);
  mysql_stmt_execute m := (false, m);
  mysql_stmt_field_count _ := 0%nat;
  mysql_stmt_fields _ := Some []; mysql_fetch_fields res _ := Some res;
  mysql_stmt_bind_result m := (false, m);
  mysql_stmt_fetch _ m := (MYSQL_NO_DATA, [], m);
  mysql_stmt_fetch_column _ _ m := (true, [], m);
  mysql_stmt_close m := m;
  mysql_close m := m;
  mysql_get_local_infile _ := Some true;
  mysql_load_text _ _ m := (false, m);
  mysql_load_avro _ _ m := (false, m)
}.

Lemma create_is_no_drop q x y : read_create q = Some x -> read_drop q = Some y -> False.
Proof.
  unfold read_create, read_drop. destruct q as [|c q]; [done|].
  destruct (lit "CREATE " (String c q)) as [s|] eqn:E; [|done].
  cbn in E. case_decide as Hc; [|done]. subst c. done.
Qed.

Lemma asks_neither q : asks q = true -> read_create q = None /\ read_drop q = None.
Proof.
  unfold asks. rewrite orb_true_iff.
  intros [Ha|Ha]; destruct q as [|c q]; try done; cbn [String.prefix] in Ha;
    destruct (ascii_dec _ c) as [<-|]; done.
Qed.

#[local] Instance table_server : TableServer table_set.
Proof.
  refine {| tables (m : table_set) := m |}.
  - intros q m m' kind name dist order select [= <-] ->. done.
  - intros q m m' res name [= <-] Hd. destruct (read_create q) as [x|] eqn:E.
    + by destruct (create_is_no_drop q x _ E Hd).
    + by rewrite Hd.
  - intros q m m' [= <-] Ha. by destruct (asks_neither q Ha) as [-> ->].
  - done.
Defined.

Definition table_worker : S2Client table_set :=
  mkClient 4 "8.1.4" 0 1
    (mkConnection (∅ : table_set) true None true None true
       (mkArgs "10.0.0.9" 3306 "db" (Some "root"%string) "" None)) no_error.

Lemma init_free_tables_witness :
  exists t cl1 cl3,
    ParallelReadInit (fun c => c) "r" "SELECT * FROM t" None "key" ReadTypeUnknown true
      ["a"%string] [] table_worker = Done (t, cl1)
    /\ client_tables cl1 = {[ (false, "r"%string) ]}
    /\ ParallelReadFree (fun c => c) "r" t true cl1 = Done (cl3, [])
    /\ client_tables cl3 = ∅.
Proof.
  assert (exists t cl1 cl3,
    ParallelReadInit (fun c => c) "r" "SELECT * FROM t" None "key" ReadTypeUnknown true
      ["a"%string] [] table_worker = Done (t, cl1)
    /\ client_error cl1 = no_error /\ client_tables cl1 = {[ (false, "r"%string) ]}
    /\ ParallelReadFree (fun c => c) "r" t true cl1 = Done (cl3, [])
    /\ client_error cl3 = no_error) as (t & cl1 & cl3 & E1 & He1 & Ht & E3 & He3).
  { do 3 eexists. repeat (split; [vm_compute; reflexivity|]). vm_compute. reflexivity. }
  exists t, cl1, cl3. split; [exact E1|]. split; [exact Ht|]. split; [exact E3|].
  change (∅ : table_set) with (client_tables table_worker).
  apply (init_free_tables (fun c => c) "r" "SELECT * FROM t" None "key" ReadTypeUnknown true
    ["a"%string] [] true table_worker cl1 cl1 cl3 t [] E1 He1 eq_refl E3 He3).
  intros res. apply not_elem_of_empty.
Defined.

(** A capacity of zero is an error that the caller hears of. *)
Lemma queue_or_error_witness :
  exists cl' w,
    QueryGetQueue no_double 0 (fun c => c) "SELECT 1" 1000 0 0 true true
      demo_worker = Done (None, cl', w)
    /\ Exists is_error w.
Proof.
  eexists _, _. split; [vm_compute; reflexivity|].
  destruct (queue_or_error no_double 0 (fun c => c) (table := "r") (select := "s")
    (source := "t") (key := "k") ReadTypeResultTable (order := []) (size := 1000) (cap := 0) (n := 1)
    (junk := 0) false true "SELECT 1" demo_worker _ None _ ltac:(right; split; [vm_compute; reflexivity|done]))
    as [E|E]; [done|exact E].
Defined.

Lemma GetNextChunk_spec_witness :
  exists reports q',
    GetNextChunk 0 9 (mkChunk [] 0 0 0 0 0 0) true demo_queue
    = Done (Some (false, 9, mkChunk [] 0 0 0 0 0 0, reports, q'))
    /\ reports <> [].
Proof.
  destruct (GetNextChunk_spec 0 9 (mkChunk [] 0 0 0 0 0 0) demo_queue
    (simple_queue_new 4 0) ltac:(lia) eq_refl) as (reports & q' & E & Hr & _).
  exists reports, q'. split; [exact E|]. rewrite Hr. by inversion 1.
Defined.
