(* ===== verification/ReadByKey.v ===== *)
(** Reading by key, end to end: [GetChunkRow] and [GetChunkMultipleRows] of a
    multi-pass queue give the caller the rows that [s2_client_extern.h] promises:
    the row of a number in a partition of a result table, the rows of the given
    values of the key column of a columnstore table or of the query itself.  The
    statements are read back by the recogniser [Sql.read_query]; the server has
    the rows of the source that the statements name. *)

From Stdlib Require Import Ascii String.
From stdpp Require Import base list strings numbers sorting tactics.
From stdpp Require Import options.
From S2P Require Import Prelude Schema Text SuperChunk ChunkWriter ChunkReader ChunkFormat.
From S2P Require Import ChunkRoundTrip Utils Sql TableReader Connection Client ChunkQueue.
From S2P Require Import BatchQueue ParallelRead.

(** ** The database *)

(** A row with its number in the partition, the values of its integer columns,
    the place of each of its values in the order of the values of the column,
    the values that the client library fetches, and the fields that a reader of
    a chunk gets for them. *)
Record stored_row := mkStored {
  row_number : Z;
  row_key : string -> option Z;
  row_rank : string -> Z;
  row_values : list (option bytes);
  row_fields : list field
}.

(** A table or the result of a query: the names of its columns, those among
    them that can be written without quotation marks, the order that its rows
    are read in when none is asked for, the rows of each partition. *)
Record stored_source := mkSource {
  column_names : list string;
  plain_names : list string;
  native_order : list string;
  partition_rows : Z -> list stored_row
}.

Definition has_key (key : string) (ids : list Z) (r : stored_row) : Prop :=
  match row_key r key with Some n => n ∈ ids | None => False end.
#[export] Instance has_key_dec key ids r : Decision (has_key key ids r).
Proof. unfold has_key. destruct (row_key r key); apply _. Defined.

(** In the order of a column. *)
Definition key_le (key : string) (r s : stored_row) : Prop :=
  match row_key r key, row_key s key with Some m, Some n => m <= n | _, _ => True end.

(** In the order of several columns. *)
Fixpoint lex_le (cols : list string) (r s : stored_row) : Prop :=
  match cols with
  | [] => True
  | c :: cols =>
      row_rank r c < row_rank s c \/ row_rank r c = row_rank s c /\ lex_le cols r s
  end.

(** What a clause selects from the rows of a partition. *)
Definition selected (tb : stored_source) (p : Z) (cl : row_clause) (res : list stored_row) : Prop :=
  let rows := partition_rows tb p in
  match cl with
  | AllRows => res ≡ₚ rows /\ StronglySorted (lex_le (native_order tb)) res
  | OrderBy cols => res ≡ₚ rows /\ StronglySorted (lex_le cols) res
  | RowIs n => res = filter (fun r => row_number r = n) rows
  | KeyIs key n | PlainKeyIs key n => res = filter (fun r => row_key r key = Some n) rows
  | KeyIn key ids order =>
      res ≡ₚ filter (has_key key ids) rows /\ StronglySorted (key_le order) res
  end.

(** A clause that the server understands: it knows the columns, and only a
    result table has row numbers. *)
Definition clause_known (src : from_source) (tb : stored_source) (cl : row_clause) : Prop :=
  match cl with
  | AllRows => True
  | OrderBy cols => cols ⊆ column_names tb
  | RowIs _ => exists table, src = FromResultTable table
  | KeyIs key _ => key ∈ column_names tb
  | PlainKeyIs key _ => key ∈ plain_names tb
  | KeyIn key _ order => key ∈ column_names tb /\ order ∈ column_names tb
  end.

Section by_key.
Context `{Build} {M : Type} `{!MysqlClient M, !StatementLaws M}.
Context (scan_double : string -> option Z) (uninit : Z).
Context (after_throw : S2Connection M -> S2Connection M).
Context (malloc : Z -> option bytes).

(** A statement over the source is answered with rows that it selects. *)
Definition serves_source (src : from_source) (tb : stored_source)
    (fields : list MYSQL_FIELD) (m : M) : Prop :=
  forall q p cl, read_query q = Some (src, p, cl) -> clause_known src tb cl ->
    exists res, selected tb p cl res /\ answers q fields (row_values <$> res) m.

Definition lengths_of (r : stored_row) : list Z := map fetched_length (row_values r).
Definition need_of (schema : RowSchema) (r : stored_row) : Z :=
  row_need (ColumnInfo schema) (lengths_of r).

(** The row has the columns of the schema and values that CAS takes. *)
Definition storable_row (schema : RowSchema) (r : stored_row) : Prop :=
  cells_ok (ColumnInfo schema) (row_values r) (lengths_of r)
  /\ fields_of (ColumnInfo schema) (row_values r) (lengths_of r) = Done (row_fields r)
  /\ Forall2 readable (ColumnInfo schema) (row_fields r).

(** A queue of [n] consumer threads, in a state in which thread [t] can read
    partition [p] of the source: it has a connection, or gets one now, to a
    server of the source. *)
Record key_queue (mp : MultiPassQueue M) (schema : RowSchema) (src : from_source)
    (tb : stored_source) (t p : Z) : Prop := {
  kq_schema : m_row_schema (chunk_queue mp) = Some schema;
  kq_cols : Forall col_ok (ColumnInfo schema) /\ ColumnInfo schema <> [];
  kq_version : version_known (queue_serverVersion mp);
  kq_thread : exists n, m_consumer_threads_num mp = Some n /\ 0 <= t < n;
  kq_consumer : exists conn, m_consumers mp !! Z.to_nat t = Some conn
    /\ (conn = None -> exists c, ConnectWithRetryMA
          (FillCredentials (m_aggregators (chunk_queue mp)) (s32 p) (m_credentials (chunk_queue mp)))
          (m_credentials (chunk_queue mp)) no_error = Done (Some c, no_error));
  kq_serves : exists fields, forall c, connection_of mp t p c -> serves_source src tb fields (mysql c);
  kq_rows : forall r, r ∈ partition_rows tb p -> storable_row schema r
}.

(** The call reads on the thread's connection. *)
Lemma with_consumer_reads mp schema src tb t p read :
  key_queue mp schema src tb t p ->
  exists c, connection_of mp t p c
    /\ match read c with
       | Done (inr (chunk, c')) =>
           exists mp', with_consumer after_throw p t read mp = Done (Some chunk, no_error, mp')
       | Throw (S2Exn e) | Done (inl e) =>
           exists mp', with_consumer after_throw p t read mp = Done (None, e, mp')
       | _ => True
       end.
Proof using Type.
  intros [_ _ _ (n & En & Ht) (conn & Ec & Hconn) _ _]. unfold with_consumer. rewrite En.
  rewrite (proj2 (Z.leb_gt _ _)) by lia.
  rewrite (proj2 (at_index_lookup _ _ _) (conj (proj1 Ht) Ec)), Done_bind.
  destruct conn as [c|].
  - rewrite Done_bind. cbn [m_errorCode no_error Z.eqb negb]. exists c. split; [by left|].
    destruct (read c) as [[e|[chunk c']]|[e| | |]| |]; cbn; eauto.
  - destruct (Hconn eq_refl) as (c & E). rewrite E, Done_bind.
    cbn [m_errorCode no_error Z.eqb negb]. exists c. split.
    + right. split; [done|]. by apply retry_connects in E as [_ ?].
    + destruct (read c) as [[e|[chunk c']]|[e| | |]| |]; cbn; eauto.
Qed.

(** *** One row *)

(** The row that [rowId] stands for: its number in a partition of a result
    table, the value of the key column elsewhere. *)
Definition is_row (rt : ParallelReadType) (key : string) (id : Z) (r : stored_row) : bool :=
  if bool_decide (rt = ReadTypeResultTable) then row_number r =? id
  else bool_decide (row_key r key = Some id).

(** Where the row is read from. *)
Definition row_source (rt : ParallelReadType) (table select : string) : from_source :=
  match rt with
  | ReadTypeResultTable => FromResultTable table
  | ReadTypeOriginalTable => FromQuery select
  | _ => FromTable table
  end.

(** A query that a read of kind [ReadTypeOriginalTable] can ask. *)
Definition query_fits (rt : ParallelReadType) (select : string) : Prop :=
  rt = ReadTypeOriginalTable -> select <> ""%string /\ closed_query select.

(** The key column is one of the source; over a query its name is one that
    needs no quotation marks, since the statement has none. *)
Definition key_fits (rt : ParallelReadType) (tb : stored_source) (key : string) : Prop :=
  match rt with
  | ReadTypeResultTable => True
  | ReadTypeOriginalTable => plain_name key = true /\ key ∈ plain_names tb
  | _ => key ∈ column_names tb
  end.

Lemma by_value key id r :
  row_key r key = Some id <-> Is_true (bool_decide (row_key r key = Some id)).
Proof using Type. by rewrite bool_decide_spec. Qed.

Lemma point_query_answered rt tb fields table select key p id version m :
  query_fits rt select -> key_fits rt tb key ->
  serves_source (row_source rt table select) tb fields m -> version_known version ->
  exists q, MakePointInTimeQuery table (query_param rt select) key p id
              (bool_decide (rt = ReadTypeResultTable)) version = Done q
    /\ answers q fields (row_values <$> filter (is_row rt key id) (partition_rows tb p)) m.
Proof using Type.
  intros Hfit Hkey Hdb Hv.
  assert (exists q cl, MakePointInTimeQuery table (query_param rt select) key p id
      (bool_decide (rt = ReadTypeResultTable)) version = Done q
    /\ read_query q = Some (row_source rt table select, p, cl)
    /\ clause_known (row_source rt table select) tb cl
    /\ forall res, selected tb p cl res ->
         res = filter (is_row rt key id) (partition_rows tb p)) as (q & cl & Eq & R & Hcl & Hres).
  2: { exists q. split; [done|]. destruct (Hdb _ _ _ R Hcl) as (res & ->%Hres & Ha). exact Ha. }
  destruct (point_in_time_query table key p id version Hv) as [(q1 & E1 & R1) (q2 & E2 & R2)].
  destruct rt; unfold query_param, row_source, is_row; cbn [bool_decide decide] in *.
  1: exists q1, (RowIs id); split_and!; [done..|by eexists|].
  2: destruct (Hfit eq_refl) as [Hne Hclosed], Hkey as [Hplain Hkey];
    destruct (point_in_subquery table select key p id false version Hne Hclosed Hplain) as (q3 & E3 & R3);
    exists q3, (PlainKeyIs key id); split_and!; [done..|].
  3, 4: exists q2, (KeyIs key id); split_and!; [done..|].
  all: intros res ->; apply list_filter_iff; intros r.
  - change (row_number r = id <-> Is_true (row_number r =? id)). by rewrite Is_true_true, Z.eqb_eq.
  - apply by_value.
  - apply by_value.
  - apply by_value.
Qed.

Lemma holds_MoveChunk schema out chunk rows :
  holds schema chunk rows -> holds schema (MoveChunk out chunk) rows.
Proof using Type.
  intros [Hcnt Hr]. rewrite MoveChunk_members. split; [done|]. intros err.
  destruct (Hr err) as (r & E). exists (moved (variable_offset out) r).
  change (ReadRows (Z.to_nat (row_count chunk))
    (moved (variable_offset out) (Reset_reader chunk schema err))
    = Done (Some rows, moved (variable_offset out) r)).
  rewrite ReadRows_moved. unfold moves. by rewrite E.
Qed.

Lemma storable_fine schema size r :
  storable_row schema r -> need_of schema r <= size ->
  row_fine schema size (with_lengths (row_values r)) (row_fields r).
Proof using Type. intros (Hc & Hf & Hr) Hn. by split_and!. Qed.

(** C6. [GetChunkRow] keeps its promise, for every kind of read: when the thread
    can read, the call gives the row of partition [p] that [rowId] stands for,
    the one with that number in a result table, the one with that value in the
    key column of a columnstore table or, when the original table is read, of
    the query (the first, should there be more): the caller's chunk is
    exactly as large as the row needs and a reader gets exactly that row from
    it, although [MoveChunk] does not copy the offset of its variable section.
    The key column is one of the source; when the original table is read, the
    statement selects from the query in parentheses and has the column's name
    without quotation marks, and the name has to be one that needs none
    ([key_fits]).  When there is no such row the call returns false, the
    caller's chunk is left alone, and the callback hears of an invalid
    argument. *)
Theorem row_by_key mp schema tb t p id out :
  let rt := m_read_type (chunk_queue mp) in
  let key := m_key_column (chunk_queue mp) in
  let select := m_select_query (chunk_queue mp) in
  let rows := partition_rows tb p in
  query_fits rt select -> key_fits rt tb key ->
  key_queue mp schema (row_source rt (m_result_table (chunk_queue mp)) select) tb t p ->
  0 <= p < 2 ^ 31 ->
  Forall (fun r => need_of schema r < 2 ^ 62 /\ exists ptr, malloc (need_of schema r) = Some ptr
                   /\ Z.of_nat (length ptr) = need_of schema r) rows ->
  match filter (is_row rt key id) rows with
  | r :: _ =>
      exists chunk mp',
        GetChunkRow scan_double uninit after_throw malloc p id t out true (MultiPass mp)
          = Done (Some (true, chunk, [], MultiPass mp'))
        /\ holds schema chunk [row_fields r] /\ m_size chunk = need_of schema r
        /\ partition_id chunk = p
  | [] =>
      exists e mp',
        GetChunkRow scan_double uninit after_throw malloc p id t out true (MultiPass mp)
          = Done (Some (false, out, [error_report e], MultiPass mp'))
        /\ m_errorCode e = S2C_ERROR_INV_ARG
  end.
Proof using Type.
  intros rt key select rows Hfit Hkey Hq Hp Hmalloc. pose proof Hq as [Hs [Hcols Hne] Hv _ _ (fields & Hdb) Hrows].
  unfold GetChunkRow, MultiGetSingleRow.
  set (read := fun c : S2Connection M => with_schema (chunk_queue mp) _).
  destruct (with_consumer_reads mp schema _ tb t p read Hq) as (c & Hc & Hread).
  specialize (Hdb c Hc).
  destruct (point_query_answered rt tb fields (m_result_table (chunk_queue mp))
    select key p id (queue_serverVersion mp) (mysql c) Hfit Hkey Hdb Hv)
    as (q & Eq & Ha). fold rows in Ha.
  destruct (Prepare_gives scan_double uninit q c fields _ Ha) as (c1 & Ep & Hg).
  destruct (filter (is_row rt key id) rows) as [|r rest] eqn:Ef.
  - assert (m_last_fetched_row c1 = None) as Hnone by (by inversion Hg).
    assert (exists msg, read c = Throw (S2Exn (mkS2ClientError S2C_ERROR_INV_ARG msg))) as (msg & Er).
    { unfold read, with_schema. rewrite Hs. unfold GetSingleRow. rewrite (wrap_s_small 32 eq_refl) by lia.
      fold rt key select. rewrite Eq, Done_bind, Ep, Done_bind. cbv beta iota zeta. rewrite Hnone. by eexists. }
    rewrite Er in Hread. destruct Hread as (mp' & ->). by do 2 eexists.
  - assert (r ∈ rows) as Hr by (eapply (list_elem_of_filter (is_row rt key id)); rewrite Ef; left).
    assert (m_last_fetched_row c1 = Some (with_lengths (row_values r))) as Hlast by (by inversion Hg).
    destruct (proj1 (list.Forall_forall _ _) Hmalloc r Hr) as [Hneed Hptr].
    edestruct (GetSingleRow_spec scan_double uninit malloc schema (m_result_table (chunk_queue mp))
      select key p id rt (queue_serverVersion mp) q c c1)
      as (chunk & c' & Er & Hsz & Hh & [Hpid _]); [by rewrite (wrap_s_small 32 eq_refl) by lia|done|
        exact Hlast|done|done|apply storable_fine; [by eapply Hrows|done]|done|done|].
    assert (read c = Done (inr (chunk, c'))) as Er'
      by (unfold read, with_schema; rewrite Hs; fold rt key select; by rewrite Er).
    rewrite Er' in Hread. destruct Hread as (mp' & ->).
    exists (MoveChunk out chunk), mp'. split; [done|]. split; [by apply holds_MoveChunk|done].
Qed.

(** *** Several rows *)
Lemma rows_need_total schema res :
  rows_need (ColumnInfo schema) (map with_lengths (row_values <$> res))
  = foldr (fun r n => need_of schema r + n) 0 res.
Proof using Type.
  induction res as [|r res IH]; [done|].
  change (need_of schema r + rows_need (ColumnInfo schema) (map with_lengths (row_values <$> res))
          = need_of schema r + foldr (fun r n => need_of schema r + n) 0 res). by rewrite IH.
Qed.

Lemma rows_fine schema size rows res :
  (forall r, r ∈ rows -> storable_row schema r) -> Forall (fun r => need_of schema r <= size) rows ->
  (forall r, r ∈ res -> r ∈ rows) ->
  Forall2 (row_fine schema size) (map with_lengths (row_values <$> res)) (row_fields <$> res).
Proof using Type.
  intros Hs Hn Hin. induction res as [|r res IH]; [constructor|].
  assert (r ∈ rows) as Hr by (apply Hin; left). cbn. constructor.
  - apply storable_fine; [by apply Hs|]. exact (proj1 (list.Forall_forall _ _) Hn r Hr).
  - apply IH. intros r' Hr'. apply Hin. by right.
Qed.

(** Where several rows are read from: also for a result table the statement
    names an ordinary table. *)
Definition rows_source (rt : ParallelReadType) (table select : string) : from_source :=
  if bool_decide (rt = ReadTypeOriginalTable) then FromQuery select else FromTable table.

Lemma keys_query_answered rt tb fields table select key p ids m :
  query_fits rt select -> key ∈ column_names tb -> ids <> [] ->
  serves_source (rows_source rt table select) tb fields m ->
  exists res, res ≡ₚ filter (has_key key ids) (partition_rows tb p)
    /\ StronglySorted (key_le key) res
    /\ answers (MakeRowIdFilterQuery table (query_param rt select) key p ids (Z.of_nat (length ids)))
         fields (row_values <$> res) m.
Proof using Type.
  intros Hfit Hkey Hids Hdb. destruct (row_id_filter_query table key p ids Hids) as [R1 R2].
  assert (read_query (MakeRowIdFilterQuery table (query_param rt select) key p ids (Z.of_nat (length ids)))
    = Some (rows_source rt table select, p, KeyIn key ids key)) as R.
  { unfold query_param, rows_source. destruct (decide (rt = ReadTypeOriginalTable)) as [Hrt|Hrt].
    - rewrite bool_decide_true by done. destruct (Hfit Hrt). by apply R2.
    - by rewrite bool_decide_false. }
  destruct (Hdb _ _ _ R) as (res & [Hp Hs] & Ha); [done|]. by exists res.
Qed.

End by_key.

(** ** A database of two rows *)
#[local] Existing Instance release_build.

Definition key_row (number k : Z) (row : list (option bytes) * list Z) (fs : list field) : stored_row :=
  mkStored number (fun key => if bool_decide (key = "k"%string) then Some k else None)
    (fun key => if bool_decide (key = "k"%string) then k else 0) row.1 fs.

(** Rows 0 and 1 of every partition, with the keys 10 and 20. *)
Definition key_rows : list stored_row :=
  [key_row 0 10 (nth 0 demo_rows ([], [])) (nth 0 demo_fields []);
   key_row 1 20 (nth 1 demo_rows ([], [])) (nth 1 demo_fields [])].
Definition key_source : stored_source := mkSource ["k"] ["k"] ["k"] (fun _ => key_rows).

Definition select_rows (rows : list stored_row) (cl : row_clause) : list stored_row :=
  match cl with
  | AllRows | OrderBy _ => rows
  | RowIs n => filter (fun r => row_number r = n) rows
  | KeyIs key n | PlainKeyIs key n => filter (fun r => row_key r key = Some n) rows
  | KeyIn key ids _ => filter (has_key key ids) rows
  end.

Definition key_answer (query : string) : list (list (option bytes)) :=
  match read_query query with
  | Some (_, p, cl) => row_values <$> select_rows (partition_rows key_source p) cl
  | None => []
  end.

#[local] Instance key_mysql : MysqlClient demo_client := {
  mysql_init := Some (mkDemo [] [] [] [] []);
  mysql_query query m := (false, m);
  mysql_stmt_prepare query m := (false, mkDemo [] [] demo_mysql_fields (key_answer query) []);
  mysql_ssl := mysql_ssl; mysql_real_connect := mysql_real_connect;
  mysql_errno := mysql_errno; mysql_error := mysql_error;
  mysql_stmt_errno := mysql_stmt_errno; mysql_stmt_error := mysql_stmt_error;
  mysql_store_result := mysql_store_result; mysql_affected_rows := mysql_affected_rows;
  mysql_use_result := mysql_use_result; mysql_fetch_row := mysql_fetch_row;
  mysql_stmt_init := mysql_stmt_init; mysql_stmt_execute := mysql_stmt_execute;
  mysql_stmt_field_count := mysql_stmt_field_count;
  mysql_stmt_fields := mysql_stmt_fields; mysql_fetch_fields := mysql_fetch_fields; mysql_stmt_bind_result := mysql_stmt_bind_result;
  mysql_stmt_fetch := mysql_stmt_fetch; mysql_stmt_fetch_column := mysql_stmt_fetch_column;
  mysql_stmt_close := mysql_stmt_close; mysql_close := mysql_close;
  mysql_get_local_infile := mysql_get_local_infile;
  mysql_load_text := mysql_load_text; mysql_load_avro := mysql_load_avro
}.

#[local] Instance key_laws : StatementLaws (MysqlClient0 := key_mysql) demo_client := {
  serves := demo_serves;
  current fields row rows m := demo_serves fields rows m /\ d_row m = row;
  serves_fields := serves_fields (MysqlClient0 := demo_mysql) (StatementLaws := demo_laws);
  serves_bind := serves_bind (MysqlClient0 := demo_mysql) (StatementLaws := demo_laws);
  serves_none := serves_none (MysqlClient0 := demo_mysql) (StatementLaws := demo_laws);
  serves_row := serves_row (MysqlClient0 := demo_mysql) (StatementLaws := demo_laws);
  fetch_column := fetch_column (MysqlClient0 := demo_mysql) (StatementLaws := demo_laws);
  current_serves := current_serves (MysqlClient0 := demo_mysql) (StatementLaws := demo_laws)
}.

Lemma key_rows_sorted key : StronglySorted (key_le key) key_rows.
Proof.
  repeat constructor. unfold key_le, key_rows, key_row. cbn. by destruct (bool_decide _); [lia|].
Qed.

Lemma key_rows_ordered cols : StronglySorted (lex_le cols) key_rows.
Proof.
  apply SSorted_cons; [repeat constructor|]. constructor; [|constructor].
  induction cols as [|c cols IH]; [done|]. cbn.
  case_bool_decide; [left; lia|by right].
Qed.

Lemma select_rows_selected p cl : selected key_source p cl (select_rows key_rows cl).
Proof.
  destruct cl as [| | | | |key ids order]; cbn [selected select_rows]; try done;
    try (split; [done|apply key_rows_ordered]).
  split; [done|]. eapply StronglySorted_sublist; [apply sublist_filter|apply key_rows_sorted].
Qed.

Lemma select_rows_length cl r : r ∈ select_rows key_rows cl -> length (row_values r) = 3%nat.
Proof.
  intros Hr. assert (r ∈ key_rows) as Hin.
  { destruct cl; cbn [select_rows] in Hr; try done; by apply list_elem_of_filter in Hr as [_ Hr]. }
  unfold key_rows in Hin. repeat (apply elem_of_cons in Hin as [->|Hin]; [reflexivity|]).
  by apply elem_of_nil in Hin.
Qed.

Lemma key_serves src m :
  serves_source (MysqlClient0 := key_mysql) src key_source demo_mysql_fields m.
Proof.
  intros q p cl Hq _. exists (select_rows key_rows cl). split; [apply select_rows_selected|].
  exists m. do 2 eexists. split; [done|]. split; [reflexivity|]. split; [reflexivity|]. split; [|done].
  split; [done|]. split; [by cbn; unfold key_answer; rewrite Hq|].
  apply list.Forall_forall. intros row (r & -> & Hr)%list_elem_of_fmap. by eapply select_rows_length.
Qed.

(** A queue of one thread that has a connection, for reading from "t" or from a
    query. *)
Definition key_multi (rt : ParallelReadType) : MultiPassQueue demo_client :=
  mkMulti (mkChunkQueue (Some demo_schema) false no_error "t" "SELECT (k), b FROM t WHERE c = ')'" "k" rt []
             (mkCredentials "" 0 "" "" "" None) [] [] [])
    (Some 1) [Some (demo_connection (mkDemo [] [] [] [] []))] "8.1.5".

Lemma key_rows_storable r : r ∈ key_rows -> storable_row demo_schema r.
Proof.
  intros Hr. unfold key_rows in Hr.
  repeat (apply elem_of_cons in Hr as [->|Hr];
    [split; [repeat constructor; cbn; lia|]; split; [by vm_compute|repeat constructor; by left]|]).
  by apply elem_of_nil in Hr.
Qed.

Lemma key_multi_queue rt src :
  key_queue (MysqlClient0 := key_mysql) (key_multi rt) demo_schema src key_source 0 3.
Proof.
  split; [done| | | | | |].
  - split; [|done]. repeat first [apply List.Forall_nil | apply List.Forall_cons]; unfold col_ok; cbn;
      first [done | lia].
  - apply version_known_815.
  - by exists 1.
  - eexists. split; [reflexivity|done].
  - exists demo_mysql_fields. intros c _. apply key_serves.
  - intros r Hr. by apply key_rows_storable.
Qed.

Definition key_malloc (n : Z) : option bytes := Some (replicate (Z.to_nat n) "000"%char).

Lemma key_needs : Forall (fun r => need_of demo_schema r < 2 ^ 62
    /\ exists ptr, key_malloc (need_of demo_schema r) = Some ptr
         /\ Z.of_nat (length ptr) = need_of demo_schema r) key_rows.
Proof.
  apply list.Forall_forall. intros r Hr. unfold key_rows in Hr.
  repeat (apply elem_of_cons in Hr as [->|Hr];
    [split; [by vm_compute|eexists; split; [reflexivity|by vm_compute]]|]).
  by apply elem_of_nil in Hr.
Qed.

Lemma key_query_fits rt : query_fits rt (m_select_query (chunk_queue (key_multi rt))).
Proof. intros _. split; [done|by vm_compute]. Qed.

(** The row of key 20, when the original table is read. *)
Lemma row_by_key_witness :
  exists chunk mp',
    GetChunkRow (MysqlClient0 := key_mysql) no_double 0 (fun c => c) key_malloc 3 20 0
      (mkChunk [] 0 0 0 0 0 0) true (MultiPass (key_multi ReadTypeOriginalTable))
      = Done (Some (true, chunk, [], MultiPass mp'))
    /\ holds demo_schema chunk [nth 1 demo_fields []].
Proof.
  destruct (row_by_key (MysqlClient0 := key_mysql) no_double 0 (fun c => c) key_malloc
    (key_multi ReadTypeOriginalTable) demo_schema key_source 0 3 20 (mkChunk [] 0 0 0 0 0 0)
    (key_query_fits _) (conj eq_refl (list_elem_of_here "k"%string [])) (key_multi_queue _ _)
    ltac:(lia) key_needs) as (chunk & mp' & E & Hh & _).
  exists chunk, mp'. split; [exact E|exact Hh].
Defined.

