(* ===== verification/QueryRead.v ===== *)
(** The whole of a parallel read: the controller starts it with
    [ParallelReadInit], which leaves a table or finds that the query can be read
    in place; every worker makes a queue for the kind of read that was chosen;
    the consumers take the chunks.  What they get is the result of the query,
    every row once, distributed and ordered as the caller has asked.  The server
    is a database that understands the statements of the library: the one that
    creates the table, those that read a partition of it, and those about the
    keys of a table and the plan of a query. *)

From Stdlib Require Import Ascii String.
From stdpp Require Import base list strings numbers sorting gmap relations tactics.
From stdpp Require Import options.
From S2P Require Import Prelude Schema Text ChunkFormat ChunkRoundTrip SuperChunk SimpleQueue.
From S2P Require Import BatchQueue Utils Sql TableReader Connection Client ChunkQueue Delivery.
From S2P Require Import BatchDelivery ReadTable ParallelRead ReadByKey.

(** ** The database *)

(** The table has the rows and the columns of a query. *)
Definition complete (total : Z) (rows : list stored_row) (columns : list string)
    (tb : stored_source) : Prop :=
  concat (partition_rows tb <$> seqZ 0 total) ≡ₚ rows /\ column_names tb = columns.

(** Rows that agree in the columns are in the same partition. *)
Definition colocated (total : Z) (columns : list string) (rows : Z -> list stored_row) : Prop :=
  forall p p' r r', 0 <= p < total -> 0 <= p' < total -> r ∈ rows p -> r' ∈ rows p' ->
    (forall c, c ∈ columns -> row_rank r c = row_rank r' c) -> p = p'.

Definition created_source (kind : TableType) (name : string) : from_source :=
  if decide (kind = RegularTable) then FromTable name else FromResultTable name.

(** The columns of an index, as [INFORMATION_SCHEMA.STATISTICS] has them. *)
Definition index_rows (kind : string) (columns : list string) : list (list (option string)) :=
  imap (fun i c => [Some (to_string (Z.of_nat (S i))); Some c; Some kind]) columns.

(** An operation of a plan that reads a partition in place. *)
Definition scan_line (line : string) : Prop :=
  exists op, op ∈ ["ColumnStoreScan"; "OrderedColumnStoreScan"; "ColumnStoreFilter"]%string
    /\ (line = op \/ exists rest, line = op +:+ " " +:+ rest).

(** [database_of m]: what a connection sees; [answer_rows]: the answer to a
    statement over a partition, in the order that the server has chosen;
    [reads_only t select]: the query reads rows of the table [t] alone, under the
    names of its columns.  The plan of a query has a line about the result table
    and below it the operations. *)
Class DatabaseServer (M : Type) `{!MysqlClient M, !StatementLaws M} := {
  total_partitions : Z;
  database_of : M -> from_source -> option stored_source;
  answer_rows : (from_source -> option stored_source) -> string -> list stored_row;
  source_fields : from_source -> list MYSQL_FIELD;
  result_rows : string -> list stored_row;
  result_columns : string -> list string;
  sort_columns : string -> list string;
  shard_columns : string -> list string;
  plan_notes : string -> list string;
  plan_head : string -> string;
  plan : string -> list string;
  reads_only : string -> string -> Prop;
  (** CREATE TABLE ... AS fills the table with the result of the query. *)
  server_creates q m m' kind name dist order select :
    mysql_query q m = (false, m') -> read_create q = Some (kind, name, dist, order, select) ->
    exists tb, database_of m' (created_source kind name) = Some tb
      /\ complete total_partitions (result_rows select) (result_columns select) tb
      /\ (dist <> [] -> colocated total_partitions dist (partition_rows tb))
      /\ (kind <> RegularTable -> native_order tb = order);
  (** The answer to a statement over a partition. *)
  server_answers q m src p cl tb :
    read_query q = Some (src, p, cl) -> database_of m src = Some tb -> clause_known src tb cl ->
    selected tb p cl (answer_rows (database_of m) q)
    /\ answers q (source_fields src) (row_values <$> answer_rows (database_of m) q) m;
  (** A query that only scans one table gives its rows where they are. *)
  server_scans m table select :
    reads_only table select -> Forall scan_line (plan select) ->
    exists tb, database_of m (FromQuery select) = Some tb
      /\ complete total_partitions (result_rows select) (result_columns select) tb
      /\ (shard_columns table <> [] ->
          colocated total_partitions (shard_columns table) (partition_rows tb));
  server_keys q m m' db table rows :
    mysql_query q m = (false, m') -> read_keys q = Some (db, table) ->
    mysql_store_result m' = Some rows ->
    rows = (index_rows "CLUSTERED COLUMNSTORE" (sort_columns table)
            ++ index_rows "SHARD" (shard_columns table))%list;
  server_plan select m m' rows :
    mysql_query ("EXPLAIN  CREATE RESULT TABLE tmp AS " +:+ select) m = (false, m') ->
    mysql_store_result m' = Some rows ->
    rows = (fun line => [Some line]) <$> (plan_notes select ++ plan_head select :: plan select)%list;
  plan_notes_other select : Forall (fun line => String.prefix "ResultTable" line = false) (plan_notes select);
  plan_head_first select : String.prefix "ResultTable" (plan_head select) = true
}.

(** ** The keys of the source table and the plan of the query *)
Section server.
Context `{Build} {M : Type} `{!MysqlClient M, !StatementLaws M, !DatabaseServer M, !TableServer M}.

Lemma KeyRows_index (kind : string) columns rest keys :
  KeyRows (index_rows kind columns ++ rest) keys =
  KeyRows rest (if same_prefix kind "CLUSTERED COLUMNSTORE"
                then mkTableKeys (shard_key keys) (sort_key keys ++ columns)
                else mkTableKeys (shard_key keys ++ columns) (sort_key keys)).
Proof using Type.
  assert (forall (f : nat -> string) keys,
    KeyRows (imap (fun i c => [Some (f i); Some c; Some kind]) columns ++ rest) keys =
    KeyRows rest (if same_prefix kind "CLUSTERED COLUMNSTORE"
                  then mkTableKeys (shard_key keys) (sort_key keys ++ columns)
                  else mkTableKeys (shard_key keys ++ columns) (sort_key keys))) as Hf.
  2: { apply (Hf (fun i => to_string (Z.of_nat (S i)))). }
  clear keys. induction columns as [|c columns IH]; intros f keys.
  - rewrite !app_nil_r. by destruct keys; destruct (same_prefix _ _).
  - cbn [imap app KeyRows cell lookup list_lookup]. rewrite !Done_bind. cbv beta iota zeta.
    change (imap _ columns) with (imap (fun i c => [Some (f (S i)); Some c; Some kind]) columns).
    rewrite (IH (fun i => f (S i))). by destruct (same_prefix _ _); cbn; rewrite <- app_assoc.
Qed.

Lemma GetTableKeys_stored table (c c' : S2Connection M) keys :
  GetTableKeys table c = Done (keys, c') ->
  keys = mkTableKeys (shard_columns table) (sort_columns table).
Proof using Type*.
  unfold GetTableKeys. intros E. apply bind_Done in E as ([rows c1] & Es & E).
  apply bind_Done in E as (k & Ek & E). injection E as -> <-.
  apply stored_query_rows in Es as (m & Eq & Er & ->).
  pose proof (server_keys _ _ _ _ _ _ Eq (table_keys_query _ _) Er) as ->.
  rewrite KeyRows_index in Ek. rewrite <- (app_nil_r (index_rows _ (shard_columns table))) in Ek.
  rewrite KeyRows_index in Ek. by injection Ek as <-.
Qed.

Lemma first_word_scan line : scan_operation (first_word line) = true -> scan_line line.
Proof using Type.
  assert (line = first_word line \/ exists rest, line = first_word line +:+ " " +:+ rest) as Hw.
  { induction line as [|c line IH]; [by left|]. cbn [first_word]. case_decide as Hc.
    - right. exists line. by rewrite Hc.
    - destruct IH as [E|(rest & E)]; [left; by rewrite <- E|right].
      exists rest. rewrite app_cons_s. by rewrite <- E. }
  unfold scan_operation. rewrite !orb_true_iff, !bool_decide_eq_true. intros Hop.
  exists (first_word line). split; [|done]. set_solver.
Qed.

Lemma PlanRows_checked lines b :
  PlanRows true ((fun line => [Some line]) <$> lines) = Done b ->
  b = true -> Forall scan_line lines.
Proof using Type.
  induction lines as [|line lines IH]; intros E Hb; [done|].
  cbn [fmap list_fmap PlanRows cell lookup list_lookup] in E. rewrite Done_bind in E.
  cbn [andb orb] in E. destruct (scan_operation (first_word line)) eqn:Es; cbn [negb] in E.
  - constructor; [by apply first_word_scan|]. by apply IH.
  - by injection E as <-.
Qed.

Lemma PlanRows_notes notes head lines :
  Forall (fun line => String.prefix "ResultTable" line = false) notes ->
  String.prefix "ResultTable" head = true ->
  PlanRows false ((fun line => [Some line]) <$> (notes ++ head :: lines)%list)
  = PlanRows true ((fun line => [Some line]) <$> lines).
Proof using Type.
  intros Hn Hh. induction Hn as [|line notes Hl _ IH].
  - cbn [app fmap list_fmap PlanRows cell lookup list_lookup]. rewrite Done_bind. cbn [andb orb].
    unfold starts_with. by rewrite Hh.
  - cbn [app fmap list_fmap PlanRows cell lookup list_lookup]. rewrite Done_bind. cbn [andb orb].
    unfold starts_with. by rewrite Hl.
Qed.

Lemma CheckExplainOperations_stored select (c c' : S2Connection M) :
  CheckExplainOperations select c = Done (true, c') -> Forall scan_line (plan select).
Proof using Type*.
  unfold CheckExplainOperations. intros E. apply bind_Done in E as ([rows c1] & Es & E).
  apply bind_Done in E as (ok & Ek & E). injection E as -> <-.
  apply stored_query_rows in Es as (m & Eq & Er & ->).
  pose proof (server_plan _ _ _ _ Eq Er) as ->.
  rewrite PlanRows_notes in Ek by (apply plan_notes_other || apply plan_head_first).
  by apply (PlanRows_checked _ _ Ek).
Qed.
End server.

(** ** What the controller leaves for the workers *)
Section start.
Context `{Build} {M : Type} `{!MysqlClient M, !StatementLaws M, !DatabaseServer M, !TableServer M}.

(** The source has the result of the query, distributed by [dist]; a result table
    is read in the order asked for, a query over a table whose sort key begins
    with that order. *)
Record source_ready (t : ParallelReadType) (source : option string) (select : string)
    (dist order : list string) (tb : stored_source) : Prop := {
  sr_complete : complete total_partitions (result_rows select) (result_columns select) tb;
  sr_dist : dist <> [] -> colocated total_partitions dist (partition_rows tb);
  sr_native : t = ReadTypeResultTable -> native_order tb = order;
  sr_sorted : t = ReadTypeOriginalTable ->
    exists table, source = Some table /\ order `prefix_of` sort_columns table
}.

Lemma colocated_more total (columns more : list string) rows :
  columns ⊆ more -> colocated total columns rows -> colocated total more rows.
Proof using Type. intros Hsub Hc p p' r r' Hp Hp' Hr Hr' E. eapply Hc; eauto. Qed.

Lemma original_table_chosen select source materialized dist order rt (c c' : S2Connection M) :
  rt <> ReadTypeOriginalTable ->
  GetParallelReadType select source materialized dist order rt c = Done (ReadTypeOriginalTable, c') ->
  exists table, source = Some table
    /\ in_place (mkTableKeys (shard_columns table) (sort_columns table)) dist order
    /\ Forall scan_line (plan select).
Proof using Type*.
  intros Hrt E. unfold GetParallelReadType in E. case_decide as Hu; [by injection E as -> _|].
  destruct source as [table|]; [|by destruct materialized].
  apply bind_Done in E as ([keys c1] & Ek & E). apply bind_Done in E as ([simple c2] & Es & E).
  exists table. split; [done|]. apply GetTableKeys_stored in Ek as ->.
  destruct (isColumnstoreScanOk _ dist order) eqn:Eo; [|by destruct materialized].
  destruct simple; [|by destruct materialized].
  apply isColumnstoreScanOk_spec in Eo. by apply CheckExplainOperations_stored in Es.
Qed.

Lemma init_source after_throw table select source key rt materialized dist order (cl cl1 : S2Client M) t :
  ParallelReadInit after_throw table select source key rt materialized dist order cl = Done (t, cl1) ->
  client_error cl1 = no_error -> rt <> ReadTypeOriginalTable ->
  (forall t', source = Some t' -> reads_only t' select) ->
  t <> ReadTypeUnknown
  /\ exists tb, database_of (mysql (client_conn cl1)) (row_source t table select) = Some tb
       /\ source_ready t source select dist order tb.
Proof using Type*.
  intros Ei He Hrt Hreads. unfold ParallelReadInit in Ei.
  apply bind_Done in Ei as ([e|[t' c]] & Eg & Ei).
  { apply (GetParallelReadType_error after_throw) in Eg. injection Ei as _ <-.
    cbn in He. by rewrite He in Eg. }
  apply (catch_s2_alloc_inr after_throw) in Eg.
  pose proof (GetParallelReadType_known after_throw _ _ _ _ _ _ _ _ _ Eg) as Hk.
  destruct (created_kind t' materialized) as [kind|] eqn:Ekind.
  - apply bind_Done in Ei as ([e|[n c1]] & Ec & Ei).
    { apply (ExecuteDDL_error after_throw) in Ec. injection Ei as _ <-. cbn in He. by rewrite He in Ec. }
    injection Ei as -> <-. apply (catch_s2_alloc_inr after_throw), (ExecuteDDL_query after_throw) in Ec.
    split; [done|].
    assert (kind <> AggResultTableMaterialized) as Hm
      by (intros ->; by rewrite decide_True in He).
    rewrite decide_False in Ec by done.
    destruct (server_creates _ _ _ _ _ _ _ _ Ec (read_create_query table select key kind dist order))
      as (tb & Hdb & Hcomplete & Hdist & Hnative).
    exists tb.
    assert (created_source kind table = row_source t table select
      /\ (t = ReadTypeResultTable -> kind <> RegularTable) /\ t <> ReadTypeOriginalTable)
      as (<- & Hres & Horig).
    { destruct t; try done; injection Ekind as <-; [destruct materialized|]; done. }
    split; [exact Hdb|]. split; [done|done| |done].
    intros Ht. pose proof (Hres Ht) as Hreg. by rewrite (Hnative Hreg), decide_False.
  - injection Ei as -> <-. assert (t = ReadTypeOriginalTable) as -> by (by destruct t).
    split; [done|].
    apply original_table_chosen in Eg as (table' & -> & [Hdist Hsort] & Hplan); [|done].
    destruct (server_scans (mysql c) table' select (Hreads _ eq_refl) Hplan)
      as (tb & Hdb & Hcomplete & Hshard).
    exists tb. split; [done|]. split; [done| |done|by exists table'].
    intros Hne. destruct Hdist as [?|[Hsh Hsub]]; [done|].
    eapply colocated_more; [exact Hsub|]. by apply Hshard.
Qed.

(** ** The statements of the readers *)

(** A statement that reads all rows, in an order that begins with [order]. *)
Definition reads_in_order (tb : stored_source) (order : list string) (cl : row_clause) : Prop :=
  match cl with
  | AllRows => order `prefix_of` native_order tb
  | OrderBy cols => order `prefix_of` cols /\ cols ⊆ column_names tb
  | _ => False
  end.

Lemma lex_le_prefix order cols r s : order `prefix_of` cols -> lex_le cols r s -> lex_le order r s.
Proof using Type.
  revert cols. induction order as [|c order IH]; intros cols Hp Hle; [done|].
  destruct cols as [|c' cols]; [by apply prefix_nil_not in Hp|].
  pose proof (prefix_cons_inv_1 _ _ _ _ Hp) as <-. apply prefix_cons_inv_2 in Hp.
  destruct Hle as [?|[? ?]]; [by left|right]. split; [done|]. by eapply IH.
Qed.

Lemma sorted_prefix order cols l :
  order `prefix_of` cols -> StronglySorted (lex_le cols) l -> StronglySorted (lex_le order) l.
Proof using Type.
  intros Hp. induction 1 as [|r l _ IH Hr]; constructor; [done|].
  eapply List.Forall_impl; [|exact Hr]. intros s. by apply lex_le_prefix.
Qed.

Lemma reads_in_order_selected src tb order p cl res :
  reads_in_order tb order cl ->
  clause_known src tb cl
  /\ (selected tb p cl res -> res ≡ₚ partition_rows tb p /\ StronglySorted (lex_le order) res).
Proof using Type.
  destruct cl as [|cols| | | |]; try done; cbn.
  - intros Hp. split; [done|]. intros [? Hs]. split; [done|]. by eapply sorted_prefix.
  - intros [Hp Hk]. split; [done|]. intros [? Hs]. split; [done|]. by eapply sorted_prefix.
Qed.

(** Each partition of the source is read by one statement, the same for every
    worker. *)
Definition statements_for (src : from_source) (tb : stored_source) (order : list string)
    (choices : (Z -> outcome exn query_choice) -> Prop) : Prop :=
  exists qs : Z -> string,
    (forall choose p, choices choose -> choose p = Done (UseQuery (qs p)))
    /\ forall p, exists cl, read_query (qs p) = Some (src, p, cl) /\ reads_in_order tb order cl.

Lemma statements_chosen src tb order (choices : (Z -> outcome exn query_choice) -> Prop) :
  (forall p, exists q cl, (forall choose, choices choose -> choose p = Done (UseQuery q))
     /\ read_query q = Some (src, p, cl) /\ reads_in_order tb order cl) ->
  (exists choose, choices choose) -> statements_for src tb order choices.
Proof using Type.
  intros Hq [choose0 H0].
  exists (fun p => match choose0 p with Done (UseQuery q) => q | _ => ""%string end).
  split.
  - intros choose p Hc. destruct (Hq p) as (q & cl & Hall & _). by rewrite (Hall _ H0), (Hall _ Hc).
  - intros p. destruct (Hq p) as (q & cl & Hall & Hr & Ho). rewrite (Hall _ H0). by exists cl.
Qed.

Lemma clause_of_columns tb order cols :
  order `prefix_of` cols -> cols ⊆ column_names tb ->
  reads_in_order tb order (ordered_by cols).
Proof using Type.
  unfold ordered_by. case_decide as Hc; [|done]. rewrite Hc. cbn.
  intros ->%prefix_nil_inv _. by apply prefix_nil.
Qed.
End start.

(** ** The queues of the workers *)
Section statements.
Context `{Build} {M : Type} `{!MysqlClient M, !StatementLaws M, !DatabaseServer M, !TableServer M}.

(** How a worker's streaming queue chooses its statements, whatever version of
    the server the worker knows. *)
Definition streaming_choices (select : string) (t : ParallelReadType) (order : list string)
    (table : string) (choose : Z -> outcome exn query_choice) : Prop :=
  exists v, version_known v /\ choose = streaming_choice select t order table v.

(** The same for a multi-pass queue and the keys of the table that the worker
    gets. *)
Definition multi_pass_choices (select : string) (t : ParallelReadType) (order : list string)
    (table source key : string) (choose : Z -> outcome exn query_choice) : Prop :=
  exists v keys, version_known v /\ keys_for t source keys
    /\ choose = multi_pass_choice select t order table key v (sort_key keys).

Lemma streaming_statements source dist t table select order tb :
  source_ready t source select dist order tb -> query_fits t select ->
  t = ReadTypeResultTable \/ t = ReadTypeOriginalTable -> order ⊆ result_columns select ->
  statements_for (row_source t table select) tb order (streaming_choices select t order table).
Proof using Type*.
  intros [[_ Hcols] _ Hnative _] Hfit Ht Hknown. apply statements_chosen.
  2: { exists (streaming_choice select t order table "8.1.5"), "8.1.5"%string.
       split; [apply version_known_815|done]. }
  intros p. destruct Ht as [->| ->].
  - destruct (result_table_query table p) as (q & Hr & Hq). exists q, AllRows.
    split; [|split; [exact Hr|by cbn; rewrite Hnative]].
    intros choose (v & Hv & ->). cbn. by rewrite (Hq v Hv).
  - destruct (Hfit eq_refl) as [_ Hclosed].
    destruct (original_table_query select None order p Hclosed) as (q & Hq & Hr).
    exists q. eexists. split; [|split; [exact Hr|]].
    + intros choose (v & _ & ->). unfold streaming_choice. by rewrite Hq.
    + apply clause_of_columns; [done|by rewrite Hcols].
Qed.

Lemma sort_key_columns_prefix order key : order `prefix_of` sort_key_columns order key.
Proof using Type. unfold sort_key_columns. case_decide; [done|by apply prefix_app_r]. Qed.

Lemma multi_pass_statements from_table source dist t table select order key tb :
  source_ready t from_table select dist order tb -> default source from_table = source ->
  query_fits t select -> t <> ReadTypeUnknown -> order ⊆ result_columns select ->
  (t = ReadTypeColumnStoreTable -> key ∈ result_columns select) ->
  (t = ReadTypeOriginalTable -> sort_columns source ⊆ result_columns select) ->
  (exists keys, keys_for t source keys) ->
  statements_for (row_source t table select) tb order
    (multi_pass_choices select t order table source key).
Proof using Type*.
  intros [[_ Hcols] _ Hnative Hsorted] Hsource Hfit Hu Hknown Hkey Hsort [keys0 Hk0].
  apply statements_chosen.
  2: { eexists _, "8.1.5"%string, keys0. split; [apply version_known_815|done]. }
  intros p. destruct t; [| | |done].
  - destruct (result_table_query table p) as (q & Hr & Hq). exists q, AllRows.
    split; [|split; [exact Hr|by cbn; rewrite Hnative]].
    intros choose (v & keys & Hv & _ & ->). cbn. by rewrite (Hq v Hv).
  - destruct (Hfit eq_refl) as [_ Hclosed].
    destruct (original_table_query select (Some (sort_columns source)) order p Hclosed) as (q & Hq & Hr).
    exists q. eexists. split; [|split; [exact Hr|]].
    + intros choose (v & keys & _ & (c & c' & ->%GetTableKeys_stored) & ->). unfold multi_pass_choice.
      cbn [sort_key]. by rewrite Hq.
    + destruct (Hsorted eq_refl) as (s & -> & Hprefix). cbn in Hsource. subst s.
      specialize (Hsort eq_refl).
      apply clause_of_columns; unfold original_order; destruct (sort_columns source); rewrite ?Hcols; done.
  - destruct (read_column_store_query table key order p) as [Hr _].
    eexists _, _. split; [|split; [exact Hr|]].
    + by intros choose (v & keys & _ & _ & ->).
    + split; [apply sort_key_columns_prefix|]. rewrite Hcols. unfold sort_key_columns.
      specialize (Hkey eq_refl). case_decide; [done|]. set_solver.
Qed.
End statements.

(** ** The read as a whole *)
Section query.
Context `{Build} {M : Type} `{!MysqlClient M, !StatementLaws M, !DatabaseServer M, !TableServer M}.
Context (scan_double : string -> option Z) (uninit : Z).
Context (after_throw : S2Connection M -> S2Connection M).
Context (schema : RowSchema) (size : Z) (malloc : Z -> Z -> option bytes).

(** [rows]: the rows of each partition, in the order that they are read in.
    Together they are the result of the query, in each partition they have the
    order asked for, and rows that agree in the columns that distribute the
    result are in the same partition. *)
Record result_delivered (select : string) (dist order : list string)
    (rows : Z -> list stored_row) : Prop := {
  rd_all : concat (rows <$> seqZ 0 total_partitions) ≡ₚ result_rows select;
  rd_ordered p : StronglySorted (lex_le order) (rows p);
  rd_distributed : dist <> [] -> colocated total_partitions dist rows
}.

(** The rows of the query can be stored in chunks of the schema and the size, and
    there is memory for these. *)
Record result_fits (select : string) : Prop := {
  rf_malloc p n : exists ptr, malloc p n = Some ptr /\ Z.of_nat (length ptr) = size;
  rf_size : size < 2 ^ 62;
  rf_cols : Forall col_ok (ColumnInfo schema) /\ ColumnInfo schema <> [];
  rf_rows r : r ∈ result_rows select -> storable_row schema r /\ need_of schema r <= size;
  rf_few : Z.of_nat (length (result_rows select)) < 2 ^ 31
}.

Lemma in_partition (rows : Z -> list stored_row) r p :
  0 <= p < total_partitions -> r ∈ rows p -> r ∈ concat (rows <$> seqZ 0 total_partitions).
Proof using Type.
  intros Hp Hr. apply list_elem_of_In, in_concat. exists (rows p).
  split; [|by apply list_elem_of_In]. apply list_elem_of_In, list_elem_of_fmap.
  exists p. split; [done|]. by apply elem_of_seqZ.
Qed.

Lemma concat_perm {A} (f g : Z -> list A) keys :
  (forall p, p ∈ keys -> f p ≡ₚ g p) -> concat (f <$> keys) ≡ₚ concat (g <$> keys).
Proof using Type.
  induction keys as [|k keys IH]; intros Hfg; [done|]. cbn. rewrite (Hfg k) by left.
  rewrite IH; [done|]. intros p Hp. apply Hfg. by right.
Qed.

Lemma fmap_concat {A B} (f : A -> B) (rows : Z -> list A) keys :
  concat ((fun p => f <$> rows p) <$> keys) = f <$> concat (rows <$> keys).
Proof using Type. induction keys as [|k keys IH]; [done|]. cbn. by rewrite IH, fmap_app. Qed.

(** The answers to the statements are the result, whatever connection they come
    over. *)
Lemma answers_of_statements (m0 : M) src tb t source select dist order choices :
  database_of m0 src = Some tb -> source_ready t source select dist order tb ->
  statements_for src tb order choices ->
  exists rows, result_delivered select dist order rows
    /\ (forall p, p < 0 \/ total_partitions <= p -> rows p = [])
    /\ forall choose p q m, choices choose -> 0 <= p < total_partitions ->
         choose p = Done (UseQuery q) -> database_of m = database_of m0 ->
         answers q (source_fields src) (row_values <$> rows p) m.
Proof using Type.
  intros Hdb [[Hall _] Hdist _ _] (qs & Hqs & Hread).
  exists (fun p => if decide (0 <= p < total_partitions) then answer_rows (database_of m0) (qs p) else []).
  assert (forall p, answer_rows (database_of m0) (qs p) ≡ₚ partition_rows tb p
    /\ StronglySorted (lex_le order) (answer_rows (database_of m0) (qs p))) as Hsel.
  { intros p. destruct (Hread p) as (cl & Hr & Ho).
    destruct (reads_in_order_selected src tb order p cl (answer_rows (database_of m0) (qs p)) Ho)
      as [Hk Hs]. apply Hs. by apply (server_answers _ m0 src p cl tb). }
  split; [|split].
  - split.
    + rewrite <- Hall. apply concat_perm. intros p Hp%elem_of_seqZ.
      rewrite decide_True by lia. apply Hsel.
    + intros p. case_decide; [apply Hsel|constructor].
    + intros Hne p p' r r' Hp Hp'. rewrite !decide_True by done.
      rewrite (proj1 (Hsel p)), (proj1 (Hsel p')). by apply Hdist.
  - intros p Hp. by rewrite decide_False by lia.
  - intros choose p q m Hc Hp Hq Hm. rewrite decide_True by done.
    rewrite (Hqs choose p Hc) in Hq. injection Hq as <-.
    destruct (Hread p) as (cl & Hr & Ho).
    destruct (reads_in_order_selected src tb order p cl [] Ho) as [Hk _].
    rewrite <- Hm in Hdb |- *. by eapply server_answers.
Qed.

Lemma result_storable select dist order rows :
  result_fits select -> result_delivered select dist order rows ->
  (forall p, p < 0 \/ total_partitions <= p -> rows p = []) ->
  storable (fun p => row_values <$> rows p) (fun p => row_fields <$> rows p) malloc schema size.
Proof using Type.
  intros [Hmalloc Hsize Hcols Hrows Hfew] [Hall _ _] Hnone.
  assert (forall p r, r ∈ rows p -> r ∈ result_rows select) as Hin.
  { intros p r Hr. rewrite <- Hall. apply in_partition with (p := p); [|done].
    destruct (decide (0 <= p < total_partitions)); [done|].
    rewrite Hnone in Hr by lia. by apply not_elem_of_nil in Hr. }
  split; [done..| |].
  - intros p. apply (rows_fine schema size (result_rows select)); [|apply Forall_forall|apply Hin];
      intros r Hr; [by apply Hrows|]. apply list_elem_of_In in Hr. by apply Hrows.
  - intros p. rewrite length_fmap. enough (length (rows p) <= length (result_rows select))%nat by lia.
    destruct (decide (0 <= p < total_partitions)) as [Hp|Hp].
    2: { rewrite Hnone by lia. cbn. lia. }
    rewrite <- Hall. assert (p ∈ seqZ 0 total_partitions) as Hin' by (apply elem_of_seqZ; lia).
    apply list_elem_of_split in Hin' as (l1 & l2 & ->).
    rewrite fmap_app, concat_app, length_app. cbn. rewrite length_app. lia.
Qed.

(** The worker [cl] of [nW] has made its queue with [ParallelReadGetQueue]. *)
Record worker_started (multi : bool) (table select source key : string) (t : ParallelReadType)
    (order : list string) (cap n junk : Z) (cb : bool) (nW w : Z) (cl : S2Client M)
    (queue : any_queue) : Prop := {
  ws_made : exists cl' reports,
    ParallelReadGetQueue scan_double uninit after_throw table select source key t order size cap n
      junk multi cb cl = Done (Some queue, cl', reports);
  ws_worker : worker_ok cl;
  ws_ids : m_workerId cl = w /\ m_numWorkers cl = nW /\ m_numPartitions cl = total_partitions;
  ws_aggregators : few_aggregators select junk cl;
  ws_version : version_known (m_serverVersion cl);
  ws_schema : match queue with
              | Streaming q => m_row_schema q
              | MultiPass mp => m_row_schema (chunk_queue mp)
              end = Some schema
}.

Lemma got_queue_made {A} (wrap : A -> any_queue) cb (cl : S2Client M) made queue cl' reports :
  got_queue after_throw wrap cb cl made = Done (Some queue, cl', reports) ->
  exists q, queue = wrap q /\ made = Done (Some q, cl', reports).
Proof using Type.
  unfold got_queue. intros E. apply bind_Done in E as ([e|[[q cl1] w]] & Em & E).
  { by destruct (failed after_throw e cb cl). }
  destruct q as [q|]; [|done]. injection E as <- <- <-. exists q. split; [done|].
  by destruct made as [?|[]| |]; simplify_eq/=.
Qed.

(** The caller has started the read, and the connections of the workers see what
    that has left. *)
Record read_started (table select : string) (source : option string) (key : string)
    (materialized : bool) (dist order : list string) (t : ParallelReadType) : Prop := {
  rs_init : exists rt cl0 cl1,
    ParallelReadInit after_throw table select source key rt materialized dist order cl0 = Done (t, cl1)
    /\ client_error cl1 = no_error /\ rt <> ReadTypeOriginalTable
    /\ forall creds c, Connect creds = Done c ->
         database_of (mysql c) = database_of (mysql (client_conn cl1));
  rs_reads t' : source = Some t' -> reads_only t' select;
  rs_query : query_fits t select;
  rs_order : order ⊆ result_columns select
}.

(** The rows of the partitions, and that every connection of a worker gives them
    for the statements that the worker's readers use. *)
Lemma started_rows table select source key materialized dist order t
    (choices : (Z -> outcome exn query_choice) -> Prop) :
  read_started table select source key materialized dist order t -> result_fits select ->
  (forall tb, t <> ReadTypeUnknown -> source_ready t source select dist order tb ->
     statements_for (row_source t table select) tb order choices) ->
  exists rows, result_delivered select dist order rows
    /\ let tab p := row_values <$> rows p in
       let vals p := row_fields <$> rows p in
       storable tab vals malloc schema size
       /\ (forall choose, choices choose ->
            serves_table (source_fields (row_source t table select)) tab total_partitions choose)
       /\ concat (vals <$> seqZ 0 total_partitions) ≡ₚ row_fields <$> result_rows select.
Proof using Type*.
  intros [(rt & cl0 & cl1 & Ei & He & Hrt & Hsees) Hreads Hfit Horder] Hfits Hstatements.
  destruct (init_source _ _ _ _ _ _ _ _ _ _ _ _ Ei He Hrt Hreads) as (Hu & tb & Hdb & Hready).
  destruct (answers_of_statements _ _ _ _ _ _ _ _ _ Hdb Hready (Hstatements tb Hu Hready))
    as (rows & Hres & Hnone & Hans).
  exists rows. split; [done|]. cbv zeta. split; [by eapply result_storable|]. split.
  - intros choose Hc p q creds c Hp Hq Hconn. by eapply Hans, Hsees.
  - rewrite fmap_concat. by rewrite (rd_all _ _ _ _ Hres).
Qed.

(** C1. A parallel read in one pass gives the result of its query, from one end to
    the other.  The controller calls [ParallelReadInit], which leaves a result
    table or finds that the query can be read in place; every worker calls
    [ParallelReadGetQueue] with the kind of read that was chosen.  There is an
    order of the rows in every partition, the one asked for, such that rows
    which agree in the columns that distribute the result share a partition, and
    the rows of all partitions are the result of the query; and with it: every
    reading thread ends without an error; in every run every consumer can go on
    to the end of data, and has then got exactly its partitions, the rows of each
    in that order; and when all consumers have come to the end, their chunks hold
    the result of the query, every row once. *)
Theorem streaming_query_result table select source key materialized dist order t source_name cap n
    junk cb nW cl q :
  read_started table select source key materialized dist order t ->
  t <> ReadTypeColumnStoreTable -> result_fits select ->
  0 < n < 2 ^ 31 -> 1 <= u32 cap -> 0 < nW ->
  (forall w, 0 <= w < nW -> worker_started false table select source_name key t order cap n junk cb
     nW w (cl w) (Streaming (q w))) ->
  exists rows, result_delivered select dist order rows
    /\ let table p := row_values <$> rows p in
       let values p := row_fields <$> rows p in
       (forall w e, 0 <= w < nW -> e ∈ m_readers (q w) ->
          exists rd', (thread scan_double uninit table malloc e).2 = Done rd' /\ m_error rd' = no_error)
       /\ forall d,
          (forall w c, 0 <= w < nW -> (c < Z.to_nat n)%nat ->
             streaming_run scan_double uninit table malloc (q w) c (d w c)) ->
          (forall w c, 0 <= w < nW -> (c < Z.to_nat n)%nat ->
             (exists d', rtc dstep (d w c) d' /\ ended d' = true)
             /\ (ended (d w c) = true -> gets values schema (cl w) n (Z.of_nat c) (received (d w c))))
          /\ ((forall w c, 0 <= w < nW -> (c < Z.to_nat n)%nat -> ended (d w c) = true) ->
              exists parts,
                Forall2 (holds schema) (all_chunks nW n (fun w c => received (d w c))) parts
                /\ concat parts ≡ₚ row_fields <$> result_rows select).
Proof using Type*.
  intros Hstart Ht Hfits Hn Hcap HnW Hws.
  destruct (started_rows _ _ _ _ _ _ _ _ (streaming_choices select t order table) Hstart Hfits)
    as (rows & Hres & Hstorable & Hserves & Hall).
  { intros tb Hu Hready. destruct Hstart. eapply streaming_statements; try done.
    destruct t; naive_solver. }
  exists rows. split; [done|]. cbv zeta in *. set (tab := fun p => row_values <$> rows p) in *.
  assert (forall w, 0 <= w < nW ->
    streaming_worker scan_double uninit (source_fields (row_source t table select)) tab schema size
      after_throw select t order cap n junk table true cb (clear_error (cl w)) (q w)
    /\ m_workerId (clear_error (cl w)) = w /\ m_numWorkers (clear_error (cl w)) = nW
    /\ m_numPartitions (clear_error (cl w)) = total_partitions) as Hworkers.
  { intros w Hw. destruct (Hws w Hw) as [(cl' & reports & Em) Hok (Hid & HW & HP) Haggs Hv Hschema].
    apply got_queue_made in Em as (q' & [= <-] & Em).
    split; [|done]. split; [by do 2 eexists|done|done|done|].
    change (m_numPartitions (clear_error (cl w))) with (m_numPartitions (cl w)). rewrite HP.
    apply Hserves. by exists (m_serverVersion (cl w)). }
  split.
  - intros w e Hw He. destruct (Hworkers w Hw) as [Hq _].
    edestruct (streaming_worker_readers scan_double uninit (source_fields (row_source t table select)) tab)
      as [Hrds _]; [exact Hstorable|exact Hq|exact Hn|].
    rewrite Forall_forall in Hrds. destruct (Hrds e) as (_ & rd' & _ & ?); [by apply list_elem_of_In|].
    by exists rd'.
  - intros d Hd.
    edestruct (streaming_reads_table scan_double uninit (source_fields (row_source t table select)) tab)
      as (_ & Hgets & Hhold); [exact Hstorable|exact Hn|exact Hcap|exact HnW|exact Hworkers|exact Hd|].
    split; [exact Hgets|]. intros Hends. destruct (Hhold Hends) as (parts & Hp & Hc).
    exists parts. split; [exact Hp|]. by rewrite Hc.
Qed.

Lemma keys_gotten table select source key t order cap n junk cb nW w cl mp :
  worker_started true table select source key t order cap n junk cb nW w cl (MultiPass mp) ->
  0 < n < 2 ^ 31 -> exists keys, keys_for t source keys.
Proof using Type.
  intros [(cl' & reports & Em) Hok _ Haggs _ _] Hn. apply got_queue_made in Em as (mp' & _ & Em).
  destruct (CreateMultiPassQueue_made _ _ _ _ _ _ _ _ _ _ _ _ _ _ _ _ Em Hok Hn Haggs)
    as (? & ? & ? & keys & Hkeys & _). by exists keys.
Qed.

(** C2. A parallel read in several passes gives the result of its query as well,
    from a table that is made for it, or from the source table if its sort key is
    among the columns of the query; and in a later pass a consumer that gets its
    chunks by their numbers, in whatever order it asks for them, can go on until
    it has all of its partitions again. *)
Theorem multi_pass_query_result table select source key materialized dist order t source_name cap n
    junk cb nW cl mp :
  read_started table select source key materialized dist order t ->
  default source_name source = source_name -> result_fits select ->
  (t = ReadTypeColumnStoreTable -> key ∈ result_columns select) ->
  (t = ReadTypeOriginalTable -> sort_columns source_name ⊆ result_columns select) ->
  0 < n < 2 ^ 31 -> 0 < s32 cap -> 0 < nW ->
  (forall w, 0 <= w < nW -> worker_started true table select source_name key t order cap n junk cb
     nW w (cl w) (MultiPass (mp w))) ->
  exists rows, result_delivered select dist order rows
    /\ let table p := row_values <$> rows p in
       let values p := row_fields <$> rows p in
       (forall w e, 0 <= w < nW -> e ∈ m_readers (chunk_queue (mp w)) ->
          exists rd', (thread scan_double uninit table malloc e).2 = Done rd' /\ m_error rd' = no_error)
       /\ (forall d,
          (forall w c, 0 <= w < nW -> (c < Z.to_nat n)%nat ->
             multi_pass_run scan_double uninit table malloc Popping (mp w) c (d w c)) ->
          (forall w c, 0 <= w < nW -> (c < Z.to_nat n)%nat ->
             (exists d', rtc (bstep Popping) (d w c) d' /\ b_ended d' = true)
             /\ (b_ended (d w c) = true -> gets values schema (cl w) n (Z.of_nat c) (b_taken (d w c))))
          /\ ((forall w c, 0 <= w < nW -> (c < Z.to_nat n)%nat -> b_ended (d w c) = true) ->
              exists parts,
                Forall2 (holds schema) (all_chunks nW n (fun w c => b_taken (d w c))) parts
                /\ concat parts ≡ₚ row_fields <$> result_rows select))
       /\ forall w c d1, 0 <= w < nW ->
            multi_pass_run scan_double uninit table malloc Getting (mp w) c d1 ->
            exists d' l, rtc (bstep Getting) d1 d' /\ b_taken d' ≡ₚ l
              /\ gets values schema (cl w) n (Z.of_nat c) l.
Proof using Type*.
  intros Hstart Hsource Hfits Hkey Hsort Hn Hcap HnW Hws.
  destruct (started_rows _ _ _ _ _ _ _ _ (multi_pass_choices select t order table source_name key)
    Hstart Hfits) as (rows & Hres & Hstorable & Hserves & Hall).
  { intros tb Hu Hready. destruct Hstart. eapply multi_pass_statements; try done.
    by apply (keys_gotten _ _ _ _ _ _ _ _ _ _ _ _ _ _ (Hws 0 ltac:(lia))). }
  exists rows. split; [done|]. cbv zeta in *. set (tab := fun p => row_values <$> rows p) in *.
  assert (forall w, 0 <= w < nW ->
    multi_pass_worker (source_fields (row_source t table select)) tab schema size
      after_throw select t order cap n junk table source_name key cb (clear_error (cl w)) (mp w)
    /\ m_workerId (clear_error (cl w)) = w /\ m_numWorkers (clear_error (cl w)) = nW
    /\ m_numPartitions (clear_error (cl w)) = total_partitions) as Hworkers.
  { intros w Hw. destruct (Hws w Hw) as [(cl' & reports & Em) Hok (Hid & HW & HP) Haggs Hv Hschema].
    apply got_queue_made in Em as (mp' & [= <-] & Em).
    split; [|done]. split; [by do 2 eexists|done|done|done|].
    change (m_numPartitions (clear_error (cl w))) with (m_numPartitions (cl w)). rewrite HP.
    intros keys Hk. apply Hserves. by exists (m_serverVersion (cl w)), keys. }
  split_and!.
  - intros w e Hw He. destruct (Hworkers w Hw) as [Hq _].
    edestruct (multi_pass_worker_readers scan_double uninit (source_fields (row_source t table select)) tab)
      as [Hrds _]; [exact Hstorable|exact Hq|exact Hn|].
    rewrite Forall_forall in Hrds. destruct (Hrds e) as (_ & rd' & _ & ?); [by apply list_elem_of_In|].
    by exists rd'.
  - intros d Hd.
    edestruct (multi_pass_reads_table scan_double uninit (source_fields (row_source t table select)) tab)
      as (Hgets & Hhold & _); [exact Hstorable|exact Hn|exact Hcap|exact HnW|exact Hworkers|exact Hd|].
    split; [exact Hgets|]. intros Hends. destruct (Hhold Hends) as (parts & Hp & Hc).
    exists parts. split; [exact Hp|]. by rewrite Hc.
  - intros w c d1 Hw Hd.
    edestruct (multi_pass_gets_again scan_double uninit (source_fields (row_source t table select)) tab)
      as (d' & l & Hrun); [exact Hstorable|exact (proj1 (Hworkers w Hw))|exact Hn|exact Hcap|exact Hd|].
    by exists d', l.
Qed.
End query.

(** ** A table of three partitions

    The rows are (7, 'hi') and (8, NULL) in partition 0 and (9, 'x') in partition
    2; the server makes the result table "r" and no other. *)
#[local] Existing Instance release_build.

Definition query_row (number i : Z) (t : option string) : stored_row :=
  mkStored number (fun c => if bool_decide (c = "i"%string) then Some i else None)
    (fun c => if bool_decide (c = "i"%string) then i else 0)
    [Some (le_encode 4 i); String.list_ascii_of_string <$> t]
    [FNum i; match t with Some t => FBytes (String.list_ascii_of_string t) | None => FNull end].

Definition query_rows (p : Z) : list stored_row :=
  if p =? 0 then [query_row 0 7 (Some "hi"%string); query_row 1 8 None]
  else if p =? 2 then [query_row 0 9 (Some "x"%string)] else [].
Definition query_source : stored_source := mkSource ["i"; "t"] ["i"; "t"] ["i"] query_rows.

Definition query_answer (q : string) : list stored_row :=
  match read_query q with
  | Some (_, p, cl) => select_rows (query_rows p) cl
  | None => []
  end.

Definition query_text_answer (q : string) : list (list (option string)) :=
  match read_keys q with
  | Some _ => (index_rows "CLUSTERED COLUMNSTORE" ["i"] ++ index_rows "SHARD" ["i"])%list
  | None =>
      if String.prefix "EXPLAIN  CREATE" q
      then [[Some "ResultTable tmp"%string]; [Some "ColumnStoreScan db.t"%string]]
      else demo_text_answer q
  end.

(** The statements that the server refuses. *)
Definition query_refused (q : string) : bool :=
  match read_create q with
  | Some (kind, name, dist, order, _) =>
      negb (bool_decide (kind = AggResultTable /\ name = "r"%string /\ dist = ["i"%string]
                         /\ order = ["i"%string]))
  | None => bool_decide (is_Some (read_drop q))
  end.

#[local] Instance query_mysql : MysqlClient demo_client := {
  mysql_init := Some (mkDemo [] [] [] [] []);
  mysql_errno _ := 1;
  mysql_query q m := (query_refused q, mkDemo [] (query_text_answer q) [] [] []);
  mysql_stmt_prepare q m := (false, mkDemo [] [] demo_table_fields (row_values <$> query_answer q) []);
  mysql_ssl := mysql_ssl; mysql_real_connect := mysql_real_connect; mysql_error := mysql_error;
  mysql_stmt_errno := mysql_stmt_errno; mysql_stmt_error := mysql_stmt_error;
  mysql_store_result := mysql_store_result; mysql_affected_rows := mysql_affected_rows;
  mysql_use_result := mysql_use_result; mysql_fetch_row := mysql_fetch_row;
  mysql_stmt_init := mysql_stmt_init; mysql_stmt_execute := mysql_stmt_execute;
  mysql_stmt_field_count := mysql_stmt_field_count;
  mysql_stmt_fields := mysql_stmt_fields; mysql_fetch_fields := mysql_fetch_fields; mysql_stmt_bind_result := mysql_stmt_bind_result;
  mysql_stmt_fetch := mysql_stmt_fetch; mysql_stmt_fetch_column := mysql_stmt_fetch_column;
  mysql_stmt_close := mysql_stmt_close; mysql_close := mysql_close;
  mysql_get_local_infile := mysql_get_local_infile;
  mysql_load_text := mysql_load_text; mysql_load_avro := mysql_load_avro
}.

#[local] Instance query_laws : StatementLaws (MysqlClient0 := query_mysql) demo_client := {
  serves := demo_serves;
  current fields row rows m := demo_serves fields rows m /\ d_row m = row;
  serves_fields := serves_fields (MysqlClient0 := demo_mysql) (StatementLaws := demo_laws);
  serves_bind := serves_bind (MysqlClient0 := demo_mysql) (StatementLaws := demo_laws);
  serves_none := serves_none (MysqlClient0 := demo_mysql) (StatementLaws := demo_laws);
  serves_row := serves_row (MysqlClient0 := demo_mysql) (StatementLaws := demo_laws);
  fetch_column := fetch_column (MysqlClient0 := demo_mysql) (StatementLaws := demo_laws);
  current_serves := current_serves (MysqlClient0 := demo_mysql) (StatementLaws := demo_laws)
}.

Definition query_tables : gset (bool * string) := {[ (true, "r"%string) ]}.

#[local] Instance query_table_server : TableServer (MysqlClient0 := query_mysql) demo_client.
Proof.
  refine (Build_TableServer _ query_mysql (fun _ => query_tables) _ _ _ _).
  - intros q m m' kind name dist order select [= Hr _] Hc. unfold query_refused in Hr. rewrite Hc in Hr.
    apply negb_false_iff, bool_decide_eq_true in Hr as (-> & -> & _). unfold query_tables. set_solver.
  - intros q m m' res name [= Hr _] Hd. unfold query_refused in Hr.
    destruct (read_create q) as [x|] eqn:Ec; [by destruct (create_is_no_drop q x _ Ec Hd)|].
    rewrite Hd in Hr. by apply bool_decide_eq_false in Hr as [].
  - done.
  - done.
Defined.

Lemma query_rows_bound p r : r ∈ query_rows p -> length (row_values r) = 2%nat.
Proof.
  unfold query_rows. intros Hr. repeat case_match;
    repeat (apply elem_of_cons in Hr as [->|Hr]; [done|]); by apply elem_of_nil in Hr.
Qed.

Lemma query_rows_ordered p cols : StronglySorted (lex_le cols) (query_rows p).
Proof.
  unfold query_rows. repeat case_match; repeat constructor.
  induction cols as [|c cols IH]; [done|]. cbn. case_bool_decide; [left; lia|by right].
Qed.

Lemma query_rows_by_key p key : StronglySorted (key_le key) (query_rows p).
Proof.
  unfold query_rows. repeat case_match; repeat constructor. unfold key_le. cbn.
  by case_bool_decide; [lia|].
Qed.

Lemma query_selected p cl : selected query_source p cl (select_rows (query_rows p) cl).
Proof.
  destruct cl as [| | | | |key ids order]; cbn [selected select_rows]; try done;
    try (split; [done|apply query_rows_ordered]).
  split; [done|]. eapply StronglySorted_sublist; [apply sublist_filter|apply query_rows_by_key].
Qed.

Lemma query_colocated : colocated 3 ["i"%string] query_rows.
Proof.
  assert (forall p r, r ∈ query_rows p -> p = if row_rank r "i" =? 9 then 2 else 0) as Hp.
  { unfold query_rows. intros p r Hr. destruct (Z.eqb_spec p 0) as [->|]; [|destruct (Z.eqb_spec p 2) as [->|]];
      repeat (apply elem_of_cons in Hr as [->|Hr]; [by vm_compute|]); by apply elem_of_nil in Hr. }
  intros p p' r r' _ _ Hr Hr' Hsame. rewrite (Hp p r Hr), (Hp p' r' Hr').
  by rewrite (Hsame "i"%string (list_elem_of_here _ _)).
Qed.

Lemma query_select_length p cl r : r ∈ select_rows (query_rows p) cl -> length (row_values r) = 2%nat.
Proof.
  intros Hr. apply (query_rows_bound p).
  destruct cl; cbn [select_rows] in Hr; try done; by apply list_elem_of_filter in Hr as [_ Hr].
Qed.

#[local] Instance query_server :
  DatabaseServer (MysqlClient0 := query_mysql) (StatementLaws0 := query_laws) demo_client.
Proof.
  refine (Build_DatabaseServer _ query_mysql query_laws 3 (fun _ _ => Some query_source)
    (fun _ => query_answer) (fun _ => demo_table_fields) (fun _ => concat (query_rows <$> seqZ 0 3))
    (fun _ => ["i"; "t"]%string) (fun _ => ["i"%string]) (fun _ => ["i"%string]) (fun _ => [])
    (fun _ => "ResultTable tmp"%string) (fun _ => ["ColumnStoreScan db.t"%string])
    (fun _ _ => True) _ _ _ _ _ _ _).
  - intros q m m' kind name dist order select [= Hr _] Hc. unfold query_refused in Hr. rewrite Hc in Hr.
    apply negb_false_iff, bool_decide_eq_true in Hr as (-> & -> & -> & ->).
    exists query_source. split; [done|]. split; [done|]. split; [|done]. intros _. apply query_colocated.
  - intros q m src p cl tb Hq [= <-] _. unfold query_answer. rewrite Hq. split; [apply query_selected|].
    exists m. do 2 eexists. split; [done|]. split; [reflexivity|]. split; [reflexivity|]. split; [|done].
    split; [done|]. split; [cbn; unfold query_answer; by rewrite Hq|].
    apply list.Forall_forall. intros row (r & -> & Hr)%list_elem_of_fmap. by eapply query_select_length.
  - intros m table select _ _. exists query_source. split; [done|]. split; [done|]. intros _.
    apply query_colocated.
  - intros q m m' db table rows [= _ <-] Hk [= <-]. cbn [d_result]. unfold query_text_answer. by rewrite Hk.
  - intros select m m' rows [= <-] [= <-]. reflexivity.
  - intros _. constructor.
  - intros _. reflexivity.
Defined.

(** The read: two workers of two consumers each. *)
Lemma query_started : read_started (MysqlClient0 := query_mysql) (StatementLaws0 := query_laws)
  (fun c => c) "r" "SELECT * FROM t" None "i" false ["i"%string] ["i"%string] ReadTypeResultTable.
Proof.
  split.
  - exists ReadTypeUnknown, (demo_table_worker 0). eexists.
    split; [vm_compute; reflexivity|]. split; [done|]. by split.
  - done.
  - done.
  - intros c Hc. set_solver.
Qed.

Lemma query_fit : result_fits (MysqlClient0 := query_mysql) (StatementLaws0 := query_laws)
  demo_table_schema 40 demo_buffers "SELECT * FROM t".
Proof.
  destruct demo_storable as [Hm Hs Hc _ _]. split; [done..| |done].
  assert (forall p r, r ∈ query_rows p -> storable_row demo_table_schema r /\ need_of demo_table_schema r <= 40) as Hr.
  { unfold query_rows. intros p r Hr. destruct (Z.eqb_spec p 0) as [->|]; [|destruct (Z.eqb_spec p 2) as [->|]];
      repeat (apply elem_of_cons in Hr as [->|Hr];
        [split; [split; [repeat constructor; cbn; lia|]; split; [by vm_compute|repeat constructor; by left]|by vm_compute]|]);
      by apply elem_of_nil in Hr. }
  intros r (l & Hl & Hin)%list_elem_of_In%in_concat.
  apply list_elem_of_In, list_elem_of_fmap in Hl as (p & -> & _). apply (Hr p). by apply list_elem_of_In.
Qed.

Definition query_streaming (w : Z) : option (any_queue (M := demo_client)) :=
  match ParallelReadGetQueue (MysqlClient0 := query_mysql) no_double 0 (fun c => c) "r"
          "SELECT * FROM t" "" "i" ReadTypeResultTable ["i"%string] 40 4 2 0 false true (demo_table_worker w) with
  | Done (q, _, _) => q
  | _ => None
  end.
Definition query_streaming_queue (w : Z) : ChunkQueue demo_client chunks :=
  match query_streaming w with Some (Streaming q) => q | _ => demo_streaming_queue w end.

Lemma query_worker w :
  0 <= w < 2 ->
  worker_started (MysqlClient0 := query_mysql) (StatementLaws0 := query_laws) no_double 0 (fun c => c)
    demo_table_schema 40 false "r" "SELECT * FROM t" "" "i" ReadTypeResultTable ["i"%string] 4 2 0 true
    2 w (demo_table_worker w) (Streaming (query_streaming_queue w)).
Proof.
  intros Hw. assert (version_known "8.1.4") as Hv.
  { exists (8, 1, 4), ""%string. split_and!; [reflexivity| |reflexivity..].
    split_and!; vm_compute; split; congruence. }
  assert (few_aggregators (MysqlClient0 := query_mysql) "SELECT * FROM t" 0 (demo_table_worker w)) as Ha.
  { intros schema c aggs c' Ee Ea. vm_compute in Ee. injection Ee as <- <-.
    vm_compute in Ea. by injection Ea as <- <-. }
  split; [| |done|done|done|];
    destruct (demo_two w Hw) as [->| ->];
    [do 2 eexists; vm_compute; reflexivity|do 2 eexists; vm_compute; reflexivity|by vm_compute..].
Qed.

Lemma streaming_query_result_witness :
  exists rows, result_delivered (MysqlClient0 := query_mysql) (StatementLaws0 := query_laws)
      "SELECT * FROM t" ["i"%string] ["i"%string] rows
    /\ forall d, (forall w c, 0 <= w < 2 -> (c < 2)%nat ->
         streaming_run (MysqlClient0 := query_mysql) no_double 0 (fun p => row_values <$> rows p)
           demo_buffers (query_streaming_queue w) c (d w c)) ->
       (forall w c, 0 <= w < 2 -> (c < 2)%nat -> ended (d w c) = true) ->
       exists parts,
         Forall2 (holds demo_table_schema) (all_chunks 2 2 (fun w c => received (d w c))) parts
         /\ concat parts ≡ₚ concat (demo_values <$> [0; 1; 2]).
Proof.
  destruct (streaming_query_result (MysqlClient0 := query_mysql) (StatementLaws0 := query_laws)
    no_double 0 (fun c => c) demo_table_schema 40 demo_buffers "r" "SELECT * FROM t" None "i" false
    ["i"%string] ["i"%string] ReadTypeResultTable "" 4 2 0 true 2 demo_table_worker query_streaming_queue
    query_started ltac:(done) query_fit ltac:(lia) ltac:(by vm_compute) ltac:(lia) query_worker)
    as (rows & Hres & _ & Hruns).
  exists rows. split; [exact Hres|]. intros d Hd Hends. exact (proj2 (Hruns d Hd) Hends).
Defined.

Definition query_multi_pass (w : Z) : option (any_queue (M := demo_client)) :=
  match ParallelReadGetQueue (MysqlClient0 := query_mysql) no_double 0 (fun c => c) "r"
          "SELECT * FROM t" "t" "i" ReadTypeOriginalTable ["i"%string] 40 4 2 0 true true (demo_table_worker w) with
  | Done (q, _, _) => q
  | _ => None
  end.
Definition query_multi_pass_queue (w : Z) : MultiPassQueue demo_client :=
  match query_multi_pass w with Some (MultiPass mp) => mp | _ => demo_multi_pass_queue w end.

(** The query reads the table "t" in place. *)
Lemma query_started_in_place :
  read_started (MysqlClient0 := query_mysql) (StatementLaws0 := query_laws) (fun c => c) "r"
    "SELECT * FROM t" (Some "t"%string) "i" true ["i"%string] ["i"%string] ReadTypeOriginalTable.
Proof.
  split.
  - exists ReadTypeUnknown, (demo_table_worker 0). eexists.
    split; [vm_compute; reflexivity|]. split; [done|]. by split.
  - done.
  - intros _. split; [done|]. by vm_compute.
  - intros c Hc. set_solver.
Qed.

Lemma query_multi_pass_worker w :
  0 <= w < 2 ->
  worker_started (MysqlClient0 := query_mysql) (StatementLaws0 := query_laws) no_double 0 (fun c => c)
    demo_table_schema 40 true "r" "SELECT * FROM t" "t" "i" ReadTypeOriginalTable ["i"%string] 4 2 0 true
    2 w (demo_table_worker w) (MultiPass (query_multi_pass_queue w)).
Proof.
  intros Hw. destruct (query_worker w Hw) as [_ Hok Hid Ha Hv _].
  split; [|done..|]; destruct (demo_two w Hw) as [->| ->];
    [do 2 eexists; vm_compute; reflexivity|do 2 eexists; vm_compute; reflexivity|by vm_compute..].
Qed.

Lemma multi_pass_query_result_witness :
  exists rows, result_delivered (MysqlClient0 := query_mysql) (StatementLaws0 := query_laws)
      "SELECT * FROM t" ["i"%string] ["i"%string] rows
    /\ forall w c d1, 0 <= w < 2 ->
         multi_pass_run (MysqlClient0 := query_mysql) no_double 0 (fun p => row_values <$> rows p)
           demo_buffers Getting (query_multi_pass_queue w) c d1 ->
         exists d' l, rtc (bstep Getting) d1 d' /\ b_taken d' ≡ₚ l
           /\ gets (fun p => row_fields <$> rows p) demo_table_schema (demo_table_worker w) 2 (Z.of_nat c) l.
Proof.
  destruct (multi_pass_query_result (MysqlClient0 := query_mysql) (StatementLaws0 := query_laws)
    no_double 0 (fun c => c) demo_table_schema 40 demo_buffers "r" "SELECT * FROM t" (Some "t"%string) "i" true
    ["i"%string] ["i"%string] ReadTypeOriginalTable "t" 4 2 0 true 2 demo_table_worker query_multi_pass_queue
    query_started_in_place eq_refl query_fit ltac:(done) ltac:(intros _ x Hx; set_solver) ltac:(lia)
    ltac:(by vm_compute) ltac:(lia) query_multi_pass_worker)
    as (rows & Hres & _ & _ & Hget).
  exists rows. split; [exact Hres|exact Hget].
Defined.
