(* ===== verification/Teardown.v ===== *)
(** Freeing a queue: the destructors of [StreamingQueue] and [MultiPassQueue],
    which stop the readers, free the chunks that nobody took, and close the
    connections of the readers when their threads have been joined. *)

From Stdlib Require Import Ascii String.
From stdpp Require Import base list strings numbers tactics.
From stdpp Require Import options.
From S2P Require Import Prelude Schema Text SuperChunk SimpleQueue BatchQueue Utils.
From S2P Require Import TableReader Connection Client ChunkQueue ParallelRead.

Section teardown.
Context `{Build} {M : Type} `{!MysqlClient M}.

(** The connections of the readers, in the state that [~S2Connection] leaves;
    [~ResultTableReader] joins the thread and then destroys its connection. *)
Definition end_readers {Q} (q : ChunkQueue M Q) : list (S2Connection M) :=
  (fun e => destroy (m_conn (e_reader e))) <$> m_readers q.

(** Some more chunks are freed before those of [r]. *)
Definition also {C A} (freed : list C) (r : option (list C * A)) : option (list C * A) :=
  option_map (fun '(l, a) => ((freed ++ l)%list, a)) r.

(** [while (Chunk *c = Get (consumer_id, err))]: the chunks that are freed;
    [None]: the loop waits for a reader.  [fuel] bounds its rounds. *)
Fixpoint drain (fuel : nat) (consumer_id : Z) (q : ChunkQueue M chunks)
    : outcome exn (option (list Chunk * ChunkQueue M chunks)) :=
  match fuel with
  | O => Undef "the queue does not end"
  | S fuel =>
      r ← Get consumer_id q;
      match r with
      | None => Done None
      | Some (None, _, q) => Done (Some ([], q))
      | Some (Some c, _, q) =>
          r ← drain fuel consumer_id q;
          Done (also [c] r)
      end
  end.

(** The loop over the consumers of a streaming queue. *)
Fixpoint drain_queues (fuel : nat) (consumer_ids : list Z) (q : ChunkQueue M chunks)
    : outcome exn (option (list Chunk * ChunkQueue M chunks)) :=
  match consumer_ids with
  | [] => Done (Some ([], q))
  | consumer_id :: ids =>
      r ← (if negb (m_error_before_read q) then drain fuel consumer_id q
           else Done (Some ([], q)));
      match r with
      | None => Done None
      | Some (freed, q) =>
          r ← drain_queues fuel ids q;
          Done (also freed r)
      end
  end.

(** [~StreamingQueue]: the chunks it frees and the closed connections. *)
Definition DestroyStreamingQueue (fuel : nat) (q : ChunkQueue M chunks)
    : outcome exn (option (list Chunk * list (S2Connection M))) :=
  let q := StopReaders q in
  r ← drain_queues fuel (seqZ 0 (Z.of_nat (length (m_consumer_queues q)))) q;
  Done (option_map (fun '(freed, q) => (freed, end_readers q)) r).

(** The loop over the consumers of a multi-pass queue. *)
Fixpoint free_queues (fuel : nat) (queues : list batch_queue)
    : outcome exn (option (list (option Chunk))) :=
  match queues with
  | [] => Done (Some [])
  | c :: queues =>
      r ← FreeBatchData_loop fuel [] c;
      match r with
      | LoopNoFuel => Undef "the queue does not end"
      | LoopWaits => Done None
      | LoopEnds freed _ =>
          r ← free_queues fuel queues;
          Done (option_map (app freed) r)
      end
  end.

(** [~MultiPassQueue]: the chunks it frees, the connections of the consumer
    threads and those of the readers. *)
Definition DestroyMultiPassQueue (fuel : nat) (mp : MultiPassQueue M)
    : outcome exn (option (list (option Chunk) * list (S2Connection M) * list (S2Connection M))) :=
  let q := StopReaders (chunk_queue mp) in
  r ← (if negb (m_error_before_read q) then free_queues fuel (m_consumer_queues q)
       else Done (Some []));
  Done (option_map
          (fun freed => (freed, destroy <$> omap (fun c => c) (m_consumers mp), end_readers q)) r).

(** [ChunkQueueFree] *)
Definition ChunkQueueFree (fuel : nat) (q : any_queue (M := M))
    : outcome exn (option (list (option Chunk) * list (S2Connection M))) :=
  match q with
  | Streaming q =>
      r ← DestroyStreamingQueue fuel q; Done (option_map (fun '(freed, closed) => (map Some freed, closed)) r)
  | MultiPass mp =>
      r ← DestroyMultiPassQueue fuel mp;
      Done (option_map (fun '(freed, consumers, readers) => (freed, (consumers ++ readers)%list)) r)
  end.

(** ** What they free *)

(** The readers are told to stop; their connections are closed, with the
    statement first exactly if all of them had ended. *)
Definition closed_readers {Q} (q : ChunkQueue M Q) : list (S2Connection M) :=
  let ended := forallb (fun e => negb (m_active (e_reader e))) (m_readers q) in
  (fun e => let c := m_conn (e_reader e) in destroy (if ended then c else DiscardStmtClose c))
    <$> m_readers q.

Lemma end_stopped {Q} (q : ChunkQueue M Q) : end_readers (StopReaders q) = closed_readers q.
Proof using Type.
  unfold end_readers, closed_readers, StopReaders. cbn. rewrite <- list_fmap_compose.
  apply list_fmap_ext. intros i e _. unfold compose, stop_reader. by case_match.
Qed.

(** Taking from one queue leaves the others and the readers alone. *)
Record same_but (i : nat) (q q' : ChunkQueue M chunks) : Prop := {
  sb_readers : m_readers q' = m_readers q;
  sb_before : m_error_before_read q' = m_error_before_read q;
  sb_others j : j <> i -> m_consumer_queues q' !! j = m_consumer_queues q !! j
}.

Lemma readers_failed_queue (q : ChunkQueue M chunks) i : same_but i q (snd (readers_failed q)).
Proof using Type. unfold readers_failed. by destruct (negb _). Qed.

Lemma drain_spec fuel i c (q : ChunkQueue M chunks) :
  m_consumer_queues q !! i = Some c -> SimpleQueue.m_producers c = 0 ->
  (length (SimpleQueue.m_queue c) < fuel)%nat ->
  exists q', drain fuel (Z.of_nat i) q = Done (Some (SimpleQueue.m_queue c, q'))
    /\ same_but i q q'.
Proof using Type.
  revert q c. induction fuel as [|fuel IH]; intros q c Hc Hp Hl; [lia|].
  cbn [drain]. unfold Get.
  rewrite (proj2 (at_index_lookup _ (Z.of_nat i) c)) by (split; [lia|by rewrite Nat2Z.id]).
  rewrite Done_bind. cbn [queue_Pop simple_thread_safe]. unfold simple_Pop, SimpleQueue.Pop.
  destruct (SimpleQueue.m_queue c) as [|x rest] eqn:Eq.
  - rewrite Hp. cbn. pose proof (readers_failed_queue q i) as Hs.
    destruct (readers_failed q) as [err q']. cbn in Hs |- *. by exists q'.
  - rewrite Nat2Z.id, Done_bind. set (c' := mkSimpleQueue _ _ _).
    destruct (IH (set_consumer_queue i c' q) c') as (q' & E & []); [|done|cbn in Hl |- *; lia|].
    { cbn. apply list_lookup_insert_eq. by eapply lookup_lt_Some. }
    rewrite E, Done_bind. cbn [also option_map app]. exists q'. split; [done|].
    split; [done..|]. intros j Hj. rewrite sb_others0 by done. cbn.
    by rewrite list_lookup_insert_ne.
Qed.

Lemma drain_queues_spec fuel (q : ChunkQueue M chunks) cs : forall (k : nat),
  m_error_before_read q = false ->
  (forall j c, cs !! j = Some c -> m_consumer_queues q !! (k + j)%nat = Some c) ->
  Forall (fun c => SimpleQueue.m_producers c = 0
                   /\ (length (SimpleQueue.m_queue c) < fuel)%nat) cs ->
  exists q', drain_queues fuel (seqZ (Z.of_nat k) (Z.of_nat (length cs))) q
      = Done (Some (concat (SimpleQueue.m_queue <$> cs), q'))
    /\ m_readers q' = m_readers q.
Proof using Type.
  revert q. induction cs as [|c cs IH]; intros q k Hb Hq Hall; [by exists q|].
  apply Forall_cons_1 in Hall as [[Hp Hl] Hall].
  rewrite seqZ_cons by (cbn; lia). cbn [drain_queues]. rewrite Hb. cbn [negb].
  destruct (drain_spec fuel k c q) as (q1 & E1 & []); [|done..|].
  { rewrite <- (Hq 0%nat c) by done. f_equal. lia. }
  rewrite E1, Done_bind.
  replace (Z.succ (Z.of_nat k)) with (Z.of_nat (k + 1)) by lia.
  replace (Z.pred (Z.of_nat (length (c :: cs)))) with (Z.of_nat (length cs)) by (cbn; lia).
  destruct (IH q1 (k + 1)%nat) as (q' & E & Hr); [congruence| |done|].
  { intros j c1 Hj. rewrite sb_others0 by lia. rewrite <- (Hq (Datatypes.S j) c1) by done.
    f_equal. lia. }
  rewrite E, Done_bind. exists q'. split; [done|congruence].
Qed.

Lemma free_queues_spec fuel queues ys :
  Forall2 (fun c y => exists popping bs ps, producers_ok bs ps /\ reachable popping bs ps y
             /\ c = queue y /\ m_activeProducers c = 0 /\ (length (pushed y) < fuel)%nat)
    queues ys ->
  exists freed, free_queues fuel queues = Done (Some (Some <$> freed))
    /\ concat (pushed <$> ys) ≡ₚ concat (delivered <$> ys) ++ freed.
Proof using Type.
  induction 1 as [|c y queues ys (popping & bs & ps & Hok & Hr & -> & Ha & Hf) _ (l & E & Hl)].
  { by exists []. }
  destruct (reachable_sys_inv _ _ _ _ Hok Hr) as [Hi Hall _ _].
  assert (length (pending (queue y)) < fuel)%nat as Hf'.
  { rewrite Hall, length_app in Hf. lia. }
  destruct (FreeBatchData_loop_spec fuel [] _ _ Hi Ha Hf') as (l1 & q & E1 & Hl1).
  exists (l1 ++ l). cbn [free_queues]. rewrite E1, Done_bind, E, Done_bind. cbn.
  split; [by rewrite fmap_app|]. rewrite Hl, Hall, Hl1. solve_Permutation.
Qed.

(** C29. Freeing a queue loses nothing and frees nothing twice, once the readers
    have ended: the destructor of a streaming queue does not wait and frees
    exactly the chunks that are in the queues of its consumers; that of a
    multi-pass queue frees exactly the chunks that were pushed and never given
    out.  The connections are closed, and a statement is closed before its
    connection unless a reader was stopped in the middle of its result. *)
Theorem ChunkQueueFree_frees fuel :
  (forall q : ChunkQueue M chunks,
     m_error_before_read q = false ->
     Forall (fun c => SimpleQueue.m_producers c = 0
                      /\ (length (SimpleQueue.m_queue c) < fuel)%nat) (m_consumer_queues q) ->
     ChunkQueueFree fuel (Streaming q)
     = Done (Some (Some <$> concat (SimpleQueue.m_queue <$> m_consumer_queues q),
                   closed_readers q)))
  /\ (forall (mp : MultiPassQueue M) ys,
     let q := chunk_queue mp in
     m_error_before_read q = false ->
     Forall2 (fun c y => exists popping bs ps, producers_ok bs ps /\ reachable popping bs ps y
                /\ c = queue y /\ m_activeProducers c = 0 /\ (length (pushed y) < fuel)%nat)
       (m_consumer_queues q) ys ->
     exists freed, ChunkQueueFree fuel (MultiPass mp)
         = Done (Some (Some <$> freed,
                       (destroy <$> omap (fun c => c) (m_consumers mp)) ++ closed_readers q))
       /\ concat (pushed <$> ys) ≡ₚ concat (delivered <$> ys) ++ freed).
Proof using Type.
  split.
  - intros q Hb Hall. cbn. unfold DestroyStreamingQueue.
    destruct (drain_queues_spec fuel (StopReaders q) (m_consumer_queues q) 0)
      as (q' & E & Hr); [done|done|done|].
    change (m_consumer_queues (StopReaders q)) with (m_consumer_queues q).
    change (Z.of_nat 0) with 0 in E. rewrite E, !Done_bind. cbn.
    rewrite <- (end_stopped q). unfold end_readers. by rewrite Hr.
  - intros mp ys q Hb Hall. destruct (free_queues_spec fuel _ _ Hall) as (freed & E & Hp).
    exists freed. split; [|done]. unfold ChunkQueueFree, DestroyMultiPassQueue. cbv zeta.
    rewrite (end_stopped (chunk_queue mp)).
    change (m_error_before_read (StopReaders (chunk_queue mp))) with (m_error_before_read q).
    change (m_consumer_queues (StopReaders (chunk_queue mp))) with (m_consumer_queues q).
    rewrite Hb. cbn [negb]. by rewrite E, !Done_bind.
Qed.
End teardown.

(** A streaming queue with two chunks left, and a multi-pass queue whose one
    consumer has the batch of [BatchQueue.demo_end]. *)
Definition left_over : ChunkQueue demo_client chunks :=
  mkChunkQueue None false no_error "" "SELECT 1" "" ReadTypeResultTable
    [demo_reader no_error] (mkCredentials "10.0.0.9" 3306 "db" "root" "" None) []
    [mkSimpleQueue [demo_chunk 3 1; demo_chunk 3 2] 4 0; mkSimpleQueue [] 4 0] [0].

Definition left_over_batch : MultiPassQueue demo_client :=
  mkMulti (mkChunkQueue None false no_error "r" "SELECT * FROM t" "key" ReadTypeColumnStoreTable
             [demo_reader no_error] (mkCredentials "10.0.0.9" 3306 "db" "root" "" None) []
             [queue demo_end] [])
    (Some 1) [None] "8.1.4".

Lemma ChunkQueueFree_frees_witness :
  ChunkQueueFree (H := release_build) 3 (Streaming left_over)
  = Done (Some ([Some (demo_chunk 3 1); Some (demo_chunk 3 2)], closed_readers left_over))
  /\ exists freed, ChunkQueueFree (H := debug_build) 3 (MultiPass left_over_batch)
       = Done (Some (Some <$> freed, closed_readers (chunk_queue left_over_batch)))
     /\ freed ≡ₚ [demo_chunk 3 0; demo_chunk 5 0].
Proof.
  split.
  - apply (proj1 (ChunkQueueFree_frees (H := release_build) 3) left_over); [reflexivity|].
    repeat constructor.
  - destruct (proj2 (ChunkQueueFree_frees (H := debug_build) 3) left_over_batch [demo_end])
      as (freed & E & Hp).
    + reflexivity.
    + apply Forall2_cons_2; [|constructor]. exists false, 2, [3; 5].
      split; [exact demo_ok|]. split; [apply demo_end_reachable|].
      split; [reflexivity|]. split; [by vm_compute|]. apply (bool_decide_unpack _). by vm_compute.
    + exists freed. split; [exact E|]. symmetry. exact Hp.
Defined.
